(* ===== verification/_CoqProject ===== *)
-Q . S2P
Prelude.v
GoErrors.v
GoStrings.v
GoTime.v
Sha256.v
GoNet.v
Effects.v
Egoscale.v
Kube.v
InstancesConfig.v
CloudConfig.v
Instances.v
InstancesV2.v
Zones.v
NodesProps.v
CSR.v
CSRProps.v
Client.v
ClientProps.v
Provider.v
ProviderProps.v
Startup.v
LoadBalancerSpec.v
LoadBalancerSpecProps.v
LoadBalancer.v
Interfaces.v
NodeLifecycle.v
ServiceController.v
LoadBalancerSafety.v
LoadBalancerProps.v
Requests.v
ControllerProps.v
Cluster.v
Reconcile.v
Lifecycle.v
Convergence.v
Duties.v
Process.v
Wait.v
Transport.v
Polling.v
Shutdown.v
Mock.v
Samples.v
Witnesses.v
Histories.v
Conformance.v
