(* ===== verification/Prelude.v ===== *)
(** * The Exoscale Cloud Controller Manager, modelled and verified

    The program (Go, [src/exoscale] and [src/cmd]) is the part of a Kubernetes
    control plane that talks to the Exoscale API. Kubernetes calls its
    interfaces: [Instances], [InstancesV2] and [Zones] describe the nodes of the
    cluster, [LoadBalancer] keeps the network load balancer (NLB) of every
    Service of that type in step with the annotations and ports of the Service.
    An agent approves the certificates of nodes, and a goroutine refreshes the
    API credentials from a file.

    ** How the code is modelled

    A Go function that talks to a service is a tree of calls ([prog] in
    Effects): each call carries the continuation for its reply. A returned
    error is a value ([result] in GoErrors), a nil dereference or an exit of the
    process is a [halt]. [wp p Q] says that whatever the services reply, [Q]
    holds of all the calls [p] makes and of its outcome; [triple R P p Q] does
    the same against a service whose state changes as the relation [R] allows;
    [run] executes a tree on concrete replies. Nothing is assumed of the
    replies in the first form; what the second assumes is stated as a class
    ([NLBServer] in Reconcile for a given NLB, [NLBLifecycle] in Lifecycle, which
    adds that NLBs come and go, [PatchServer] in Cluster, what a patch leaves of a
    Service), and concrete servers in Samples and Histories satisfy them.
    Loops over slices are [forM], structural on the slice; the loops that wait
    for something (of the CSR agent, of the credentials watcher and of the
    polling of operations) are functions of the finite sequence of inputs they
    have received so far. The only fuel is that
    of the duration parser of GoTime, the length of the text it consumes, and
    [parse_groups_fuel] shows that more would change nothing; the retries of a
    request are counted down from the limit in the code. Ports, counters and
    durations are integers with the wrap-around of their Go type written out.

    ** Files

    - Foundations: Prelude (lists, integers), GoErrors, GoStrings and GoTime
      (the parts of strings, strconv and time that are used), Sha256 (digests,
      HMAC and base64), GoNet ([net.IP]), Effects, Egoscale (data and calls of the API client), Kube (data
      and calls of Kubernetes, and [ccmE], the calls of a handler).
    - InstancesConfig (instances_config.go): overrides of nodes. CloudConfig
      (exoscale_config.go, loadbalancer_config.go, common.go): configuration,
      and the provider record of exoscale.go.
    - Instances, InstancesV2, Zones (instances.go, instances_v2.go, zones.go),
      one definition for each method; their properties are in NodesProps.
    - LoadBalancerSpec (loadbalancer.go): annotations and the NLB a Service asks
      for. LoadBalancer (loadbalancer.go, patcher.go): the handlers
      [GetLoadBalancer], [EnsureLoadBalancer], [UpdateLoadBalancer],
      [EnsureLoadBalancerDeleted]. They hand on the Service they modify, as the
      code modifies the object it is given; the patcher of annotations is a
      record made before the change. Properties: LoadBalancerSpecProps,
      LoadBalancerSafety and LoadBalancerProps (against arbitrary replies),
      Requests (the documented schemas of the requests, schemas.go and
      operations.go of egoscale), Reconcile (the update, against a server with
      that NLB) and Lifecycle (creation, upkeep and deletion, against a server
      with any number of them).
    - CSR and CSRProps (sks_agent_runner_node_csr_validation.go): the agent.
    - Client and ClientProps (client.go, sks.go, the client methods of
      loadbalancer.go and instances.go): the methods of the refreshable client,
      its construction and refresh, and the goroutines sharing it as a step
      relation over threads, the read-write lock and the fields.
    - Provider and ProviderProps (exoscale.go, sks_agent.go, main.go):
      construction, initialization, interface getters. Startup (main.go,
      init in exoscale.go, plugins.go of k8s.io/cloud-provider): the registry
      of providers, and how [main] comes by this one.
    - Interfaces (cloud.go of k8s.io/cloud-provider, and the getters of
      exoscale.go): what the controllers of Kubernetes see of the provider.
      ServiceController and NodeLifecycle (controllers/service and
      controllers/nodelifecycle of k8s.io/cloud-provider): the two controllers
      that act on what the provider answers, written against those interfaces.
      ControllerProps: the finalizer of a Service. Cluster: a Service at the API
      server while the controller runs, is killed and runs again on what a
      lagging informer shows it. Convergence: what a successful sync achieves.
    - Duties: what a run of a load balancer handler may touch, given the calls it
      has made. Process: the goroutines that serve the controllers, the agent and
      the watcher as the threads of one process, each with its duties.
    - Wait (api.go of egoscale): the polling with which the methods of the client
      await their operations. Polling: the same on the wire, with its polls.
    - Transport (operations.go, api.go and errors.go of egoscale, client.go of
      go-retryablehttp): the calls of the client as signed HTTP requests, their
      retries and the errors made of responses; [on_the_wire] replaces the
      requests of a goroutine by their exchanges.
    - Shutdown (exoscale.go, client.go and the agent): how the closing of the
      stop channel reaches the watcher and the agents, as steps of the process.
    - Mock (client_mock.go, mock.go of testify): the test double of the client.
      Conformance: the unit tests of the repository run on the model.
    - Samples, Witnesses and Histories: concrete objects, servers and a history
      of a Service, and every theorem that has hypotheses applied to them.

    The calls of a handler to the API ([ExoCall]) are the methods of the
    refreshable client; [through_client] replaces them by their bodies, and
    [through_client_refines] carries what is proved of handlers over to the
    goroutines that run them.

    ** What is proved

    - Services, through the controller that calls the provider: a sync that
      succeeds leaves the NLB in sync with the Service, its ID on the Service and its
      address in the status ([sync_converges]), or removes what served the Service
      before it gives up the finalizer ([cleanup_converges]); with crashes, edits
      and stale reads no more NLBs are created than there are excuses for
      ([creations_bounded]); the finalizer is there before the first call that may
      create an NLB, and goes after the last ([finalizer_guards_nlb]). A node is
      deleted from the cluster only on evidence that its instance is gone
      ([nodes_lost_only_on_evidence]).
    - NLBs, against a server: [update_converges] (the detailed update implements
      [in_sync], or the API refused a well-formed request), [ensure_converges],
      [ensure_maintains], [delete_converges], and [lifecycle_leaves_nothing], that
      deleting undoes creating; [reconciled_at_once], [update_quiescent]. In sync
      means that the services and the name are as the Service asks; it leaves out
      what the code cannot change, the description of an existing NLB
      ([description_change_lost]) and that of a service for which none is asked,
      and health check settings that are zero or empty, which a request omits and
      the API fills in ([NLBServer] says no more of them).
    - NLBs, whatever the API replies: what each handler may call
      ([update_calls_warranted], [external_nlb_untouched],
      [deleted_calls_exact], [shared_nlb_kept], [ensure_creates_at_most_once]);
      that requests conform to the schemas of the API ([requests_conform]);
      what a success means ([ensure_success_resolves], [infer_unique_pool],
      [get_load_balancer_spec]); how the Service is changed
      ([ensure_modifies_only_resolved_annotations],
      [patch_annotation_idempotent]); the NLB that is asked for
      ([build_services_distinct], [build_succeeds_iff], the bounds and round
      trips of the health check annotations).
    - Nodes: both generations of the interface agree on a node being registered
      ([generations_agree]; [generations_differ] is a case outside it) and report
      a node missing only on evidence ([missing_only_on_evidence]), which on the
      wire is a response 404 ([missing_means_404]); overrides
      ([override_precedence], [external_id_roundtrip]), labels.
    - Certificates: [approval_justified], the soundness of the approvals, and
      [legitimate_approved], which instance decides.
    - Client: in every interleaving requests use the current client, there is
      no race and no deadlock; refreshes are all or nothing; a start with unusable
      credentials succeeds without a client ([undecodable_file_panics]).
    - The process: in every interleaving each goroutine makes only the calls of
      its own job, and a load balancer method touches only NLBs that its Service
      leads it to ([separation_of_duties]); how it stops in any schedule, and which
      goroutine may not ([stop_propagates]).
    - Operations: when waiting for one ends ([wait_on_the_wire]), which response
      its success comes from ([success_on_the_wire]), and that it holds up everything
      else when the credentials change meanwhile ([awaiting_blocks]); how often a
      request is sent, and for what replies ([operation_retried],
      [creation_repeated]).
    - Provider: when the process gets one, and which ([provider_obtained]); the
      precedence of the environment over the file ([environment_overrides_file])
      and of the sources of the zone ([zone_precedence]), and what
      initialization sets up.
    - Tests: a passing test with the mock is an execution of the handler, hence an
      instance of the theorems above, and each call is answered by the first
      expectation about it that is not used up ([tested_executes]).

    ** What is not modelled

    Log messages; the length of pauses and of the intervals between polls; the
    text of formatted errors (their format, operands and wrapped cause are
    kept). The behaviour of the Exoscale and Kubernetes APIs beyond the
    hypotheses named above. YAML, JSON and strategic merge patches, regular
    expressions, PEM and X.509 decoding, URLs and the Unicode tables are
    parameters (the classes [YAML], [PatchLib], [Regexp], [X509], [Web],
    [UnicodeTables]), and so are connections and the metadata service of the
    host, whose replies are those of an arbitrary environment. The parsing of the
    command line and the start of the controllers are calls of [main]; of the
    controllers of k8s.io/cloud-provider the work queues, the filter of events,
    the delay between two attempts, Kubernetes events and metrics are left out,
    and so are the node controller (which labels and addresses nodes as
    [InstanceMetadata] says) and the route controller (the provider has no
    routes). The contexts given to requests, and the end-to-end tests, which
    drive a real cluster, are left out; client-go, and of egoscale the methods
    the provider does not call, are libraries the source only calls.
    The lock lets readers in by any policy; freedom from deadlock is shown for
    the strictest, where they wait for a waiting writer. *)
From Stdlib Require Export ZArith Lia Ascii.
From stdpp Require Export base strings pretty option gmap list.

#[global] Open Scope string_scope.
#[global] Open Scope list_scope.

(** * Hint databases *)

(** [ccm] collects the component lemmas that close the routine side conditions
    of the properties. *)
Create HintDb ccm.

(** * Tactics *)

(** Case analysis on every [match]/[if] left in the goal, discharging the
    inconsistent branches. *)
Ltac cases :=
  repeat first [ progress simplify_eq/= | case_match ]; try done.

(** Break conjunctions, existentials and equations in the context. *)
Ltac invert_all :=
  repeat match goal with
  | H : ∃ _, _ |- _ => destruct H
  | H : _ ∧ _ |- _ => destruct H
  | _ => progress simplify_eq/=
  end.

(** * Generic lemmas on lists *)
Section lists.
Context {A : Type}.
Implicit Types (l : list A).

(** The last element satisfying [f], the value of a Go loop
    [for _, x := range l { if f x { r = x } }]. *)
Definition find_last (f : A → bool) l : option A :=
  foldl (λ r x, if f x then Some x else r) None l.

Lemma find_last_app f l x :
  find_last f (l ++ [x]) = if f x then Some x else find_last f l.
Proof. unfold find_last. by rewrite foldl_app. Qed.

Lemma find_last_Some f l x : find_last f l = Some x → x ∈ l ∧ f x = true.
Proof.
  induction l as [|y l IH] using rev_ind; [done|].
  rewrite find_last_app. rewrite elem_of_app, list_elem_of_singleton.
  destruct (f y) eqn:Hy; naive_solver.
Qed.

Lemma find_last_None f l : find_last f l = None ↔ Forall (λ x, f x = false) l.
Proof.
  induction l as [|y l IH] using rev_ind; [by split; [constructor|]|].
  rewrite find_last_app, Forall_app, Forall_singleton.
  destruct (f y); naive_solver.
Qed.

Lemma elem_of_snoc l x y : y ∈ l ++ [x] ↔ y ∈ l ∨ y = x.
Proof. by rewrite elem_of_app, list_elem_of_singleton. Qed.

Lemma elem_of_fmap_snoc {K} (key : A → K) l x k :
  k ∈ key <$> l ++ [x] ↔ k ∈ key <$> l ∨ k = key x.
Proof. rewrite fmap_app, elem_of_app. csimpl. by rewrite list_elem_of_singleton. Qed.

Lemma NoDup_fmap_filter {K} (key : A → K) (P : A → Prop) `{∀ x, Decision (P x)} l :
  NoDup (key <$> l) → NoDup (key <$> filter P l).
Proof. intros Hl. eapply sublist_NoDup; [done|]. apply fmap_sublist, sublist_filter. Qed.

(** Filters that agree on the elements of the list. *)
Lemma filter_ext_in (P Q : A → Prop) `{∀ x, Decision (P x), ∀ x, Decision (Q x)} l :
  (∀ x, x ∈ l → P x ↔ Q x) → filter P l = filter Q l.
Proof.
  induction l as [|x l IH]; intros HPQ; [done|]. rewrite !filter_cons.
  rewrite IH by (intros; apply HPQ; by right).
  pose proof (HPQ x ltac:(by left)). repeat case_decide; tauto.
Qed.

Lemma filter_all (P : A → Prop) `{∀ x, Decision (P x)} l : (∀ x, x ∈ l → P x) → filter P l = l.
Proof.
  induction l as [|x l IH]; intros HP; [done|].
  rewrite filter_cons, decide_True, IH; [done| |apply HP; by left].
  intros y Hy. apply HP. by right.
Qed.

(** At most one element of a list without duplicate keys has a given key. *)
Lemma length_filter_key {K} (f : A → K) (P : A → Prop) `{∀ x, Decision (P x)} l :
  NoDup (f <$> l) → (∀ x y, x ∈ l → y ∈ l → P x → P y → f x = f y) →
  (length (filter P l) ≤ 1)%nat.
Proof.
  intros Hnd HP. pose proof (NoDup_fmap_filter f P l Hnd) as Hf.
  destruct (filter P l) as [|x [|y k]] eqn:Hl; [simpl; lia..|].
  assert (∀ z, z ∈ x :: y :: k → z ∈ l ∧ P z) as Hin.
  { intros z Hz. rewrite <-Hl in Hz. apply list_elem_of_filter in Hz. tauto. }
  exfalso. csimpl in Hf. apply NoDup_cons in Hf as [Hx _]. apply Hx.
  destruct (Hin x ltac:(by left)), (Hin y ltac:(right; by left)).
  rewrite (HP x y) by done. by left.
Qed.

(** Filtering out one key of a list without duplicate keys. *)
Lemma length_filter_fresh {K} `{EqDecision K} (f : A → K) l c :
  NoDup (f <$> l) → c ∈ l → length (filter (λ x, f x ≠ f c) l) = (length l - 1)%nat.
Proof.
  intros Hnd (l1 & l2 & ->)%list_elem_of_split.
  rewrite fmap_app, fmap_cons, NoDup_app, NoDup_cons in Hnd.
  destruct Hnd as (_ & Hdis & Hc & _).
  rewrite filter_app, filter_cons_False by (by intros []).
  rewrite !filter_all, !length_app; [simpl; lia| |].
  - intros x Hx Heq. apply Hc. rewrite <-Heq. by apply list_elem_of_fmap_2.
  - intros x Hx Heq. apply (Hdis (f x)); [by apply list_elem_of_fmap_2|]. rewrite Heq. by left.
Qed.

(** Two elements of a list without duplicate keys that have the same key
    are the same element. *)
Lemma NoDup_fmap_inj_in {K} (key : A → K) l x y :
  NoDup (key <$> l) → x ∈ l → y ∈ l → key x = key y → x = y.
Proof.
  induction l as [|z l IH]; [by intros _ ?%elem_of_nil|].
  rewrite fmap_cons, NoDup_cons. intros [Hz Hl] Hx Hy Hk.
  apply elem_of_cons in Hx as [->|Hx], Hy as [->|Hy]; [done| | |by apply IH].
  - destruct Hz. rewrite Hk. by apply list_elem_of_fmap_2.
  - destruct Hz. rewrite <-Hk. by apply list_elem_of_fmap_2.
Qed.

Lemma NoDup_filter_singleton {K} `{EqDecision K} (key : A → K) l x :
  NoDup (key <$> l) → x ∈ l → filter (λ y, key y = key x) l = [x].
Proof.
  induction l as [|z l IH]; [by intros _ ?%elem_of_nil|].
  rewrite fmap_cons, NoDup_cons. intros [Hz Hl] Hx.
  rewrite filter_cons. apply elem_of_cons in Hx as [->|Hx].
  - rewrite decide_True by done. f_equal.
    clear IH Hl. induction l as [|y l IH]; [done|]. rewrite filter_cons.
    rewrite fmap_cons, not_elem_of_cons in Hz. rewrite decide_False by naive_solver.
    apply IH. naive_solver.
  - rewrite decide_False; [by apply IH|]. intros Hk. destruct Hz. rewrite Hk.
    by apply list_elem_of_fmap_2.
Qed.
End lists.

(** A search loop that compares each element with [x]. *)
Lemma existsb_elem {A} `{EqDecision A} (x : A) l :
  existsb (λ y, bool_decide (x = y)) l = true ↔ x ∈ l.
Proof.
  rewrite existsb_exists, list_elem_of_In. split.
  - intros (y & Hy & Heq%bool_decide_eq_true). by subst.
  - intros Hx. exists x. split; [done|by apply bool_decide_eq_true].
Qed.

(** * Decimal numerals *)

Lemma pretty_N_go_length k x s :
  (x < 10 ^ N.of_nat k)%N → (String.length (pretty_N_go x s) ≤ k + String.length s)%nat.
Proof.
  revert x s. induction k as [|k IH]; intros x s Hx.
  - assert (x = 0)%N as -> by (simpl in Hx; lia). by rewrite pretty_N_go_0.
  - assert (x = 0 ∨ 0 < x)%N as [->|Hpos] by lia; [rewrite pretty_N_go_0; lia|].
    rewrite pretty_N_go_step by done. etrans; [apply IH|simpl; lia].
    rewrite Nat2N.inj_succ, N.pow_succ_r' in Hx. by apply N.Div0.div_lt_upper_bound.
Qed.

(** A positive number below [10 ^ k] has at most [k] digits. *)
Lemma pretty_Z_length k z :
  (0 < z < 10 ^ Z.of_nat k)%Z → (String.length (pretty z) ≤ k)%nat.
Proof.
  intros [Hz Hk]. destruct z as [|x|]; [lia| |lia].
  change (pretty (Z.pos x)) with (pretty_N_go (N.pos x) "").
  etrans; [apply (pretty_N_go_length k)|simpl; lia].
  apply N2Z.inj_lt. rewrite N2Z.inj_pow, nat_N_Z. exact Hk.
Qed.

(** * Machine integers *)

(** [uint16(x)], the conversion of a Go integer to 16 unsigned bits. *)
Definition uint16 (x : Z) : Z := (x `mod` 2 ^ 16)%Z.

Lemma uint16_range x : (0 ≤ uint16 x < 65536)%Z.
Proof. unfold uint16. apply Z.mod_pos_bound. lia. Qed.

Lemma uint16_id x : (0 ≤ x < 65536)%Z → uint16 x = x.
Proof. intros. unfold uint16. by apply Z.mod_small. Qed.

#[export] Hint Resolve uint16_range : ccm.
