(* ===== verification/GoErrors.v ===== *)
(** Go errors: the [error] values the provider compares, wraps and returns, and
    the [(value, error)] results of its functions. Formatted errors keep their
    format string and operands; the code never inspects the rendered text. *)
From S2P Require Import Prelude.

(** The package-level error variables that are compared by identity:
    [errLoadBalancerNotFound] and [errLoadBalancerIDAnnotationNotFound] of
    loadbalancer.go, [v3.ErrNotFound] and [v3.ErrConflict] of egoscale,
    [NotImplemented], [ImplementedElsewhere] and [InstanceNotFound] of
    k8s.io/cloud-provider; and the statuses of the API server that
    [apierrors.IsNotFound] recognises. *)
Inductive sentinel :=
| errLoadBalancerNotFound
| errLoadBalancerIDAnnotationNotFound
| ErrNotFound
| ErrConflict
| NotImplemented
| ImplementedElsewhere
| InstanceNotFound
| StatusNotFound.

#[export] Instance sentinel_eq_dec : EqDecision sentinel.
Proof. solve_decision. Defined.

(** An error value. [ErrorNew] is a fresh [errors.New] or [fmt.Errorf] without
    an error operand, [ErrorfS] formats its cause with [%s]/[%v] (the cause is
    not reachable by [errors.Is]) and [ErrorfW] wraps it with [%w]. *)
Inductive error :=
| Sentinel (s : sentinel)
| ErrorNew (format : string) (args : list string)
| ErrorfS (format : string) (args : list string) (cause : error)
| ErrorfW (format : string) (args : list string) (cause : error).

#[export] Instance error_eq_dec : EqDecision error.
Proof. solve_decision. Defined.

(** [errors.Is(err, target)] for a sentinel target. *)
Fixpoint errors_Is (err : error) (target : sentinel) : bool :=
  match err with
  | Sentinel s => bool_decide (s = target)
  | ErrorfW _ _ cause => errors_Is cause target
  | ErrorNew _ _ | ErrorfS _ _ _ => false
  end.

(** [err == target]. *)
Definition is_sentinel (err : error) (target : sentinel) : bool :=
  bool_decide (err = Sentinel target).

Lemma is_sentinel_true err s : is_sentinel err s = true ↔ err = Sentinel s.
Proof. unfold is_sentinel. by rewrite bool_decide_eq_true. Qed.

Lemma errors_Is_sentinel s s' : errors_Is (Sentinel s) s' = true ↔ s = s'.
Proof. simpl. by rewrite bool_decide_eq_true. Qed.

(** A Go result [(value, error)]: the value of the calls that return a nil
    error, or the error. *)
Inductive result (A : Type) :=
| Ok (a : A)
| Err (e : error).
Arguments Ok {A} a.
Arguments Err {A} e.

#[export] Instance result_eq_dec {A} `{EqDecision A} : EqDecision (result A).
Proof. solve_decision. Defined.

Definition is_ok {A} (r : result A) : bool :=
  match r with Ok _ => true | Err _ => false end.

#[export] Instance result_fmap : FMap result := λ A B f r,
  match r with Ok a => Ok (f a) | Err e => Err e end.

(** [if err != nil { return ..., f(err) }]. *)
Definition map_err {A} (f : error → error) (r : result A) : result A :=
  match r with Ok a => Ok a | Err e => Err (f e) end.

(** Results compose by stopping at the first error. *)
#[export] Instance result_ret : MRet result := @Ok.
#[export] Instance result_bind : MBind result := λ A B f r,
  match r with Ok a => f a | Err e => Err e end.

Lemma result_bind_Ok {A B} (f : A → result B) r b :
  r ≫= f = Ok b ↔ ∃ a, r = Ok a ∧ f a = Ok b.
Proof. destruct r; naive_solver. Qed.

(** A loop that builds a slice succeeds when every iteration does, with the
    results in order. *)
Lemma mapM_Ok {A B} (f : A → result B) l k :
  mapM f l = Ok k ↔ Forall2 (λ x y, f x = Ok y) l k.
Proof.
  revert k. induction l as [|x l IH]; intros k; simpl.
  - split; [by intros [= <-]|by inversion 1].
  - split.
    + intros (y & Hy & (k' & Hk & [= <-])%result_bind_Ok)%result_bind_Ok.
      constructor; [done|by apply IH].
    + inversion 1 as [|? y ? k' Hy Hk]; subst. apply result_bind_Ok. exists y. split; [done|].
      apply result_bind_Ok. exists k'. split; [by apply IH|done].
Qed.
