(* ===== verification/GoStrings.v ===== *)
(** The functions of Go's [strings], [strconv] and [fmt] the provider calls, on
    strings as byte sequences. Case mapping is computed on ASCII; for text with
    a byte of 0x80 or above the Unicode case tables are the parameter
    [UnicodeTables]. *)
From S2P Require Import Prelude GoErrors.
#[local] Open Scope Z_scope.

(** A byte of a Go string as an integer. *)
Definition byte (c : ascii) : Z := Z.of_N (Ascii.N_of_ascii c).

Definition in_range (lo hi : Z) (c : ascii) : bool := (lo <=? byte c) && (byte c <=? hi).
Definition is_digit : ascii → bool := in_range 48 57.
Definition is_upper : ascii → bool := in_range 65 90.
Definition is_lower : ascii → bool := in_range 97 122.
(** [utf8.RuneSelf] *)
Definition is_ascii (c : ascii) : bool := byte c <? 128.

Fixpoint all_bytes (f : ascii → bool) (s : string) : bool :=
  match s with
  | "" => true
  | String c s => f c && all_bytes f s
  end.

Fixpoint map_bytes (f : ascii → ascii) (s : string) : string :=
  match s with
  | "" => ""
  | String c s => String (f c) (map_bytes f s)
  end.

Fixpoint filter_bytes (f : ascii → bool) (s : string) : string :=
  match s with
  | "" => ""
  | String c s => if f c then String c (filter_bytes f s) else filter_bytes f s
  end.

Definition lower_byte (c : ascii) : ascii :=
  if is_upper c then Ascii.ascii_of_N (Ascii.N_of_ascii c + 32) else c.

(** ** Case mapping *)

Class UnicodeTables := {
  (** [strings.Map(unicode.ToLower, s)] on text with non-ASCII bytes *)
  unicode_ToLower : string → string;
  (** the [hasUnicode] path of [strings.EqualFold] *)
  unicode_EqualFold : string → string → bool;
}.

Section case.
Context `{!UnicodeTables}.

Definition ToLower (s : string) : string :=
  if all_bytes is_ascii s then map_bytes lower_byte s else unicode_ToLower s.

Fixpoint EqualFold (s t : string) : bool :=
  match s, t with
  | String a s', String b t' =>
      if negb (is_ascii a) || negb (is_ascii b) then unicode_EqualFold s t
      else if bool_decide (lower_byte a = lower_byte b) then EqualFold s' t'
      else false
  | "", "" => true
  | _, _ => false
  end.

Lemma EqualFold_ascii s t :
  all_bytes is_ascii s = true → all_bytes is_ascii t = true →
  EqualFold s t = bool_decide (ToLower s = ToLower t).
Proof.
  intros Hs Ht. unfold ToLower. rewrite Hs, Ht.
  revert t Hs Ht. induction s as [|a s IH]; intros [|b t]; simpl; [done..|].
  intros [Ha Hs]%andb_true_iff [Hb Ht]%andb_true_iff. rewrite Ha, Hb. simpl.
  rewrite IH by done. case_bool_decide as Hab.
  - case_bool_decide; [by rewrite bool_decide_eq_true_2; [|f_equal]|].
    rewrite bool_decide_eq_false_2; [done|]. congruence.
  - rewrite bool_decide_eq_false_2; [done|]. congruence.
Qed.

Lemma EqualFold_refl_ascii s : all_bytes is_ascii s = true → EqualFold s s = true.
Proof. intros. rewrite EqualFold_ascii by done. by apply bool_decide_eq_true_2. Qed.
End case.

(** ** Appending *)

Lemma string_app_cons c s t : String c s +:+ t = String c (s +:+ t).
Proof. done. Qed.

Lemma string_app_assoc s t u : (s +:+ t) +:+ u = s +:+ (t +:+ u).
Proof. induction s as [|c s IH]; [done|]. by rewrite !string_app_cons, IH. Qed.

Lemma string_app_nil_r s : s +:+ "" = s.
Proof. induction s as [|c s IH]; [done|]. by rewrite string_app_cons, IH. Qed.

(** ** Prefixes, suffixes and separators *)

Definition HasPrefix (s p : string) : bool := String.prefix p s.

(** [s] without its first [n] bytes. *)
Fixpoint drop_bytes (n : nat) (s : string) : string :=
  match n, s with
  | O, _ => s
  | S n, "" => ""
  | S n, String _ s => drop_bytes n s
  end.

Definition HasSuffix (s x : string) : bool :=
  bool_decide (String.length x ≤ String.length s)%nat &&
  bool_decide (drop_bytes (String.length s - String.length x) s = x).

Definition TrimPrefix (s p : string) : string :=
  if HasPrefix s p then drop_bytes (String.length p) s else s.

Fixpoint trim_left (c : ascii) (s : string) : string :=
  match s with
  | String a s' => if bool_decide (a = c) then trim_left c s' else s
  | "" => ""
  end.

Fixpoint trim_right (c : ascii) (s : string) : string :=
  match s with
  | "" => ""
  | String a s' =>
      match trim_right c s' with
      | "" => if bool_decide (a = c) then "" else String a ""
      | r => String a r
      end
  end.

(** [strings.Trim(s, cutset)] for a one-byte cutset. *)
Definition Trim (s : string) (c : ascii) : string := trim_right c (trim_left c s).

(** [strings.Split(s, sep)] for a one-byte separator. *)
Fixpoint Split (s : string) (sep : ascii) : list string :=
  match s with
  | "" => [""]
  | String c s' =>
      if bool_decide (c = sep) then "" :: Split s' sep
      else match Split s' sep with
           | p :: ps => String c p :: ps
           | [] => [String c ""]
           end
  end.

Lemma drop_bytes_app p s : drop_bytes (String.length p) (p +:+ s) = s.
Proof. induction p; simpl; [by destruct s|done]. Qed.

Lemma prefix_app p s : String.prefix p (p +:+ s) = true.
Proof.
  induction p as [|c p IH]; [by destruct s|]. simpl.
  destruct (Ascii.ascii_dec c c); [apply IH|congruence].
Qed.

Lemma HasPrefix_spec s p : HasPrefix s p = true ↔ ∃ r, s = p +:+ r.
Proof.
  unfold HasPrefix. split; [|by intros [r ->]; apply prefix_app].
  revert s. induction p as [|c p IH]; intros s; simpl; [eauto|].
  destruct s as [|d s]; [done|]. simpl. destruct (Ascii.ascii_dec c d) as [->|]; [|done].
  intros [r ->]%IH. by exists r.
Qed.

Lemma TrimPrefix_app p s : TrimPrefix (p +:+ s) p = s.
Proof. unfold TrimPrefix, HasPrefix. rewrite prefix_app. apply drop_bytes_app. Qed.

Lemma TrimPrefix_spec s p :
  (∃ r, s = p +:+ r ∧ TrimPrefix s p = r) ∨ (HasPrefix s p = false ∧ TrimPrefix s p = s).
Proof.
  destruct (HasPrefix s p) eqn:Hp.
  - apply HasPrefix_spec in Hp as [r ->]. left. exists r. by rewrite TrimPrefix_app.
  - right. unfold TrimPrefix. by rewrite Hp.
Qed.

Lemma Split_nonempty s sep : Split s sep ≠ [].
Proof. destruct s as [|c s]; simpl; [done|]. cases. Qed.

Lemma all_bytes_app f s t : all_bytes f (s +:+ t) = all_bytes f s && all_bytes f t.
Proof.
  induction s as [|c s IH]; [done|]. rewrite string_app_cons. simpl.
  by rewrite IH, andb_assoc.
Qed.

Lemma all_bytes_mono (f g : ascii → bool) s :
  (∀ c, f c = true → g c = true) → all_bytes f s = true → all_bytes g s = true.
Proof.
  intros Hfg. induction s as [|c s IH]; simpl; [done|].
  rewrite !andb_true_iff. naive_solver.
Qed.

Lemma filter_bytes_id f s : all_bytes f s = true → filter_bytes f s = s.
Proof.
  induction s as [|c s IH]; simpl; [done|].
  intros [-> Hs]%andb_true_iff. by rewrite IH.
Qed.

(** ** Decimal numbers *)

Definition max_uint64 : Z := 2 ^ 64 - 1.
Definition max_int64 : Z := 2 ^ 63 - 1.
Definition min_int64 : Z := - 2 ^ 63.

Definition ErrSyntax : error := ErrorNew "invalid syntax" [].
Definition ErrRange : error := ErrorNew "value out of range" [].

(** The digit loop of [strconv.ParseUint], which stops at the first digit that
    overflows 64 bits. *)
Fixpoint parse_uint (n : Z) (s : string) : result Z :=
  match s with
  | "" => Ok n
  | String c s =>
      if is_digit c then
        let n' := n * 10 + (byte c - 48) in
        if max_uint64 <? n' then Err ErrRange else parse_uint n' s
      else Err ErrSyntax
  end.

(** [strconv.Atoi] on a 64-bit platform. *)
Definition Atoi (s : string) : result Z :=
  let '(neg, digits) :=
    match s with
    | String "-" r => (true, r)
    | String "+" r => (false, r)
    | _ => (false, s)
    end in
  match digits with
  | "" => Err ErrSyntax
  | _ =>
      un ← parse_uint 0 digits;
      if neg then (if un <=? 2 ^ 63 then Ok (- un) else Err ErrRange)
      else (if un <=? max_int64 then Ok un else Err ErrRange)
  end.

Lemma pretty_N_char_byte x : (x < 10)%N → byte (pretty_N_char x) = 48 + Z.of_N x.
Proof.
  intros. assert (x = 0 ∨ x = 1 ∨ x = 2 ∨ x = 3 ∨ x = 4 ∨ x = 5 ∨ x = 6 ∨ x = 7
    ∨ x = 8 ∨ x = 9)%N by lia. by destruct_or!; subst.
Qed.

Lemma pretty_N_char_digit x : (x < 10)%N → is_digit (pretty_N_char x) = true.
Proof.
  intros Hx. unfold is_digit, in_range. rewrite pretty_N_char_byte by done.
  rewrite andb_true_iff, !Z.leb_le. lia.
Qed.

Lemma pretty_N_go_digits x s :
  all_bytes is_digit s = true → all_bytes is_digit (pretty_N_go x s) = true.
Proof.
  revert s. induction (N.lt_wf_0 x) as [x _ IH]; intros s Hs.
  destruct (decide (x = 0)%N) as [->|]; [done|].
  rewrite pretty_N_go_step by lia. apply IH; [by apply N.div_lt; lia|].
  simpl. rewrite pretty_N_char_digit by (apply N.mod_lt; lia). done.
Qed.

Lemma pretty_N_digits (x : N) : all_bytes is_digit (pretty x) = true.
Proof.
  unfold pretty, pretty_N. case_decide; [done|]. by apply pretty_N_go_digits.
Qed.

Lemma parse_uint_pretty_go x s :
  Z.of_N x ≤ max_uint64 → parse_uint 0 (pretty_N_go x s) = parse_uint (Z.of_N x) s.
Proof.
  revert s. induction (N.lt_wf_0 x) as [x _ IH]; intros s Hx.
  destruct (decide (x = 0)%N) as [->|]; [done|].
  assert (x `mod` 10 < 10)%N as Hr by (apply N.mod_lt; lia).
  pose proof (N.div_mod x 10 ltac:(lia)) as Hdm.
  assert (x `div` 10 < x)%N as Hq by (apply N.div_lt; lia).
  rewrite pretty_N_go_step by lia.
  generalize dependent (x `mod` 10)%N. generalize dependent (x `div` 10)%N.
  intros q Hq r Hr Hdm. rewrite IH by lia.
  simpl. rewrite pretty_N_char_digit, pretty_N_char_byte by done.
  assert (Z.of_N q * 10 + (48 + Z.of_N r - 48) = Z.of_N x) as -> by lia.
  by rewrite (proj2 (Z.ltb_ge _ _) Hx).
Qed.

Lemma parse_uint_pretty (x : N) :
  Z.of_N x ≤ max_uint64 → parse_uint 0 (pretty x) = Ok (Z.of_N x).
Proof.
  intros. unfold pretty, pretty_N. case_decide; [by subst|].
  by rewrite parse_uint_pretty_go.
Qed.

Lemma pretty_N_go_nonempty x s : s ≠ "" → pretty_N_go x s ≠ "".
Proof.
  revert s. induction (N.lt_wf_0 x) as [x _ IH]; intros s Hs.
  destruct (decide (x = 0)%N) as [->|]; [done|].
  rewrite pretty_N_go_step by lia. apply IH; [by apply N.div_lt; lia|done].
Qed.

Lemma pretty_N_cons (x : N) : ∃ c s, pretty x = String c s ∧ is_digit c = true.
Proof.
  pose proof (pretty_N_digits x) as Hd. destruct (pretty x) as [|c s] eqn:Hx.
  - exfalso. revert Hx. unfold pretty, pretty_N. case_decide; [done|].
    rewrite pretty_N_go_step by lia. by apply pretty_N_go_nonempty.
  - simpl in Hd. apply andb_true_iff in Hd as [??]. eauto.
Qed.

(** A string of digits is read without its sign being mistaken. *)
Lemma Atoi_digits c s :
  is_digit c = true →
  Atoi (String c s) = (un ← parse_uint 0 (String c s);
                       if un <=? max_int64 then Ok un else Err ErrRange).
Proof.
  intros Hc. unfold Atoi. by destruct c as [[] [] [] [] [] [] [] []].
Qed.

(** [Atoi] reads back the decimal rendering of every 64-bit integer. *)
Lemma Atoi_pretty (z : Z) : min_int64 ≤ z ≤ max_int64 → Atoi (pretty z) = Ok z.
Proof.
  unfold max_int64, min_int64. intros Hz.
  assert (∀ x : N, Z.of_N x <= 2 ^ 63 →
    parse_uint 0 (pretty x) = Ok (Z.of_N x)) as Hp.
  { intros. apply parse_uint_pretty. unfold max_uint64. lia. }
  destruct z as [|p|p]; [done|..].
  - change (Atoi (pretty (Npos p)) = Ok (Z.pos p)). specialize (Hp (Npos p)). destruct (pretty_N_cons (Npos p)) as (c & s & Hs & Hc).
    rewrite Hs in Hp |- *. rewrite Atoi_digits, Hp by (done || lia). simpl.
    by rewrite (proj2 (Z.leb_le _ _)) by (unfold max_int64; lia).
  - change (Atoi (String "-" (pretty (Npos p))) = Ok (Z.neg p)).
    specialize (Hp (Npos p)). destruct (pretty_N_cons (Npos p)) as (c & s & Hs & Hc).
    unfold Atoi. rewrite Hs in Hp |- *. rewrite Hp by lia. simpl.
    by rewrite (proj2 (Z.leb_le _ _)) by lia.
Qed.
