(* ===== verification/GoTime.v ===== *)
(** [time.ParseDuration] and [int64(d.Seconds())] of Go's standard library, as
    used on the health check annotations. Durations are int64 nanoseconds, sums
    are uint64 with their wrap-around, and the two floating-point steps are
    IEEE binary64 operations of the standard library's [SpecFloat]. *)
From S2P Require Import Prelude GoErrors GoStrings.
From Stdlib Require Import SpecFloat.
#[local] Open Scope Z_scope.

(** ** binary64 *)

Definition float64 (n : Z) : spec_float := binary_normalize 53 1024 n 0 false.
Definition float_mul : spec_float → spec_float → spec_float := SFmul 53 1024.
Definition float_div : spec_float → spec_float → spec_float := SFdiv 53 1024.
Definition float_add : spec_float → spec_float → spec_float := SFadd 53 1024.

(** Conversion of an in-range float to an integer: truncation toward zero. *)
Definition float_trunc (f : spec_float) : Z :=
  match f with
  | S754_finite s m e =>
      let a := if 0 <=? e then Z.pos m * 2 ^ e else Z.shiftr (Z.pos m) (- e) in
      if s then - a else a
  | _ => 0
  end.

(** ** [time.Duration] *)

Definition Second : Z := 1000000000.

(** [int64(d.Seconds())]. *)
Definition Seconds (d : Z) : Z :=
  float_trunc (float_add (float64 (Z.quot d Second))
                         (float_div (float64 (Z.rem d Second)) (float64 Second))).

Definition unitMap (u : string) : option Z :=
  match u with
  | "ns" => Some 1
  | "us" | "µs" | "μs" => Some 1000
  | "ms" => Some 1000000
  | "s" => Some Second
  | "m" => Some (60 * Second)
  | "h" => Some (3600 * Second)
  | _ => None
  end.

(** [leadingInt]: the digits at the front of [s]; [None] on overflow of 2^63. *)
Fixpoint leadingInt (x : Z) (s : string) : option (Z * string) :=
  match s with
  | String c r =>
      if is_digit c then
        if 2 ^ 63 / 10 <? x then None
        else let x' := x * 10 + (byte c - 48) in
             if 2 ^ 63 <? x' then None else leadingInt x' r
      else Some (x, s)
  | "" => Some (x, s)
  end.

(** [leadingFraction]: digits that no longer fit are skipped. *)
Fixpoint leadingFraction (x : Z) (scale : spec_float) (overflow : bool) (s : string) :
    Z * spec_float * string :=
  match s with
  | String c r =>
      if is_digit c then
        if overflow then leadingFraction x scale overflow r
        else if max_int64 / 10 <? x then leadingFraction x scale true r
        else let y := x * 10 + (byte c - 48) in
             if 2 ^ 63 <? y then leadingFraction x scale true r
             else leadingFraction y (float_mul scale (float64 10)) false r
      else (x, scale, s)
  | "" => (x, scale, s)
  end.

(** The unit: everything up to the next digit or period. *)
Fixpoint take_unit (s : string) : string * string :=
  match s with
  | String c r =>
      if bool_decide (c = "."%char) || is_digit c then ("", s)
      else let '(u, rest) := take_unit r in (String c u, rest)
  | "" => ("", "")
  end.

Definition invalid_duration : error := ErrorNew "time: invalid duration" [].

(** The optional period and digits: fraction, scale, rest, and whether a digit was read. *)
Definition take_fraction (s : string) : Z * spec_float * string * bool :=
  match s with
  | String "." r =>
      let '(f, scale, rest) := leadingFraction 0 (float64 1) false r in
      (f, scale, rest, negb (String.length r =? String.length rest)%nat)
  | _ => (0, float64 1, s, false)
  end.

(** One group of digits, optional fraction and unit: its value in nanoseconds and the rest. *)
Definition parse_group (s : string) : result (Z * string) :=
  match s with
  | "" => Err invalid_duration
  | String c _ =>
      if negb (bool_decide (c = "."%char) || is_digit c) then Err invalid_duration
      else
        match leadingInt 0 s with
        | None => Err invalid_duration
        | Some (v, s1) =>
            let pre := negb (String.length s =? String.length s1)%nat in
            let '(f, scale, s2, post) := take_fraction s1 in
            if negb pre && negb post then Err invalid_duration
            else
              let '(u, s3) := take_unit s2 in
              if bool_decide (u = "") then Err (ErrorNew "time: missing unit in duration" [])
              else
                match unitMap u with
                | None => Err (ErrorNew "time: unknown unit in duration" [])
                | Some unit =>
                    if 2 ^ 63 / unit <? v then Err invalid_duration
                    else
                      let v := v * unit in
                      if 0 <? f then
                        let v := v + float_trunc (float_mul (float64 f)
                                                    (float_div (float64 unit) scale)) in
                        if 2 ^ 63 <? v then Err invalid_duration else Ok (v, s3)
                      else Ok (v, s3)
                end
        end
  end.

#[global] Arguments parse_group : simpl never.

(** The loop over the groups, with the 64-bit sum [d]. Each group consumes at
    least its unit, so the length of [s] is fuel enough ([parse_groups_fuel]). *)
Fixpoint parse_groups (fuel : nat) (d : Z) (s : string) : result Z :=
  match s, fuel with
  | "", _ => Ok d
  | _, O => Err invalid_duration
  | _, S fuel =>
      '(v, rest) ← parse_group s;
      let d' := (d + v) `mod` 2 ^ 64 in
      if 2 ^ 63 <? d' then Err invalid_duration else parse_groups fuel d' rest
  end.

Definition ParseDuration (s : string) : result Z :=
  let '(neg, s) :=
    match s with
    | String "-" r => (true, r)
    | String "+" r => (false, r)
    | _ => (false, s)
    end in
  if bool_decide (s = "0") then Ok 0
  else if bool_decide (s = "") then Err invalid_duration
  else
    d ← parse_groups (String.length s) 0 s;
    if neg then Ok (- d)
    else if max_int64 <? d then Err invalid_duration else Ok d.

(** ** Fuel *)

Lemma leadingInt_length x s v r :
  leadingInt x s = Some (v, r) → (String.length r ≤ String.length s)%nat.
Proof.
  revert x. induction s as [|c s IH]; intros x; simpl; [by intros [= <- <-]|].
  repeat case_match; try done; [intros ?%IH; lia|by intros [= <- <-]].
Qed.

Lemma leadingFraction_length x sc o s f sc' r :
  leadingFraction x sc o s = (f, sc', r) → (String.length r ≤ String.length s)%nat.
Proof.
  revert x sc o. induction s as [|c s IH]; intros x sc o; simpl; [by intros [= <- <- <-]|].
  repeat case_match; try (intros ?%IH; lia). by intros [= <- <- <-].
Qed.

Lemma take_fraction_length s f sc r post :
  take_fraction s = (f, sc, r, post) → (String.length r ≤ String.length s)%nat.
Proof.
  unfold take_fraction. destruct s as [|c s]; [by intros [= <- <- <- <-]|].
  destruct (decide (c = "."%char)) as [->|Hc].
  - destruct (leadingFraction _ _ _ _) as [[f' sc'] r'] eqn:Hl.
    apply leadingFraction_length in Hl. intros [= <- <- <- <-]. simpl. lia.
  - destruct c as [[] [] [] [] [] [] [] []]; try (by intros [= <- <- <- <-]). done.
Qed.

Lemma take_unit_length s u r :
  take_unit s = (u, r) → String.length s = (String.length u + String.length r)%nat.
Proof.
  revert u r. induction s as [|c s IH]; intros u r; simpl; [by intros [= <- <-]|].
  case_match; [by intros [= <- <-]|]. destruct (take_unit s) as [u' r'].
  intros [= <- <-]. simpl. by rewrite (IH _ _ eq_refl).
Qed.

Lemma parse_group_length s v r :
  parse_group s = Ok (v, r) → (String.length r < String.length s)%nat.
Proof.
  unfold parse_group. destruct s as [|c s]; [done|].
  case_match; [done|]. destruct (leadingInt _ _) as [[v1 s1]|] eqn:H1; [|done].
  destruct (take_fraction s1) as [[[f sc] s2] post] eqn:H2.
  case_match; [done|]. destruct (take_unit s2) as [u s3] eqn:H3.
  clear H. destruct (bool_decide_reflect (u = "")) as [|Hu]; [done|].
  apply leadingInt_length in H1. apply take_fraction_length in H2.
  apply take_unit_length in H3. destruct u; [done|]. simpl in H3.
  repeat case_match; intros; simplify_eq; lia.
Qed.

(** More fuel than the length of the input changes nothing. *)
Lemma parse_groups_fuel fuel d s :
  (String.length s ≤ fuel)%nat → parse_groups fuel d s = parse_groups (String.length s) d s.
Proof.
  remember (String.length s) as n eqn:Hn. revert fuel d s Hn.
  induction (lt_wf n) as [n _ IH]; intros fuel d s -> Hf.
  destruct s as [|c s]; [by destruct fuel|].
  destruct fuel as [|fuel]; [simpl in Hf; lia|]. simpl in *.
  destruct (parse_group (String c s)) as [[v r]|e] eqn:Hg; [|done]. simpl.
  apply parse_group_length in Hg. simpl in Hg.
  destruct (2 ^ 63 <? (d + v) `mod` 2 ^ 64); [done|].
  assert (∀ f, (String.length r ≤ f)%nat → parse_groups f ((d + v) `mod` 2 ^ 64) r
    = parse_groups (String.length r) ((d + v) `mod` 2 ^ 64) r) as Hr.
  { intros f Hf'. apply IH; [lia|done..]. }
  by rewrite (Hr fuel), (Hr (String.length s)) by lia.
Qed.

(** ** Whole seconds *)

Lemma leadingInt_pretty_go x s r :
  Z.of_N x ≤ 2 ^ 63 → leadingInt 0 (pretty_N_go x s +:+ r) = leadingInt (Z.of_N x) (s +:+ r).
Proof.
  revert s. induction (N.lt_wf_0 x) as [x _ IH]; intros s Hx.
  destruct (decide (x = 0)%N) as [->|]; [done|].
  assert (x `mod` 10 < 10)%N as Hr by (apply N.mod_lt; lia).
  pose proof (N.div_mod x 10 ltac:(lia)) as Hdm.
  assert (x `div` 10 < x)%N as Hq by (apply N.div_lt; lia).
  rewrite pretty_N_go_step by lia.
  generalize dependent (x `mod` 10)%N. generalize dependent (x `div` 10)%N.
  intros q Hq m Hm Hdm. rewrite IH by lia. rewrite string_app_cons. simpl leadingInt.
  rewrite pretty_N_char_digit, pretty_N_char_byte by done.
  rewrite (proj2 (Z.ltb_ge _ _)) by (apply Z.div_le_lower_bound; lia).
  assert (Z.of_N q * 10 + (48 + Z.of_N m - 48) = Z.of_N x) as -> by lia.
  by rewrite (proj2 (Z.ltb_ge _ _)) by lia.
Qed.

Lemma leadingInt_pretty (x : N) c r :
  is_digit c = false → Z.of_N x ≤ 2 ^ 63 →
  leadingInt 0 (pretty x +:+ String c r) = Some (Z.of_N x, String c r).
Proof.
  intros Hc Hx.
  assert (∀ y, leadingInt y ("" +:+ String c r) = Some (y, String c r)) as H0.
  { intros y. change ("" +:+ String c r) with (String c r). simpl. by rewrite Hc. }
  unfold pretty, pretty_N. case_decide as Hd.
  - subst. change ("0" +:+ String c r) with (String "0" (String c r)). simpl. by rewrite Hc.
  - by rewrite leadingInt_pretty_go, H0.
Qed.

Lemma string_length_app s t :
  String.length (s +:+ t) = (String.length s + String.length t)%nat.
Proof. induction s as [|c s IH]; [done|]. rewrite string_app_cons. simpl. by rewrite IH. Qed.

Lemma parse_group_seconds (x : N) :
  Z.of_N x * Second ≤ max_int64 → parse_group (pretty x +:+ "s") = Ok (Z.of_N x * Second, "").
Proof.
  intros Hx.
  assert (Z.of_N x * 1000000000 ≤ 2 ^ 63 - 1) as Hx' by done.
  destruct (pretty_N_cons x) as (c & t & Ht & Hc).
  pose proof (leadingInt_pretty x "s" "" eq_refl ltac:(lia)) as Hl.
  unfold parse_group. rewrite Ht in Hl |- *. rewrite string_app_cons in Hl |- *.
  rewrite Hl, Hc, orb_true_r. simpl negb. cbv iota.
  rewrite (proj2 (Nat.eqb_neq _ _)) by (simpl; rewrite string_length_app; simpl; lia).
  transitivity (if 2 ^ 63 `div` Second <? Z.of_N x then Err invalid_duration
                else Ok (Z.of_N x * Second, "")); [reflexivity|].
  by rewrite (proj2 (Z.ltb_ge _ _)) by (apply Z.div_le_lower_bound; unfold Second; lia).
Qed.

(** A whole number of seconds that fits an int64 of nanoseconds is parsed exactly. *)
Lemma ParseDuration_seconds (x : N) :
  Z.of_N x * Second ≤ max_int64 →
  ParseDuration (pretty x +:+ "s") = Ok (Z.of_N x * Second).
Proof.
  intros Hx. destruct (pretty_N_cons x) as (c & t & Ht & Hc).
  pose proof (parse_group_seconds x Hx) as Hg.
  unfold ParseDuration. rewrite Ht in Hg |- *. rewrite string_app_cons in Hg |- *.
  assert (∀ (A : Type) (a b d : A),
    match c with "-"%char => a | "+"%char => b | _ => d end = d) as Hm.
  { intros. by destruct c as [[] [] [] [] [] [] [] []]. }
  assert (match String c (t +:+ "s") with
          | String "-" r => (true, r) | String "+" r => (false, r)
          | _ => (false, String c (t +:+ "s")) end = (false, String c (t +:+ "s"))) as ->.
  { by destruct c as [[] [] [] [] [] [] [] []]. }
  rewrite bool_decide_eq_false_2; [|by destruct t].
  rewrite bool_decide_eq_false_2 by done.
  simpl String.length. cbn [parse_groups]. rewrite Hg. simpl.
  unfold Second, max_int64 in *. rewrite Z.mod_small by lia.
  rewrite (proj2 (Z.ltb_ge _ _)) by lia.
  destruct (String.length _); simpl; by rewrite (proj2 (Z.ltb_ge _ _)) by lia.
Qed.

(** [int64(d.Seconds())] of a whole number of seconds is that number, for every
    duration the API could accept and far beyond (checked by evaluation). *)
Lemma Seconds_whole n : 0 ≤ n ≤ 3600 → Seconds (n * Second) = n.
Proof.
  intros Hn.
  assert (forallb (λ k, Seconds (Z.of_nat k * Second) =? Z.of_nat k) (seq 0 3601) = true)
    as Hall by (vm_compute; reflexivity).
  rewrite forallb_forall in Hall. specialize (Hall (Z.to_nat n)).
  rewrite Z2Nat.id in Hall by lia. apply Z.eqb_eq, Hall, in_seq. lia.
Qed.
