(* ===== verification/Sha256.v ===== *)
(** [crypto/sha256.Sum256] (FIPS 180-4) and the [%x] verb on its digest, from which
    the external ID of a node override is derived; [crypto/hmac] with SHA-256 and
    [encoding/base64], with which requests are signed. *)
From S2P Require Import Prelude GoStrings.
#[local] Open Scope Z_scope.

Definition word (x : Z) : Z := x `mod` 2 ^ 32.
Definition rotr (n x : Z) : Z := Z.lor (Z.shiftr x n) (word (Z.shiftl x (32 - n))).

Definition choose (x y z : Z) : Z := Z.lxor (Z.land x y) (Z.land (Z.lxor x (2 ^ 32 - 1)) z).
Definition majority (x y z : Z) : Z :=
  Z.lxor (Z.lxor (Z.land x y) (Z.land x z)) (Z.land y z).
Definition big_sigma0 (x : Z) : Z := Z.lxor (Z.lxor (rotr 2 x) (rotr 13 x)) (rotr 22 x).
Definition big_sigma1 (x : Z) : Z := Z.lxor (Z.lxor (rotr 6 x) (rotr 11 x)) (rotr 25 x).
Definition small_sigma0 (x : Z) : Z :=
  Z.lxor (Z.lxor (rotr 7 x) (rotr 18 x)) (Z.shiftr x 3).
Definition small_sigma1 (x : Z) : Z :=
  Z.lxor (Z.lxor (rotr 17 x) (rotr 19 x)) (Z.shiftr x 10).

(** The constants of the algorithm: the first 32 bits of the fractional parts of
    the cube roots of the first 64 primes, and of the square roots of the first
    eight. *)
Definition is_prime (n : Z) : bool :=
  (2 <=? n) && forallb (λ d, negb (n `mod` d =? 0)) (seqZ 2 (Z.sqrt n - 1)).

Definition primes : list Z := Eval vm_compute in filter (λ n, is_prime n = true) (seqZ 0 312).

(** The integer cube root, one bit at a time from bit [k]. *)
Fixpoint cube_root (k : nat) (n r : Z) : Z :=
  let r' := r + 2 ^ Z.of_nat k in
  let r := if r' * r' * r' <=? n then r' else r in
  match k with
  | O => r
  | S k => cube_root k n r
  end.

Definition round_constants : list Z :=
  Eval vm_compute in (λ p, word (cube_root 36 (p * 2 ^ 96) 0)) <$> primes.

Definition initial_hash : list Z :=
  Eval vm_compute in (λ p, word (Z.sqrt (p * 2 ^ 64))) <$> take 8 primes.

(** Big-endian bytes of a word of [n] bytes. *)
Fixpoint be_bytes (n : nat) (x : Z) : list Z :=
  match n with
  | O => []
  | S n => be_bytes n (x / 256) ++ [x `mod` 256]
  end.

Definition pad (msg : list Z) : list Z :=
  let zeros := ((119 - length msg `mod` 64) `mod` 64)%nat in
  msg ++ [0x80] ++ replicate zeros 0 ++ be_bytes 8 (8 * Z.of_nat (length msg)).

(** Consecutive groups of four bytes as words. *)
Fixpoint words (l : list Z) : list Z :=
  match l with
  | a :: b :: c :: d :: l => ((a * 256 + b) * 256 + c) * 256 + d :: words l
  | _ => []
  end.

(** The message schedule, most recent word first. *)
Fixpoint schedule (n : nat) (w : list Z) : list Z :=
  match n with
  | O => w
  | S n =>
      let next := word (small_sigma1 (w !!! 1%nat) + w !!! 6%nat
                        + small_sigma0 (w !!! 14%nat) + w !!! 15%nat) in
      schedule n (next :: w)
  end.

Definition round (h : list Z) (kw : Z * Z) : list Z :=
  match h with
  | [a; b; c; d; e; f; g; hh] =>
      let t1 := hh + big_sigma1 e + choose e f g + kw.1 + kw.2 in
      let t2 := big_sigma0 a + majority a b c in
      [word (t1 + t2); a; b; c; word (d + t1); e; f; g]
  | _ => h
  end.

Definition compress (h : list Z) (block : list Z) : list Z :=
  let w := reverse (schedule 48 (reverse block)) in
  zip_with (λ x y, word (x + y)) h (foldl round h (zip round_constants w)).

Fixpoint blocks (fuel : nat) (h : list Z) (ws : list Z) : list Z :=
  match fuel, ws with
  | S fuel, _ :: _ => blocks fuel (compress h (take 16 ws)) (drop 16 ws)
  | _, _ => h
  end.

Fixpoint bytes_of_string (s : string) : list Z :=
  match s with "" => [] | String c s => byte c :: bytes_of_string s end.

(** The digest of bytes: the padded message has one block per 16 words, so its
    number of words is fuel enough. *)
Definition digest (msg : list Z) : list Z :=
  let ws := words (pad msg) in
  mjoin (be_bytes 4 <$> blocks (length ws) initial_hash ws).

(** [sha256.Sum256] *)
Definition Sum256 (s : string) : list Z := digest (bytes_of_string s).

(** ** Hexadecimal *)

Definition hex_digit (x : Z) : ascii :=
  Ascii.ascii_of_N (Z.to_N (if x <? 10 then 48 + x else 87 + x)).

(** The [%x] verb on bytes. *)
Fixpoint hex (l : list Z) : string :=
  match l with
  | [] => ""
  | b :: l => String (hex_digit (b / 16)) (String (hex_digit (b `mod` 16)) (hex l))
  end.

Lemma hex_length l : String.length (hex l) = (2 * length l)%nat.
Proof. induction l; simpl; lia. Qed.

(** ** Message authentication *)

(** [crypto/hmac] with SHA-256, whose blocks have 64 bytes. *)
Definition hmac (key msg : list Z) : list Z :=
  let key := if (64 <? length key)%nat then digest key else key in
  let key := key ++ replicate (64 - length key) 0 in
  digest ((Z.lxor 0x5c <$> key) ++ digest ((Z.lxor 0x36 <$> key) ++ msg)).

(** ** Base64 *)

Definition base64_digit (x : Z) : ascii :=
  Ascii.ascii_of_N (Z.to_N (
    if x <? 26 then 65 + x else if x <? 52 then 71 + x else if x <? 62 then x - 4
    else if x =? 62 then 43 else 47)).

(** [base64.StdEncoding.EncodeToString] *)
Fixpoint base64 (l : list Z) : string :=
  match l with
  | a :: b :: c :: l =>
      String (base64_digit (a / 4)) (String (base64_digit (a `mod` 4 * 16 + b / 16))
        (String (base64_digit (b `mod` 16 * 4 + c / 64)) (String (base64_digit (c `mod` 64)) (base64 l))))
  | [a; b] =>
      String (base64_digit (a / 4)) (String (base64_digit (a `mod` 4 * 16 + b / 16))
        (String (base64_digit (b `mod` 16 * 4)) "="))
  | [a] => String (base64_digit (a / 4)) (String (base64_digit (a `mod` 4 * 16)) "==")
  | [] => ""
  end.

(** The digest of every message is eight words: the sizes of the state never change. *)
Lemma round_length h kw : length h = 8%nat → length (round h kw) = 8%nat.
Proof. by destruct h as [|? [|? [|? [|? [|? [|? [|? [|? [|??]]]]]]]]]. Qed.

Lemma foldl_round_length h l : length h = 8%nat → length (foldl round h l) = 8%nat.
Proof. revert h. induction l as [|x l IH]; intros h Hh; simpl; auto using round_length. Qed.

Lemma blocks_length fuel h ws : length h = 8%nat → length (blocks fuel h ws) = 8%nat.
Proof.
  revert h ws. induction fuel as [|fuel IH]; intros h [|w ws] Hh; simpl; [done..|].
  apply IH. unfold compress. rewrite length_zip_with, foldl_round_length by done. lia.
Qed.

Lemma be_bytes_length n x : length (be_bytes n x) = n.
Proof. revert x. induction n; intros; simpl; [done|]. rewrite length_app, IHn. simpl. lia. Qed.

Lemma digest_length msg : length (digest msg) = 32%nat.
Proof.
  unfold digest. cbv zeta.
  assert (∀ l, length (mjoin (be_bytes 4 <$> l)) = (4 * length l)%nat) as ->.
  { induction l as [|x l IH]; [done|].
    change (length (be_bytes 4 x ++ mjoin (be_bytes 4 <$> l)) = (4 * S (length l))%nat).
    rewrite length_app, be_bytes_length, IH. lia. }
  by rewrite blocks_length.
Qed.

Lemma Sum256_length s : length (Sum256 s) = 32%nat.
Proof. apply digest_length. Qed.

(** The FIPS 180-4 vectors. *)
Example Sum256_empty :
  hex (Sum256 "") = "e3b0c44298fc1c149afbf4c8996fb92427ae41e4649b934ca495991b7852b855".
Proof. vm_compute. reflexivity. Qed.

Example Sum256_abc :
  hex (Sum256 "abc") = "ba7816bf8f01cfea414140de5dae2223b00361a396177a9cb410ff61f20015ad".
Proof. vm_compute. reflexivity. Qed.

Example Sum256_two_blocks :
  hex (Sum256 "abcdbcdecdefdefgefghfghighijhijkijkljklmklmnlmnomnopnopq")
  = "248d6a61d20638b8e5c026930c3e6039a33ce45964ff2167f6ecedd419db06c1".
Proof. vm_compute. reflexivity. Qed.

(** Vectors of RFC 4231 and of RFC 4648. *)
Example hmac_Jefe :
  hex (hmac (bytes_of_string "Jefe") (bytes_of_string "what do ya want for nothing?"))
  = "5bdcc146bf60754e6a042426089575c75a003f089d2739839dec58b964ec3843".
Proof. vm_compute. reflexivity. Qed.

Example hmac_long_key :
  hex (hmac (replicate 131 0xaa) (bytes_of_string "Test Using Larger Than Block-Size Key - Hash Key First"))
  = "60e431591ee0b67f0d8a26aacbf5b77f8e0bc6213728c5140546040f0ee37f54".
Proof. vm_compute. reflexivity. Qed.

Example base64_vectors :
  (λ s, base64 (bytes_of_string s)) <$> [""; "f"; "fo"; "foo"; "foob"; "fooba"; "foobar"]
  = [""; "Zg=="; "Zm8="; "Zm9v"; "Zm9vYg=="; "Zm9vYmE="; "Zm9vYmFy"].
Proof. vm_compute. reflexivity. Qed.
