(* ===== verification/GoNet.v ===== *)
(** [net.IP] of Go's standard library: addresses as byte slices and their
    [String] method, through which every address leaves the provider. *)
From S2P Require Import Prelude GoStrings Sha256.
#[local] Open Scope Z_scope.

(** A [net.IP]: [None] is the nil slice. *)
Abbreviation IP := (option (list Z)).

(** [ip.To4()] on the 4-byte and the IPv4-mapped 16-byte forms. *)
Definition To4 (b : list Z) : option (list Z) :=
  if (length b =? 4)%nat then Some b
  else if (length b =? 16)%nat && bool_decide (take 10 b = replicate 10 0)
          && bool_decide (take 2 (drop 10 b) = [255; 255])
       then Some (drop 12 b)
       else None.

Definition dotted (b : list Z) : string :=
  match b with
  | [a; b; c; d] =>
      pretty a +:+ "." +:+ pretty b +:+ "." +:+ pretty c +:+ "." +:+ pretty d
  | _ => ""
  end.

(** The eight 16-bit groups of an IPv6 address. *)
Fixpoint groups16 (b : list Z) : list Z :=
  match b with
  | x :: y :: b => x * 256 + y :: groups16 b
  | _ => []
  end.

(** Lower-case hexadecimal without leading zeros ([netip]'s [appendHex]). *)
Definition hex16 (x : Z) : string :=
  let d n := String (hex_digit ((x / n) `mod` 16)) "" in
  (if x >=? 4096 then d 4096 else "") +:+ (if x >=? 256 then d 256 else "")
  +:+ (if x >=? 16 then d 16 else "") +:+ d 1.

(** Length of the run of zero groups at the front. *)
Fixpoint zero_run (g : list Z) : nat :=
  match g with
  | x :: g => if x =? 0 then S (zero_run g) else O
  | [] => O
  end.

(** The first longest run of at least two zero groups: its start and end. *)
Fixpoint longest_zeros (i : nat) (g : list Z) (best : nat * nat) : nat * nat :=
  match g with
  | [] => best
  | _ :: g' =>
      let l := zero_run g in
      let best' := if (2 <=? l)%nat && (best.2 - best.1 <? l)%nat then (i, i + l)%nat else best in
      longest_zeros (S i) g' best'
  end.

Fixpoint print_groups (i : nat) (first : bool) (g : list Z) (zeros : nat * nat) : string :=
  match g with
  | [] => ""
  | x :: g =>
      if (zeros.1 <=? i)%nat && (i <? zeros.2)%nat then
        (if (i =? zeros.1)%nat then "::" else "") +:+ print_groups (S i) true g zeros
      else (if first then "" else ":") +:+ hex16 x +:+ print_groups (S i) false g zeros
  end.

Definition IP_String (ip : IP) : string :=
  match ip with
  | None | Some [] => "<nil>"
  | Some b =>
      if negb ((length b =? 4)%nat || (length b =? 16)%nat) then "?" +:+ hex b
      else match To4 b with
           | Some b4 => dotted b4
           | None =>
               let g := groups16 b in
               print_groups 0 true g (longest_zeros 0 g (255, 255)%nat)
           end
  end.

Example IP_String_v4 : IP_String (Some [1; 2; 3; 4]) = "1.2.3.4".
Proof. reflexivity. Qed.
Example IP_String_mapped :
  IP_String (Some (replicate 10 0 ++ [255; 255; 192; 168; 0; 1])) = "192.168.0.1".
Proof. reflexivity. Qed.
Example IP_String_v6 :
  IP_String (Some [32; 1; 13; 184; 0; 0; 0; 0; 0; 1; 0; 0; 0; 0; 0; 1]) = "2001:db8::1:0:0:1".
Proof. reflexivity. Qed.
Example IP_String_loopback : IP_String (Some (replicate 15 0 ++ [1])) = "::1".
Proof. reflexivity. Qed.
Example IP_String_any : IP_String (Some (replicate 16 0)) = "::".
Proof. reflexivity. Qed.
Example IP_String_single_zero :
  IP_String (Some [32; 1; 0; 1; 0; 0; 0; 1; 0; 1; 0; 1; 0; 1; 0; 16]) = "2001:1:0:1:1:1:1:10".
Proof. reflexivity. Qed.

(** Rendering does not tell an IPv4 address from its IPv4-mapped form. *)
Lemma IP_String_To4 b b4 :
  length b = 16%nat → To4 b = Some b4 → IP_String (Some b) = dotted b4.
Proof.
  intros Hl H4. unfold IP_String. rewrite Hl. simpl. rewrite H4.
  destruct b; [done|]. done.
Qed.
