(* ===== verification/Effects.v ===== *)
(** The effect monad: a Go function that talks to remote services is a tree of
    calls, each followed by a continuation on the reply. A tree is executed by
    a functional handler ([run]), by a relational one ([runs]), or against an
    arbitrary environment ([exec]), whose replies its trace records. *)
From S2P Require Import Prelude GoErrors.

(** How a goroutine stops without returning: a nil pointer dereference panics
    and [klog.Fatalf] exits the process. *)
Inductive halt :=
| NilDeref
| Fatalf (format : string).

#[export] Instance halt_eq_dec : EqDecision halt.
Proof. solve_decision. Defined.

Inductive outcome (A : Type) :=
| Returned (a : A)
| Halted (h : halt).
Arguments Returned {A} a.
Arguments Halted {A} h.

Inductive prog (E : Type → Type) (A : Type) : Type :=
| Ret (a : A)
| Halt (h : halt)
| Vis {X : Type} (e : E X) (k : X → prog E A).
Arguments Ret {E A} a.
Arguments Halt {E A} h.
Arguments Vis {E A X} e k.

Fixpoint prog_bind {E A B} (f : A → prog E B) (p : prog E A) : prog E B :=
  match p with
  | Ret a => f a
  | Halt h => Halt h
  | Vis e k => Vis e (λ x, prog_bind f (k x))
  end.

#[export] Instance prog_mret {E} : MRet (prog E) := @Ret E.
#[export] Instance prog_mbind {E} : MBind (prog E) := @prog_bind E.

(** [fatalf] of exoscale/log.go. *)
Definition fatalf {E A} (format : string) : prog E A := Halt (Fatalf ("exoscale-ccm: " +:+ format)).

(** One call. *)
Definition trigger {E X} (e : E X) : prog E X := Vis e Ret.

(** [x, err := p; if err != nil { return err }; f(x)]. *)
Definition try_bind {E A B} (p : prog E (result A)) (f : A → prog E (result B)) :
    prog E (result B) :=
  p ≫= λ r, match r with Ok a => f a | Err e => Ret (Err e) end.

Notation "x ←? p ; k" := (try_bind p (λ x, k))
  (at level 20, p at level 100, k at level 200, only parsing) : stdpp_scope.

Lemma try_bind_Ok {E A B} (a : A) (f : A → prog E (result B)) : try_bind (mret (Ok a)) f = f a.
Proof. done. Qed.

(** [p] with its error rewritten before it is returned. *)
Definition wrap_err {E A} (f : error → error) (p : prog E (result A)) : prog E (result A) :=
  p ≫= λ r, Ret (map_err f r).

(** [defer q]: runs [q] when [p] returns and when it panics, not when the process
    exits. *)
Fixpoint finally {E A} (q : prog E ()) (p : prog E A) : prog E A :=
  match p with
  | Ret a => q ≫= λ _, Ret a
  | Halt NilDeref => q ≫= λ _, Halt NilDeref
  | Halt (Fatalf format) => Halt (Fatalf format)
  | Vis e k => Vis e (λ x, finally q (k x))
  end.

(** A loop over a slice that returns at the first error. *)
Fixpoint forM {E A S} (l : list A) (s : S) (body : S → A → prog E (result S)) :
    prog E (result S) :=
  match l with
  | [] => Ret (Ok s)
  | x :: l => s' ←? body s x; forM l s' body
  end.

(** * Execution against an arbitrary environment *)

(** A call and the reply the environment gave it. *)
Record call (E : Type → Type) := Call {
  call_type : Type;
  call_event : E call_type;
  call_reply : call_type;
}.
Arguments Call {E call_type} call_event call_reply.
Arguments call_type {E}.
Arguments call_event {E}.
Arguments call_reply {E}.

(** [exec p t o]: with the replies recorded in [t], [p] makes exactly the calls
    of [t] and ends with [o]. *)
Fixpoint exec {E A} (p : prog E A) (t : list (call E)) (o : outcome A) : Prop :=
  match p with
  | Ret a => t = [] ∧ o = Returned a
  | Halt h => t = [] ∧ o = Halted h
  | Vis e k => ∃ x t', t = Call e x :: t' ∧ exec (k x) t' o
  end.

(** [wp p Φ]: whatever the environment replies, [Φ] holds of the complete trace
    and outcome of [p]. *)
Definition wp {E A} (p : prog E A) (Φ : list (call E) → outcome A → Prop) : Prop :=
  ∀ t o, exec p t o → Φ t o.

Section wp.
Context {E : Type → Type}.
Implicit Types (t : list (call E)).

Lemma wp_ret {A} (a : A) (Φ : list (call E) → outcome A → Prop) :
  Φ [] (Returned a) → wp (Ret a) Φ.
Proof. by intros ? ?? [-> ->]. Qed.

Lemma wp_halt {A} h (Φ : list (call E) → outcome A → Prop) :
  Φ [] (Halted h) → wp (Halt h) Φ.
Proof. by intros ? ?? [-> ->]. Qed.

Lemma wp_vis {A X} (e : E X) (k : X → prog E A) Φ :
  (∀ x, wp (k x) (λ t o, Φ (Call e x :: t) o)) → wp (Vis e k) Φ.
Proof. intros H t o (x & t' & -> & Hx). by apply H. Qed.

Lemma wp_mono {A} (p : prog E A) Φ Ψ :
  wp p Φ → (∀ t o, Φ t o → Ψ t o) → wp p Ψ.
Proof. intros Hp HΦ t o Ht. by apply HΦ, Hp. Qed.

Lemma wp_and {A} (p : prog E A) Φ Ψ :
  wp p Φ → wp p Ψ → wp p (λ t o, Φ t o ∧ Ψ t o).
Proof. intros H1 H2 t o Ht. split; [by apply H1|by apply H2]. Qed.

Lemma wp_bind {A B} (f : A → prog E B) (p : prog E A) Φ :
  wp p (λ t o, match o with
               | Returned a => wp (f a) (λ t' o', Φ (t ++ t') o')
               | Halted h => Φ t (Halted h)
               end) →
  wp (p ≫= f) Φ.
Proof.
  revert Φ. induction p as [a|h|X e k IH]; intros Φ Hp.
  - specialize (Hp [] (Returned a) (conj eq_refl eq_refl)). simpl in Hp. exact Hp.
  - apply wp_halt. apply (Hp [] (Halted h)). done.
  - apply wp_vis. intros x. apply IH. intros t o Ht.
    apply (Hp (Call e x :: t) o). simpl. eauto.
Qed.

Lemma exec_bind_ext {A B} (p : prog E A) (f g : A → prog E B) t o :
  (∀ a t, exec (f a) t o ↔ exec (g a) t o) → exec (p ≫= f) t o ↔ exec (p ≫= g) t o.
Proof.
  intros Hfg. revert t. induction p as [a|h|X e k IH]; intros t; [apply Hfg|done|].
  simpl. by setoid_rewrite IH.
Qed.

Lemma exec_bind_assoc {A B C} (p : prog E A) (f : A → prog E B) (g : B → prog E C) t o :
  exec ((p ≫= f) ≫= g) t o ↔ exec (p ≫= λ a, f a ≫= g) t o.
Proof.
  revert t. induction p as [a|h|X e k IH]; intros t; [done..|]. simpl. by setoid_rewrite IH.
Qed.

Lemma wp_try_bind {A B} (f : A → prog E (result B)) (p : prog E (result A)) Φ :
  wp p (λ t o, match o with
               | Returned (Ok a) => wp (f a) (λ t' o', Φ (t ++ t') o')
               | Returned (Err e) => Φ t (Returned (Err e))
               | Halted h => Φ t (Halted h)
               end) →
  wp (try_bind p f) Φ.
Proof.
  intros Hp. apply wp_bind. eapply wp_mono; [apply Hp|].
  intros t [[a|e]|h] H; [done| |done].
  apply wp_ret. by rewrite app_nil_r.
Qed.

Lemma wp_wrap_err {A} (f : error → error) (p : prog E (result A)) Φ :
  wp p (λ t o, match o with
               | Returned r => Φ t (Returned (map_err f r))
               | Halted h => Φ t (Halted h)
               end) →
  wp (wrap_err f p) Φ.
Proof.
  intros Hp. apply wp_bind. eapply wp_mono; [apply Hp|].
  intros t [r|h] H; [|done]. apply wp_ret. by rewrite app_nil_r.
Qed.

(** The loop rule: [I done s t] holds before each iteration of the elements
    processed so far, the loop state and the calls made so far; an iteration
    that stops the loop must establish the postcondition. *)
Lemma wp_forM {A S} (body : S → A → prog E (result S)) (I : list A → S → list (call E) → Prop)
    (l : list A) (s : S) (Φ : list (call E) → outcome (result S) → Prop) :
  I [] s [] →
  (∀ pre x post s t, l = pre ++ x :: post → I pre s t →
    wp (body s x) (λ t' o, match o with
                           | Returned (Ok s') => I (pre ++ [x]) s' (t ++ t')
                           | Returned (Err e) => Φ (t ++ t') (Returned (Err e))
                           | Halted h => Φ (t ++ t') (Halted h)
                           end)) →
  (∀ s t, I l s t → Φ t (Returned (Ok s))) →
  wp (forM l s body) Φ.
Proof.
  intros HI Hbody Hdone.
  cut (∀ post pre s t, l = pre ++ post → I pre s t →
         wp (forM post s body) (λ t' o, Φ (t ++ t') o)).
  { intros H. specialize (H l [] s [] eq_refl HI). exact H. }
  clear s HI. induction post as [|x post IH]; intros pre s t Hl HI; simpl.
  - apply wp_ret. rewrite app_nil_r in Hl |- *. subst pre. by apply Hdone.
  - apply wp_try_bind. eapply wp_mono; [by eapply Hbody|].
    intros t' [[s'|e]|h] H; [|done..].
    eapply wp_mono; [apply (IH (pre ++ [x]) s' (t ++ t') ltac:(by rewrite <-app_assoc) H)|].
    intros t'' o. cbn. by rewrite <-app_assoc.
Qed.

(** [ensures P Q p]: whatever the environment replies, every call of [p]
    satisfies [P] and its outcome satisfies [Q]. *)
Fixpoint ensures {A} (P : ∀ X, E X → Prop) (Q : outcome A → Prop) (p : prog E A) : Prop :=
  match p with
  | Ret a => Q (Returned a)
  | Halt h => Q (Halted h)
  | Vis e k => P _ e ∧ ∀ x, ensures P Q (k x)
  end.

Definition on_call (P : ∀ X, E X → Prop) (c : call E) : Prop := P _ (call_event c).

Lemma ensures_wp {A} (P : ∀ X, E X → Prop) Q (p : prog E A) :
  ensures P Q p → wp p (λ t o, Forall (on_call P) t ∧ Q o).
Proof.
  induction p as [a|h|X e k IH]; simpl.
  - intros HQ. by apply wp_ret.
  - intros HQ. by apply wp_halt.
  - intros [He Hk]. apply wp_vis. intros x. eapply wp_mono; [by apply IH|].
    intros t o [Ht Ho]. by split; [constructor|].
Qed.

Lemma ensures_mono {A} (P P' : ∀ X, E X → Prop) (Q Q' : outcome A → Prop) (p : prog E A) :
  ensures P Q p → (∀ X e, P X e → P' X e) → (∀ o, Q o → Q' o) → ensures P' Q' p.
Proof. intros Hp HP HQ. induction p; simpl in *; naive_solver. Qed.

Lemma ensures_and {A} (P P' : ∀ X, E X → Prop) (Q Q' : outcome A → Prop) (p : prog E A) :
  ensures P Q p → ensures P' Q' p → ensures (λ X e, P X e ∧ P' X e) (λ o, Q o ∧ Q' o) p.
Proof. intros Hp Hp'. induction p; simpl in *; naive_solver. Qed.

Lemma ensures_bind {A B} P Q (f : A → prog E B) (p : prog E A) :
  ensures P (λ o, match o with
                  | Returned a => ensures P Q (f a)
                  | Halted h => Q (Halted h)
                  end) p →
  ensures P Q (p ≫= f).
Proof. induction p; simpl; naive_solver. Qed.

Lemma ensures_try_bind {A B} P Q (f : A → prog E (result B)) (p : prog E (result A)) :
  ensures P (λ o, match o with
                  | Returned (Ok a) => ensures P Q (f a)
                  | Returned (Err e) => Q (Returned (Err e))
                  | Halted h => Q (Halted h)
                  end) p →
  ensures P Q (try_bind p f).
Proof. intros Hp. apply ensures_bind. eapply ensures_mono; [done..|]. by intros [[]|]. Qed.

Lemma ensures_wrap_err {A} P Q g (p : prog E (result A)) :
  ensures P (λ o, match o with
                  | Returned r => Q (Returned (map_err g r))
                  | Halted h => Q (Halted h)
                  end) p →
  ensures P Q (wrap_err g p).
Proof. intros Hp. apply ensures_bind. eapply ensures_mono; [done..|]. by intros []. Qed.

(** The loop rule: [I] holds of the processed prefix and the loop state. *)
Lemma ensures_forM {A S} P Q (body : S → A → prog E (result S)) (I : list A → S → Prop) l s :
  I [] s →
  (∀ pre x post s, l = pre ++ x :: post → I pre s →
    ensures P (λ o, match o with
                    | Returned (Ok s') => I (pre ++ [x]) s'
                    | Returned (Err e) => Q (Returned (Err e))
                    | Halted h => Q (Halted h)
                    end) (body s x)) →
  (∀ s, I l s → Q (Returned (Ok s))) →
  ensures P Q (forM l s body).
Proof.
  intros HI Hb HQ.
  cut (∀ post pre s, l = pre ++ post → I pre s → ensures P Q (forM post s body)).
  { intros H. by apply (H l []). }
  clear s HI. induction post as [|x post IH]; intros pre s Hl HI; simpl.
  - rewrite app_nil_r in Hl. subst. by apply HQ.
  - apply ensures_try_bind. eapply ensures_mono; [by eapply Hb|done|].
    intros [[s'|e]|h]; [|done..]. apply IH. by rewrite <-app_assoc.
Qed.

(** [calls P p]: every call of [p] satisfies [P], whatever its outcome. *)
Definition calls {A} (P : ∀ X, E X → Prop) (p : prog E A) : Prop := ensures P (λ _, True) p.

Lemma calls_mono {A} (P P' : ∀ X, E X → Prop) (p : prog E A) :
  calls P p → (∀ X e, P X e → P' X e) → calls P' p.
Proof. intros Hp HP. by eapply ensures_mono. Qed.

Lemma calls_ensures {A} (P : ∀ X, E X → Prop) Q (p : prog E A) : ensures P Q p → calls P p.
Proof. intros Hp. by eapply ensures_mono. Qed.

Lemma calls_bind {A B} P (f : A → prog E B) (p : prog E A) :
  calls P p → (∀ a, calls P (f a)) → calls P (p ≫= f).
Proof. intros Hp Hf. apply ensures_bind. eapply ensures_mono; [done..|]. intros [a|h] _; [apply Hf|done]. Qed.

Lemma calls_try_bind {A B} P (f : A → prog E (result B)) (p : prog E (result A)) :
  calls P p → (∀ a, calls P (f a)) → calls P (try_bind p f).
Proof. intros Hp Hf. apply calls_bind; [done|]. by intros [a|e]. Qed.

Lemma calls_wrap_err {A} P g (p : prog E (result A)) : calls P p → calls P (wrap_err g p).
Proof. intros Hp. by apply calls_bind. Qed.

Lemma calls_forM {A S} P (body : S → A → prog E (result S)) l s :
  (∀ s x, calls P (body s x)) → calls P (forM l s body).
Proof.
  intros Hb. revert s. induction l as [|x l IH]; intros s; [done|]. by apply calls_try_bind.
Qed.

Lemma calls_finally {A} P q (p : prog E A) : calls P p → calls P q → calls P (finally q p).
Proof.
  intros Hp Hq. induction p as [a|[]|X e k IH]; simpl in *.
  - by apply calls_bind.
  - by apply calls_bind.
  - done.
  - destruct Hp as [He Hk]. split; [done|]. intros x. apply IH, Hk.
Qed.
End wp.

(** * Execution by a handler *)

(** A functional handler: the service as a state machine. *)
Fixpoint run {E S A} (h : ∀ X, E X → S → X * S) (p : prog E A) (s : S) : outcome A * S :=
  match p with
  | Ret a => (Returned a, s)
  | Halt e => (Halted e, s)
  | Vis e k => let '(x, s') := h _ e s in run h (k x) s'
  end.

(** A relational handler: the service may reply in several ways. *)
Definition handler (E : Type → Type) (S : Type) : Type := ∀ X, E X → S → X → S → Prop.

Fixpoint runs {E S A} (R : handler E S) (p : prog E A) (s : S) (o : outcome A) (s' : S) : Prop :=
  match p with
  | Ret a => o = Returned a ∧ s' = s
  | Halt h => o = Halted h ∧ s' = s
  | Vis e k => ∃ x s1, R _ e s x s1 ∧ runs R (k x) s1 o s'
  end.

(** [triple R P p Q]: from a state satisfying [P], every execution of [p] ends in
    an outcome and state satisfying [Q]. *)
Definition triple {E S A} (R : handler E S) (P : S → Prop) (p : prog E A)
    (Q : outcome A → S → Prop) : Prop :=
  ∀ s o s', P s → runs R p s o s' → Q o s'.

Section triple.
Context {E : Type → Type} {S : Type} (R : handler E S).

Lemma triple_ret {A} (a : A) (P : S → Prop) Q :
  (∀ s, P s → Q (Returned a) s) → triple R P (Ret a) Q.
Proof. intros H s o s' Hs [-> ->]. by apply H. Qed.

Lemma triple_halt {A} h (P : S → Prop) (Q : outcome A → S → Prop) :
  (∀ s, P s → Q (Halted h) s) → triple R P (Halt h) Q.
Proof. intros H s o s' Hs [-> ->]. by apply H. Qed.

Lemma triple_vis {A X} (e : E X) (k : X → prog E A) P Q (M : X → S → Prop) :
  (∀ s x s', P s → R _ e s x s' → M x s') →
  (∀ x, triple R (M x) (k x) Q) →
  triple R P (Vis e k) Q.
Proof. intros HM Hk s o s' Hs (x & s1 & Hx & Hr). eapply Hk; [|done]. by eapply HM. Qed.

Lemma triple_bind {A B} (f : A → prog E B) (p : prog E A) P Q (M : outcome A → S → Prop) :
  triple R P p M →
  (∀ a, triple R (M (Returned a)) (f a) Q) →
  (∀ h s, M (Halted h) s → Q (Halted h) s) →
  triple R P (p ≫= f) Q.
Proof.
  intros Hp Hf Hh s o s' Hs Hr.
  assert (Hsplit : ∀ (p : prog E A) s, runs R (p ≫= f) s o s' →
    (∃ a s1, runs R p s (Returned a) s1 ∧ runs R (f a) s1 o s')
    ∨ ∃ h, o = Halted h ∧ runs R p s (Halted h) s').
  { clear. induction p as [a|h|X e k IH]; intros s; simpl; [naive_solver..|].
    intros (x & s1 & Hx & Hr). destruct (IH x s1 Hr); naive_solver. }
  destruct (Hsplit p s Hr) as [(a & s1 & H1 & H2)|(h & -> & H1)]; [|by eapply Hh, Hp].
  eapply Hf; [|done]. by eapply Hp.
Qed.

Lemma triple_conseq {A} (p : prog E A) (P P' : S → Prop) Q Q' :
  triple R P' p Q' → (∀ s, P s → P' s) → (∀ o s, Q' o s → Q o s) → triple R P p Q.
Proof. intros H HP HQ s o s' Hs Hr. eapply HQ, H; [by apply HP|done]. Qed.

Lemma triple_pre {A} (p : prog E A) (P P' : S → Prop) Q :
  (∀ s, P s → P' s) → triple R P' p Q → triple R P p Q.
Proof. intros HP H s o s' Hs Hr. by eapply H; [apply HP|]. Qed.

(** Facts of the precondition, and its existentials, move to the context. *)
Lemma triple_ex {A T} (p : prog E A) (P : T → S → Prop) Q :
  (∀ x, triple R (P x) p Q) → triple R (λ s, ∃ x, P x s) p Q.
Proof. intros H s o s' [x Hx] Hr. by eapply H. Qed.

Lemma triple_known {A} (p : prog E A) (P : S → Prop) Q :
  (∀ s, P s → triple R (λ _, True) p Q) → triple R P p Q.
Proof. intros H s o s' Hs Hr. by eapply (H s). Qed.

Lemma triple_pure {A} (p : prog E A) (φ : Prop) (P : S → Prop) Q :
  (φ → triple R P p Q) → triple R (λ s, φ ∧ P s) p Q.
Proof. intros H s o s' [Hφ Hs] Hr. by eapply H. Qed.

Lemma triple_and {A} (p : prog E A) (P P' : S → Prop) Q Q' :
  triple R P p Q → triple R P' p Q' → triple R (λ s, P s ∧ P' s) p (λ o s, Q o s ∧ Q' o s).
Proof. intros H H' s o s' [Hs Hs'] Hr. split; [by eapply H|by eapply H']. Qed.

(** What the calls alone guarantee: an invariant that every permitted call
    preserves. *)
Lemma triple_ensures {A} (C : ∀ X, E X → Prop) Q (I : S → Prop) (p : prog E A) :
  ensures C Q p →
  (∀ X (e : E X) s x s', C X e → I s → R X e s x s' → I s') →
  triple R I p (λ o s, Q o ∧ I s).
Proof.
  intros Hp HI. induction p as [a|h|X e k IH]; simpl in Hp.
  - by apply triple_ret.
  - by apply triple_halt.
  - destruct Hp as [He Hk]. eapply triple_vis with (M := λ _, I); [by intros; eapply HI|].
    intros x. by apply IH.
Qed.

Lemma triple_try_bind {A B} (f : A → prog E (result B)) (p : prog E (result A)) P Q
    (M : outcome (result A) → S → Prop) :
  triple R P p M →
  (∀ a, triple R (M (Returned (Ok a))) (f a) Q) →
  (∀ e s, M (Returned (Err e)) s → Q (Returned (Err e)) s) →
  (∀ h s, M (Halted h) s → Q (Halted h) s) →
  triple R P (try_bind p f) Q.
Proof.
  intros Hp Hf He Hh. eapply triple_bind; [done| |done].
  intros [a|e]; [done|]. apply triple_ret. eauto.
Qed.

(** The loop rule, with the processed prefix in the invariant. *)
Lemma triple_forM {A T} (body : T → A → prog E (result T)) (I : list A → T → S → Prop)
    (l : list A) (st : T) Q :
  (∀ pre x post st, l = pre ++ x :: post →
    triple R (I pre st) (body st x)
      (λ o s, match o with
              | Returned (Ok st') => I (pre ++ [x]) st' s
              | Returned (Err e) => Q (Returned (Err e)) s
              | Halted h => Q (Halted h) s
              end)) →
  (∀ st s, I l st s → Q (Returned (Ok st)) s) →
  triple R (I [] st) (forM l st body) Q.
Proof.
  intros Hbody Hdone.
  cut (∀ post pre st, l = pre ++ post → triple R (I pre st) (forM post st body) Q).
  { intros H. by apply (H l [] st). }
  clear st. induction post as [|x post IH]; intros pre st Hl; simpl.
  - apply triple_ret. rewrite app_nil_r in Hl. subst. eauto.
  - eapply triple_try_bind; [by eapply Hbody|..]; [|done..].
    intros st'. apply (IH (pre ++ [x])). by rewrite <-app_assoc.
Qed.
End triple.

(** The states a service goes through while it gives the replies of a trace. *)
Fixpoint follows {E S} (R : handler E S) (s : S) (t : list (call E)) (s' : S) : Prop :=
  match t with
  | [] => s' = s
  | c :: t => ∃ s1, R _ (call_event c) s (call_reply c) s1 ∧ follows R s1 t s'
  end.

Lemma follows_app {E S} (R : handler E S) s t t' s' :
  follows R s (t ++ t') s' ↔ ∃ s1, follows R s t s1 ∧ follows R s1 t' s'.
Proof.
  revert s. induction t as [|c t IH]; intros s; simpl; [naive_solver|].
  setoid_rewrite IH. naive_solver.
Qed.

Lemma exec_runs {E S A} (R : handler E S) (p : prog E A) t o s s' :
  exec p t o → follows R s t s' → runs R p s o s'.
Proof.
  revert s t. induction p as [a|h|X e k IH]; intros s t; simpl.
  - by intros [-> ->] ->.
  - by intros [-> ->] ->.
  - intros (x & t' & -> & Ht) (s1 & Hs & Hf). eauto.
Qed.

(** What holds of every execution by a handler holds of every trace it follows. *)
Lemma wp_follows {E S A} (R : handler E S) (P : S → Prop) (p : prog E A) Q :
  triple R P p Q → wp p (λ t o, ∀ s s', P s → follows R s t s' → Q o s').
Proof. intros Hp t o Ht s s' Hs Hf. eapply Hp; [exact Hs|]. by eapply exec_runs. Qed.

(** A functional handler as a relational one. *)
Definition fun_handler {E S} (h : ∀ X, E X → S → X * S) : handler E S :=
  λ X e s x s', h X e s = (x, s').

Lemma run_runs {E S A} (h : ∀ X, E X → S → X * S) (p : prog E A) s o s' :
  run h p s = (o, s') ↔ runs (fun_handler h) p s o s'.
Proof.
  revert s. induction p as [a|e|X e k IH]; intros s; simpl; [naive_solver..|].
  destruct (h X e s) as [x s1] eqn:Hx. rewrite IH. unfold fun_handler.
  split; [eauto|]. intros (y & s2 & Hy & Hr). congruence.
Qed.

(** * Larger sets of calls *)

(** A program whose calls are some of those of a larger one. *)
Fixpoint lift {E F A} (f : ∀ X, E X → F X) (p : prog E A) : prog F A :=
  match p with
  | Ret a => Ret a
  | Halt h => Halt h
  | Vis e k => Vis (f _ e) (λ x, lift f (k x))
  end.

Definition lift_call {E F} (f : ∀ X, E X → F X) (c : call E) : call F :=
  Call (f _ (call_event c)) (call_reply c).

Lemma exec_lift {E F A} (f : ∀ X, E X → F X) (p : prog E A) t o :
  exec (lift f p) t o ↔ ∃ t', t = lift_call f <$> t' ∧ exec p t' o.
Proof.
  revert t. induction p as [a|h|X e k IH]; intros t; simpl.
  - split; [intros [-> ->]; by exists []|]. by intros ([|] & -> & [? ->]).
  - split; [intros [-> ->]; by exists []|]. by intros ([|] & -> & [? ->]).
  - split.
    + intros (x & t1 & -> & (t' & -> & Ht)%IH). exists (Call e x :: t'). split; [done|]. eauto.
    + intros (t' & -> & x & t1 & -> & Ht). exists x, (lift_call f <$> t1). split; [done|].
      apply IH. eauto.
Qed.

Lemma wp_lift {E F A} (f : ∀ X, E X → F X) (p : prog E A) Φ :
  wp p (λ t o, Φ (lift_call f <$> t) o) → wp (lift f p) Φ.
Proof. by intros Hp t o (t' & -> & Ht%Hp)%exec_lift. Qed.

Lemma triple_lift {E F A S T} (f : ∀ X, E X → F X) (R : handler E S) (R' : handler F T)
    (p : prog E A) (Q : outcome A → Prop) :
  (∀ X (e : E X) t x t', R' X (f X e) t x t' → ∀ s, ∃ s', R X e s x s') →
  (∃ s : S, True) →
  triple R (λ _, True) p (λ o _, Q o) → triple R' (λ _, True) (lift f p) (λ o _, Q o).
Proof.
  intros HR [s0 _] Hp t o t' _ Hr.
  assert (∀ (p : prog E A) s t, runs R' (lift f p) t o t' → ∃ s', runs R p s o s') as Hruns.
  { clear -HR. induction p as [a|h|X e k IH]; intros s t Hr; simpl in *.
    - destruct Hr as [-> _]. by exists s.
    - destruct Hr as [-> _]. by exists s.
    - destruct Hr as (x & t1 & Hx & Hr). destruct (HR _ _ _ _ _ Hx s) as [s1 Hs].
      destruct (IH x s1 t1 Hr) as [s' Hs']. by exists s', x, s1. }
  destruct (Hruns p s0 t Hr) as [s' Hs']. by eapply Hp.
Qed.
