(* ===== verification/Egoscale.v ===== *)
(** The Exoscale API as the provider sees it: the [v3] data types, restricted to
    the fields the provider reads, writes or compares, and the calls of the
    [exoscaleClient] interface (exoscale/client.go) as effects. *)
From S2P Require Import Prelude GoErrors GoStrings GoNet.

Abbreviation UUID := string.
(** [v3.Labels], a possibly nil map. *)
Abbreviation Labels := (option (gmap string string)).

(** [v3.InstancePool]: the provider only ever sets [ID]; the other fields are
    kept as the list of their non-zero values, so that a deep comparison sees
    them. *)
Record InstancePool := {
  ip_ID : UUID;
  ip_others : list (string * string);
}.

#[export] Instance InstancePool_eq_dec : EqDecision InstancePool.
Proof. solve_decision. Defined.

(** [v3.LoadBalancerServiceHealthcheck] *)
Record Healthcheck := {
  hc_Interval : Z;
  hc_Mode : string;
  hc_Port : Z;
  hc_Retries : Z;
  hc_Timeout : Z;
  hc_TlsSNI : string;
  hc_URI : string;
}.

#[export] Instance Healthcheck_eq_dec : EqDecision Healthcheck.
Proof. solve_decision. Defined.

(** [v3.LoadBalancerService] *)
Record LoadBalancerService := {
  lbs_Description : string;
  lbs_Healthcheck : option Healthcheck;
  lbs_HealthcheckStatus : list (IP * string);
  lbs_ID : UUID;
  lbs_InstancePool : option InstancePool;
  lbs_Name : string;
  lbs_Port : Z;
  lbs_Protocol : string;
  lbs_State : string;
  lbs_Strategy : string;
  lbs_TargetPort : Z;
}.

#[export] Instance LoadBalancerService_eq_dec : EqDecision LoadBalancerService.
Proof. solve_decision. Defined.

(** The zero value [v3.LoadBalancerService{}]. *)
Definition LoadBalancerService_zero : LoadBalancerService := {|
  lbs_Description := ""; lbs_Healthcheck := None; lbs_HealthcheckStatus := [];
  lbs_ID := ""; lbs_InstancePool := None; lbs_Name := ""; lbs_Port := 0;
  lbs_Protocol := ""; lbs_State := ""; lbs_Strategy := ""; lbs_TargetPort := 0 |}.

(** [v3.LoadBalancer] *)
Record LoadBalancer := {
  lb_Description : string;
  lb_ID : UUID;
  lb_IP : IP;
  lb_Labels : Labels;
  lb_Name : string;
  lb_Services : list LoadBalancerService;
}.

#[export] Instance LoadBalancer_eq_dec : EqDecision LoadBalancer.
Proof. solve_decision. Defined.

Record CreateLoadBalancerRequest := {
  clr_Description : string;
  clr_Labels : Labels;
  clr_Name : string;
}.

#[export] Instance CreateLoadBalancerRequest_eq_dec : EqDecision CreateLoadBalancerRequest.
Proof. solve_decision. Defined.

Record UpdateLoadBalancerRequest := {
  ulr_Description : string;
  ulr_Labels : Labels;
  ulr_Name : string;
}.

#[export] Instance UpdateLoadBalancerRequest_eq_dec : EqDecision UpdateLoadBalancerRequest.
Proof. solve_decision. Defined.

Record AddServiceToLoadBalancerRequest := {
  asr_Description : string;
  asr_Healthcheck : option Healthcheck;
  asr_InstancePool : option InstancePool;
  asr_Name : string;
  asr_Port : Z;
  asr_Protocol : string;
  asr_Strategy : string;
  asr_TargetPort : Z;
}.

#[export] Instance AddServiceToLoadBalancerRequest_eq_dec : EqDecision AddServiceToLoadBalancerRequest.
Proof. solve_decision. Defined.

Record UpdateLoadBalancerServiceRequest := {
  usr_Description : string;
  usr_Healthcheck : option Healthcheck;
  usr_Name : string;
  usr_Port : Z;
  usr_Protocol : string;
  usr_Strategy : string;
  usr_TargetPort : Z;
}.

#[export] Instance UpdateLoadBalancerServiceRequest_eq_dec : EqDecision UpdateLoadBalancerServiceRequest.
Proof. solve_decision. Defined.

(** [v3.Operation]; its [Reference] is a possibly nil pointer, of which only the
    ID is used. *)
Record Operation := {
  op_ID : UUID;
  op_Message : string;
  op_Reason : string;
  op_Reference : option UUID;
  op_State : string;
}.

#[export] Instance Operation_eq_dec : EqDecision Operation.
Proof. solve_decision. Defined.

Record Manager := {
  mgr_ID : UUID;
  mgr_Type : string;
}.

#[export] Instance Manager_eq_dec : EqDecision Manager.
Proof. solve_decision. Defined.

(** [v3.Instance] *)
Record ComputeInstance := {
  inst_ID : UUID;
  inst_InstanceType : option UUID;
  inst_Ipv6Address : string;
  inst_Manager : option Manager;
  inst_Name : string;
  inst_PrivateNetworks : list UUID;
  inst_PublicIP : IP;
  inst_State : string;
}.

#[export] Instance ComputeInstance_eq_dec : EqDecision ComputeInstance.
Proof. solve_decision. Defined.

(** [v3.ListInstancesResponseInstances] *)
Record ListedInstance := {
  li_Ipv6Address : string;
  li_Name : string;
  li_PrivateNetworks : list UUID;
  li_PublicIP : IP;
}.

#[export] Instance ListedInstance_eq_dec : EqDecision ListedInstance.
Proof. solve_decision. Defined.

(** [v3.InstanceType] *)
Record InstanceType := {
  it_Family : string;
  it_Size : string;
}.

#[export] Instance InstanceType_eq_dec : EqDecision InstanceType.
Proof. solve_decision. Defined.

(** [v3.SKSNodepool] *)
Record SKSNodepool := {
  np_InstancePool : option InstancePool;
  np_Name : string;
}.

#[export] Instance SKSNodepool_eq_dec : EqDecision SKSNodepool.
Proof. solve_decision. Defined.

(** [v3.SKSCluster] *)
Record SKSCluster := {
  sks_ID : UUID;
  sks_Name : string;
  sks_Nodepools : list SKSNodepool;
}.

#[export] Instance SKSCluster_eq_dec : EqDecision SKSCluster.
Proof. solve_decision. Defined.

(** The calls of the [exoscaleClient] interface with their replies. *)
Inductive exoE : Type → Type :=
| ApiCreateLoadBalancer (req : CreateLoadBalancerRequest) : exoE (result Operation)
| ApiAddServiceToLoadBalancer (id : UUID) (req : AddServiceToLoadBalancerRequest) :
    exoE (result Operation)
| ApiDeleteLoadBalancer (id : UUID) : exoE (result Operation)
| ApiDeleteLoadBalancerService (id serviceID : UUID) : exoE (result Operation)
| ApiGetInstance (id : UUID) : exoE (result ComputeInstance)
| ApiGetInstanceType (id : UUID) : exoE (result InstanceType)
| ApiGetLoadBalancer (id : UUID) : exoE (result LoadBalancer)
| ApiListInstances : exoE (result (list ListedInstance))
| ApiListLoadBalancers : exoE (result (list LoadBalancer))
| ApiListSKSClusters : exoE (result (list SKSCluster))
| ApiUpdateLoadBalancer (id : UUID) (req : UpdateLoadBalancerRequest) : exoE (result Operation)
| ApiUpdateLoadBalancerService (id serviceID : UUID) (req : UpdateLoadBalancerServiceRequest) :
    exoE (result Operation)
| ApiWait (op : Operation) (states : list string) : exoE (result Operation).

(** [ListLoadBalancersResponse.FindLoadBalancer] and
    [ListSKSClustersResponse.FindSKSCluster]: the only element with that name or
    ID; several matches are a conflict. *)
Section find.
Context {A : Type} (name id : A → string).

Definition find_by_name_or_id (l : list A) (nameOrID : string) : result A :=
  match filter (λ x, name x = nameOrID ∨ id x = nameOrID) l with
  | [x] => Ok x
  | [] => Err (ErrorfW "%q not found: %w" [nameOrID] (Sentinel ErrNotFound))
  | _ => Err (ErrorfW "%q too many found: %w" [nameOrID] (Sentinel ErrConflict))
  end.

Lemma find_by_name_or_id_Ok l q x :
  find_by_name_or_id l q = Ok x → x ∈ l ∧ (name x = q ∨ id x = q).
Proof.
  unfold find_by_name_or_id. intros H.
  assert (x ∈ filter (λ x, name x = q ∨ id x = q) l) as Hx.
  { destruct (filter _ l) as [|y [|??]]; simplify_eq. set_solver. }
  apply list_elem_of_filter in Hx as [??]. done.
Qed.
End find.

Definition FindLoadBalancer := find_by_name_or_id lb_Name lb_ID.
Definition FindSKSCluster := find_by_name_or_id sks_Name sks_ID.
