(* ===== verification/Kube.v ===== *)
(** The Kubernetes objects and API calls the provider uses, and the effects of a
    cloud provider handler: Exoscale calls, Kubernetes calls and host queries. *)
From S2P Require Import Prelude GoErrors Effects Egoscale.

(** [v1.ServicePort]; [Port] and [NodePort] are int32. *)
Record ServicePort := {
  sp_Protocol : string;
  sp_Port : Z;
  sp_NodePort : Z;
}.

(** [v1.Service]: metadata, and the spec fields the provider reads. The
    annotation map may be nil. *)
Record Service := {
  svc_Namespace : string;
  svc_Name : string;
  svc_UID : string;
  svc_Annotations : option (gmap string string);
  svc_Ports : list ServicePort;
  svc_ExternalTrafficPolicy : string;
  svc_HealthCheckNodePort : Z;
}.

Definition with_Annotations (s : Service) (a : option (gmap string string)) : Service := {|
  svc_Namespace := svc_Namespace s; svc_Name := svc_Name s; svc_UID := svc_UID s;
  svc_Annotations := a; svc_Ports := svc_Ports s;
  svc_ExternalTrafficPolicy := svc_ExternalTrafficPolicy s;
  svc_HealthCheckNodePort := svc_HealthCheckNodePort s |}.

(** Reading a nil map finds nothing. *)
Definition annotation (s : Service) (k : string) : option string :=
  svc_Annotations s ≫= λ m, m !! k.

(** [v1.Node] *)
Record Node := {
  node_Name : string;
  node_ProviderID : string;
  node_SystemUUID : string;
  node_Annotations : gmap string string;
}.

(** [cloudproviderapi.AnnotationAlphaProvidedIPAddr] *)
Definition AnnotationAlphaProvidedIPAddr : string := "alpha.kubernetes.io/provided-node-ip".

(** [v1.NodeAddress] *)
Record NodeAddress := {
  na_Type : string;
  na_Address : string;
}.

#[export] Instance NodeAddress_eq_dec : EqDecision NodeAddress.
Proof. solve_decision. Defined.

Definition NodeHostName : string := "Hostname".
Definition NodeInternalIP : string := "InternalIP".
Definition NodeExternalIP : string := "ExternalIP".

(** A condition of a [CertificateSigningRequest] (its timestamp is omitted). *)
Record CSRCondition := {
  cond_Type : string;
  cond_Status : string;
  cond_Reason : string;
  cond_Message : string;
}.

(** [certificates/v1.CertificateSigningRequest] *)
Record CertificateSigningRequest := {
  csr_Name : string;
  csr_Request : string;
  csr_Groups : list string;
  csr_Conditions : list CSRCondition;
}.

(** Calls to the API server. [Nodes().Get] replies with a pointer and an error,
    and one caller looks at the pointer alone. *)
Inductive kubeE : Type → Type :=
| KubeGetNode (name : string) : kubeE (option Node * option error)
| KubePatchService (namespace name patch : string) : kubeE (result ())
| KubeUpdateApproval (name : string) (csr : CertificateSigningRequest) : kubeE (result ()).

(** Queries to the host: environment variables and instance metadata. *)
Inductive hostE : Type → Type :=
| LookupEnv (name : string) : hostE (option string)
| MetadataFromCdRom (endpoint : string) : hostE (result string)
| MetadataGet (endpoint : string) : hostE (result string).

Inductive ccmE : Type → Type :=
| ExoCall {X} (e : exoE X) : ccmE X
| KubeCall {X} (e : kubeE X) : ccmE X
| HostCall {X} (e : hostE X) : ccmE X.

(** Restricting a predicate to one kind of call. *)
Definition no_exo {X} (e : ccmE X) : Prop :=
  match e with ExoCall _ => False | _ => True end.

(** Reading a trace entry back as a successful instance lookup. *)
Definition exo_instance {X} (e : exoE X) : X → option ComputeInstance :=
  match e with
  | ApiGetInstance _ => λ r, match r with Ok i => Some i | Err _ => None end
  | _ => λ _, None
  end.

Definition as_instance (c : call ccmE) : option ComputeInstance :=
  match call_event c in ccmE X return X → _ with
  | ExoCall e => exo_instance e
  | _ => λ _, None
  end (call_reply c).
