(* ===== verification/InstancesConfig.v ===== *)
(** exoscale/instances_config.go: the static node overrides of the cloud-config
    file and their lookup by node name and by provider ID. Go's [regexp.Match]
    on operator-supplied patterns is the parameter [Regexp]. *)
From S2P Require Import Prelude GoErrors GoStrings Sha256.

(** [regexp.Match(pattern, text)]: [None] when the pattern does not compile. *)
Class Regexp := regexp_Match : string → string → option bool.

Record instancesOverrideAddressConfig := {
  oa_Type : string;
  oa_Address : string;
}.

Record instancesOverrideConfig := {
  ov_Name : string;
  ov_External : bool;
  ov_ExternalID : string;
  ov_Type : string;
  ov_Addresses : list instancesOverrideAddressConfig;
  ov_Region : string;
}.

Record instancesConfig := {
  ic_Disabled : bool;
  ic_Overrides : list instancesOverrideConfig;
  ic_ExternalOnly : bool;
}.

Definition providerPrefix : string := "exoscale://".

Definition defaultInstanceOverrideExternalID (overrideName : string) : string :=
  "external-" +:+ hex (Sum256 overrideName).

(** The external ID an override stands for: the one it sets, or the default. *)
Definition override_ExternalID (o : instancesOverrideConfig) : string :=
  if bool_decide (ov_ExternalID o = "") then defaultInstanceOverrideExternalID (ov_Name o)
  else ov_ExternalID o.

Lemma override_ExternalID_nonempty o : override_ExternalID o ≠ "".
Proof. unfold override_ExternalID. by case_bool_decide. Qed.

Section overrides.
Context {regexp : Regexp}.

(** The loop bodies of the two passes: an exact name, then a [/regexp/] whose
    pattern compiles (a pattern that does not is logged and skipped). *)
Definition exact_name (nodeName : string) (c : instancesOverrideConfig) : bool :=
  bool_decide (ov_Name c ≠ "") && bool_decide (nodeName = ov_Name c).

Definition regexp_name (nodeName : string) (c : instancesOverrideConfig) : bool :=
  HasPrefix (ov_Name c) "/" && HasSuffix (ov_Name c) "/" &&
  match regexp_Match (Trim (ov_Name c) "/") nodeName with
  | Some matched => matched
  | None => false
  end.

Definition getInstanceOverride (c : instancesConfig) (nodeName : string) :
    option instancesOverrideConfig :=
  match List.find (exact_name nodeName) (ic_Overrides c) with
  | Some config => Some config
  | None => List.find (regexp_name nodeName) (ic_Overrides c)
  end.

(** The loop bodies of the lookup by ID: an explicit external ID, then the
    default one built from the name. *)
Definition exact_id (instanceID : string) (c : instancesOverrideConfig) : bool :=
  bool_decide (ov_ExternalID c ≠ "") && bool_decide (instanceID = ov_ExternalID c).

Definition default_id (instanceID : string) (c : instancesOverrideConfig) : bool :=
  bool_decide (ov_ExternalID c = "") &&
  bool_decide (instanceID = defaultInstanceOverrideExternalID (ov_Name c)).

Definition getInstanceOverrideByProviderID (c : instancesConfig) (providerID : string) :
    option instancesOverrideConfig :=
  let instanceID := TrimPrefix providerID providerPrefix in
  match List.find (exact_id instanceID) (ic_Overrides c) with
  | Some config => Some config
  | None => List.find (default_id instanceID) (ic_Overrides c)
  end.

(** The first element with a property, by position. *)
Lemma find_first {A} (f : A → bool) (l : list A) x :
  List.find f l = Some x ↔
  ∃ pre post, l = pre ++ x :: post ∧ f x = true ∧ Forall (λ y, f y = false) pre.
Proof.
  split.
  - induction l as [|y l IH]; simpl; [done|].
    destruct (f y) eqn:Hy.
    + intros [= ->]. by exists [], l.
    + intros (pre & post & -> & Hx & Hpre)%IH. exists (y :: pre), post. by split_and!; auto.
  - intros (pre & post & -> & Hx & Hpre).
    induction Hpre as [|y pre Hy Hpre IH]; simpl; by rewrite ?Hx, ?Hy.
Qed.

Lemma find_none {A} (f : A → bool) (l : list A) :
  List.find f l = None ↔ Forall (λ y, f y = false) l.
Proof.
  induction l as [|y l IH]; simpl; [by split|]. rewrite Forall_cons.
  destruct (f y); naive_solver.
Qed.

Lemma exact_name_true n o : exact_name n o = true ↔ ov_Name o = n ∧ n ≠ "".
Proof.
  unfold exact_name. rewrite andb_true_iff, !bool_decide_eq_true. naive_solver.
Qed.

Lemma id_match_true id o :
  exact_id id o || default_id id o = true ↔ override_ExternalID o = id.
Proof.
  unfold exact_id, default_id, override_ExternalID.
  rewrite orb_true_iff, !andb_true_iff, !bool_decide_eq_true.
  case_bool_decide; naive_solver.
Qed.

(** Every override found by provider ID stands for that ID. *)
Lemma getInstanceOverrideByProviderID_sound c pid o :
  getInstanceOverrideByProviderID c pid = Some o →
  o ∈ ic_Overrides c ∧ override_ExternalID o = TrimPrefix pid providerPrefix.
Proof.
  unfold getInstanceOverrideByProviderID. intros Hf. rewrite <-id_match_true.
  destruct (List.find (exact_id _) _) as [o'|] eqn:H1; simplify_eq.
  - apply List.find_some in H1 as [Hin ->]. by split; [apply list_elem_of_In|].
  - apply List.find_some in Hf as [Hin ->].
    by split; [apply list_elem_of_In|rewrite orb_true_r].
Qed.

(** An override is found whenever one stands for the ID. *)
Lemma getInstanceOverrideByProviderID_complete c pid o :
  o ∈ ic_Overrides c → override_ExternalID o = TrimPrefix pid providerPrefix →
  is_Some (getInstanceOverrideByProviderID c pid).
Proof.
  intros Hin Ho%id_match_true. unfold getInstanceOverrideByProviderID.
  destruct (List.find (exact_id _) _) eqn:H1; [done|].
  destruct (List.find (default_id _) _) eqn:H2; [done|].
  exfalso. apply find_none in H1, H2. rewrite Forall_forall in H1, H2.
  by rewrite H1, H2 in Ho by done.
Qed.
End overrides.
