(* ===== verification/CloudConfig.v ===== *)
(** exoscale/exoscale_config.go, loadbalancer_config.go and the [cloudProvider]
    record of exoscale.go: the configuration, how the environment overrides the
    file, and the calls every component makes through the provider
    (exoscale/common.go). The YAML decoder is the parameter [YAML]. *)
From S2P Require Import Prelude GoErrors GoStrings Effects Egoscale Kube InstancesConfig.

Record globalConfig := {
  gc_APIKey : string;
  gc_APISecret : string;
  gc_APICredentialsFile : string;
  gc_APIEndpoint : string;
}.

Record loadBalancerConfig := { lc_Disabled : bool }.

Record cloudConfig := {
  cc_Global : globalConfig;
  cc_Instances : instancesConfig;
  cc_LoadBalancer : loadBalancerConfig;
}.

Definition cloudConfig_zero : cloudConfig := {|
  cc_Global := {| gc_APIKey := ""; gc_APISecret := ""; gc_APICredentialsFile := "";
                  gc_APIEndpoint := "" |};
  cc_Instances := {| ic_Disabled := false; ic_Overrides := []; ic_ExternalOnly := false |};
  cc_LoadBalancer := {| lc_Disabled := false |} |}.

(** [yaml.NewDecoder(config).Decode(&cfg)] on a zero [cfg]. *)
Class YAML := yaml_Decode : string → result cloudConfig.

Definition LookupEnv_ (name : string) : prog ccmE (option string) :=
  trigger (HostCall (LookupEnv name)).

(** Assignments of the form [if value, exists := os.LookupEnv(k); exists { f = value }]. *)
Definition env_or (k : string) (v : string) : prog ccmE string :=
  e ← LookupEnv_ k; mret (default v e).

Section config.
Context {yaml : YAML}.

Definition readExoscaleConfig (config : option string) : prog ccmE (result cloudConfig) :=
  cfg ←? mret (match config with None => Ok cloudConfig_zero | Some text => yaml_Decode text end);
  let g := cc_Global cfg in
  key ← env_or "EXOSCALE_API_KEY" (gc_APIKey g);
  secret ← env_or "EXOSCALE_API_SECRET" (gc_APISecret g);
  file ← env_or "EXOSCALE_API_CREDENTIALS_FILE" (gc_APICredentialsFile g);
  ep ← LookupEnv_ "EXOSCALE_API_ENDPOINT";
  endpoint ← match ep with
             | Some value => mret value
             | None =>
                 environment ← LookupEnv_ "EXOSCALE_API_ENVIRONMENT";
                 mret (match environment with
                       | Some value =>
                           if bool_decide (value = "ppapi")
                           then "https://" +:+ value +:+ "-ch-gva-2.exoscale.com/v2"
                           else gc_APIEndpoint g
                       | None => gc_APIEndpoint g
                       end)
             end;
  mret (Ok {| cc_Global := {| gc_APIKey := key; gc_APISecret := secret;
                              gc_APICredentialsFile := file; gc_APIEndpoint := endpoint |};
              cc_Instances := cc_Instances cfg;
              cc_LoadBalancer := cc_LoadBalancer cfg |}).
End config.

(** ** The provider *)

(** [cloudProvider]: [p_client] and [p_kclient] say whether the Exoscale and
    Kubernetes clients have been set by [Initialize]; a call through a nil
    interface panics. *)
Record cloudProvider := {
  p_cfg : cloudConfig;
  p_client : bool;
  p_kclient : bool;
  p_zone : string;
}.

Definition exo (p : cloudProvider) {X} (e : exoE X) : prog ccmE X :=
  if p_client p then trigger (ExoCall e) else Halt NilDeref.

Definition kube (p : cloudProvider) {X} (e : kubeE X) : prog ccmE X :=
  if p_kclient p then trigger (KubeCall e) else Halt NilDeref.

Definition formatProviderID (providerID : string) : result UUID :=
  if bool_decide (providerID = "") then Err (ErrorNew "provider ID cannot be empty" [])
  else Ok (TrimPrefix providerID providerPrefix).

Definition computeInstanceByProviderID (p : cloudProvider) (providerID : string) :
    prog ccmE (result ComputeInstance) :=
  id ←? mret (formatProviderID providerID);
  exo p (ApiGetInstance id).

(** A provider ID handed out for an instance names that instance again. *)
Lemma formatProviderID_prefix id : formatProviderID (providerPrefix +:+ id) = Ok id.
Proof.
  unfold formatProviderID. rewrite bool_decide_eq_false_2 by done. by rewrite TrimPrefix_app.
Qed.

Section calls.
Context (p : cloudProvider).

Lemma wp_exo {A X} (e : exoE X) (k : X → prog ccmE A) Φ :
  (∀ x, wp (k x) (λ t o, Φ (Call (ExoCall e) x :: t) o)) →
  (p_client p = false → Φ [] (Halted NilDeref)) →
  wp (exo p e ≫= k) Φ.
Proof.
  unfold exo. intros Hk Hh.
  destruct (p_client p); [by apply wp_vis|by apply wp_halt, Hh].
Qed.

Lemma wp_exo_call {X} (e : exoE X) Φ :
  (∀ x, Φ [Call (ExoCall e) x] (Returned x)) → Φ [] (Halted NilDeref) → wp (exo p e) Φ.
Proof.
  intros Hx Hh. unfold exo. destruct (p_client p); [|by apply wp_halt].
  apply wp_vis. intros x. by apply wp_ret.
Qed.

Lemma ensures_exo {X} (P : ∀ X, ccmE X → Prop) Q (e : exoE X) :
  P _ (ExoCall e) → (∀ o, Q o) → ensures P Q (exo p e).
Proof. unfold exo. destruct (p_client p); simpl; auto. Qed.

Lemma ensures_kube {X} (P : ∀ X, ccmE X → Prop) Q (e : kubeE X) :
  P _ (KubeCall e) → (∀ o, Q o) → ensures P Q (kube p e).
Proof. unfold kube. destruct (p_kclient p); simpl; auto. Qed.

Lemma calls_exo {X} (P : ∀ X, ccmE X → Prop) (e : exoE X) : P _ (ExoCall e) → calls P (exo p e).
Proof. intros He. by apply ensures_exo. Qed.

Lemma calls_kube {X} (P : ∀ X, ccmE X → Prop) (e : kubeE X) : P _ (KubeCall e) → calls P (kube p e).
Proof. intros He. by apply ensures_kube. Qed.

Lemma calls_computeInstance (P : ∀ X, ccmE X → Prop) id :
  (∀ id, P _ (ExoCall (ApiGetInstance id))) → calls P (computeInstanceByProviderID p id).
Proof.
  intros He. unfold computeInstanceByProviderID. apply calls_try_bind; [done|].
  intros i. by apply calls_exo.
Qed.
End calls.
