(* ===== verification/Instances.v ===== *)
(** exoscale/instances.go: the [Instances] interface, which finds a node by name
    or by provider ID, statically configured overrides first, then the API. *)
From S2P Require Import Prelude GoErrors GoStrings GoNet Effects Egoscale Kube InstancesConfig.
From S2P Require Import CloudConfig.

(** ** Labels *)

Definition is_alnum (c : ascii) : bool :=
  let n := N_of_ascii c in
  ((48 <=? n) && (n <=? 57) || (65 <=? n) && (n <=? 90) || (97 <=? n) && (n <=? 122))%N.

Definition is_label_char (c : ascii) : bool :=
  is_alnum c || bool_decide (c ∈ ["-"; "_"; "."]%char).

(** [labelInvalidCharsRegex.ReplaceAllString(s, "")]: each alternative of the
    pattern matches one character, a non-alphanumeric one at the start or at
    the end of the text, or one that no label may hold. The bytes of a
    non-ASCII character all match the last alternative. *)
Fixpoint removeInvalid (atStart : bool) (s : string) : string :=
  match s with
  | "" => ""
  | String c s' =>
      let atEnd := bool_decide (s' = "") in
      if (atStart && negb (is_alnum c)) || (atEnd && negb (is_alnum c)) || negb (is_label_char c)
      then removeInvalid false s'
      else String c (removeInvalid false s')
  end.

Definition labelReplaceAllString (s : string) : string := removeInvalid true s.

Definition getInstanceTypeName (family size : string) : string := family +:+ "." +:+ size.

(** ** The interface *)

Definition no_override {A} : result A :=
  Err (ErrorNew "no override found (Exoscale API disabled)" []).

(** What the static configuration answers, if anything: each method of the
    interface begins with one of these on the override it finds. *)
Definition overrideAddresses (o : instancesOverrideConfig) : option (result (list NodeAddress)) :=
  if bool_decide (0 < length (ov_Addresses o))%nat then
    Some (Ok ((λ a, {| na_Type := oa_Type a; na_Address := oa_Address a |}) <$> ov_Addresses o))
  else if ov_External o then Some (Ok [])
  else None.

Definition overrideID (o : instancesOverrideConfig) : option (result string) :=
  if ov_External o then
    Some (Ok (if bool_decide (ov_ExternalID o ≠ "") then ov_ExternalID o
              else defaultInstanceOverrideExternalID (ov_Name o)))
  else None.

Definition overrideType (o : instancesOverrideConfig) : option (result string) :=
  if bool_decide (ov_Type o ≠ "") then Some (Ok (ov_Type o))
  else if ov_External o then Some (Ok "external")
  else None.

Definition overrideExists (o : instancesOverrideConfig) : option (result bool) :=
  if ov_External o then Some (Ok true) else None.

Definition overrideShutdown (o : instancesOverrideConfig) : option (result bool) :=
  if ov_External o then Some (Err (Sentinel NotImplemented)) else None.

(** The override's answer, else [disabled] when only overrides may be used, else
    the API. *)
Definition overridden {A} (cfg : instancesConfig) (override : option instancesOverrideConfig)
    (answer : instancesOverrideConfig → option (result A)) (disabled : result A)
    (api : prog ccmE (result A)) : prog ccmE (result A) :=
  match override ≫= answer with
  | Some r => mret r
  | None => if ic_ExternalOnly cfg then mret disabled else api
  end.

Section instances.
Context {unicode : UnicodeTables} {regexp : Regexp}.
Context (p : cloudProvider).
Let cfg := cc_Instances (p_cfg p).

Definition InstanceID (nodeName : string) : prog ccmE (result string) :=
  overridden cfg (getInstanceOverride cfg nodeName) overrideID no_override (
    r ← kube p (KubeGetNode nodeName);
    match r with
    | (_, Some err) =>
        mret (Err (ErrorfS "failed to retrieve node %s from the apiserver: %s" [nodeName] err))
    | (Some node, None) => mret (Ok (node_SystemUUID node))
    | (None, None) => Halt NilDeref
    end).

(** The kubelet-provided IP of a node, looked up by instance name (lines 105-119):
    the errors are ignored and the replied pointer decides. *)
Definition providedIP (name : string) : prog ccmE (option string) :=
  r ← kube p (KubeGetNode name);
  node ← match r.1 with
         | Some node => mret (Some node)
         | None => r ← kube p (KubeGetNode (ToLower name)); mret r.1
         end;
  mret (node ≫= λ n, node_Annotations n !! AnnotationAlphaProvidedIPAddr).

(** The external addresses, which are internal addresses too when there is no
    other (lines 121-153). *)
Definition publicAddresses (foundInternalIP : bool) (instance : ComputeInstance) :
    list NodeAddress :=
  match inst_PublicIP instance with
  | Some _ =>
      [{| na_Type := NodeExternalIP; na_Address := IP_String (inst_PublicIP instance) |}] ++
      (if negb foundInternalIP
       then [{| na_Type := NodeInternalIP; na_Address := IP_String (inst_PublicIP instance) |}]
       else [])
  | None => []
  end ++
  (if bool_decide (inst_Ipv6Address instance ≠ "") then
     [{| na_Type := NodeExternalIP; na_Address := inst_Ipv6Address instance |}] ++
     (if negb foundInternalIP
      then [{| na_Type := NodeInternalIP; na_Address := inst_Ipv6Address instance |}]
      else [])
   else []).

Definition NodeAddressesByProviderID (providerID : string) : prog ccmE (result (list NodeAddress)) :=
  overridden cfg (getInstanceOverrideByProviderID cfg providerID) overrideAddresses no_override (
    instance ←? computeInstanceByProviderID p providerID;
    let addresses := [{| na_Type := NodeHostName; na_Address := inst_Name instance |}] in
    ip ← (if p_client p && bool_decide (0 < length (inst_PrivateNetworks instance))%nat
          then providedIP (inst_Name instance) else mret None);
    match ip with
    | Some providedIP =>
        mret (Ok (addresses ++ [{| na_Type := NodeInternalIP; na_Address := providedIP |}]
                  ++ publicAddresses true instance))
    | None => mret (Ok (addresses ++ publicAddresses false instance))
    end).

Definition NodeAddresses (nodeName : string) : prog ccmE (result (list NodeAddress)) :=
  overridden cfg (getInstanceOverride cfg nodeName) overrideAddresses no_override (
    id ←? InstanceID nodeName;
    NodeAddressesByProviderID id).

Definition InstanceTypeByProviderID (providerID : string) : prog ccmE (result string) :=
  overridden cfg (getInstanceOverrideByProviderID cfg providerID) overrideType no_override (
    instance ←? computeInstanceByProviderID p providerID;
    match inst_InstanceType instance with
    | None => Halt NilDeref
    | Some typeID =>
        instanceType ←? exo p (ApiGetInstanceType typeID);
        mret (Ok (labelReplaceAllString
                    (getInstanceTypeName (it_Family instanceType) (it_Size instanceType))))
    end).

Definition InstanceType_ (nodeName : string) : prog ccmE (result string) :=
  overridden cfg (getInstanceOverride cfg nodeName) overrideType no_override (
    id ←? InstanceID nodeName;
    InstanceTypeByProviderID id).

Definition AddSSHKeyToAllInstances : prog ccmE (result ()) := mret (Err (Sentinel NotImplemented)).

Definition CurrentNodeName (hostname : string) : prog ccmE (result string) := mret (Ok hostname).

Definition InstanceExistsByProviderID (providerID : string) : prog ccmE (result bool) :=
  overridden cfg (getInstanceOverrideByProviderID cfg providerID) overrideExists (Ok false) (
    r ← computeInstanceByProviderID p providerID;
    match r with
    | Ok _ => mret (Ok true)
    | Err err => if errors_Is err ErrNotFound then mret (Ok false) else mret (Err err)
    end).

Definition stopped (instance : ComputeInstance) : bool :=
  bool_decide (inst_State instance = "stopping") || bool_decide (inst_State instance = "stopped").

Definition InstanceShutdownByProviderID (providerID : string) : prog ccmE (result bool) :=
  overridden cfg (getInstanceOverrideByProviderID cfg providerID) overrideShutdown no_override (
    instance ←? computeInstanceByProviderID p providerID;
    mret (Ok (stopped instance))).
End instances.
