(* ===== verification/InstancesV2.v ===== *)
(** exoscale/instances_v2.go: the [InstancesV2] interface, which works on a whole
    [v1.Node] and needs no call to the API server. *)
From S2P Require Import Prelude GoErrors GoStrings GoNet Effects Egoscale Kube InstancesConfig.
From S2P Require Import CloudConfig Instances.

(** [cloudprovider.InstanceMetadata] *)
Record InstanceMetadata := {
  meta_ProviderID : string;
  meta_InstanceType : string;
  meta_NodeAddresses : list NodeAddress;
  meta_Zone : string;
  meta_Region : string;
}.

(** [nodeAddressesFromInstance]: each [append] of the code in turn. *)
Definition nodeAddressesFromInstance (node : Node) (instance : ComputeInstance) :
    list NodeAddress :=
  let addresses := [{| na_Type := NodeHostName; na_Address := inst_Name instance |}] in
  let '(addresses, foundInternalIP) :=
    if bool_decide (0 < length (inst_PrivateNetworks instance))%nat then
      match node_Annotations node !! AnnotationAlphaProvidedIPAddr with
      | Some providedIP =>
          (addresses ++ [{| na_Type := NodeInternalIP; na_Address := providedIP |}], true)
      | None => (addresses, false)
      end
    else (addresses, false) in
  let addresses :=
    match inst_PublicIP instance with
    | Some _ =>
        let ip := IP_String (inst_PublicIP instance) in
        let addresses := addresses ++ [{| na_Type := NodeExternalIP; na_Address := ip |}] in
        if negb foundInternalIP
        then addresses ++ [{| na_Type := NodeInternalIP; na_Address := ip |}]
        else addresses
    | None => addresses
    end in
  if bool_decide (inst_Ipv6Address instance ≠ "") then
    let ip := inst_Ipv6Address instance in
    let addresses := addresses ++ [{| na_Type := NodeExternalIP; na_Address := ip |}] in
    if negb foundInternalIP
    then addresses ++ [{| na_Type := NodeInternalIP; na_Address := ip |}]
    else addresses
  else addresses.

Section instancesV2.
Context {unicode : UnicodeTables} {regexp : Regexp}.
Context (p : cloudProvider).
Let cfg := cc_Instances (p_cfg p).

Definition nodeInstanceOverride (node : Node) : option instancesOverrideConfig :=
  match (if bool_decide (node_ProviderID node ≠ "")
         then getInstanceOverrideByProviderID cfg (node_ProviderID node) else None) with
  | Some override => Some override
  | None => getInstanceOverride cfg (node_Name node)
  end.

Definition computeInstanceByNode (node : Node) : prog ccmE (result ComputeInstance) :=
  let providerID := if bool_decide (node_ProviderID node = "") then node_SystemUUID node
                    else node_ProviderID node in
  computeInstanceByProviderID p providerID.

Definition InstanceExists (node : Node) : prog ccmE (result bool) :=
  overridden cfg (nodeInstanceOverride node) overrideExists (Ok false) (
    r ← computeInstanceByNode node;
    match r with
    | Ok _ => mret (Ok true)
    | Err err => if errors_Is err ErrNotFound then mret (Ok false) else mret (Err err)
    end).

Definition InstanceShutdown (node : Node) : prog ccmE (result bool) :=
  overridden cfg (nodeInstanceOverride node) overrideShutdown no_override (
    instance ←? computeInstanceByNode node;
    mret (Ok (stopped instance))).

(** The type and addresses an override gives, before anything else is known. *)
Definition metaType (override : option instancesOverrideConfig) : string :=
  match override with
  | Some o => if bool_decide (ov_Type o ≠ "") then ov_Type o
              else if ov_External o then "external" else ""
  | None => ""
  end.

Definition metaAddresses (override : option instancesOverrideConfig) : list NodeAddress :=
  match override with
  | Some o => (λ a, {| na_Type := oa_Type a; na_Address := oa_Address a |}) <$> ov_Addresses o
  | None => []
  end.

(** The metadata of an external override (lines 101-116). *)
Definition externalMetadata (o : instancesOverrideConfig) : InstanceMetadata :=
  let externalID := if bool_decide (ov_ExternalID o = "")
                    then defaultInstanceOverrideExternalID (ov_Name o) else ov_ExternalID o in
  let region := if bool_decide (ov_Region o = "") then "external" else ov_Region o in
  {| meta_ProviderID := providerPrefix +:+ externalID;
     meta_InstanceType := metaType (Some o);
     meta_NodeAddresses := metaAddresses (Some o);
     meta_Zone := region;
     meta_Region := region |}.

(** The metadata read from the API (lines 124-152), for what the override left
    empty. *)
Definition apiMetadata (node : Node) (override : option instancesOverrideConfig) :
    prog ccmE (result InstanceMetadata) :=
  instance ←? computeInstanceByNode node;
  type ←? (if bool_decide (metaType override = "") then
             match inst_InstanceType instance with
             | None => Halt NilDeref
             | Some typeID =>
                 instanceType ←? exo p (ApiGetInstanceType typeID);
                 mret (Ok (labelReplaceAllString
                             (getInstanceTypeName (it_Family instanceType) (it_Size instanceType))))
             end
           else mret (Ok (metaType override)));
  mret (Ok {|
    meta_ProviderID := providerPrefix +:+ inst_ID instance;
    meta_InstanceType := type;
    meta_NodeAddresses := if bool_decide (length (metaAddresses override) = 0%nat)
                          then nodeAddressesFromInstance node instance
                          else metaAddresses override;
    meta_Zone := p_zone p;
    meta_Region := p_zone p |}).

Definition InstanceMetadata_ (node : Node) : prog ccmE (result InstanceMetadata) :=
  let override := nodeInstanceOverride node in
  overridden cfg override
    (λ o, if ov_External o then Some (Ok (externalMetadata o)) else None) no_override
    (apiMetadata node override).
End instancesV2.
