(* ===== verification/Zones.v ===== *)
(** exoscale/zones.go: the [Zones] interface. Every node of the cluster is in the
    provider's zone, unless an external override gives its region. *)
From S2P Require Import Prelude GoErrors GoStrings Effects Egoscale Kube InstancesConfig.
From S2P Require Import CloudConfig Instances.

(** [metadata.AvailabilityZone] *)
Definition AvailabilityZone : string := "availability-zone".

(** [cloudprovider.Zone]: only the region is ever set. *)
Record Zone := { zone_Region : string }.

Definition no_instance_override {A} : result A :=
  Err (ErrorNew "no instance override found (Exoscale API disabled)" []).

Definition overrideZone (o : instancesOverrideConfig) : option (result Zone) :=
  if ov_External o then
    if bool_decide (ov_Region o ≠ "") then Some (Ok {| zone_Region := ov_Region o |})
    else Some (Ok {| zone_Region := "external" |})
  else None.

Section zones.
Context {regexp : Regexp}.
Context (p : cloudProvider).
Let cfg := cc_Instances (p_cfg p).

Definition GetZone : prog ccmE (result Zone) :=
  r ← trigger (HostCall (MetadataFromCdRom AvailabilityZone));
  match r with
  | Ok zone => mret (Ok {| zone_Region := zone |})
  | Err _ =>
      r ← trigger (HostCall (MetadataGet AvailabilityZone));
      match r with
      | Ok zone => mret (Ok {| zone_Region := zone |})
      | Err err => mret (Err (ErrorfW "get metadata: %w" [] err))
      end
  end.

Definition GetZoneByProviderID (providerID : string) : prog ccmE (result Zone) :=
  overridden cfg (getInstanceOverrideByProviderID cfg providerID) overrideZone
    no_instance_override (mret (Ok {| zone_Region := p_zone p |})).

Definition GetZoneByNodeName (nodeName : string) : prog ccmE (result Zone) :=
  overridden cfg (getInstanceOverride cfg nodeName) overrideZone no_instance_override (
    r ← kube p (KubeGetNode nodeName);
    match r with
    | (_, Some err) =>
        mret (Err (ErrorfS "failed to retrieve node %s from the apiserver: %s" [nodeName] err))
    | (Some node, None) => GetZoneByProviderID (node_SystemUUID node)
    | (None, None) => Halt NilDeref
    end).
End zones.
