(* ===== verification/NodesProps.v ===== *)
(** Properties of the node-facing interfaces [Instances], [InstancesV2] and
    [Zones]: when a node is reported missing, the round trip of external IDs,
    the labels produced, and the agreement of the two generations of the
    interface. *)
From S2P Require Import Prelude GoErrors GoStrings GoNet Effects Egoscale Kube InstancesConfig.
From S2P Require Import CloudConfig Instances InstancesV2 Zones.

(** ** Labels *)

(** The label values the comment above the sanitiser describes: empty, or
    alphanumeric at both ends with only label characters in between. *)
Definition last_byte (s : string) : option ascii :=
  match String.length s with O => None | S n => String.get n s end.

Definition valid_label (s : string) : bool :=
  match s with
  | "" => true
  | String c _ =>
      is_alnum c && all_bytes is_label_char s &&
      match last_byte s with Some d => is_alnum d | None => false end
  end.

Lemma last_byte_cons c d s : last_byte (String c (String d s)) = last_byte (String d s).
Proof. done. Qed.

Lemma removeInvalid_chars b s : all_bytes is_label_char (removeInvalid b s) = true.
Proof.
  revert b. induction s as [|c s IH]; intros b; [done|]. simpl.
  destruct (is_label_char c) eqn:Hc; simpl; [|by rewrite orb_true_r].
  case_match; [done|]. simpl. by rewrite Hc, IH.
Qed.

Lemma removeInvalid_valid b s :
  all_bytes is_label_char s = true →
  (b = true → ∀ c s', s = String c s' → is_alnum c = true) →
  (∀ d, last_byte s = Some d → is_alnum d = true) →
  removeInvalid b s = s.
Proof.
  revert b. induction s as [|c s IH]; intros b Hall Hfst Hlast; [done|]. simpl in *.
  apply andb_true_iff in Hall as [Hc Hall]. rewrite Hc. simpl. rewrite orb_false_r.
  assert (b && negb (is_alnum c) = false) as ->.
  { destruct b; [|done]. by rewrite (Hfst eq_refl c s). }
  destruct s as [|d s].
  - rewrite bool_decide_eq_true_2 by done. simpl. by rewrite (Hlast c eq_refl).
  - rewrite bool_decide_eq_false_2 by done. cbn [andb orb]. f_equal. apply IH; [done|done|].
    intros e He. by apply Hlast.
Qed.

(** Sanitising leaves a valid label value unchanged, and whatever the input
    its result holds only characters a label may hold. *)
Theorem label_sanitised s :
  all_bytes is_label_char (labelReplaceAllString s) = true ∧
  (valid_label s = true → labelReplaceAllString s = s).
Proof.
  split; [apply removeInvalid_chars|]. intros Hv.
  destruct s as [|c s]; [done|]. unfold valid_label in Hv.
  apply andb_true_iff in Hv as [[Hc Hall]%andb_true_iff Hlast].
  apply removeInvalid_valid; [done| |].
  - by intros _ ? ? [= <- <-].
  - intros d Hd. by rewrite Hd in Hlast.
Qed.

(** The pattern is applied once: what it leaves at an end may be invalid there. *)
Example label_not_valid : labelReplaceAllString "--a" = "-a" ∧ valid_label "-a" = false.
Proof. vm_compute. done. Qed.

Example label_valid : labelReplaceAllString "standard.medium" = "standard.medium".
Proof. vm_compute. done. Qed.

(** ** The static configuration *)

Section overrides.
Context {regexp : Regexp}.

(** An override named exactly like the node wins over every regular
    expression, and among exact names (then among expressions) the first in
    configuration order wins. *)
Theorem override_precedence cfg nodeName o :
  getInstanceOverride cfg nodeName = Some o ↔
  (∃ pre post, ic_Overrides cfg = pre ++ o :: post ∧ ov_Name o = nodeName ∧ nodeName ≠ "" ∧
     Forall (λ o', ov_Name o' ≠ nodeName) pre) ∨
  (Forall (λ o', ov_Name o' = nodeName → nodeName = "") (ic_Overrides cfg) ∧
   ∃ pre post, ic_Overrides cfg = pre ++ o :: post ∧ regexp_name nodeName o = true ∧
     Forall (λ o', regexp_name nodeName o' = false) pre).
Proof.
  assert (∀ o', exact_name nodeName o' = false ↔ (ov_Name o' = nodeName → nodeName = "")) as Hf.
  { intros o'. rewrite <-not_true_iff_false, exact_name_true. destruct (decide (nodeName = ""));
      naive_solver. }
  unfold getInstanceOverride. destruct (List.find (exact_name nodeName) _) as [o'|] eqn:He.
  - pose proof He as (pre & post & Hl & [Hn Hne]%exact_name_true & Hpre)%find_first.
    split.
    + intros [= <-]. left. exists pre, post. split_and!; [done..|].
      eapply Forall_impl; [done|]. intros x Hx. cbn in Hx. rewrite Hf in Hx. tauto.
    + intros [(pre' & post' & Hl' & Hn' & _ & Hpre')|[Hall _]].
      * rewrite <-He. apply find_first. exists pre', post'. split; [done|].
        split; [by apply exact_name_true|]. eapply Forall_impl; [done|].
        intros x Hx. cbn in *. rewrite Hf. tauto.
      * rewrite Hl in Hall. apply Forall_app in Hall as [_ [Ho _]%Forall_cons]. tauto.
  - apply find_none in He. rewrite find_first. split.
    + intros (pre & post & H). right. split; [|by exists pre, post].
      eapply Forall_impl; [done|]. intros x Hx. by apply Hf.
    + intros [(pre & post & Hl & Hn & Hne & _)|[_ (pre & post & H)]]; [|by exists pre, post].
      rewrite Hl in He. apply Forall_app in He as [_ [Ho _]%Forall_cons]. rewrite Hf in Ho. tauto.
Qed.
End overrides.

Section nodes.
Context {unicode : UnicodeTables} {regexp : Regexp}.
Context (p : cloudProvider).
Let cfg := cc_Instances (p_cfg p).

(** The instance lookup behind the interface methods. *)
Definition instance_lookup (id : UUID) (r : result ComputeInstance) : call ccmE :=
  Call (ExoCall (ApiGetInstance id)) r.

Lemma wp_computeInstance providerID Φ :
  (providerID = "" → Φ [] (Returned (Err (ErrorNew "provider ID cannot be empty" [])))) →
  (providerID ≠ "" → ∀ r,
     Φ [instance_lookup (TrimPrefix providerID providerPrefix) r] (Returned r)) →
  Φ [] (Halted NilDeref) →
  wp (computeInstanceByProviderID p providerID) Φ.
Proof.
  intros H0 H1 H2. unfold computeInstanceByProviderID, formatProviderID.
  apply wp_try_bind, wp_ret. case_bool_decide as Hid; [by apply H0|].
  apply wp_exo_call; [|done]. intros r. by apply H1.
Qed.

(** ** External IDs *)

Lemma getInstanceOverride_elem c nodeName o :
  getInstanceOverride c nodeName = Some o → o ∈ ic_Overrides c.
Proof.
  unfold getInstanceOverride. rewrite list_elem_of_In.
  destruct (List.find (exact_name _) _) as [o'|] eqn:H1; [intros [= ->]|intros H2].
  - by apply List.find_some in H1 as [? _].
  - by apply List.find_some in H2 as [? _].
Qed.

Lemma InstanceID_external nodeName o :
  getInstanceOverride cfg nodeName = Some o → ov_External o = true →
  InstanceID p nodeName = Ret (Ok (override_ExternalID o)).
Proof.
  intros Ho Hext. unfold InstanceID, overridden. fold cfg. rewrite Ho. simpl.
  unfold overrideID, override_ExternalID. rewrite Hext.
  by destruct (decide (ov_ExternalID o = "")) as [->|];
    [|rewrite bool_decide_eq_true_2, bool_decide_eq_false_2].
Qed.

(** C37: the ID handed out for an external node leads back to an override with
    that external ID, whatever method is then called with the provider ID built
    from it. When that override is external, and so when every override with that
    ID is, each method answers from the configuration, without any call: the node
    exists, is not to be shut down, and has that override's region, type and
    addresses. An override that is not external is found by its external ID too:
    the existence of the node is then looked up in the API by that ID, or denied
    when the API may not be used. *)
Theorem external_id_roundtrip nodeName o
    (Ho : getInstanceOverride cfg nodeName = Some o)
    (Hext : ov_External o = true) :
  InstanceID p nodeName = Ret (Ok (override_ExternalID o)) ∧
  let providerID := providerPrefix +:+ override_ExternalID o in
  ∃ o', getInstanceOverrideByProviderID cfg providerID = Some o' ∧
    o' ∈ ic_Overrides cfg ∧ override_ExternalID o' = override_ExternalID o ∧
    (ov_External o' = true →
     InstanceExistsByProviderID p providerID = Ret (Ok true) ∧
     InstanceShutdownByProviderID p providerID = Ret (Err (Sentinel NotImplemented)) ∧
     GetZoneByProviderID p providerID = Ret (Ok {| zone_Region :=
       if bool_decide (ov_Region o' = "") then "external" else ov_Region o' |}) ∧
     InstanceTypeByProviderID p providerID = Ret (Ok (metaType (Some o'))) ∧
     metaType (Some o') ≠ "" ∧
     NodeAddressesByProviderID p providerID = Ret (Ok (metaAddresses (Some o')))) ∧
    (ov_External o' = false →
     wp (InstanceExistsByProviderID p providerID) (λ t out,
       if ic_ExternalOnly cfg then t = [] ∧ out = Returned (Ok false)
       else out ≠ Halted NilDeref → ∃ r, t = [instance_lookup (override_ExternalID o) r])).
Proof.
  split; [by apply InstanceID_external|]. cbv zeta. set (pid := providerPrefix +:+ _).
  assert (TrimPrefix pid providerPrefix = override_ExternalID o) as Hpid by apply TrimPrefix_app.
  destruct (getInstanceOverrideByProviderID_complete cfg pid o) as [o' Ho'];
    [by apply getInstanceOverride_elem in Ho|done|].
  apply getInstanceOverrideByProviderID_sound in Ho' as Hs. rewrite Hpid in Hs.
  destruct Hs as [Hin' Hid']. exists o'. split_and!; [done..| |].
  - unfold InstanceExistsByProviderID, InstanceShutdownByProviderID, GetZoneByProviderID,
      InstanceTypeByProviderID, NodeAddressesByProviderID, overridden. fold cfg. rewrite Ho'.
    simpl. unfold overrideExists, overrideShutdown, overrideZone, overrideType,
      overrideAddresses. intros ->.
    split_and!; [done|done| | | |]; try (by repeat case_bool_decide).
    destruct (ov_Addresses o'); done.
  - intros Hx. unfold InstanceExistsByProviderID, overridden. fold cfg. rewrite Ho'. simpl.
    unfold overrideExists. rewrite Hx. destruct (ic_ExternalOnly cfg); [by apply wp_ret|].
    apply wp_bind, wp_computeInstance; [done| |].
    + intros _ r. rewrite Hpid. apply wp_mono with (λ t _, t = []); [|by intros ? ? ->; eauto].
      destruct r; [|destruct (errors_Is _ _)]; by apply wp_ret.
    + done.
Qed.

(** ** Missing and stopped instances *)

(** The ID by which a node's instance is looked up. *)
Definition node_ID (node : Node) : string :=
  if decide (node_ProviderID node = "") then node_SystemUUID node else node_ProviderID node.

(** An instance declared missing on good evidence: no override vouches for it
    and either the API may not be used or it does not know the instance. *)
Definition reported_missing (override : option instancesOverrideConfig) (id : UUID)
    (t : list (call ccmE)) : Prop :=
  (∀ o, override = Some o → ov_External o = false) ∧
  ((ic_ExternalOnly cfg = true ∧ t = []) ∨
   (ic_ExternalOnly cfg = false ∧ ∃ e, errors_Is e ErrNotFound = true ∧
    t = [instance_lookup (TrimPrefix id providerPrefix) (Err e)])).

Lemma wp_exists override id :
  wp (overridden cfg override overrideExists (Ok false) (
        r ← computeInstanceByProviderID p id;
        match r with
        | Ok _ => mret (Ok true)
        | Err err => if errors_Is err ErrNotFound then mret (Ok false) else mret (Err err)
        end))
    (λ t o, o = Returned (Ok false) → reported_missing override id t).
Proof.
  unfold overridden. destruct (override ≫= overrideExists) as [r|] eqn:Hr.
  { apply wp_ret. intros [= ->]. destruct override as [o|]; [|done]. simpl in Hr.
    unfold overrideExists in Hr. by destruct (ov_External o). }
  assert (∀ o, override = Some o → ov_External o = false) as Hov.
  { intros o ->. simpl in Hr. unfold overrideExists in Hr. by destruct (ov_External o). }
  destruct (ic_ExternalOnly cfg) eqn:Honly.
  { apply wp_ret. intros _. split; [done|]. by left. }
  apply wp_bind, wp_computeInstance; [| |done].
  - intros ->. by apply wp_ret.
  - intros Hid [i|e]; [by apply wp_ret|].
    destruct (errors_Is e ErrNotFound) eqn:He; apply wp_ret; [|done].
    intros _. split; [done|]. right. split; [done|]. by exists e.
Qed.

(** A node is reported missing, upon which the controller deletes it, only
    if no external override vouches for it and either the API is disabled or
    it answered that the instance does not exist; any other failure is
    returned as an error. Both generations of the interface. *)
Theorem missing_only_on_evidence :
  (∀ providerID, wp (InstanceExistsByProviderID p providerID) (λ t o,
     o = Returned (Ok false) →
     reported_missing (getInstanceOverrideByProviderID cfg providerID) providerID t)) ∧
  (∀ node, wp (InstanceExists p node) (λ t o,
     o = Returned (Ok false) → reported_missing (nodeInstanceOverride p node) (node_ID node) t)).
Proof.
  split; [intros providerID; apply wp_exists|]. intros node.
  unfold InstanceExists, computeInstanceByNode, node_ID. cbv zeta.
  destruct (decide (node_ProviderID node = "")) as [Hp|Hp];
    [rewrite bool_decide_eq_true_2 by done|rewrite bool_decide_eq_false_2 by done]; apply wp_exists.
Qed.

(** A node is said to be shut down only if no external override vouches for it
    and the API replied with an instance that is stopping or stopped. *)
Definition reported_stopped (override : option instancesOverrideConfig) (id : UUID)
    (t : list (call ccmE)) : Prop :=
  (∀ o, override = Some o → ov_External o = false) ∧ ic_ExternalOnly cfg = false ∧
  ∃ i, stopped i = true ∧ t = [instance_lookup (TrimPrefix id providerPrefix) (Ok i)].

Lemma shut_down_only_on_evidence node :
  wp (InstanceShutdown p node) (λ t o,
    o = Returned (Ok true) → reported_stopped (nodeInstanceOverride p node) (node_ID node) t).
Proof.
  unfold InstanceShutdown, computeInstanceByNode, overridden, node_ID. cbv zeta. fold cfg.
  destruct (nodeInstanceOverride p node ≫= overrideShutdown) as [r|] eqn:Hr.
  { apply wp_ret. intros [= ->]. destruct (nodeInstanceOverride p node) as [o|]; [|done].
    simpl in Hr. unfold overrideShutdown in Hr. by destruct (ov_External o). }
  assert (∀ o, nodeInstanceOverride p node = Some o → ov_External o = false) as Hov.
  { intros o Ho. rewrite Ho in Hr. simpl in Hr. unfold overrideShutdown in Hr.
    by destruct (ov_External o). }
  destruct (ic_ExternalOnly cfg) eqn:Honly; [by apply wp_ret|].
  apply wp_try_bind, wp_computeInstance; [done| |done].
  intros _ [i|e]; [|done]. apply wp_ret. intros [= Hi]. split_and!; [done..|].
  exists i. split; [done|]. rewrite app_nil_r. case_decide as Hp;
    [by rewrite bool_decide_eq_true_2 by done|by rewrite bool_decide_eq_false_2 by done].
Qed.

Lemma stopped_spec i : stopped i = bool_decide (inst_State i ∈ ["stopping"; "stopped"]).
Proof. unfold stopped. rewrite <-bool_decide_or. apply bool_decide_ext. set_solver. Qed.

(** A node is reported shut down, or running, only when no override is
    external, the API is in use and it returned the instance; and the answer is
    then whether the instance is stopping or stopped. *)
Theorem shutdown_iff_stopped providerID
    (Hid : providerID ≠ "") (Hclient : p_client p = true) :
  wp (InstanceShutdownByProviderID p providerID) (λ t o, ∀ b,
    o = Returned (Ok b) ↔
    (∀ ov, getInstanceOverrideByProviderID cfg providerID = Some ov → ov_External ov = false) ∧
    ic_ExternalOnly cfg = false ∧
    ∃ i, t = [instance_lookup (TrimPrefix providerID providerPrefix) (Ok i)] ∧
      b = bool_decide (inst_State i ∈ ["stopping"; "stopped"])).
Proof.
  unfold InstanceShutdownByProviderID, overridden. fold cfg.
  destruct (getInstanceOverrideByProviderID cfg providerID ≫= overrideShutdown) as [r|] eqn:Hr.
  { destruct (getInstanceOverrideByProviderID cfg providerID) as [ov|]; [|done].
    simpl in Hr. unfold overrideShutdown in Hr. destruct (ov_External ov) eqn:Hx; [|done].
    injection Hr as <-. apply wp_ret. split; [naive_solver|].
    intros (H & _). specialize (H ov eq_refl). congruence. }
  assert (∀ ov, getInstanceOverrideByProviderID cfg providerID = Some ov →
    ov_External ov = false) as Hov.
  { intros ov Hov. rewrite Hov in Hr. simpl in Hr. unfold overrideShutdown in Hr.
    by destruct (ov_External ov). }
  destruct (ic_ExternalOnly cfg); [apply wp_ret; naive_solver|].
  unfold computeInstanceByProviderID, formatProviderID, exo.
  rewrite bool_decide_eq_false_2, Hclient by done. apply wp_vis. intros r.
  destruct r as [i|e]; apply wp_ret; intros b.
  - split; [intros [= <-]; rewrite stopped_spec; eauto|]. intros (_ & _ & i' & Ht & ->).
    apply (f_equal (omap as_instance)) in Ht. injection Ht as ->. by rewrite stopped_spec.
  - split; [done|]. intros (_ & _ & i & Ht & _).
    by apply (f_equal (omap as_instance)) in Ht.
Qed.
End nodes.

(** ** The two generations of the interface *)

(** A cluster and a zone in which every lookup has a fixed answer. *)
Record world := {
  w_instances : UUID → result ComputeInstance;
  w_types : UUID → result InstanceType;
  w_nodes : string → option Node * option error;
}.

Definition unexpected {A} : result A := Err (ErrorNew "unexpected call" []).

Definition answer_exo (w : world) {X} (e : exoE X) : X :=
  match e with
  | ApiGetInstance id => w_instances w id
  | ApiGetInstanceType id => w_types w id
  | ApiCreateLoadBalancer _ | ApiAddServiceToLoadBalancer _ _ | ApiDeleteLoadBalancer _
  | ApiDeleteLoadBalancerService _ _ | ApiUpdateLoadBalancer _ _
  | ApiUpdateLoadBalancerService _ _ _ | ApiWait _ _ => unexpected
  | ApiGetLoadBalancer _ => unexpected
  | ApiListInstances => unexpected
  | ApiListLoadBalancers => unexpected
  | ApiListSKSClusters => unexpected
  end.

Definition answer (w : world) X (e : ccmE X) (s : ()) : X * () :=
  match e in ccmE X return X * () with
  | ExoCall e => (answer_exo w e, s)
  | KubeCall e =>
      (match e in kubeE X return X with
       | KubeGetNode name => w_nodes w name
       | KubePatchService _ _ _ => unexpected
       | KubeUpdateApproval _ _ => unexpected
       end, s)
  | HostCall e =>
      (match e in hostE X return X with
       | LookupEnv _ => None
       | MetadataFromCdRom _ => unexpected
       | MetadataGet _ => unexpected
       end, s)
  end.

(** What a program returns in a world. *)
Definition yields (w : world) {A} (m : prog ccmE (result A)) (a : A) : Prop :=
  run (answer w) m () = (Returned (Ok a), ()).

Section generations.
Context {unicode : UnicodeTables} {regexp : Regexp}.
Context (p : cloudProvider) (w : world).
Let cfg := cc_Instances (p_cfg p).

(** The pure address computation of the second generation, in the terms of the
    first. *)
Lemma nodeAddressesFromInstance_eq node i :
  nodeAddressesFromInstance node i =
  [{| na_Type := NodeHostName; na_Address := inst_Name i |}] ++
  match (if bool_decide (0 < length (inst_PrivateNetworks i))%nat
         then node_Annotations node !! AnnotationAlphaProvidedIPAddr else None) with
  | Some ip => [{| na_Type := NodeInternalIP; na_Address := ip |}] ++ publicAddresses true i
  | None => publicAddresses false i
  end.
Proof.
  unfold nodeAddressesFromInstance, publicAddresses. cbv zeta.
  destruct (bool_decide (0 < _)%nat); [destruct (node_Annotations node !! _)|];
    destruct (inst_PublicIP i); case_bool_decide; reflexivity.
Qed.

Lemma yields_ret {A} (a : A) : yields w (mret (Ok a)) a.
Proof. done. Qed.

Lemma run_bind {S A B} (h : ∀ X, ccmE X → S → X * S) (m : prog ccmE A) (f : A → prog ccmE B) s :
  run h (m ≫= f) s =
  match run h m s with
  | (Returned a, s') => run h (f a) s'
  | (Halted e, s') => (Halted e, s')
  end.
Proof.
  revert s. induction m as [a|e|X e k IH]; intros s; simpl; [done..|].
  destruct (h X e s) as [x s']. apply IH.
Qed.

Lemma yields_try_bind {A B} (m : prog ccmE (result A)) (f : A → prog ccmE (result B)) b :
  yields w (try_bind m f) b ↔ ∃ a, yields w m a ∧ yields w (f a) b.
Proof.
  unfold yields, try_bind. rewrite run_bind.
  destruct (run _ m ()) as [[[a|e]|h] []]; simpl; split.
  - intros H. by exists a.
  - by intros (? & [= <-] & ?).
  - done.
  - by intros (? & ? & _).
  - done.
  - by intros (? & ? & _).
Qed.

Lemma yields_mret {A} (a b : A) : yields w (mret (Ok a)) b ↔ a = b.
Proof. unfold yields. simpl. split; [by intros [= ->]|by intros ->]. Qed.

Lemma yields_GetInstance id i :
  yields w (exo p (ApiGetInstance id)) i ↔ p_client p = true ∧ w_instances w id = Ok i.
Proof.
  unfold yields, exo. destruct (p_client p); simpl; split;
    [by intros [= ->]|by intros [_ ->]|done|by intros [? _]].
Qed.

Lemma yields_GetInstanceType id t :
  yields w (exo p (ApiGetInstanceType id)) t ↔ p_client p = true ∧ w_types w id = Ok t.
Proof.
  unfold yields, exo. destruct (p_client p); simpl; split;
    [by intros [= ->]|by intros [_ ->]|done|by intros [? _]].
Qed.

Lemma yields_computeInstance pid i :
  yields w (computeInstanceByProviderID p pid) i ↔
  pid ≠ "" ∧ p_client p = true ∧ w_instances w (TrimPrefix pid providerPrefix) = Ok i.
Proof.
  unfold computeInstanceByProviderID, formatProviderID. rewrite yields_try_bind.
  case_bool_decide as Hid.
  - split; [by intros (? & ? & _)|by intros [? _]].
  - setoid_rewrite yields_GetInstance. split.
    + by intros (? & [= <-] & ?).
    + intros [_ ?]. by exists (TrimPrefix pid providerPrefix).
Qed.

(** A node being registered: the API server knows it by its name, it has no provider
    ID yet, its instance's ID is its system UUID, and no override claims that ID.
    If the instance has private networks, the API server also knows the node by
    the exact name of the instance, which need not be that of the node. *)
Record registering (node : Node) : Prop := {
  reg_kclient : p_kclient p = true;
  reg_fresh : node_ProviderID node = "";
  reg_name : w_nodes w (node_Name node) = (Some node, None);
  reg_instance i : w_instances w (TrimPrefix (node_SystemUUID node) providerPrefix) = Ok i →
    inst_ID i = node_SystemUUID node ∧
    ((0 < length (inst_PrivateNetworks i))%nat → (w_nodes w (inst_Name i)).1 = Some node);
  reg_unclaimed : getInstanceOverrideByProviderID cfg (node_SystemUUID node) = None;
}.

Lemma nodeInstanceOverride_fresh node :
  node_ProviderID node = "" → nodeInstanceOverride p node = getInstanceOverride cfg (node_Name node).
Proof. intros H. unfold nodeInstanceOverride. by rewrite H. Qed.

Lemma yields_overridden {A} c ov (answer : instancesOverrideConfig → option (result A)) d api a :
  yields w (overridden c ov answer d api) a ↔
  match ov ≫= answer with
  | Some r => r = Ok a
  | None => if ic_ExternalOnly c then d = Ok a else yields w api a
  end.
Proof.
  unfold overridden. destruct (ov ≫= answer) as [r|]; [|destruct (ic_ExternalOnly c)];
    [..|done]; unfold yields; simpl; (split; [by intros [= ->]|by intros ->]).
Qed.

Lemma yields_node_id node :
  registering node →
  yields w (r ← kube p (KubeGetNode (node_Name node));
    match r with
    | (_, Some err) =>
        mret (Err (ErrorfS "failed to retrieve node %s from the apiserver: %s" [node_Name node] err))
    | (Some node, None) => mret (Ok (node_SystemUUID node))
    | (None, None) => Halt NilDeref
    end) (node_SystemUUID node).
Proof.
  intros Hr. unfold yields, kube. rewrite (reg_kclient _ Hr). simpl.
  by rewrite (reg_name _ Hr).
Qed.

(** What the second generation reads from the API for a node being registered. *)
Lemma yields_apiMetadata node ov meta :
  node_ProviderID node = "" →
  yields w (apiMetadata p node ov) meta →
  ∃ i, node_SystemUUID node ≠ "" ∧ p_client p = true ∧
    w_instances w (TrimPrefix (node_SystemUUID node) providerPrefix) = Ok i ∧
    meta_ProviderID meta = providerPrefix +:+ inst_ID i ∧
    meta_NodeAddresses meta = (if bool_decide (length (metaAddresses ov) = 0%nat)
                               then nodeAddressesFromInstance node i else metaAddresses ov) ∧
    meta_Region meta = p_zone p ∧
    (if bool_decide (metaType ov = "") then
       ∃ tid t, inst_InstanceType i = Some tid ∧ w_types w tid = Ok t ∧
         meta_InstanceType meta = labelReplaceAllString (getInstanceTypeName (it_Family t) (it_Size t))
     else meta_InstanceType meta = metaType ov).
Proof.
  intros Hf. unfold apiMetadata, computeInstanceByNode. rewrite Hf. cbv zeta.
  rewrite bool_decide_eq_true_2 by done.
  intros (i & (Hid & Hc & Hi)%yields_computeInstance & Hm)%yields_try_bind.
  apply yields_try_bind in Hm as (type & Ht & <-%yields_mret). simpl.
  exists i. split_and!; [done..|].
  case_bool_decide; [|symmetry; by apply yields_mret].
  destruct (inst_InstanceType i) as [tid|]; [|done].
  apply yields_try_bind in Ht as (t & [_ Ht]%yields_GetInstanceType & <-%yields_mret). eauto.
Qed.

Lemma yields_addresses node i :
  registering node → ic_ExternalOnly cfg = false → p_client p = true →
  node_SystemUUID node ≠ "" →
  w_instances w (TrimPrefix (node_SystemUUID node) providerPrefix) = Ok i →
  yields w (NodeAddressesByProviderID p (node_SystemUUID node)) (nodeAddressesFromInstance node i).
Proof.
  intros Hr Honly Hc Hid Hi. unfold NodeAddressesByProviderID. apply yields_overridden.
  fold cfg. rewrite (reg_unclaimed _ Hr). simpl. rewrite Honly.
  apply yields_try_bind. exists i. split; [by apply yields_computeInstance|].
  rewrite nodeAddressesFromInstance_eq, Hc. simpl.
  destruct (bool_decide (0 < _)%nat) eqn:Hn; [apply bool_decide_eq_true in Hn|done].
  unfold yields, providedIP, kube. rewrite (reg_kclient _ Hr). simpl.
  rewrite (proj2 (reg_instance _ Hr _ Hi) Hn). simpl. by destruct (node_Annotations node !! _).
Qed.

Lemma yields_type node i tid t :
  registering node → ic_ExternalOnly cfg = false → p_client p = true →
  node_SystemUUID node ≠ "" →
  w_instances w (TrimPrefix (node_SystemUUID node) providerPrefix) = Ok i →
  inst_InstanceType i = Some tid → w_types w tid = Ok t →
  yields w (InstanceTypeByProviderID p (node_SystemUUID node))
    (labelReplaceAllString (getInstanceTypeName (it_Family t) (it_Size t))).
Proof.
  intros Hr Honly Hc Hid Hi Ht Hty. unfold InstanceTypeByProviderID. apply yields_overridden.
  fold cfg. rewrite (reg_unclaimed _ Hr). simpl. rewrite Honly.
  apply yields_try_bind. exists i. split; [by apply yields_computeInstance|]. rewrite Ht.
  apply yields_try_bind. exists t. split; [by apply yields_GetInstanceType|done].
Qed.

Lemma yields_ID node :
  registering node → ic_ExternalOnly cfg = false →
  (∀ o, getInstanceOverride cfg (node_Name node) = Some o → ov_External o = false) →
  yields w (InstanceID p (node_Name node)) (node_SystemUUID node).
Proof.
  intros Hr Honly Hov. unfold InstanceID. apply yields_overridden. fold cfg. rewrite Honly.
  assert (getInstanceOverride cfg (node_Name node) ≫= overrideID = None) as ->.
  { destruct (getInstanceOverride _ _) as [o|]; [|done]. simpl. unfold overrideID.
    by rewrite (Hov o eq_refl). }
  by apply yields_node_id.
Qed.

Lemma yields_zone node :
  registering node → ic_ExternalOnly cfg = false →
  (∀ o, getInstanceOverride cfg (node_Name node) = Some o → ov_External o = false) →
  yields w (GetZoneByNodeName p (node_Name node)) {| zone_Region := p_zone p |}.
Proof.
  intros Hr Honly Hov. unfold GetZoneByNodeName. apply yields_overridden. fold cfg. rewrite Honly.
  assert (getInstanceOverride cfg (node_Name node) ≫= overrideZone = None) as ->.
  { destruct (getInstanceOverride _ _) as [o|]; [|done]. simpl. unfold overrideZone.
    by rewrite (Hov o eq_refl). }
  unfold yields, kube. rewrite (reg_kclient _ Hr). simpl. rewrite (reg_name _ Hr).
  unfold GetZoneByProviderID. apply yields_overridden. fold cfg.
  rewrite (reg_unclaimed _ Hr). simpl. by rewrite Honly.
Qed.

(** An external override answers both generations alike. *)
Lemma external_generations node o :
  getInstanceOverride cfg (node_Name node) = Some o → ov_External o = true →
  yields w (InstanceID p (node_Name node))
    (if bool_decide (ov_ExternalID o = "") then defaultInstanceOverrideExternalID (ov_Name o)
     else ov_ExternalID o) ∧
  yields w (NodeAddresses p (node_Name node)) (metaAddresses (Some o)) ∧
  yields w (InstanceType_ p (node_Name node)) (metaType (Some o)) ∧
  yields w (GetZoneByNodeName p (node_Name node))
    {| zone_Region := if bool_decide (ov_Region o = "") then "external" else ov_Region o |}.
Proof.
  intros Ho Hx. split_and!; apply yields_overridden; fold cfg; rewrite Ho; simpl.
  - unfold overrideID. rewrite Hx. do 2 case_bool_decide; try done.
  - unfold overrideAddresses. rewrite Hx. destruct (ov_Addresses o); done.
  - unfold overrideType. rewrite Hx. by case_bool_decide.
  - unfold overrideZone. rewrite Hx. by do 2 case_bool_decide.
Qed.

Section internal.
Context (node : Node) (i : ComputeInstance).
Let ov := getInstanceOverride cfg (node_Name node).
Context (Hreg : registering node) (Honly : ic_ExternalOnly cfg = false).
Context (Hov : ∀ o, ov = Some o → ov_External o = false).
Context (Hid : node_SystemUUID node ≠ "") (Hc : p_client p = true).
Context (Hi : w_instances w (TrimPrefix (node_SystemUUID node) providerPrefix) = Ok i).

(** Otherwise the addresses are those of the override, else those of the API. *)
Lemma internal_addresses :
  yields w (NodeAddresses p (node_Name node))
    (if bool_decide (length (metaAddresses ov) = 0%nat)
     then nodeAddressesFromInstance node i else metaAddresses ov).
Proof.
  unfold NodeAddresses. apply yields_overridden. fold cfg. fold ov. rewrite Honly.
  destruct (ov ≫= overrideAddresses) as [r|] eqn:HovA.
  - destruct ov as [o|]; [|done]. simpl in HovA |- *. unfold overrideAddresses in HovA.
    rewrite (Hov o eq_refl) in HovA. destruct (ov_Addresses o); [done|]. by injection HovA as <-.
  - rewrite bool_decide_eq_true_2.
    + apply yields_try_bind. exists (node_SystemUUID node).
      split; [by apply yields_ID|by apply yields_addresses].
    + destruct ov as [o|]; [|done]. simpl in HovA |- *. unfold overrideAddresses in HovA.
      by destruct (ov_Addresses o).
Qed.

(** And so is the type. *)
Lemma internal_type type :
  (if bool_decide (metaType ov = "") then
     ∃ tid t, inst_InstanceType i = Some tid ∧ w_types w tid = Ok t ∧
       type = labelReplaceAllString (getInstanceTypeName (it_Family t) (it_Size t))
   else type = metaType ov) →
  yields w (InstanceType_ p (node_Name node)) type.
Proof.
  intros HT. unfold InstanceType_. apply yields_overridden. fold cfg. fold ov. rewrite Honly.
  destruct (ov ≫= overrideType) as [r|] eqn:HovT.
  - destruct ov as [o|]; [|done]. simpl in HovT, HT. unfold overrideType in HovT.
    rewrite (Hov o eq_refl) in HovT, HT. case_bool_decide; [|done].
    case_bool_decide; [done|]. rewrite HT. by injection HovT as <-.
  - assert (metaType ov = "") as Hmt.
    { destruct ov as [o|]; [|done]. simpl in HovT |- *. unfold overrideType in HovT.
      rewrite (Hov o eq_refl) in HovT |- *. by case_bool_decide. }
    rewrite bool_decide_eq_true_2 in HT by done. destruct HT as (tid & t & Ht & Hty & ->).
    apply yields_try_bind. exists (node_SystemUUID node).
    split; [by apply yields_ID|by eapply yields_type].
Qed.
End internal.

(** C24: the two generations of the interface agree on a node being registered:
    whatever metadata [InstancesV2] gives a node without a provider ID, the
    methods of [Instances] and [Zones] give the same provider ID, addresses, type
    and region. [registering] says when: the API server knows the node by its
    name, its UUID is the ID of its instance and no override claims that ID; and
    an instance that has private networks bears a name by which the API server
    finds the node, for it is by that name that [NodeAddressesByProviderID] reads
    the kubelet's address ([generations_differ] is a node "foo" of an instance
    "Foo", whose internal addresses differ). *)
Theorem generations_agree node meta
    (Hreg : registering node)
    (Hmeta : yields w (InstanceMetadata_ p node) meta) :
  (∃ id, yields w (InstanceID p (node_Name node)) id ∧
         meta_ProviderID meta = providerPrefix +:+ id) ∧
  yields w (NodeAddresses p (node_Name node)) (meta_NodeAddresses meta) ∧
  yields w (InstanceType_ p (node_Name node)) (meta_InstanceType meta) ∧
  yields w (GetZoneByNodeName p (node_Name node)) {| zone_Region := meta_Region meta |}.
Proof.
  unfold InstanceMetadata_ in Hmeta. cbv zeta in Hmeta.
  rewrite nodeInstanceOverride_fresh in Hmeta by apply Hreg.
  apply yields_overridden in Hmeta. fold cfg in Hmeta.
  set (ov := getInstanceOverride cfg (node_Name node)) in *.
  destruct (ov ≫= _) as [r|] eqn:Hr.
  - destruct ov as [o|] eqn:Ho; [|done]. simpl in Hr.
    destruct (ov_External o) eqn:Hx; [|done]. injection Hr as <-. injection Hmeta as <-.
    destruct (external_generations node o Ho Hx) as (HI & HA & HT & HZ).
    split_and!; [eexists; split; [exact HI|reflexivity]|exact HA|exact HT|exact HZ].
  - destruct (ic_ExternalOnly cfg) eqn:Honly; [done|].
    assert (∀ o, ov = Some o → ov_External o = false) as Hov.
    { intros o Ho. rewrite Ho in Hr. simpl in Hr. by destruct (ov_External o). }
    apply yields_apiMetadata in Hmeta as (i & Hid & Hc & Hi & HP & HA & HR & HT); [|apply Hreg].
    destruct (reg_instance _ Hreg _ Hi) as [HI _]. rewrite HP, HA, HR, HI. split_and!.
    + exists (node_SystemUUID node). split; [by apply yields_ID|done].
    + by apply internal_addresses.
    + by apply (internal_type node i).
    + by apply yields_zone.
Qed.
End generations.
