(* ===== verification/CSR.v ===== *)
(** exoscale/sks_agent_runner_node_csr_validation.go: the SKS agent that approves
    the certificate signing requests of cluster nodes. Decoding PEM blocks and
    X.509 requests is the parameter [X509]; the watch of the API server is a
    sequence of inputs to a state machine. *)
From S2P Require Import Prelude GoErrors GoStrings GoNet Effects Egoscale Kube InstancesConfig.
From S2P Require Import CloudConfig Instances.

(** [x509.CertificateRequest] *)
Record CertificateRequest := {
  cr_DNSNames : list string;
  cr_IPAddresses : list IP;
}.

Class X509 := {
  (** [pem.Decode]: the type and contents of the first block *)
  pem_Decode : string → option (string * string);
  x509_ParseCertificateRequest : string → result CertificateRequest;
}.

Definition sksAgentNodeCSRValidationApprovalReason : string := "ExoscaleCloudControllerApproved".
Definition sksAgentNodeCSRValidationApprovalMessage : string :=
  "This CSR was approved by the Exoscale Cloud Controller Manager".

Definition sksAgentNodeCSRValidationRequiredGroups : list string :=
  ["system:authenticated"; "system:nodes"].

Definition hasRequiredGroups (csr : CertificateSigningRequest) : bool :=
  forallb (λ expected, existsb (λ actual, bool_decide (expected = actual)) (csr_Groups csr))
    sksAgentNodeCSRValidationRequiredGroups.

(** The CSR with the approval condition appended. *)
Definition approved (csr : CertificateSigningRequest) : CertificateSigningRequest := {|
  csr_Name := csr_Name csr; csr_Request := csr_Request csr; csr_Groups := csr_Groups csr;
  csr_Conditions := csr_Conditions csr ++ [{|
    cond_Type := "Approved"; cond_Status := "True";
    cond_Reason := sksAgentNodeCSRValidationApprovalReason;
    cond_Message := sksAgentNodeCSRValidationApprovalMessage |}] |}.

Section agent.
Context {unicode : UnicodeTables} {x509 : X509}.
Context (p : cloudProvider).

Definition parseCSR (pemData : string) : result CertificateRequest :=
  match pem_Decode pemData with
  | Some (type, bytes) =>
      if bool_decide (type ≠ "CERTIFICATE REQUEST")
      then Err (ErrorNew "PEM block type must be CERTIFICATE REQUEST" [])
      else x509_ParseCertificateRequest bytes
  | None => Err (ErrorNew "PEM block type must be CERTIFICATE REQUEST" [])
  end.

(** The addresses an instance may request a certificate for (lines 119-139). *)
Definition nodeAddrs (instance : ListedInstance) : prog ccmE (list string) :=
  let addrs := match li_PublicIP instance with
               | Some _ => [IP_String (li_PublicIP instance)]
               | None => []
               end ++
               (if bool_decide (li_Ipv6Address instance ≠ "") then [li_Ipv6Address instance] else []) in
  if bool_decide (0 < length (li_PrivateNetworks instance))%nat then
    ip ← providedIP p (li_Name instance);
    mret (addrs ++ match ip with Some providedIP => [providedIP] | None => [] end)
  else mret addrs.

Definition allContained (addrs : list string) (ips : list IP) : bool :=
  forallb (λ ip, existsb (λ a, bool_decide (a = IP_String ip)) addrs) ips.

(** The loop over the instances (lines 116-152): each one with the requested name
    decides anew. *)
Fixpoint checkInstances (dnsName : string) (ips : list IP) (csrOK : bool)
    (instances : list ListedInstance) : prog ccmE bool :=
  match instances with
  | [] => mret csrOK
  | instance :: instances =>
      if EqualFold (li_Name instance) dnsName then
        addrs ← nodeAddrs instance;
        checkInstances dnsName ips (allContained addrs ips) instances
      else checkInstances dnsName ips csrOK instances
  end.

(** The handling of one pending CSR (lines 82-177); every [continue] returns. *)
Definition handleCSR (csr : CertificateSigningRequest) : prog ccmE () :=
  if bool_decide (0 < length (csr_Conditions csr))%nat then mret ()
  else if negb (hasRequiredGroups csr) then mret ()
  else
    match parseCSR (csr_Request csr) with
    | Err _ => mret ()
    | Ok parsedCSR =>
        match cr_DNSNames parsedCSR with
        | [dnsName] =>
            r ← exo p ApiListInstances;
            match r with
            | Err _ => mret ()
            | Ok instances =>
                csrOK ← checkInstances dnsName (cr_IPAddresses parsedCSR) false instances;
                if negb csrOK then mret ()
                else _ ← kube p (KubeUpdateApproval (csr_Name csr) (approved csr)); mret ()
            end
        | _ => mret ()
        end
    end.

(** ** The watch loop *)

(** An object delivered by the watch. *)
Inductive watch_object :=
| ObjectCSR (csr : CertificateSigningRequest)
| ObjectOther.

Record watch_event := {
  ev_Type : string;
  ev_Object : watch_object;
}.

(** What the loop waits for: the reply to [Watch], then the context, the closing
    of the channel or an event. *)
Inductive agent_input :=
| WatchReply (r : result ())
| ContextDone
| ChannelClosed
| WatchEvent (e : watch_event).

Inductive agent_state := Connecting | Watching | Stopped.

#[export] Instance agent_state_eq_dec : EqDecision agent_state.
Proof. solve_decision. Defined.

Definition handleEvent (e : watch_event) : prog ccmE () :=
  if bool_decide (ev_Type e ≠ "ADDED") then mret ()
  else match ev_Object e with
       | ObjectCSR csr => handleCSR csr
       | ObjectOther => mret ()
       end.

(** One turn of [run]; [None] when the loop is not waiting for that input. *)
Definition agent_step (st : agent_state) (i : agent_input) : option (prog ccmE agent_state) :=
  match st, i with
  | Connecting, WatchReply (Err _) => Some (mret Connecting)
  | Connecting, WatchReply (Ok _) => Some (mret Watching)
  | Watching, ContextDone => Some (mret Stopped)
  | Watching, ChannelClosed => Some (mret Connecting)
  | Watching, WatchEvent e => Some (handleEvent e ≫= λ _, mret Watching)
  | _, _ => None
  end.

Fixpoint agent_run (st : agent_state) (inputs : list agent_input) : prog ccmE agent_state :=
  match inputs with
  | [] => mret st
  | i :: inputs =>
      match agent_step st i with
      | Some m => m ≫= λ st', agent_run st' inputs
      | None => agent_run st inputs
      end
  end.
End agent.
