(* ===== verification/CSRProps.v ===== *)
(** Properties of the CSR validation agent: what an approved request was checked
    against, whatever the API servers replied, and when the agent stops. *)
From S2P Require Import Prelude GoErrors GoStrings GoNet Effects Egoscale Kube InstancesConfig.
From S2P Require Import CloudConfig Instances CSR.

Section csr.
Context {unicode : UnicodeTables} {x509 : X509}.
Context (p : cloudProvider).

(** A node object, or pointer, returned by the API server for [name]. *)
Definition node_read (t : list (call ccmE)) (name : string) (node : Node) : Prop :=
  ∃ err, Call (KubeCall (KubeGetNode name)) (Some node, err) ∈ t.

(** The addresses an instance can vouch for: its own, and the one the kubelet of
    its node announced when it is attached to a private network. *)
Definition address_of (t : list (call ccmE)) (instance : ListedInstance) (addr : string) : Prop :=
  (is_Some (li_PublicIP instance) ∧ addr = IP_String (li_PublicIP instance)) ∨
  (addr ≠ "" ∧ addr = li_Ipv6Address instance) ∨
  (li_PrivateNetworks instance ≠ [] ∧ ∃ node name,
     (name = li_Name instance ∨ name = ToLower (li_Name instance)) ∧
     node_read t name node ∧ node_Annotations node !! AnnotationAlphaProvidedIPAddr = Some addr).

Lemma wp_providedIP name :
  wp (providedIP p name) (λ t o, ∀ ip, o = Returned (Some ip) → ∃ node name',
    (name' = name ∨ name' = ToLower name) ∧ node_read t name' node ∧
    node_Annotations node !! AnnotationAlphaProvidedIPAddr = Some ip).
Proof.
  unfold providedIP, kube. destruct (p_kclient p); [|by apply wp_halt].
  apply wp_vis. intros [[node|] err]; simpl.
  - apply wp_ret. intros ip [= Hip]. exists node, name. split_and!; [by left| |done].
    exists err. by left.
  - apply wp_vis. intros [[node|] err']; apply wp_ret; simpl; intros ip [= Hip].
    exists node, (ToLower name). split_and!; [by right| |done]. exists err'. right. by left.
Qed.

Lemma address_of_mono t t' i a : (∀ c, c ∈ t → c ∈ t') → address_of t i a → address_of t' i a.
Proof.
  intros Ht [?|[?|(Hp & node & name & Hn & (err & Hr) & Ha)]]; [by left|by right; left|].
  right. right. split; [done|]. exists node, name. split_and!; [done| |done]. exists err. by apply Ht.
Qed.

Lemma wp_nodeAddrs i :
  wp (nodeAddrs p i) (λ t o, ∀ addrs, o = Returned addrs → ∀ a, a ∈ addrs → address_of t i a).
Proof.
  unfold nodeAddrs.
  set (own := match li_PublicIP i with Some _ => _ | None => _ end ++ _).
  assert (∀ t a, a ∈ own → address_of t i a) as Hown.
  { intros t a. unfold own. rewrite elem_of_app. intros [Ha|Ha].
    - destruct (li_PublicIP i) eqn:Hip; [|by apply elem_of_nil in Ha].
      apply list_elem_of_singleton in Ha as ->. left. rewrite Hip. split; [by eexists|done].
    - case_bool_decide; [|by apply elem_of_nil in Ha].
      apply list_elem_of_singleton in Ha as ->. right. by left. }
  case_bool_decide as Hpriv.
  - apply wp_bind. eapply wp_mono; [apply wp_providedIP|].
    intros t [ip|h] Hip; [|done]. apply wp_ret. rewrite app_nil_r. intros addrs [= <-] a.
    rewrite elem_of_app. intros [Ha|Ha]; [by apply Hown|].
    destruct ip as [ip|]; [|by apply elem_of_nil in Ha].
    apply list_elem_of_singleton in Ha as ->.
    destruct (Hip ip eq_refl) as (node & name & ? & ? & ?).
    right. right. split; [intros Hnil; rewrite Hnil in Hpriv; simpl in Hpriv; lia|].
    by exists node, name.
  - apply wp_ret. intros addrs [= <-] a. apply Hown.
Qed.

(** An instance that carries the requested name and all the requested addresses. *)
Definition vouches (t : list (call ccmE)) (dnsName : string) (ips : list IP)
    (instance : ListedInstance) : Prop :=
  EqualFold (li_Name instance) dnsName = true ∧
  ∀ ip, ip ∈ ips → address_of t instance (IP_String ip).

Lemma allContained_true addrs ips :
  allContained addrs ips = true ↔ ∀ ip, ip ∈ ips → IP_String ip ∈ addrs.
Proof.
  unfold allContained. rewrite forallb_forall. setoid_rewrite existsb_exists.
  setoid_rewrite bool_decide_eq_true. setoid_rewrite <-list_elem_of_In. naive_solver.
Qed.

(** The requested addresses are addresses the instance itself has. *)
Definition owns (instance : ListedInstance) (ips : list IP) : Prop :=
  ∀ ip, ip ∈ ips →
    (is_Some (li_PublicIP instance) ∧ IP_String ip = IP_String (li_PublicIP instance)) ∨
    (li_Ipv6Address instance ≠ "" ∧ IP_String ip = li_Ipv6Address instance).

Lemma wp_nodeAddrs_owns i ips :
  wp (nodeAddrs p i) (λ _ o, owns i ips → ∀ addrs, o = Returned addrs → allContained addrs ips = true).
Proof.
  intros t o Ht Hown. revert t o Ht. unfold nodeAddrs.
  set (own := match li_PublicIP i with Some _ => _ | None => _ end ++ _).
  assert (∀ rest, allContained (own ++ rest) ips = true) as Hall.
  { intros rest. apply allContained_true. intros ip Hip. rewrite elem_of_app. left.
    unfold own. rewrite elem_of_app.
    destruct (Hown ip Hip) as [[[a Ha] ->]|[Hne ->]]; [left|right].
    - rewrite Ha. by left.
    - rewrite bool_decide_eq_true_2 by done. by left. }
  change (wp (nodeAddrs p i) (λ _ o, ∀ addrs, o = Returned addrs → allContained addrs ips = true)).
  unfold nodeAddrs. fold own. case_match.
  - apply wp_bind. apply (wp_mono _ (λ _ _, True)); [by intros|].
    intros t [ip|h] _; [|done]. apply wp_ret. intros addrs [= <-]. apply Hall.
  - apply wp_ret. intros addrs [= <-]. by rewrite <-(app_nil_r own).
Qed.

Lemma vouches_mono t t' d ips i :
  (∀ c, c ∈ t → c ∈ t') → vouches t d ips i → vouches t' d ips i.
Proof. intros Ht [? H]. split; [done|]. intros ip Hip. by eapply address_of_mono, H. Qed.

(** The last listed instance of a name, which decides. *)
Definition last_named (dnsName : string) (l : list ListedInstance) : option ListedInstance :=
  last (filter (λ i, EqualFold (li_Name i) dnsName = true) l).

Lemma last_named_elem d l i : last_named d l = Some i → i ∈ l.
Proof. intros Hi%last_Some_elem_of. by apply list_elem_of_filter in Hi as [_ ?]. Qed.

Lemma wp_checkInstances dnsName ips b l :
  wp (checkInstances p dnsName ips b l) (λ t o, ∀ b', o = Returned b' →
    match last_named dnsName l with
    | Some i => (owns i ips → b' = true) ∧ (b' = true → vouches t dnsName ips i)
    | None => b' = b
    end).
Proof.
  revert b. induction l as [|i l IH]; intros b; simpl; [by apply wp_ret; intros b' [= ->]|].
  unfold last_named in *. destruct (EqualFold (li_Name i) dnsName) eqn:Hi.
  - rewrite filter_cons_True, last_cons by done. apply wp_bind. eapply wp_mono.
    { apply wp_and; [apply wp_nodeAddrs|apply (wp_nodeAddrs_owns i ips)]. }
    intros t [addrs|h] [Ha Hown]; [|done]. eapply wp_mono; [apply IH|].
    intros t' o Ho b' ->. specialize (Ho b' eq_refl). destruct (last _) as [j|].
    + destruct Ho as [H1 H2]. split; [done|]. intros Hb. eapply vouches_mono, H2, Hb.
      intros c Hc. rewrite elem_of_app. by right.
    + subst b'. split; [by intros H; apply Hown|]. intros Hc. split; [done|].
      intros ip Hip. rewrite allContained_true in Hc.
      eapply address_of_mono; [|by eapply Ha, Hc]. intros c Hc'. rewrite elem_of_app. by left.
  - rewrite filter_cons_False by congruence. apply IH.
Qed.

(** ** Approval *)

(** The approvals among the calls of a trace. *)
Definition as_approval (c : call ccmE) : option (string * CertificateSigningRequest) :=
  match call_event c with
  | KubeCall (KubeUpdateApproval name csr) => Some (name, csr)
  | _ => None
  end.

Definition approvals (t : list (call ccmE)) : list (string * CertificateSigningRequest) :=
  omap as_approval t.

(** Everything that was checked before a CSR was approved. *)
Definition justified (csr : CertificateSigningRequest) (t : list (call ccmE)) : Prop :=
  csr_Conditions csr = [] ∧
  "system:authenticated" ∈ csr_Groups csr ∧ "system:nodes" ∈ csr_Groups csr ∧
  ∃ parsedCSR dnsName instances instance,
    parseCSR (csr_Request csr) = Ok parsedCSR ∧ cr_DNSNames parsedCSR = [dnsName] ∧
    Call (ExoCall ApiListInstances) (Ok instances) ∈ t ∧ instance ∈ instances ∧
    vouches t dnsName (cr_IPAddresses parsedCSR) instance.

Lemma hasRequiredGroups_true csr :
  hasRequiredGroups csr = true ↔
  "system:authenticated" ∈ csr_Groups csr ∧ "system:nodes" ∈ csr_Groups csr.
Proof.
  unfold hasRequiredGroups. simpl. rewrite !andb_true_iff, !existsb_elem. tauto.
Qed.

Definition not_approval {X} (e : ccmE X) : Prop :=
  match e with KubeCall (KubeUpdateApproval _ _) => False | _ => True end.

Lemma approvals_nil t : Forall (on_call (@not_approval)) t → approvals t = [].
Proof.
  induction 1 as [|[X e x] t He _ IH]; [done|]. unfold approvals in *. simpl.
  destruct e as [? []|? []|]; simpl in *; done.
Qed.

Lemma ensures_providedIP name : ensures (@not_approval) (λ _, True) (providedIP p name).
Proof.
  unfold providedIP, kube. destruct (p_kclient p); [|done]. simpl. split; [done|].
  intros [[node|] err]; simpl; [done|]. split; [done|]. by intros [].
Qed.

Lemma ensures_checkInstances dnsName ips b l :
  ensures (@not_approval) (λ _, True) (checkInstances p dnsName ips b l).
Proof.
  revert b. induction l as [|i l IH]; intros b; simpl; [done|]. case_match; [|done].
  apply ensures_bind. unfold nodeAddrs. case_match.
  - apply ensures_bind. eapply ensures_mono; [apply ensures_providedIP|done|].
    intros [ip|h] _; [apply IH|done].
  - apply IH.
Qed.

(** What one CSR leads to. *)
Definition handled (csr : CertificateSigningRequest) (t : list (call ccmE)) : Prop :=
  approvals t = [] ∨ (approvals t = [(csr_Name csr, approved csr)] ∧ justified csr t).

Lemma wp_handleCSR csr : wp (handleCSR p csr) (λ t _, handled csr t).
Proof.
  unfold handleCSR. case_bool_decide as Hcond; [by apply wp_ret; left|].
  destruct (hasRequiredGroups csr) eqn:Hg; [|by apply wp_ret; left]. simpl.
  apply hasRequiredGroups_true in Hg as [Hg1 Hg2].
  destruct (parseCSR (csr_Request csr)) as [parsedCSR|e] eqn:Hparse; [|by apply wp_ret; left].
  destruct (cr_DNSNames parsedCSR) as [|dnsName [|??]] eqn:Hdns; [by apply wp_ret; left| |
    by apply wp_ret; left].
  apply wp_exo; [|by left]. intros [instances|e]; [|by apply wp_ret; left].
  apply wp_bind. eapply wp_mono.
  { apply wp_and; [apply wp_checkInstances|apply ensures_wp, ensures_checkInstances]. }
  intros t o [Hok [Hna%approvals_nil _]].
  destruct o as [[]|h]; [|by apply wp_ret; left; rewrite app_nil_r|by left]. simpl.
  specialize (Hok true eq_refl).
  destruct (last_named dnsName instances) as [i|] eqn:Hi; [|done].
  apply last_named_elem in Hi. destruct Hok as [_ Hv]. specialize (Hv eq_refl).
  unfold kube. destruct (p_kclient p); [|by apply wp_halt; left; rewrite app_nil_r].
  apply wp_vis. intros r. apply wp_ret. right. split.
  - unfold approvals in *. simpl. rewrite omap_app, Hna. done.
  - split_and!; [by destruct (csr_Conditions csr); [|simpl in Hcond; lia]|done|done|].
    exists parsedCSR, dnsName, instances, i. split_and!; [done|done|by left|done|].
    eapply vouches_mono; [|done]. intros c Hc. right. rewrite elem_of_app. by left.
Qed.

(** The CSRs among the added objects. *)
Definition added_csr (i : agent_input) : option CertificateSigningRequest :=
  match i with
  | WatchEvent e => if bool_decide (ev_Type e = "ADDED")
                    then match ev_Object e with ObjectCSR csr => Some csr | ObjectOther => None end
                    else None
  | _ => None
  end.

Lemma justified_mono csr t t' : (∀ c, c ∈ t → c ∈ t') → justified csr t → justified csr t'.
Proof.
  intros Ht (H1 & H2 & H3 & pc & d & ls & i & H4 & H5 & H6 & H7 & H8).
  split_and!; [done..|]. exists pc, d, ls, i. split_and!; [done|done|by apply Ht|done|].
  by eapply vouches_mono.
Qed.

(** Every approval of a trace answers an added CSR and is justified. *)
Definition all_justified (inputs : list agent_input) (t : list (call ccmE)) : Prop :=
  ∀ name csr', (name, csr') ∈ approvals t →
    ∃ csr, csr ∈ omap added_csr inputs ∧ name = csr_Name csr ∧ csr' = approved csr ∧
      justified csr t.

Lemma all_justified_nil inputs : all_justified inputs [].
Proof. by intros ? ? ?%elem_of_nil. Qed.

Lemma all_justified_app i inputs t t' :
  all_justified [i] t → all_justified inputs t' → all_justified (i :: inputs) (t ++ t').
Proof.
  intros Ht Ht' name csr' Hin. unfold approvals in Hin. rewrite omap_app in Hin.
  change (omap added_csr (i :: inputs)) with (omap added_csr ([i] ++ inputs)). rewrite omap_app.
  apply elem_of_app in Hin as [Hin|Hin];
    [destruct (Ht _ _ Hin) as (csr & Hc & Hn & Ha & Hj)
    |destruct (Ht' _ _ Hin) as (csr & Hc & Hn & Ha & Hj)];
    exists csr; (split_and!; [rewrite elem_of_app; tauto|done|done|]);
    (eapply justified_mono; [|done]); intros c; rewrite elem_of_app; tauto.
Qed.

Lemma handled_justified i csr t :
  added_csr i = Some csr → handled csr t → all_justified [i] t.
Proof.
  intros Hi [Hnil|[Heq Hj]] name csr' Hin.
  - rewrite Hnil in Hin. by apply elem_of_nil in Hin.
  - rewrite Heq in Hin. apply list_elem_of_singleton in Hin as [= -> ->].
    exists csr. split_and!; [|done..]. simpl. rewrite Hi. by left.
Qed.

(** C16: the agent approves a certificate only for a pending request of the
    required groups, under its own name and with nothing but the approval
    added, after some instance of the organisation was listed that carries the
    one DNS name requested and vouches for every requested address. *)
Theorem approval_justified st inputs :
  wp (agent_run p st inputs) (λ t _, all_justified inputs t).
Proof.
  revert st. induction inputs as [|i inputs IH]; intros st; cbn [agent_run].
  { apply wp_ret, all_justified_nil. }
  assert (∀ st t, all_justified [i] t →
    wp (agent_run p st inputs) (λ t' _, all_justified (i :: inputs) (t ++ t'))) as Hnext.
  { intros st' t Ht. eapply wp_mono; [apply IH|]. intros t' o. by apply all_justified_app. }
  assert (∀ st, wp (agent_run p st inputs) (λ t' _, all_justified (i :: inputs) t')) as Hskip.
  { intros st'. apply (Hnext st' []), all_justified_nil. }
  destruct st, i as [[|]| | |e]; try apply Hskip. cbn [agent_step].
  unfold handleEvent. case_bool_decide as Hadded; [apply Hskip|].
  destruct (ev_Object e) as [csr|] eqn:Ho; [|apply Hskip].
  assert (added_csr (WatchEvent e) = Some csr) as Hcsr.
  { simpl. by rewrite bool_decide_eq_true_2, Ho. }
  apply wp_bind, wp_bind. eapply wp_mono; [apply wp_handleCSR|].
  intros t [[]|h] Hh%(handled_justified _ _ _ Hcsr).
  - apply wp_ret. rewrite app_nil_r. by apply Hnext.
  - rewrite <-(app_nil_r t). by apply all_justified_app, all_justified_nil.
Qed.

(** ** Completeness *)

(** Reading a trace entry back as a successful listing of the instances. *)
Definition exo_listed {X} (e : exoE X) : X → option (list ListedInstance) :=
  match e with
  | ApiListInstances => λ r, match r with Ok l => Some l | Err _ => None end
  | _ => λ _, None
  end.

Definition as_listed (c : call ccmE) : option (list ListedInstance) :=
  match call_event c in ccmE X return X → _ with
  | ExoCall e => exo_listed e
  | _ => λ _, None
  end (call_reply c).

(** C32: what decides a pending request of the required groups for one DNS name is
    the last listed instance of that name: the agent sends exactly one approval
    when that instance itself has every requested address, and none unless it
    vouches for them (an address of its own, or the one announced by its kubelet)
    or when no instance has the name. It lists the instances first, and nothing is
    claimed when the listing fails or a missing client panics. *)
Theorem legitimate_approved csr parsedCSR dnsName
    (Hpending : csr_Conditions csr = [])
    (Hgroups : hasRequiredGroups csr = true)
    (Hparse : parseCSR (csr_Request csr) = Ok parsedCSR)
    (Hdns : cr_DNSNames parsedCSR = [dnsName]) :
  wp (handleCSR p csr) (λ t o, o = Returned () → ∃ c t', t = c :: t' ∧
    ∀ instances, as_listed c = Some instances →
      match last_named dnsName instances with
      | Some i =>
          (owns i (cr_IPAddresses parsedCSR) → approvals t' = [(csr_Name csr, approved csr)]) ∧
          (approvals t' ≠ [] → vouches t' dnsName (cr_IPAddresses parsedCSR) i)
      | None => approvals t' = []
      end).
Proof.
  unfold handleCSR. rewrite Hpending, Hgroups, Hparse, Hdns. simpl.
  apply wp_exo; [|done]. intros [instances|e]; [|by apply wp_ret; intros _; eexists _, _].
  apply wp_bind. eapply wp_mono.
  { apply wp_and; [apply wp_checkInstances|apply ensures_wp, ensures_checkInstances]. }
  intros t [b|h] [Hok [Hna%approvals_nil _]]; [|done]. specialize (Hok b eq_refl).
  destruct b; simpl.
  - unfold kube. destruct (p_kclient p); [|by apply wp_halt].
    apply wp_vis. intros r. apply wp_ret. intros _. eexists _, _. split; [done|].
    simpl. intros l [= <-]. destruct (last_named _ _) as [i|]; [|done]. split.
    + intros _. unfold approvals in *. by rewrite omap_app, Hna.
    + intros _. eapply vouches_mono; [|by apply Hok]. intros c Hc. rewrite elem_of_app. by left.
  - apply wp_ret. intros _. eexists _, _. split; [done|]. simpl. intros l [= <-].
    rewrite app_nil_r. destruct (last_named _ _) as [i|]; [|done].
    split; [intros Hown; by apply Hok in Hown|done].
Qed.

(** ** Termination *)

(** The inputs of an agent whose API server refuses the watch. *)
Definition refused (i : agent_input) : Prop :=
  match i with WatchReply (Err _) | ContextDone => True | _ => False end.

(** Cancelling the context stops the agent only while it watches: there it
    stops at once, without any further call, whereas an agent that cannot open
    the watch keeps trying however often the context is reported cancelled. *)
Theorem agent_stops_only_when_watching inputs :
  agent_run p Watching (ContextDone :: inputs) = Ret Stopped ∧
  (Forall refused inputs → agent_run p Connecting inputs = Ret Connecting).
Proof.
  split.
  - simpl. by induction inputs.
  - induction 1 as [|[[]| | |] inputs Hi _ IH]; simpl in *; done.
Qed.
End csr.
