(* ===== verification/Client.v ===== *)
(** exoscale/client.go, sks.go and the client methods of loadbalancer.go and
    instances.go: the Exoscale client whose credentials are refreshed from a
    file while other goroutines use it under a read-write lock. The client of
    egoscale is the record its options set; what it does with a request is an
    effect. *)
From stdpp Require Import gmultiset.
From S2P Require Import Prelude GoErrors GoStrings Effects Egoscale Kube InstancesConfig.
From S2P Require Import CloudConfig.

(** ** Clients of egoscale *)

(** The fields of [v3.Client] that the options of the provider set. *)
Record Client := {
  cl_apiKey : string;
  cl_apiSecret : string;
  cl_userAgent : string;
  cl_serverEndpoint : string;
}.

#[export] Instance Client_eq_dec : EqDecision Client.
Proof. solve_decision. Defined.

Definition CHGva2 : string := "https://api-ch-gva-2.exoscale.com/v2".

Definition with_userAgent (c : Client) (ua : string) : Client := {|
  cl_apiKey := cl_apiKey c; cl_apiSecret := cl_apiSecret c; cl_userAgent := ua;
  cl_serverEndpoint := cl_serverEndpoint c |}.

Definition WithEndpoint (c : Client) (endpoint : string) : Client := {|
  cl_apiKey := cl_apiKey c; cl_apiSecret := cl_apiSecret c; cl_userAgent := cl_userAgent c;
  cl_serverEndpoint := endpoint |}.

(** The user agents of the program and of egoscale, fixed when they are built. *)
Class UserAgents := {
  versionString : string;
  getDefaultUserAgent : string;
}.

Section new_client.
Context {ua : UserAgents}.

Inductive ClientOpt :=
| ClientOptWithEndpoint (endpoint : string)
| ClientOptWithUserAgent (ua : string).

Definition apply_opt (c : Client) (o : ClientOpt) : Client :=
  match o with
  | ClientOptWithEndpoint endpoint => WithEndpoint c endpoint
  | ClientOptWithUserAgent ua => with_userAgent c (ua +:+ " " +:+ getDefaultUserAgent)
  end.

Definition ErrMissingIncomplete : error := ErrorNew "missing or incomplete API credentials" [].

(** [NewClient(NewStaticCredentials(apiKey, apiSecret), opts...)] *)
Definition NewClient (apiKey apiSecret : string) (opts : list ClientOpt) : result Client :=
  if bool_decide (apiKey ≠ "") && bool_decide (apiSecret ≠ "") then
    Ok (foldl apply_opt {| cl_apiKey := apiKey; cl_apiSecret := apiSecret;
                           cl_userAgent := getDefaultUserAgent; cl_serverEndpoint := CHGva2 |} opts)
  else Err ErrMissingIncomplete.

(** The options the provider builds its clients with. *)
Definition clientOpts (apiEndpoint : string) : list ClientOpt :=
  (if bool_decide (apiEndpoint ≠ "") then [ClientOptWithEndpoint apiEndpoint] else []) ++
  [ClientOptWithUserAgent ("Exoscale-K8s-Cloud-Controller/" +:+ versionString)].
End new_client.

(** [exoscaleAPICredentials] *)
Record exoscaleAPICredentials := {
  cred_APIKey : string;
  cred_APISecret : string;
  cred_Name : string;
}.

(** ** Effects *)

(** The steps of a goroutine: on the fields and the lock of a
    [refreshableExoscaleClient], requests through a client, the credentials
    file and its watcher, starting the watching goroutine, and whatever else a
    handler calls. *)
Inductive clientE : Type → Type :=
| RLock : clientE ()
| RUnlock : clientE ()
| Lock : clientE ()
| Unlock : clientE ()
| LoadExo : clientE (option Client)
| StoreExo (c : Client) : clientE ()
| LoadCredentials : clientE exoscaleAPICredentials
| StoreCredentials (creds : exoscaleAPICredentials) : clientE ()
| Request {X} (c : Client) (e : exoE X) : clientE X
| GetZoneAPIEndpoint (c : Client) (zone : string) : clientE (result string)
| OpenFile (path : string) : clientE (result ())
| DecodeFile : clientE (result exoscaleAPICredentials)
| CloseFile : clientE ()
| NewWatcher : clientE (result ())
| WatcherAddDir (path : string) : clientE (result ())
| WatcherClose : clientE ()
| GoWatch (path zone : string) : clientE ()
| Outside {X} (e : ccmE X) : clientE X.

(** ** Requests *)

(** [c.RLock(); defer c.RUnlock(); body] *)
Definition rlocked {A} (body : prog clientE A) : prog clientE A :=
  _ ← trigger RLock; finally (trigger RUnlock) body.

(** [c.exo.e(...)] *)
Definition via {X} (e : exoE X) : prog clientE X :=
  exo ← trigger LoadExo;
  match exo with
  | Some c => trigger (Request c e)
  | None => Halt NilDeref
  end.

Definition OperationStateSuccess : string := "success".

(** The requests that start an operation wait for its success. *)
Definition awaited (e : exoE (result Operation)) : prog clientE (result Operation) :=
  rlocked (op ←? via e; via (ApiWait op [OperationStateSuccess])).

(** The methods of the client the provider holds. *)
Module refreshableExoscaleClient.
Definition CreateLoadBalancer (req : CreateLoadBalancerRequest) :
    prog clientE (result Operation) :=
  awaited (ApiCreateLoadBalancer req).

Definition AddServiceToLoadBalancer (id : UUID) (req : AddServiceToLoadBalancerRequest) :
    prog clientE (result Operation) :=
  awaited (ApiAddServiceToLoadBalancer id req).

Definition DeleteLoadBalancer (id : UUID) : prog clientE (result Operation) :=
  awaited (ApiDeleteLoadBalancer id).

Definition DeleteLoadBalancerService (id serviceID : UUID) : prog clientE (result Operation) :=
  awaited (ApiDeleteLoadBalancerService id serviceID).

Definition GetLoadBalancer (id : UUID) : prog clientE (result LoadBalancer) :=
  rlocked (via (ApiGetLoadBalancer id)).

Definition ListLoadBalancers : prog clientE (result (list LoadBalancer)) :=
  rlocked (via ApiListLoadBalancers).

Definition UpdateLoadBalancer (id : UUID) (req : UpdateLoadBalancerRequest) :
    prog clientE (result Operation) :=
  awaited (ApiUpdateLoadBalancer id req).

Definition UpdateLoadBalancerService (id serviceID : UUID) (req : UpdateLoadBalancerServiceRequest) :
    prog clientE (result Operation) :=
  awaited (ApiUpdateLoadBalancerService id serviceID req).

Definition GetInstance (id : UUID) : prog clientE (result ComputeInstance) :=
  rlocked (via (ApiGetInstance id)).

Definition GetInstanceType (id : UUID) : prog clientE (result InstanceType) :=
  rlocked (via (ApiGetInstanceType id)).

Definition ListInstances : prog clientE (result (list ListedInstance)) :=
  rlocked (via ApiListInstances).

Definition ListSKSClusters : prog clientE (result (list SKSCluster)) :=
  rlocked (via ApiListSKSClusters).

Definition Wait (op : Operation) (states : list string) : prog clientE (result Operation) :=
  rlocked (via (ApiWait op states)).
End refreshableExoscaleClient.

Import refreshableExoscaleClient.

(** The method behind each call of the interface [exoscaleClient]. *)
Definition refreshable {X} (e : exoE X) : prog clientE X :=
  match e in exoE X return prog clientE X with
  | ApiCreateLoadBalancer req => CreateLoadBalancer req
  | ApiAddServiceToLoadBalancer id req => AddServiceToLoadBalancer id req
  | ApiDeleteLoadBalancer id => DeleteLoadBalancer id
  | ApiDeleteLoadBalancerService id serviceID => DeleteLoadBalancerService id serviceID
  | ApiGetInstance id => GetInstance id
  | ApiGetInstanceType id => GetInstanceType id
  | ApiGetLoadBalancer id => GetLoadBalancer id
  | ApiListInstances => ListInstances
  | ApiListLoadBalancers => ListLoadBalancers
  | ApiListSKSClusters => ListSKSClusters
  | ApiUpdateLoadBalancer id req => UpdateLoadBalancer id req
  | ApiUpdateLoadBalancerService id serviceID req => UpdateLoadBalancerService id serviceID req
  | ApiWait op states => Wait op states
  end.

(** A handler of the provider, its Exoscale calls made through the client. *)
Fixpoint through_client {A} (p : prog ccmE A) : prog clientE A :=
  match p with
  | Ret a => Ret a
  | Halt h => Halt h
  | Vis e k =>
      match e in ccmE X return (X → prog clientE A) → prog clientE A with
      | ExoCall e => λ k, refreshable e ≫= k
      | e => λ k, Vis (Outside e) k
      end (λ x, through_client (k x))
  end.

(** ** Credentials *)

Section refresh.
Context {ua : UserAgents}.
(** [zoneCallback], and the fields [apiEndpoint] set at construction. *)
Context (zoneCallback : Client → string → prog clientE (result Client)).

(** A log message. *)
Definition log : prog clientE () := mret ().

(** After the refresh its message reads the credentials again, without the lock. *)
Definition refreshCredentialsFromFile (apiEndpoint path zone : string) : prog clientE () :=
  r ← trigger (OpenFile path);
  match r with
  | Err err => fatalf "failed to read credentials file %q: %v"
  | Ok _ =>
      finally (trigger CloseFile) (
        r ← trigger DecodeFile;
        match r with
        | Err err => log
        | Ok apiCredentials =>
            match NewClient (cred_APIKey apiCredentials) (cred_APISecret apiCredentials)
                    (clientOpts apiEndpoint) with
            | Err err => log
            | Ok client =>
                r ← zoneCallback client zone;
                match r with
                | Err err => log
                | Ok client =>
                    _ ← trigger Lock;
                    _ ← trigger (StoreExo client);
                    _ ← trigger (StoreCredentials apiCredentials);
                    _ ← trigger Unlock;
                    _ ← trigger LoadCredentials;
                    _ ← trigger LoadCredentials;
                    log
                end
            end
        end)
  end.

(** What the watching loop waits for; [op] is a bit set. *)
Inductive watch_input :=
| FsEvent (name : string) (op : Z)
| EventsClosed
| FsError
| ErrorsClosed
| ContextDone.

Definition fsnotify_Create : Z := 1.
Definition fsnotify_Write : Z := 2.

Definition refreshes (path name : string) (op : Z) : bool :=
  bool_decide (name = path) &&
  (bool_decide (Z.land op fsnotify_Write = fsnotify_Write) ||
   bool_decide (Z.land op fsnotify_Create = fsnotify_Create)).

Fixpoint watchLoop (apiEndpoint path zone : string) (inputs : list watch_input) :
    prog clientE () :=
  match inputs with
  | [] => mret ()
  | FsEvent name op :: inputs =>
      if refreshes path name op then
        _ ← refreshCredentialsFromFile apiEndpoint path zone;
        watchLoop apiEndpoint path zone inputs
      else watchLoop apiEndpoint path zone inputs
  | FsError :: inputs => watchLoop apiEndpoint path zone inputs
  | (EventsClosed | ErrorsClosed) :: _ => mret ()
  | ContextDone :: _ => _ ← trigger WatcherClose; mret ()
  end.

Definition watchCredentialsFile (apiEndpoint path zone : string) (inputs : list watch_input) :
    prog clientE () :=
  r ← trigger NewWatcher;
  match r with
  | Err err => fatalf "failed to watch credentials file %q: %v"
  | Ok _ =>
      r ← trigger (WatcherAddDir path);
      match r with
      | Err err => fatalf "failed to watch credentials file %q: %v"
      | Ok _ => watchLoop apiEndpoint path zone inputs
      end
  end.

(** The new object is the one the effects act on; its fields start empty. *)
Definition newRefreshableExoscaleClient (config : globalConfig) (zone : string) :
    prog clientE (result ()) :=
  let apiEndpoint := gc_APIEndpoint config in
  if bool_decide (gc_APIKey config ≠ "") && bool_decide (gc_APISecret config ≠ "") then
    _ ← trigger (StoreCredentials {| cred_APIKey := gc_APIKey config;
                                     cred_APISecret := gc_APISecret config; cred_Name := "" |});
    exo ←? mret (NewClient (gc_APIKey config) (gc_APISecret config) (clientOpts apiEndpoint));
    exo ←? zoneCallback exo zone;
    _ ← trigger (StoreExo exo);
    mret (Ok ())
  else if bool_decide (gc_APICredentialsFile config ≠ "") then
    _ ← refreshCredentialsFromFile apiEndpoint (gc_APICredentialsFile config) zone;
    _ ← trigger (GoWatch (gc_APICredentialsFile config) zone);
    mret (Ok ())
  else mret (Err (ErrorNew "incomplete or missing Exoscale API credentials" [])).
End refresh.

Definition switchZoneCallback (client : Client) (zone : string) : prog clientE (result Client) :=
  if bool_decide (zone = "") then mret (Ok client)
  else
    zoneEndpoint ←? trigger (GetZoneAPIEndpoint client zone);
    mret (Ok (WithEndpoint client zoneEndpoint)).

(** ** The shared object *)

(** The fields that the effects read and write. *)
Record fields := {
  f_exo : option Client;
  f_apiCredentials : exoscaleAPICredentials;
}.

Definition fields_zero : fields := {|
  f_exo := None;
  f_apiCredentials := {| cred_APIKey := ""; cred_APISecret := ""; cred_Name := "" |} |}.

(** Memory: loads return the fields, stores set them, other effects leave them
    alone and have any reply. *)
Definition memory : handler clientE fields := λ X e s x s',
  match e in clientE X return X → Prop with
  | LoadExo => λ x, x = f_exo s ∧ s' = s
  | StoreExo c => λ _, s' = {| f_exo := Some c; f_apiCredentials := f_apiCredentials s |}
  | LoadCredentials => λ x, x = f_apiCredentials s ∧ s' = s
  | StoreCredentials creds => λ _, s' = {| f_exo := f_exo s; f_apiCredentials := creds |}
  | _ => λ _, s' = s
  end x.

(** ** Goroutines *)

(** The goroutines of the process, those that hold the lock, and the object. *)
Record config := {
  threads : list (prog clientE ());
  readers : gmultiset nat;
  writer : option nat;
  object : fields;
}.

(** [sync.RWMutex]: what goroutine [i] may do to the lock. *)
Definition lock_step (i : nat) {X} (e : clientE X) (rs : gmultiset nat) (w : option nat)
    (rs' : gmultiset nat) (w' : option nat) : Prop :=
  match e with
  | RLock => w = None ∧ rs' = {[+ i +]} ⊎ rs ∧ w' = w
  | RUnlock => i ∈ rs ∧ rs' = rs ∖ {[+ i +]} ∧ w' = w
  | Lock => w = None ∧ rs = ∅ ∧ rs' = rs ∧ w' = Some i
  | Unlock => w = Some i ∧ rs' = rs ∧ w' = None
  | _ => rs' = rs ∧ w' = w
  end.

(** Some goroutine is about to take the write lock. *)
Definition writer_waiting (c : config) : Prop :=
  ∃ i k, threads c !! i = Some (Vis Lock k).

Definition is_RLock {X} (e : clientE X) : bool :=
  match e with RLock => true | _ => false end.

(** A step of some goroutine. [admits] is the policy of the lock for new readers:
    Go keeps them waiting while a writer does. *)
Inductive config_step (admits : config → Prop) (c : config) : config → Prop :=
| ConfigStep i X (e : clientE X) k x rs' w' s' :
    threads c !! i = Some (Vis e k) →
    (is_RLock e = true → admits c) →
    lock_step i e (readers c) (writer c) rs' w' →
    memory X e (object c) x s' →
    config_step admits c
      {| threads := <[i := k x]> (threads c); readers := rs'; writer := w'; object := s' |}.

(** The process once its client is built: one goroutine watches the
    credentials file, the others run handlers. *)
Definition initial (watcher : prog clientE ()) (handlers : list (prog ccmE ())) (s : fields) :
    config := {|
  threads := watcher :: (through_client <$> handlers);
  readers := ∅; writer := None; object := s |}.
