(* ===== verification/ClientProps.v ===== *)
(** Properties of the refreshable client: the goroutines that share it neither
    race nor deadlock, every request goes through the client that is current
    when it is made, and a refresh replaces client and credentials together or
    leaves them alone. *)
From stdpp Require Import gmultiset.
From S2P Require Import Prelude GoErrors GoStrings Effects Egoscale Kube InstancesConfig.
From S2P Require Import CloudConfig Client.

(** ** The locking discipline *)

(** Where a goroutine is: outside the lock, reading under it (with the client
    that is current), or writing under it. *)
Inductive mode :=
| Unlocked
| Reading (exo : option Client)
| Writing.

(** What a goroutine may do in a mode; only the watcher ([w]) may write. *)
Definition permitted (w : bool) (m : mode) {X} (e : clientE X) : Prop :=
  match e with
  | RLock => m = Unlocked
  | RUnlock | LoadExo => ∃ exo, m = Reading exo
  | Lock => w = true ∧ m = Unlocked
  | Unlock | StoreExo _ | StoreCredentials _ => w = true ∧ m = Writing
  | LoadCredentials => w = true
  | Request c _ => m = Reading (Some c)
  | _ => m = Unlocked
  end.

(** The modes it may then be in, given the reply. *)
Definition next (m : mode) {X} (e : clientE X) : X → mode → Prop :=
  match e in clientE X return X → mode → Prop with
  | RLock => λ _ m', ∃ exo, m' = Reading exo
  | RUnlock | Unlock => λ _ m', m' = Unlocked
  | Lock => λ _ m', m' = Writing
  | LoadExo => λ x m', m = Reading x ∧ m' = m
  | _ => λ _ m', m' = m
  end.

Fixpoint disciplined (w : bool) (m : mode) {A} (p : prog clientE A) : Prop :=
  match p with
  | Ret _ | Halt _ => m = Unlocked
  | Vis e k => permitted w m e ∧ ∀ x m', next m e x m' → disciplined w m' (k x)
  end.

Lemma disciplined_bind {A B} w m (f : A → prog clientE B) (p : prog clientE A) :
  disciplined w m p → (∀ a, disciplined w Unlocked (f a)) → disciplined w m (p ≫= f).
Proof.
  intros Hp Hf. revert m Hp. induction p as [a|h|X e k IH]; intros m Hp; simpl in *.
  - subst. apply Hf.
  - done.
  - destruct Hp as [He Hk]. split; [done|]. intros x m' Hx. by apply IH, Hk.
Qed.

Lemma disciplined_finally w m {A} q (p : prog clientE A) :
  disciplined w m p → disciplined w Unlocked q → disciplined w m (finally q p).
Proof.
  intros Hp Hq. revert m Hp. induction p as [a|h|X e k IH]; intros m Hp; simpl in *.
  - subst. by apply disciplined_bind.
  - subst. destruct h; [by apply disciplined_bind|done].
  - destruct Hp as [He Hk]. split; [done|]. intros x m' Hx. by apply IH, Hk.
Qed.

(** A body that only uses the client it read, under the read lock. *)
Fixpoint reads (exo : option Client) {A} (p : prog clientE A) : Prop :=
  match p with
  | Ret _ => True
  | Halt h => h = NilDeref
  | Vis e k => permitted false (Reading exo) e ∧
      ∀ x m', next (Reading exo) e x m' → m' = Reading exo ∧ reads exo (k x)
  end.

Lemma reads_bind {A B} exo (f : A → prog clientE B) (p : prog clientE A) :
  reads exo p → (∀ a, reads exo (f a)) → reads exo (p ≫= f).
Proof.
  intros Hp Hf. induction p as [a|h|X e k IH]; simpl in *; [apply Hf|done|].
  destruct Hp as [He Hk]. split; [done|]. intros x m' Hx. destruct (Hk x m' Hx).
  split; [done|by apply IH].
Qed.

Lemma reads_via {X} exo (e : exoE X) : reads exo (via e).
Proof.
  cbn. split; [by eexists|]. intros x m' [[= <-] ->]. split; [done|].
  destruct exo; cbn; [|done]. split; [done|]. by intros ? ? ->.
Qed.

Lemma reads_disciplined {A} w exo (p : prog clientE A) :
  reads exo p → disciplined w (Reading exo) (finally (trigger RUnlock) p).
Proof.
  assert (∀ k : () → prog clientE A, disciplined w Unlocked (k tt) →
    disciplined w (Reading exo) (Vis RUnlock k)) as Hunlock.
  { intros k Hk. split; [by eexists|]. by intros [] ? ->. }
  induction p as [a|h|X e k IH]; simpl; [by intros _; apply (Hunlock (λ _, Ret a))| |].
  - intros ->. by apply (Hunlock (λ _, Halt NilDeref)).
  - intros [He Hk]. split.
    + by destruct e; simpl in *; naive_solver.
    + intros x m' Hx. destruct (Hk x m' Hx) as [-> Hr]. by apply IH.
Qed.

Lemma disciplined_rlocked {A} w (body : prog clientE A) :
  (∀ exo, reads exo body) → disciplined w Unlocked (rlocked body).
Proof.
  intros Hb. split; [done|]. intros [] m' [exo ->]. by apply reads_disciplined.
Qed.

Lemma disciplined_refreshable w {X} (e : exoE X) : disciplined w Unlocked (refreshable e).
Proof.
  assert (∀ e, disciplined w Unlocked (awaited e)) as Hawaited.
  { intros e'. apply disciplined_rlocked. intros exo. apply reads_bind; [apply reads_via|].
    intros [op|err]; [apply reads_via|done]. }
  assert (∀ Y (e : exoE Y), disciplined w Unlocked (rlocked (via e))) as Hplain.
  { intros Y e'. apply disciplined_rlocked. intros exo. apply reads_via. }
  destruct e; first [apply Hawaited|apply Hplain].
Qed.

Lemma disciplined_through_client w {A} (p : prog ccmE A) :
  disciplined w Unlocked (through_client p).
Proof.
  induction p as [a|h|X e k IH]; [done..|].
  destruct e; [|split; [done|]; intros ? ? ->; apply IH..].
  apply disciplined_bind; [apply disciplined_refreshable|apply IH].
Qed.

Section watcher.
Context {ua : UserAgents}.

Lemma disciplined_refresh apiEndpoint path zone :
  disciplined true Unlocked
    (refreshCredentialsFromFile switchZoneCallback apiEndpoint path zone).
Proof.
  assert (∀ client creds, disciplined true Unlocked (
    _ ← trigger Lock; _ ← trigger (StoreExo client); _ ← trigger (StoreCredentials creds);
    _ ← trigger Unlock; _ ← trigger LoadCredentials; _ ← trigger LoadCredentials; log)) as Hinstall.
  { intros client creds. cbn. split; [done|]. intros ? ? ->. split; [done|]. intros ? ? ->.
    split; [done|]. intros ? ? ->. split; [done|]. intros ? ? ->. split; [done|]. intros ? ? ->.
    split; [done|]. by intros ? ? ->. }
  unfold refreshCredentialsFromFile. split; [done|]. intros [[]|e] ? ->; [|done].
  apply disciplined_finally; [|split; [done|]; by intros ? ? ->].
  split; [done|]. intros [creds|e] ? ->; [|done].
  cbn [mbind prog_mbind prog_bind]. case_match; [|done].
  apply disciplined_bind.
  - unfold switchZoneCallback. case_bool_decide; [done|]. split; [done|].
    by intros [endpoint|e] ? ->.
  - intros [client|e]; [apply Hinstall|done].
Qed.

Lemma disciplined_watchLoop apiEndpoint path zone inputs :
  disciplined true Unlocked (watchLoop switchZoneCallback apiEndpoint path zone inputs).
Proof.
  induction inputs as [|[name op| | | |] inputs IH]; cbn [watchLoop]; [done| |done|done|done|].
  - case_match; [|done]. apply disciplined_bind; [apply disciplined_refresh|by intros _].
  - split; [done|]. by intros ? ? ->.
Qed.

Lemma disciplined_watch apiEndpoint path zone inputs :
  disciplined true Unlocked
    (watchCredentialsFile switchZoneCallback apiEndpoint path zone inputs).
Proof.
  unfold watchCredentialsFile. split; [done|]. intros [[]|e] ? ->; [|done].
  split; [done|]. intros [[]|e] ? ->; [apply disciplined_watchLoop|done].
Qed.
End watcher.

(** ** Invariant of the process *)

(** Every goroutine follows the discipline in its mode; the lock agrees with the
    modes, and the readers have seen the client that is current. *)
Record well_locked (μ : nat → mode) (c : config) : Prop := {
  wl_thread i p : threads c !! i = Some p → disciplined (bool_decide (i = 0%nat)) (μ i) p;
  wl_outside i : threads c !! i = None → μ i = Unlocked;
  wl_reading i exo : μ i = Reading exo → exo = f_exo (object c);
  wl_readers i : multiplicity i (readers c) = match μ i with Reading _ => 1%nat | _ => 0%nat end;
  wl_writer i : μ i = Writing ↔ writer c = Some i;
  wl_exclusive : is_Some (writer c) → readers c = ∅;
}.

(** The modes with that of goroutine [i] updated. *)
Definition set_mode (μ : nat → mode) (i : nat) (m : mode) : nat → mode :=
  λ j, if decide (j = i) then m else μ j.

Lemma set_mode_eq μ i m : set_mode μ i m i = m.
Proof. unfold set_mode. by rewrite decide_True. Qed.

Lemma set_mode_ne μ i m j : j ≠ i → set_mode μ i m j = μ j.
Proof. intros. unfold set_mode. by rewrite decide_False. Qed.

(** What remains to be shown when goroutine [i] moves on to [p] in mode [m']. *)
Lemma well_locked_update μ c i p0 m' p rs' w' s' :
  well_locked μ c → threads c !! i = Some p0 →
  disciplined (bool_decide (i = 0%nat)) m' p →
  (f_exo s' = f_exo (object c) ∨ μ i = Writing) →
  (∀ exo, m' = Reading exo → exo = f_exo s') →
  (∀ j, multiplicity j rs' =
    if decide (j = i) then match m' with Reading _ => 1%nat | _ => 0%nat end
    else multiplicity j (readers c)) →
  (m' = Writing ↔ w' = Some i) →
  (∀ j, j ≠ i → w' = Some j ↔ writer c = Some j) →
  (is_Some w' → rs' = ∅) →
  well_locked (set_mode μ i m')
    {| threads := <[i := p]> (threads c); readers := rs'; writer := w'; object := s' |}.
Proof.
  intros [Ht Ho Hr Hrs Hw Hx] Hi Hp Hs Hm' Hrs' Hwi Hwj Hx'.
  assert (i < length (threads c))%nat as Hlen by by eapply lookup_lt_Some.
  split; simpl; [| | | | |done]; intros j; destruct (decide (j = i)) as [->|Hj].
  - intros q. rewrite list_lookup_insert_eq, set_mode_eq by done. by intros [= <-].
  - intros q. rewrite list_lookup_insert_ne, set_mode_ne by done. apply Ht.
  - by rewrite list_lookup_insert_eq.
  - rewrite list_lookup_insert_ne, set_mode_ne by done. apply Ho.
  - intros exo. rewrite set_mode_eq. apply Hm'.
  - intros exo. rewrite set_mode_ne by done. intros Hread. destruct Hs as [->|Hwr]; [by apply (Hr j)|].
    apply Hw in Hwr. specialize (Hrs j). rewrite Hread in Hrs.
    assert (readers c = ∅) as Hempty by (apply Hx; by eexists).
    by rewrite Hempty, multiplicity_empty in Hrs.
  - by rewrite Hrs', decide_True, set_mode_eq.
  - by rewrite Hrs', decide_False, set_mode_ne.
  - by rewrite set_mode_eq.
  - rewrite set_mode_ne by done. by rewrite Hw, Hwj.
Qed.

(** Effects that do not touch the lock leave the mode as it is. *)
Lemma well_locked_stay μ c i p0 p s' :
  well_locked μ c → threads c !! i = Some p0 →
  disciplined (bool_decide (i = 0%nat)) (μ i) p →
  (f_exo s' = f_exo (object c) ∨ μ i = Writing) →
  well_locked (set_mode μ i (μ i))
    {| threads := <[i := p]> (threads c); readers := readers c; writer := writer c;
       object := s' |}.
Proof.
  intros Hwl Hi Hp Hs. pose proof Hwl as [Ht Ho Hr Hrs Hw Hx].
  eapply well_locked_update; [done..| | | |done|done].
  - intros exo Hm. destruct Hs as [->|Hwr]; [by apply (Hr i)|congruence].
  - intros j. destruct (decide (j = i)) as [->|]; [apply Hrs|done].
  - apply Hw.
Qed.

(** The four operations of the lock. *)
Section lock_operations.
Context (μ : nat → mode) (c : config) (i : nat) (k : () → prog clientE ()) (p : prog clientE ()).
Context (rs' : gmultiset nat) (w' : option nat).
Context (Hwl : well_locked μ c).
Let moved := {| threads := <[i := p]> (threads c); readers := rs'; writer := w';
                object := object c |}.

Lemma well_locked_RLock :
  threads c !! i = Some (Vis RLock k) → lock_step i RLock (readers c) (writer c) rs' w' →
  μ i = Unlocked → disciplined (bool_decide (i = 0%nat)) (Reading (f_exo (object c))) p →
  well_locked (set_mode μ i (Reading (f_exo (object c)))) moved.
Proof.
  destruct Hwl as [Ht Ho Hr Hrs Hw Hx]. intros Hi (Hnw & -> & ->) Hm Hp.
  eapply well_locked_update; [done..|by left|by intros exo [= <-]| | |done|].
  - intros j. rewrite multiplicity_disj_union. destruct (decide (j = i)) as [->|].
    + by rewrite multiplicity_singleton, decide_True, Hrs, Hm.
    + by rewrite multiplicity_singleton, decide_False.
  - by rewrite Hnw.
  - intros [? ?]. congruence.
Qed.

Lemma well_locked_RUnlock exo :
  threads c !! i = Some (Vis RUnlock k) → lock_step i RUnlock (readers c) (writer c) rs' w' →
  μ i = Reading exo → disciplined (bool_decide (i = 0%nat)) Unlocked p →
  well_locked (set_mode μ i Unlocked) moved.
Proof.
  destruct Hwl as [Ht Ho Hr Hrs Hw Hx]. intros Hi (Hin & -> & ->) Hm Hp.
  eapply well_locked_update; [done..|by left|done| | |done|].
  - intros j. rewrite multiplicity_difference, multiplicity_singleton.
    destruct (decide (j = i)) as [->|]; [by rewrite Hrs, Hm|lia].
  - by rewrite <-Hw, Hm.
  - intros Hwr. rewrite (Hx Hwr) in Hin. multiset_solver.
Qed.

Lemma well_locked_Lock :
  threads c !! i = Some (Vis Lock k) → lock_step i Lock (readers c) (writer c) rs' w' →
  μ i = Unlocked → disciplined (bool_decide (i = 0%nat)) Writing p →
  well_locked (set_mode μ i Writing) moved.
Proof.
  destruct Hwl as [Ht Ho Hr Hrs Hw Hx]. intros Hi (Hnw & Hempty & -> & ->) Hm Hp.
  eapply well_locked_update; [done..|by left|done| |done| |done].
  - intros j. destruct (decide (j = i)) as [->|]; [by rewrite Hrs, Hm|done].
  - intros j Hj. rewrite Hnw. naive_solver.
Qed.

Lemma well_locked_Unlock :
  threads c !! i = Some (Vis Unlock k) → lock_step i Unlock (readers c) (writer c) rs' w' →
  μ i = Writing → disciplined (bool_decide (i = 0%nat)) Unlocked p →
  well_locked (set_mode μ i Unlocked) moved.
Proof.
  destruct Hwl as [Ht Ho Hr Hrs Hw Hx]. intros Hi (Hwr & -> & ->) Hm Hp.
  eapply well_locked_update; [done..|by left|done| |done| |by intros []].
  - intros j. destruct (decide (j = i)) as [->|]; [by rewrite Hrs, Hm|done].
  - intros j Hj. rewrite Hwr. naive_solver.
Qed.
End lock_operations.

Lemma well_locked_step admits μ c c' :
  well_locked μ c → config_step admits c c' → ∃ μ', well_locked μ' c'.
Proof.
  intros Hwl [i X e k x rs' w' s' Hi _ Hl Hm].
  destruct (wl_thread _ _ Hwl i _ Hi) as [Hperm Hnext].
  assert (∀ s', (f_exo s' = f_exo (object c) ∨ μ i = Writing) →
    disciplined (bool_decide (i = 0%nat)) (μ i) (k x) →
    ∃ μ', well_locked μ' {| threads := <[i := k x]> (threads c); readers := readers c;
                            writer := writer c; object := s' |}) as Hstay.
  { intros s'' Hs Hd. eexists. by eapply well_locked_stay. }
  destruct e; simpl in Hperm, Hm;
    try (destruct Hl as [-> ->]; subst s'; apply Hstay; [by left|by apply Hnext]).
  - subst s'. eexists. eapply well_locked_RLock; [done..|]. apply Hnext. by eexists.
  - subst s'. destruct Hperm as [exo Hread]. eexists.
    eapply well_locked_RUnlock; [done..|]. by apply Hnext.
  - subst s'. destruct Hperm as [_ Hun]. eexists.
    eapply well_locked_Lock; [done..|]. by apply Hnext.
  - subst s'. destruct Hperm as [_ Hwm]. eexists.
    eapply well_locked_Unlock; [done..|]. by apply Hnext.
  - destruct Hl as [-> ->], Hm as [-> ->], Hperm as [exo Hread]. apply Hstay; [by left|].
    apply Hnext. split; [|done]. by rewrite Hread, <-(wl_reading _ _ Hwl i exo).
  - destruct Hl as [-> ->]. subst s'. apply Hstay; [by right; apply Hperm|by apply Hnext].
  - destruct Hl as [-> ->], Hm as [-> ->]. apply Hstay; [by left|by apply Hnext].
Qed.

Lemma well_locked_steps admits c c' :
  rtc (config_step admits) c c' → (∃ μ, well_locked μ c) → ∃ μ, well_locked μ c'.
Proof.
  induction 1 as [|c0 c1 c' Hstep _ IH]; [done|]. intros [μ Hwl]. apply IH.
  by eapply well_locked_step.
Qed.

(** ** The running process *)

(** What an effect does to the field [exo], and to the credentials. *)
Definition uses_exo {X} (e : clientE X) : bool :=
  match e with LoadExo | StoreExo _ => true | _ => false end.
Definition writes_exo {X} (e : clientE X) : bool :=
  match e with StoreExo _ => true | _ => false end.
Definition uses_credentials {X} (e : clientE X) : bool :=
  match e with LoadCredentials | StoreCredentials _ => true | _ => false end.
Definition writes_credentials {X} (e : clientE X) : bool :=
  match e with StoreCredentials _ => true | _ => false end.

(** Two goroutines are about to access the same field, one of them to write it. *)
Definition racing (c : config) : Prop :=
  ∃ i j X Y (e : clientE X) (e' : clientE Y) k k', i ≠ j ∧
    threads c !! i = Some (Vis e k) ∧ threads c !! j = Some (Vis e' k') ∧
    (writes_exo e && uses_exo e' || writes_credentials e && uses_credentials e') = true.

Definition finished (p : prog clientE ()) : Prop :=
  match p with Ret _ | Halt _ => True | Vis _ _ => False end.

Section process.
Context {ua : UserAgents}.
Context (admits : config → Prop) (apiEndpoint path zone : string) (inputs : list watch_input).
Context (handlers : list (prog ccmE ())) (s : fields).

Definition reachable (c : config) : Prop :=
  rtc (config_step admits)
    (initial (watchCredentialsFile switchZoneCallback apiEndpoint path zone inputs) handlers s) c.

Lemma reachable_well_locked c : reachable c → ∃ μ, well_locked μ c.
Proof.
  intros Hc. eapply well_locked_steps; [apply Hc|]. exists (λ _, Unlocked). split; simpl; [|done|done|done|done|by intros []].
  intros [|i] p; simpl; [intros [= <-]; apply disciplined_watch|].
  rewrite list_lookup_fmap. intros (m & _ & ->)%fmap_Some. apply disciplined_through_client.
Qed.

(** C17: every request of every handler goes through the client that is current:
    while credentials are refreshed, a goroutine about to send a request holds
    the read lock and uses the very client the object holds. *)
Theorem requests_use_current_client c i X (client : Client) (e : exoE X) k
    (Hreach : reachable c) (Hi : threads c !! i = Some (Vis (Request client e) k)) :
  f_exo (object c) = Some client ∧ i ∈ readers c ∧ writer c = None.
Proof.
  destruct (reachable_well_locked c Hreach) as [μ Hwl].
  destruct (wl_thread _ _ Hwl i _ Hi) as [Hperm _]. simpl in Hperm.
  assert (i ∈ readers c) as Hin.
  { unfold elem_of, gmultiset_elem_of. rewrite (wl_readers _ _ Hwl), Hperm. lia. }
  split_and!; [by rewrite (wl_reading _ _ Hwl _ _ Hperm)|done|].
  destruct (writer c) as [j|] eqn:Hw; [|done].
  rewrite (wl_exclusive _ _ Hwl) in Hin by (rewrite Hw; by eexists). multiset_solver.
Qed.

(** The goroutines never race on the client or its credentials, although the
    message at the end of a refresh reads the credentials without the lock. *)
Theorem race_free c (Hreach : reachable c) : ¬ racing c.
Proof.
  destruct (reachable_well_locked c Hreach) as [μ Hwl].
  intros (i & j & X & Y & e & e' & k & k' & Hij & Hi & Hj & Hrace).
  destruct (wl_thread _ _ Hwl i _ Hi) as [Hpi _], (wl_thread _ _ Hwl j _ Hj) as [Hpj _].
  assert (bool_decide (i = 0%nat) = true → bool_decide (j = 0%nat) = false) as Hone.
  { intros ?%bool_decide_eq_true. apply bool_decide_eq_false. lia. }
  assert (∀ exo, μ i = Writing → μ j = Reading exo → False) as Hrw.
  { intros exo Hw%(wl_writer _ _ Hwl) Hr. pose proof (wl_readers _ _ Hwl j) as Hm.
    rewrite Hr in Hm. rewrite (wl_exclusive _ _ Hwl) in Hm by (rewrite Hw; by eexists).
    by rewrite multiplicity_empty in Hm. }
  destruct e; try done; destruct e'; try done; simpl in Hpi, Hpj; destruct Hpi as [H0 Hw];
    [destruct Hpj as [exo ?]; by eapply Hrw|rewrite (Hone H0) in Hpj; by destruct Hpj..].
Qed.

(** ** Progress *)

Lemma reply_exists X (e : clientE X) : ∃ x : X, True.
Proof.
  assert (∀ A, ∃ r : result A, True) as Hr by (intros A; by exists (Err ErrMissingIncomplete)).
  assert (∀ Y (e : exoE Y), ∃ y : Y, True) as Hexo by (intros Y []; apply Hr).
  destruct e as [| | | | | | | |Y ? e| | | | | | | | |Y [Z e|Z e|Z e]]; try apply Hr; try (by eapply Hexo);
    try (by exists tt).
  - by exists None.
  - by exists (Build_exoscaleAPICredentials "" "" "").
  - destruct e; [by exists (None, None)|apply Hr..].
  - destruct e; [by exists None|apply Hr..].
Qed.

Lemma memory_total X (e : clientE X) o : ∃ x o', memory X e o x o'.
Proof.
  destruct (reply_exists X e) as [x _].
  destruct e; simpl; first [by exists x; eexists|by eexists _, _].
Qed.

(** A goroutine about to do something else than wait for the lock can do it. *)
Lemma step_unblocked policy μ c i X (e : clientE X) k :
  well_locked μ c → threads c !! i = Some (Vis e k) →
  match e with
  | RLock => writer c = None ∧ policy c
  | Lock => writer c = None ∧ readers c = ∅
  | _ => True
  end →
  ∃ c', config_step policy c c'.
Proof.
  intros Hwl Hi He. destruct (wl_thread _ _ Hwl i _ Hi) as [Hperm _].
  assert (∃ rs' w', lock_step i e (readers c) (writer c) rs' w') as (rs' & w' & Hl).
  { destruct e; simpl in Hperm |- *; try (by eexists _, _); try (by eexists _, _; destruct He).
    - destruct Hperm as [exo Hm]. eexists _, _. split; [|done].
      unfold elem_of, gmultiset_elem_of. rewrite (wl_readers _ _ Hwl), Hm. lia.
    - destruct Hperm as [_ Hm]. eexists _, _. split; [|done]. by apply (wl_writer _ _ Hwl). }
  destruct (memory_total X e (object c)) as (x & o' & Hm).
  eexists. eapply ConfigStep; [done| |done|done]. destruct e; try done. intros _. apply He.
Qed.

Definition at_lock (p : prog clientE ()) : Prop :=
  match p with Vis (RLock | Lock) _ => True | _ => False end.

#[local] Instance at_lock_dec p : Decision (at_lock p).
Proof. destruct p as [| |X [] k]; apply _. Defined.

#[local] Instance finished_dec p : Decision (finished p).
Proof. destruct p; apply _. Defined.

(** When every goroutine waits for the lock or has finished, the lock is free. *)
Lemma all_waiting_free μ c :
  well_locked μ c → Forall (λ p, finished p ∨ at_lock p) (threads c) →
  readers c = ∅ ∧ writer c = None.
Proof.
  intros Hwl Hall. assert (∀ i, μ i = Unlocked) as Hun.
  { intros i. destruct (threads c !! i) as [p|] eqn:Hi; [|by apply (wl_outside _ _ Hwl)].
    pose proof (wl_thread _ _ Hwl i p Hi) as Hp.
    rewrite Forall_lookup in Hall. destruct (Hall i p Hi) as [Hf|Ha].
    - by destruct p.
    - destruct p as [| |X [] k]; try done; by destruct Hp as [Hp _]; simpl in Hp; destruct_and?. }
  split.
  - apply gmultiset_eq. intros i. by rewrite (wl_readers _ _ Hwl), Hun.
  - destruct (writer c) as [i|] eqn:Hw; [|done]. apply (wl_writer _ _ Hwl) in Hw. by rewrite Hun in Hw.
Qed.

Definition at_Lock (p : prog clientE ()) : Prop :=
  match p with Vis Lock _ => True | _ => False end.

#[local] Instance at_Lock_dec p : Decision (at_Lock p).
Proof. destruct p as [| |X [] k]; apply _. Defined.

Lemma some_waiting_step μ c :
  well_locked μ c → Forall (λ p, finished p ∨ at_lock p) (threads c) →
  ¬ Forall finished (threads c) → ∃ c', config_step (λ c, ¬ writer_waiting c) c c'.
Proof.
  intros Hwl Hall Hnf. destruct (all_waiting_free μ c Hwl Hall) as [Hr Hw].
  destruct (decide (Exists at_Lock (threads c))) as [HL|HnL].
  - apply Exists_exists in HL as (p & Hp & HL). apply list_elem_of_lookup in Hp as [i Hi].
    destruct p as [| |X [] k]; try done. by eapply step_unblocked.
  - apply not_Forall_Exists, Exists_exists in Hnf as (p & Hp & Hnf); [|apply _].
    apply list_elem_of_lookup in Hp as [i Hi].
    rewrite Forall_lookup in Hall. pose proof (Hall i p Hi) as Hlock.
    destruct Hlock as [|Hlock]; [done|]. destruct p as [| |X e k]; try done.
    eapply step_unblocked; [done..|].
    destruct e; try done. split; [done|]. intros (j & k' & Hj).
    apply HnL, Exists_exists. exists (Vis Lock k'). split; [|done].
    by eapply list_elem_of_lookup_2.
Qed.

(** C20: the process never deadlocks: as long as some goroutine has not finished,
    one of them can move, even though new readers wait while the watcher waits
    to write. *)
Theorem no_deadlock c (Hreach : reachable c) :
  Forall finished (threads c) ∨ ∃ c', config_step (λ c, ¬ writer_waiting c) c c'.
Proof.
  destruct (reachable_well_locked c Hreach) as [μ Hwl].
  destruct (decide (Forall finished (threads c))) as [|Hnf]; [by left|right].
  destruct (decide (Forall (λ p, finished p ∨ at_lock p) (threads c))) as [Hall|Hn].
  - by eapply some_waiting_step.
  - apply not_Forall_Exists, Exists_exists in Hn as (p & Hp & Hn); [|apply _].
    apply list_elem_of_lookup in Hp as [i Hi]. destruct p as [| |X e k]; [naive_solver..|].
    eapply step_unblocked; [done..|]. destruct e; simpl in Hn; tauto.
Qed.
End process.

(** ** Credentials *)

(** The writes to the fields among the calls of a trace. *)
Definition as_write (c : call clientE) : option (Client + exoscaleAPICredentials) :=
  match call_event c with
  | StoreExo client => Some (inl client)
  | StoreCredentials creds => Some (inr creds)
  | _ => None
  end.

Definition writes (t : list (call clientE)) : list (Client + exoscaleAPICredentials) :=
  omap as_write t.

Section credentials.
Context {ua : UserAgents}.

Lemma apply_opts_keys opts c :
  cl_apiKey (foldl apply_opt c opts) = cl_apiKey c ∧
  cl_apiSecret (foldl apply_opt c opts) = cl_apiSecret c.
Proof.
  revert c. induction opts as [|o opts IH]; intros c; simpl; [done|].
  destruct (IH (apply_opt c o)) as [-> ->]. by destruct o.
Qed.

Lemma NewClient_Ok key secret opts c :
  NewClient key secret opts = Ok c →
  key ≠ "" ∧ secret ≠ "" ∧ cl_apiKey c = key ∧ cl_apiSecret c = secret.
Proof.
  unfold NewClient. case_bool_decide; [|done]. case_bool_decide; [|done]. simpl. intros [= <-].
  split_and!; [done|done|apply apply_opts_keys..].
Qed.

Lemma NewClient_Err key secret opts e : NewClient key secret opts = Err e → key = "" ∨ secret = "".
Proof.
  unfold NewClient. case_bool_decide; [|by left].
  case_bool_decide; [done|by right].
Qed.

(** The client [c] is [c0] switched to the zone, as the API described it. *)
Definition zoned (zone : string) (t : list (call clientE)) (c0 c : Client) : Prop :=
  if bool_decide (zone = "") then c = c0
  else ∃ endpoint, Call (GetZoneAPIEndpoint c0 zone) (Ok endpoint) ∈ t ∧ c = WithEndpoint c0 endpoint.

(** Why a refresh changed nothing. *)
Definition unusable (path zone : string) (t : list (call clientE)) (o : outcome ()) : Prop :=
  (o ≠ Returned () ∧ ∃ e, t = [Call (OpenFile path) (Err e)]) ∨
  (o = Returned () ∧ ((∃ e, Call DecodeFile (Err e) ∈ t) ∨
    (∃ creds, Call DecodeFile (Ok creds) ∈ t ∧ (cred_APIKey creds = "" ∨ cred_APISecret creds = "")) ∨
    (∃ c e, Call (GetZoneAPIEndpoint c zone) (Err e) ∈ t))).

(** What a refresh leads to. *)
Definition refreshed (apiEndpoint path zone : string) (t : list (call clientE)) (o : outcome ()) :
    Prop :=
  (writes t = [] ∧ unusable path zone t o) ∨
  (o = Returned () ∧ ∃ creds c0 c,
    writes t = [inl c; inr creds] ∧ Call DecodeFile (Ok creds) ∈ t ∧
    NewClient (cred_APIKey creds) (cred_APISecret creds) (clientOpts apiEndpoint) = Ok c0 ∧
    zoned zone t c0 c).

(** The openings of the credentials file in a trace. *)
Definition is_open (c : call clientE) : bool :=
  match call_event c with OpenFile _ => true | _ => false end.

Definition opened (t : list (call clientE)) : nat := length (filter (λ c, is_open c = true) t).

Lemma wp_refresh apiEndpoint path zone :
  wp (refreshCredentialsFromFile switchZoneCallback apiEndpoint path zone) (λ t o,
    opened t = 1%nat ∧ refreshed apiEndpoint path zone t o).
Proof.
  unfold refreshCredentialsFromFile, refreshed, zoned.
  apply wp_vis. intros [[]|e]; [|apply wp_halt; split; [done|]; left; split; [done|]; left; split; [done|by eexists]].
  apply wp_vis. intros [creds|e]; cbn [mbind prog_mbind prog_bind].
  2: { apply wp_vis. intros []. apply wp_ret. split; [done|]. left. split; [done|]. right. split; [done|].
       left. exists e. right. by left. }
  destruct (NewClient _ _ _) as [c0|e] eqn:Hc.
  2: { apply wp_vis. intros []. apply wp_ret. split; [done|]. left. split; [done|]. right. split; [done|]. right. left.
       exists creds. split; [right; by left|by eapply NewClient_Err]. }
  unfold switchZoneCallback. case_bool_decide as Hz.
  - cbn. repeat (apply wp_vis; intros ?). apply wp_ret. split; [done|]. right. split; [done|].
    exists creds, c0, c0. split_and!; [done|right; by left|done|done].
  - apply wp_vis. intros [endpoint|e]; cbn.
    + repeat (apply wp_vis; intros ?). apply wp_ret. split; [done|]. right. split; [done|].
      exists creds, c0, (WithEndpoint c0 endpoint). split_and!; [done|right; by left|done|].
      exists endpoint. split; [do 2 right; by left|done].
    + apply wp_vis. intros []. apply wp_ret. split; [done|]. left. split; [done|]. right. split; [done|]. right. right.
      exists c0, e. do 2 right. by left.
Qed.
(** A refresh is all or nothing: it installs a client built from the
    credentials the file holds, on the endpoint of the zone, together with
    these credentials; or it changes nothing, because the file cannot be
    opened (then the process exits) or decoded, is incomplete, or the API does
    not tell the endpoint of the zone. *)
Theorem refresh_all_or_nothing apiEndpoint path zone :
  wp (refreshCredentialsFromFile switchZoneCallback apiEndpoint path zone)
    (refreshed apiEndpoint path zone).
Proof. eapply wp_mono; [apply wp_refresh|]. by intros t o [_ ?]. Qed.

(** The inputs the watching loop reacts to, up to the first that ends it. *)
Fixpoint live (inputs : list watch_input) : list watch_input :=
  match inputs with
  | (FsEvent _ _ | FsError) as i :: inputs => i :: live inputs
  | _ => []
  end.

Definition triggers (path : string) (i : watch_input) : Prop :=
  match i with FsEvent name op => refreshes path name op = true | _ => False end.

#[local] Instance triggers_dec path i : Decision (triggers path i).
Proof. destruct i; simpl; apply _. Defined.

Lemma opened_app t t' : opened (t ++ t') = (opened t + opened t')%nat.
Proof. unfold opened. by rewrite filter_app, length_app. Qed.

(** As long as the file can be opened the watcher refreshes the credentials
    once for every event that writes or creates the file, and for no other,
    until a channel is closed or the context cancelled. *)
Theorem watch_refreshes apiEndpoint path zone inputs :
  wp (watchLoop switchZoneCallback apiEndpoint path zone inputs) (λ t o,
    o = Returned () → opened t = length (filter (triggers path) (live inputs))).
Proof.
  induction inputs as [|[name op| | | |] inputs IH]; cbn [watchLoop live];
    [by apply wp_ret| |by apply wp_ret|done|by apply wp_ret|].
  - rewrite filter_cons. destruct (refreshes path name op) eqn:Hr; case_decide as Ht; simpl in Ht;
      [|congruence..|apply IH].
    apply wp_bind. eapply wp_mono; [apply wp_refresh|].
    intros t [[]|h] [Ho _]; [|done]. eapply wp_mono; [apply IH|].
    intros t' o Ht' Hret. rewrite opened_app, Ho. simpl. by rewrite Ht'.
  - apply wp_vis. intros []. by apply wp_ret.
Qed.

(** ** Construction *)

(** With an API key and secret, the new object holds them and a client built
    from them on the endpoint of the zone, or the construction fails with the
    error of the API; without them and without a file it fails at once. *)
Theorem static_credentials_used config zone
    (Hstatic : gc_APIKey config ≠ "" ∧ gc_APISecret config ≠ "" ∨ gc_APICredentialsFile config = "") :
  wp (newRefreshableExoscaleClient switchZoneCallback config zone) (λ t o,
    if decide (gc_APIKey config ≠ "" ∧ gc_APISecret config ≠ "") then
      ∃ c0, NewClient (gc_APIKey config) (gc_APISecret config)
              (clientOpts (gc_APIEndpoint config)) = Ok c0 ∧
      ((∃ creds c, o = Returned (Ok ()) ∧ writes t = [inr creds; inl c] ∧
          cred_APIKey creds = gc_APIKey config ∧ cred_APISecret creds = gc_APISecret config ∧
          zoned zone t c0 c) ∨
       (∃ e, o = Returned (Err e) ∧ Call (GetZoneAPIEndpoint c0 zone) (Err e) ∈ t))
    else t = [] ∧ ∃ e, o = Returned (Err e)).
Proof.
  unfold newRefreshableExoscaleClient. destruct (decide _) as [[Hk Hs]|Hn].
  - rewrite !bool_decide_eq_true_2 by done. simpl. apply wp_vis. intros [].
    destruct (NewClient _ _ _) as [c0|e] eqn:Hc; [|by apply NewClient_Err in Hc as [|]].
    rewrite try_bind_Ok. unfold switchZoneCallback, zoned. case_bool_decide.
    + rewrite try_bind_Ok. apply wp_vis. intros []. apply wp_ret. exists c0. split; [done|]. left.
      by eexists _, c0.
    + apply wp_try_bind, wp_try_bind, wp_vis. intros [endpoint|e]; apply wp_ret.
      * apply wp_ret. apply wp_vis. intros []. apply wp_ret. exists c0. split; [done|]. left.
        eexists _, _. split_and!; [done|done|done|done|]. exists endpoint. split; [|done].
        right. by left.
      * exists c0. split; [done|]. right. exists e. split; [done|]. right. by left.
  - destruct Hstatic as [?|Hf]; [done|].
    rewrite Hf, (bool_decide_eq_false_2 ("" ≠ "")) by (intros H; by apply H).
    destruct (bool_decide (gc_APIKey config ≠ "") && _) eqn:Hb.
    { apply andb_true_iff in Hb as [?%bool_decide_eq_true ?%bool_decide_eq_true]. tauto. }
    apply wp_ret. split; [done|by eexists].
Qed.

(** The requests of an object that holds no client yet. *)
Lemma unready_panics X (e : exoE X) o s :
  runs memory (refreshable e) fields_zero o s → o = Halted NilDeref.
Proof.
  assert (∀ Y Z (e : exoE Y) (f : Y → prog clientE Z) o,
    runs memory (rlocked (via e ≫= f)) fields_zero o s → o = Halted NilDeref) as Hbind.
  { intros Y Z e' f o'. cbn. intros ([] & s1 & -> & x & s2 & [-> ->] & Hr). cbn in Hr.
    by destruct Hr as ([] & s3 & -> & Ho & ->). }
  assert (∀ Y (e : exoE Y) o, runs memory (rlocked (via e)) fields_zero o s → o = Halted NilDeref)
    as Hplain.
  { intros Y e' o'. cbn. intros ([] & s1 & -> & x & s2 & [-> ->] & [] & s3 & -> & Ho & _). done. }
  destruct e; first [by eapply Hbind|by eapply Hplain].
Qed.

(** A reply that makes the credentials of the file of no use: they cannot be
    decoded, are incomplete, or the API does not tell the endpoint of the zone. *)
Definition spoils (c : call clientE) : Prop :=
  match call_event c in clientE X return X → Prop with
  | DecodeFile => λ r,
      match r with
      | Err _ => True
      | Ok creds => cred_APIKey creds = "" ∨ cred_APISecret creds = ""
      end
  | GetZoneAPIEndpoint _ _ => λ r, match r with Err _ => True | Ok _ => False end
  | _ => λ _, False
  end (call_reply c).

Lemma wp_refresh_spoiled apiEndpoint path zone :
  wp (refreshCredentialsFromFile switchZoneCallback apiEndpoint path zone) (λ t o,
    Exists spoils t → o = Returned () ∧ writes t = []).
Proof.
  unfold refreshCredentialsFromFile.
  apply wp_vis. intros [[]|e]; [|apply wp_halt; by intros [[]|?%Exists_nil]%Exists_cons].
  apply wp_vis. intros [creds|e]; cbn [mbind prog_mbind prog_bind].
  2: { apply wp_vis. intros []. by apply wp_ret. }
  destruct (NewClient _ _ _) as [c0|e] eqn:Hc; [|by apply wp_vis; intros []; apply wp_ret].
  apply NewClient_Ok in Hc as (Hk & Hs & _).
  unfold switchZoneCallback. case_bool_decide as Hz.
  - cbn. repeat (apply wp_vis; intros ?). apply wp_ret.
    rewrite !Exists_cons, Exists_nil. cbn. tauto.
  - apply wp_vis. intros [endpoint|e]; cbn; [|by apply wp_vis; intros []; apply wp_ret].
    repeat (apply wp_vis; intros ?). apply wp_ret. rewrite !Exists_cons, Exists_nil. cbn. tauto.
Qed.

Lemma follows_unwritten t s s' : writes t = [] → follows memory s t s' → s' = s.
Proof.
  revert s. induction t as [|[X e x] t IH]; intros s; [done|]. intros Hw (s1 & Hs & Hf).
  assert (writes t = [] ∧ s1 = s) as [Hw' ->]; [|by apply IH].
  unfold writes in *. destruct e; simpl in *; first [done|split; [done|]]; naive_solver.
Qed.

(** C33: when, at start, the credentials file cannot be decoded or is incomplete,
    or the API does not tell the endpoint of the zone, the construction reports
    success all the same and has the file watched; but the object holds no
    client, so that, until a later refresh, every request panics. The last part
    shows that nothing prevents such a start. *)
Theorem undecodable_file_panics config zone
    (Hstatic : gc_APIKey config = "" ∨ gc_APISecret config = "")
    (Hfile : gc_APICredentialsFile config ≠ "") :
  wp (newRefreshableExoscaleClient switchZoneCallback config zone) (λ t o, Exists spoils t →
    o = Returned (Ok ()) ∧ Call (GoWatch (gc_APICredentialsFile config) zone) () ∈ t ∧
    ∀ s, follows memory fields_zero t s →
      ∀ X (e : exoE X) o' s', runs memory (refreshable e) s o' s' → o' = Halted NilDeref) ∧
  ∀ e, ∃ t, exec (newRefreshableExoscaleClient switchZoneCallback config zone) t (Returned (Ok ())) ∧
    Call DecodeFile (Err e) ∈ t.
Proof.
  unfold newRefreshableExoscaleClient. rewrite (bool_decide_eq_true_2 _ Hfile).
  replace (bool_decide (gc_APIKey config ≠ "") && bool_decide (gc_APISecret config ≠ "")) with false.
  2: { symmetry. apply andb_false_iff. rewrite !bool_decide_eq_false. naive_solver. }
  split.
  - apply wp_bind. eapply wp_mono; [apply wp_refresh_spoiled|].
    intros t [[]|h] Ht; [|intros Hs; by destruct (Ht Hs)].
    apply wp_vis. intros []. apply wp_ret. intros [Hs|Hs]%Exists_app.
    2: { by apply Exists_cons in Hs as [[]|?%Exists_nil]. }
    destruct (Ht Hs) as [_ Hw]. split_and!; [done|rewrite elem_of_app; right; by left|].
    intros s Hf%follows_app X e o' s'. destruct Hf as (s1 & Hf & s2 & Hs1 & Hs2).
    apply follows_unwritten in Hf as ->; [|done]. simpl in Hs1, Hs2. subst. apply unready_panics.
  - intros e. eexists. split; [|right; by left].
    exists (Ok ()); eexists; split; [done|]. exists (Err e); eexists; split; [done|].
    exists (); eexists; split; [done|]. exists (); eexists; split; [done|]. by split.
Qed.
End credentials.

(** ** Handlers through the client *)

(** The requests among the calls of a handler and of a goroutine, in order,
    without the waits for operations. *)
Abbreviation exo_request := {X : Type & exoE X}.

Definition unless_wait {X} (e : exoE X) : option exo_request :=
  match e with ApiWait _ _ => None | e => Some (existT _ e) end.

Definition as_asked (c : call ccmE) : option exo_request :=
  match call_event c with ExoCall e => unless_wait e | _ => None end.

Definition as_sent (c : call clientE) : option exo_request :=
  match call_event c with Request _ e => unless_wait e | _ => None end.

Definition is_exo {X} (e : ccmE X) : bool := match e with ExoCall _ => true | _ => false end.

(** The calls of a handler, and what its goroutine did for them. *)
Inductive realised : list (call ccmE) → list (call clientE) → Prop :=
| realised_nil : realised [] []
| realised_exo X (e : exoE X) x u t t' :
    exec (refreshable e) u (Returned x) → realised t t' →
    realised (Call (ExoCall e) x :: t) (u ++ t')
| realised_outside X (e : ccmE X) x t t' :
    is_exo e = false → realised t t' →
    realised (Call e x :: t) (Call (Outside e) x :: t').

(** What one method does: it requests what it was asked for, once, unless it
    panics for want of a client. *)
Lemma wp_rlocked_via {X} (e : exoE X) :
  wp (rlocked (via e)) (λ u o, o = Halted NilDeref ∨ ∃ x, o = Returned x ∧
    omap as_sent u = omap as_asked [Call (ExoCall e) x]).
Proof.
  apply wp_vis. intros []. apply wp_vis. intros [c|]; cbn.
  - apply wp_vis. intros x. apply wp_vis. intros []. apply wp_ret. right. exists x. done.
  - apply wp_vis. intros []. apply wp_halt. by left.
Qed.

(** The trace of an operation: the request, then its success awaited through a
    client read anew, under one hold of the lock. *)
Definition operation_trace (e : exoE (result Operation)) (u : list (call clientE))
    (o : outcome (result Operation)) : Prop :=
  (∃ c err, o = Returned (Err err) ∧
    u = [Call RLock (); Call LoadExo (Some c); Call (Request c e) (Err err); Call RUnlock ()]) ∨
  (∃ c c' op r, o = Returned r ∧
    u = [Call RLock (); Call LoadExo (Some c); Call (Request c e) (Ok op); Call LoadExo (Some c');
         Call (Request c' (ApiWait op [OperationStateSuccess])) r; Call RUnlock ()]).

Lemma wp_awaited e : wp (awaited e) (λ u o, o = Halted NilDeref ∨ operation_trace e u o).
Proof.
  unfold operation_trace. apply wp_vis. intros []. apply wp_vis. intros [c|]; cbn.
  2: { apply wp_vis. intros []. apply wp_halt. by left. }
  apply wp_vis. intros [op|err]; cbn.
  2: { apply wp_vis. intros []. apply wp_ret. right. left. by exists c, err. }
  apply wp_vis. intros [c'|]; cbn.
  - apply wp_vis. intros r. apply wp_vis. intros []. apply wp_ret. right. right. by exists c, c', op, r.
  - apply wp_vis. intros []. apply wp_halt. by left.
Qed.

(** A method that starts an operation returns a success only after the
    operation it started was awaited: it sends its request, then waits for the
    success of that very operation before it releases the lock, and returns
    what the wait returned; a refused request is returned without waiting. *)
Theorem operation_awaited e :
  wp (awaited e) (λ u o, o = Halted NilDeref ∨ operation_trace e u o).
Proof. apply wp_awaited. Qed.

Lemma wp_refreshable {X} (e : exoE X) :
  wp (refreshable e) (λ u o, o = Halted NilDeref ∨ ∃ x, o = Returned x ∧
    omap as_sent u = omap as_asked [Call (ExoCall e) x]).
Proof.
  assert (∀ e, unless_wait e ≠ None → wp (awaited e) (λ u o, o = Halted NilDeref ∨
    ∃ x, o = Returned x ∧ omap as_sent u = omap as_asked [Call (ExoCall e) x])) as Hawaited.
  { intros e' Hw. eapply wp_mono; [apply wp_awaited|].
    intros u o [?|[(c & err & -> & ->)|(c & c' & op & r & -> & ->)]]; [by left|right..].
    - by exists (Err err).
    - exists r. split; [done|]. simpl. unfold as_sent, as_asked. simpl. by destruct (unless_wait e'). }
  destruct e; first [by apply Hawaited|apply wp_rlocked_via].
Qed.

Lemma wp_through_client {A} (p : prog ccmE A) :
  wp (through_client p) (λ u o, o = Halted NilDeref ∨
    ∃ t, exec p t o ∧ realised t u ∧ omap as_sent u = omap as_asked t).
Proof.
  induction p as [a|h|X e k IH]; [by apply wp_ret; right; exists []; repeat constructor|
    by apply wp_halt; right; exists []; repeat constructor|].
  assert (∀ (e : ccmE X), is_exo e = false →
    wp (Vis (Outside e) (λ x, through_client (k x))) (λ u o, o = Halted NilDeref ∨
      ∃ t, exec (Vis e k) t o ∧ realised t u ∧ omap as_sent u = omap as_asked t)) as Houtside.
  { intros e' He. apply wp_vis. intros x. eapply wp_mono; [apply IH|].
    intros u o [?|(t & Ht & Hr & Hs)]; [by left|right]. exists (Call e' x :: t). split_and!.
    - by exists x, t.
    - by constructor.
    - transitivity (omap as_asked t); [exact Hs|]. symmetry.
      change (omap as_asked (Call e' x :: t)) with
        (match as_asked (Call e' x) with Some y => y :: omap as_asked t | None => omap as_asked t end).
      by destruct e'. }
  destruct e as [X e|X e|X e]; [|by apply Houtside..].
  apply wp_bind. intros u o Hu.
  destruct (wp_refreshable e u o Hu) as [->|(x & -> & Hs)]; [by left|].
  eapply wp_mono; [apply IH|]. intros u' o' [?|(t & Ht & Hr & Hs')]; [by left|right].
  exists (Call (ExoCall e) x :: t). split_and!.
  - by exists x, t.
  - by constructor.
  - rewrite omap_app, Hs, Hs'. simpl. by destruct (as_asked _).
Qed.

(** C18: what is proved of a handler against an arbitrary API holds of the
    goroutine that runs it through the client: unless the client is missing,
    every run of the goroutine is a run of the handler, whose replies are those
    its methods returned, and sends exactly the requests of the handler, in
    order. *)
Theorem through_client_refines {A} (p : prog ccmE A) :
  wp (through_client p) (λ u o, o = Halted NilDeref ∨
    ∃ t, exec p t o ∧ realised t u ∧ omap as_sent u = omap as_asked t).
Proof. apply wp_through_client. Qed.
