(* ===== verification/Provider.v ===== *)
(** exoscale/exoscale.go, sks_agent.go and the cloud initializer of
    cmd/exoscale-cloud-controller-manager/main.go: how the provider is built,
    and what its initialization starts; the interfaces it offers are in
    Interfaces. *)
From S2P Require Import Prelude GoErrors GoStrings Effects Egoscale Kube InstancesConfig.
From S2P Require Import CloudConfig Client.

Definition ProviderName : string := "exoscale".

(** The effects of the life cycle: host queries, the Kubernetes client that
    [ConfigOrDie] and [NewForConfigOrDie] build, the construction of the
    Exoscale client, and the goroutines that are started. *)
Inductive providerE : Type → Type :=
| Host {X} (e : hostE X) : providerE X
| KubernetesClientOrDie (name : string) : providerE (result ())
| ClientCall {X} (e : clientE X) : providerE X
| GoStop : providerE ()
| GoRunner (runner : string) : providerE ().

(** A part of the construction of the client. *)
Fixpoint client_part {A} (p : prog clientE A) : prog providerE A :=
  match p with
  | Ret a => Ret a
  | Halt h => Halt h
  | Vis e k => Vis (ClientCall e) (λ x, client_part (k x))
  end.

(** [os.Getenv] *)
Definition Getenv (name : string) : prog providerE string :=
  v ← trigger (Host (LookupEnv name)); mret (default "" v).

Definition AvailabilityZone : string := "availability-zone".

(** The zone of the provider. *)
Definition findZone : prog providerE (result string) :=
  zone ← Getenv "EXOSCALE_API_ZONE";
  if bool_decide (zone = "") then
    zone ← Getenv "EXOSCALE_ZONE";
    if bool_decide (zone = "") then
      r ← trigger (Host (MetadataFromCdRom AvailabilityZone));
      match r with
      | Ok zone => mret (Ok zone)
      | Err _ => wrap_err (ErrorfW "get metadata: %w" [])
                   (trigger (Host (MetadataGet AvailabilityZone)))
      end
    else mret (Ok zone)
  else mret (Ok zone).

Definition newExoscaleCloud (config : cloudConfig) : prog providerE (result cloudProvider) :=
  zone ←? findZone;
  mret (Ok {| p_cfg := config; p_client := false; p_kclient := false; p_zone := zone |}).

Definition sksAgentNodeCSRValidation : string := "node-csr-validation".

(** Runners before an unsupported one have been started when it is refused. *)
Fixpoint runSKSAgent (runners : list string) : prog providerE (result ()) :=
  match runners with
  | [] => mret (Ok ())
  | r :: runners =>
      if bool_decide (r = sksAgentNodeCSRValidation)
      then _ ← trigger (GoRunner r); runSKSAgent runners
      else mret (Err (ErrorNew "unsupported runner %q" [r]))
  end.

Section initialize.
Context {ua : UserAgents}.

Definition with_clients (p : cloudProvider) : cloudProvider := {|
  p_cfg := p_cfg p; p_client := true; p_kclient := true; p_zone := p_zone p |}.

(** The provider with its clients; an error exits the process. *)
Definition Initialize (p : cloudProvider) : prog providerE cloudProvider :=
  r ← trigger (KubernetesClientOrDie "exoscale-cloud-controller-manager");
  match r with
  | Err _ => Halt (Fatalf "cannot build the Kubernetes client")
  | Ok _ =>
      r ← client_part (newRefreshableExoscaleClient switchZoneCallback (cc_Global (p_cfg p)) (p_zone p));
      match r with
      | Err err => fatalf "could not create Exoscale client: %v"
      | Ok _ =>
          _ ← trigger GoStop;
          v ← Getenv "EXOSCALE_SKS_AGENT_RUNNERS";
          if bool_decide (v ≠ "") then
            r ← runSKSAgent (Split v ",");
            match r with
            | Err err => fatalf "SKS agent failed to start: %s"
            | Ok _ => mret (with_clients p)
            end
          else mret (with_clients p)
      end
  end.
End initialize.

Definition HasClusterID (p : cloudProvider) : bool := false.

(** [cloudInitializer]: [cloud] is what [InitCloudProvider] returned, a nil
    interface or the provider. *)
Definition cloudInitializer (cloud : result (option cloudProvider)) (AllowUntaggedCloud : bool) :
    prog providerE cloudProvider :=
  match cloud with
  | Err err => Halt (Fatalf "Cloud provider could not be initialized: %v")
  | Ok None => Halt (Fatalf "Cloud provider is nil")
  | Ok (Some cloud) =>
      if negb (HasClusterID cloud) then
        if AllowUntaggedCloud then mret cloud else Halt (Fatalf "no ClusterID found.")
      else mret cloud
  end.
