(* ===== verification/ProviderProps.v ===== *)
(** Properties of the configuration and of the life cycle of the provider. *)
From S2P Require Import Prelude GoErrors GoStrings Effects Egoscale Kube InstancesConfig.
From S2P Require Import CloudConfig Client Provider.

(** A host: its environment, and the zone its CD-ROM and the metadata server
    tell. *)
Record host := {
  h_env : string → option string;
  h_cdrom : result string;
  h_server : result string;
}.

Definition host_reply (h : host) {X} (e : hostE X) : X → Prop :=
  match e in hostE X return X → Prop with
  | LookupEnv name => λ x, x = h_env h name
  | MetadataFromCdRom _ => λ x, x = h_cdrom h
  | MetadataGet _ => λ x, x = h_server h
  end.

(** On that host, the other services reply as they like. *)
Definition on_host (h : host) : handler ccmE () := λ X e _ x _,
  match e in ccmE X return X → Prop with
  | HostCall e => host_reply h e
  | _ => λ _, True
  end x.

Definition provider_on_host (h : host) : handler providerE () := λ X e _ x _,
  match e in providerE X return X → Prop with
  | Host e => host_reply h e
  | _ => λ _, True
  end x.

(** An environment variable that is not set, or empty, yields the default. *)
Definition env_nonempty (h : host) (name : string) : option string :=
  match h_env h name with Some v => if bool_decide (v = "") then None else Some v | None => None end.

Section config.
Context {yaml : YAML}.

(** The endpoint in effect: the one of the environment, else that of the test
    environment it names, else the one of the file. *)
Definition effective_endpoint (h : host) (file : string) : string :=
  match h_env h "EXOSCALE_API_ENDPOINT" with
  | Some value => value
  | None => if bool_decide (h_env h "EXOSCALE_API_ENVIRONMENT" = Some "ppapi")
            then "https://ppapi-ch-gva-2.exoscale.com/v2" else file
  end.

(** The configuration in effect, from that of the file. *)
Definition configured (h : host) (file : cloudConfig) : cloudConfig := {|
  cc_Global := {|
    gc_APIKey := default (gc_APIKey (cc_Global file)) (h_env h "EXOSCALE_API_KEY");
    gc_APISecret := default (gc_APISecret (cc_Global file)) (h_env h "EXOSCALE_API_SECRET");
    gc_APICredentialsFile :=
      default (gc_APICredentialsFile (cc_Global file)) (h_env h "EXOSCALE_API_CREDENTIALS_FILE");
    gc_APIEndpoint := effective_endpoint h (gc_APIEndpoint (cc_Global file)) |};
  cc_Instances := cc_Instances file;
  cc_LoadBalancer := cc_LoadBalancer file |}.

(** The configuration file, if there is one. *)
Definition file_config (config : option string) : result cloudConfig :=
  match config with None => Ok cloudConfig_zero | Some text => yaml_Decode text end.

(** The configuration is that of the file, field by field overridden by the
    environment variables that are set, even to the empty string; the parts
    about instances and load balancers come from the file alone, and a file
    that does not decode is an error whatever the environment says. *)
Theorem environment_overrides_file h config :
  triple (on_host h) (λ _, True) (readExoscaleConfig config) (λ o _,
    o = Returned (configured h <$> file_config config)).
Proof.
  unfold readExoscaleConfig, configured, effective_endpoint. intros s o s' _ Hr.
  change (match config with None => _ | Some text => _ end) with (file_config config) in Hr.
  destruct (file_config config) as [file|e]; [|by destruct Hr as [-> _]].
  cbn in Hr. destruct Hr as (key & s1 & -> & secret & s2 & -> & path & s3 & -> & ep & s4 & -> & Hr).
  destruct (h_env h "EXOSCALE_API_ENDPOINT") as [v|]; cbn in Hr.
  - by destruct Hr as [-> _].
  - destruct Hr as (v & s5 & -> & -> & _). do 2 f_equal. cbn. do 2 f_equal.
    destruct (h_env h "EXOSCALE_API_ENVIRONMENT") as [v|]; simpl; [|done].
    repeat case_bool_decide; simplify_eq; done.
Qed.
End config.

(** ** Zone *)

Lemma env_nonempty_spec h name :
  match env_nonempty h name with
  | Some v => default "" (h_env h name) = v ∧ v ≠ ""
  | None => default "" (h_env h name) = ""
  end.
Proof.
  unfold env_nonempty. destruct (h_env h name); [|done]. by case_bool_decide.
Qed.

(** The zone: EXOSCALE_API_ZONE, else EXOSCALE_ZONE, else the CD-ROM of the
    instance, else the metadata server. *)
Definition zone_of (h : host) : result string :=
  match env_nonempty h "EXOSCALE_API_ZONE", env_nonempty h "EXOSCALE_ZONE" with
  | Some zone, _ | None, Some zone => Ok zone
  | None, None => match h_cdrom h with
                  | Ok zone => Ok zone
                  | Err _ => map_err (ErrorfW "get metadata: %w" []) (h_server h)
                  end
  end.

Definition fresh_provider (config : cloudConfig) (zone : string) : cloudProvider :=
  {| p_cfg := config; p_client := false; p_kclient := false; p_zone := zone |}.

(** Without any zone there is no provider. *)
Theorem zone_precedence h config :
  triple (provider_on_host h) (λ _, True) (newExoscaleCloud config) (λ o _,
    o = Returned (fresh_provider config <$> zone_of h)).
Proof.
  unfold newExoscaleCloud, findZone, zone_of. intros s o s' _ Hr. cbn in Hr.
  destruct Hr as (v & s1 & -> & Hr). pose proof (env_nonempty_spec h "EXOSCALE_API_ZONE") as H1.
  destruct (env_nonempty h "EXOSCALE_API_ZONE") as [z|].
  { destruct H1 as [H1 Hz]. rewrite H1, bool_decide_eq_false_2 in Hr by done. by destruct Hr as [-> _]. }
  rewrite H1 in Hr. cbn in Hr. destruct Hr as (v & s2 & -> & Hr).
  pose proof (env_nonempty_spec h "EXOSCALE_ZONE") as H2.
  destruct (env_nonempty h "EXOSCALE_ZONE") as [z|].
  { destruct H2 as [H2 Hz]. rewrite H2, bool_decide_eq_false_2 in Hr by done. by destruct Hr as [-> _]. }
  rewrite H2 in Hr. cbn in Hr. destruct Hr as (r & s3 & -> & Hr).
  destruct (h_cdrom h) as [z|e]; cbn in Hr; [by destruct Hr as [-> _]|].
  destruct Hr as (r & s4 & -> & Hr). destruct (h_server h); cbn in Hr; by destruct Hr as [-> _].
Qed.

(** ** Initialization *)

(** The runners started in a trace. *)
Definition as_runner (c : call providerE) : option string :=
  match call_event c with GoRunner r => Some r | _ => None end.

Definition not_runner {X} (e : providerE X) : Prop :=
  match e with GoRunner _ => False | _ => True end.

Lemma no_runners t : Forall (on_call (@not_runner)) t → omap as_runner t = [].
Proof. induction 1 as [|[X [] x] t He _ IH]; simpl in *; done. Qed.

Lemma ensures_client_part {A} (p : prog clientE A) : ensures (@not_runner) (λ _, True) (client_part p).
Proof. induction p; simpl; auto. Qed.

Lemma wp_runSKSAgent runners :
  wp (runSKSAgent runners) (λ t o,
    (o = Returned (Ok ()) ∧ omap as_runner t = runners ∧
      Forall (λ r, r = sksAgentNodeCSRValidation) runners) ∨
    (∃ e r, o = Returned (Err e) ∧ r ∈ runners ∧ r ≠ sksAgentNodeCSRValidation)).
Proof.
  induction runners as [|r runners IH]; simpl; [by apply wp_ret; left|].
  case_bool_decide as Hr.
  - apply wp_vis. intros []. eapply wp_mono; [apply IH|]. cbn.
    intros t o [(-> & <- & Hall)|(e & r' & -> & Hin & Hne)]; [left|right].
    + split_and!; [done|done|by constructor].
    + exists e, r'. split_and!; [done|by right|done].
  - apply wp_ret. right. eexists _, r. split_and!; [done|by left|done].
Qed.

Section initialize.
Context {ua : UserAgents}.

(** When [Initialize] returns, both clients are set, the configuration and
    the zone are as before, and the agents started are those that the
    environment lists, all of them supported. *)
Theorem initialize_sets_clients p :
  wp (Initialize p) (λ t o, ∀ p', o = Returned p' →
    p_client p' = true ∧ p_kclient p' = true ∧ p_cfg p' = p_cfg p ∧ p_zone p' = p_zone p ∧
    Forall (λ r, r = sksAgentNodeCSRValidation) (omap as_runner t) ∧
    ∃ v, Call (Host (LookupEnv "EXOSCALE_SKS_AGENT_RUNNERS")) v ∈ t ∧
      omap as_runner t = (if bool_decide (default "" v = "") then [] else Split (default "" v) ",")).
Proof.
  unfold Initialize. apply wp_vis. intros [[]|e]; [|by apply wp_halt].
  apply wp_bind. eapply wp_mono; [apply ensures_wp, ensures_client_part|].
  intros t o [Ht%no_runners _]. destruct o as [[[]|e]|h]; [|by apply wp_halt|done].
  apply wp_vis. intros []. apply wp_vis. intros v. cbn.
  assert (∀ t', Call (Host (LookupEnv "EXOSCALE_SKS_AGENT_RUNNERS")) v ∈
    Call (KubernetesClientOrDie "exoscale-cloud-controller-manager") (Ok ())
     :: t ++ Call GoStop () :: Call (Host (LookupEnv "EXOSCALE_SKS_AGENT_RUNNERS")) v :: t') as Hin.
  { intros t'. right. rewrite elem_of_app. right. right. by left. }
  destruct (decide (default "" v = "")) as [Hv|Hv].
  - rewrite bool_decide_eq_false_2 by (by intros Hne; apply Hne). apply wp_ret. intros p' [= <-].
    split_and!; [done..| |]; [by rewrite omap_app, Ht|].
    exists v. split; [apply Hin|]. simpl. by rewrite omap_app, Ht, bool_decide_eq_true_2.
  - rewrite bool_decide_eq_true_2 by done. apply wp_bind. eapply wp_mono; [apply wp_runSKSAgent|].
    intros t' o [(-> & Heq & Hall)|(e & r & -> & _)]; [|by apply wp_halt].
    apply wp_ret. rewrite app_nil_r. intros p' [= <-]. split_and!; [done..| |]; [by rewrite <-Heq in Hall; rewrite omap_app, Ht|].
    exists v. split; [apply Hin|]. simpl. by rewrite omap_app, Ht, bool_decide_eq_false_2, <-Heq.
Qed.
End initialize.
