(* ===== verification/Startup.v ===== *)
(** How the process comes by its provider: the registration in exoscale.go, the
    registry of k8s.io/cloud-provider (plugins.go) and main.go. *)
From S2P Require Import Prelude GoErrors GoStrings Effects Egoscale Kube InstancesConfig.
From S2P Require Import CloudConfig Client Provider ProviderProps.

(** The effects of the start: those of the configuration and of the provider,
    opening the configuration file, and what [main] asks of the libraries of the
    command line. *)
Inductive startE : Type → Type :=
| Configuring {X} (e : ccmE X) : startE X
| Providing {X} (e : providerE X) : startE X
| OpenConfig (path : string) : startE (result string)
| NewCloudControllerManagerOptions : startE (result ())
| SetFlag (name value : string) : startE (result ())
| Execute : startE (result ()).

(** [func(config io.Reader) (cloudprovider.Interface, error)] *)
Definition Factory : Type := option string → prog startE (result cloudProvider).

Section startup.
Context {yaml : YAML}.

(** The function that [init] registers. *)
Definition exoscaleFactory : Factory := λ config,
  cfg ←? lift (@Configuring) (readExoscaleConfig config);
  lift (@Providing) (newExoscaleCloud cfg).

(** ** The registry *)

(** [map[string]Factory] *)
Definition registry : Type := string → option Factory.

(** Registering a name twice exits the process, [None]. *)
Definition RegisterCloudProvider (providers : registry) (name : string) (cloud : Factory) :
    option registry :=
  match providers name with
  | Some _ => None
  | None => Some (λ name', if decide (name' = name) then Some cloud else providers name')
  end.

(** [init] of exoscale.go. *)
Definition init : option registry :=
  RegisterCloudProvider (λ _, None) ProviderName exoscaleFactory.

Definition GetCloudProvider (providers : registry) (name : string)
    (config : option string) : prog startE (result (option cloudProvider)) :=
  match providers name with
  | None => mret (Ok None)
  | Some f => r ← f config; mret (match r with Ok cloud => Ok (Some cloud) | Err err => Err err end)
  end.

Definition externalCloudProvider : string := "external".

Definition InitCloudProvider (providers : registry) (name configFilePath : string) :
    prog startE (result (option cloudProvider)) :=
  if bool_decide (name = "") then mret (Ok None)
  else if bool_decide (name = externalCloudProvider) then mret (Ok None)
  else
    cloud ← (if bool_decide (configFilePath ≠ "") then
               r ← trigger (OpenConfig configFilePath);
               match r with
               | Err err => Halt (Fatalf "Couldn't open cloud provider configuration %s: %#v")
               | Ok config => GetCloudProvider providers name (Some config)
               end
             else GetCloudProvider providers name None);
    mret match cloud with
         | Err err => Err (ErrorfS "could not init cloud provider %q: %v" [name] err)
         | Ok None => Err (ErrorNew "unknown cloud provider %q" [name])
         | Ok (Some cloud) => Ok (Some cloud)
         end.

(** [cloudInitializer] in the process, with the settings of its command line. *)
Definition obtain (name configFilePath : string) (AllowUntaggedCloud : bool) :
    prog startE cloudProvider :=
  match init with
  | None => Halt (Fatalf "Cloud provider %q was registered twice")
  | Some providers =>
      cloud ← InitCloudProvider providers name configFilePath;
      lift (@Providing) (cloudInitializer cloud AllowUntaggedCloud)
  end.

(** ** The command *)

(** [main]: the flags are those of the command of k8s.io/cloud-provider, visited
    before the command line is parsed. *)
Definition main (flags : list string) : prog startE () :=
  r ← trigger NewCloudControllerManagerOptions;
  match r with
  | Err err => Halt (Fatalf "unable to initialize command options: %v")
  | Ok _ =>
      _ ← foldr (λ flag rest,
            if bool_decide (flag = "cloud-provider") then
              r ← trigger (SetFlag flag ProviderName);
              match r with
              | Err err => Halt (Fatalf "unable to set cloud-provider flag value: %s")
              | Ok _ => rest
              end
            else rest) (mret ()) flags;
      r ← trigger Execute;
      match r with
      | Err err => Halt (Fatalf "cloud-controller-manger command failed: %s")
      | Ok _ => mret ()
      end
  end.

(** A [main] that returns has asked for this provider, once per flag of that
    name, before it ran the command. *)
Definition event {X} (e : startE X) : {X : Type & startE X} := existT X e.

Lemma main_order flags :
  wp (main flags) (λ t o, o = Returned () →
    (λ c, event (call_event c)) <$> t =
      event NewCloudControllerManagerOptions ::
      ((λ flag, event (SetFlag flag ProviderName)) <$> filter (λ flag, flag = "cloud-provider") flags) ++
      [event Execute]).
Proof.
  unfold main. apply wp_vis. intros [[]|e]; [|by apply wp_halt].
  set (rest := λ _ : (), trigger Execute ≫= _).
  assert (wp (foldr (λ flag rest, if bool_decide (flag = "cloud-provider") then
      r ← trigger (SetFlag flag ProviderName);
      match r with Err err => Halt (Fatalf "unable to set cloud-provider flag value: %s") | Ok _ => rest end
    else rest) (mret ()) flags) (λ t o, o = Returned () →
    (λ c, event (call_event c)) <$> t =
      (λ flag, event (SetFlag flag ProviderName)) <$> filter (λ flag, flag = "cloud-provider") flags)) as Hflags.
  { induction flags as [|flag flags IH]; [by apply wp_ret|]. simpl foldr. rewrite filter_cons.
    case_bool_decide as Hf; [rewrite decide_True by done|by rewrite decide_False].
    apply wp_vis. intros [[]|e]; [|by apply wp_halt]. eapply wp_mono; [apply IH|]. cbn.
    intros t o Ht Ho. by rewrite Ht. }
  apply wp_bind. eapply wp_mono; [apply Hflags|]. intros t [[]|h] Ht; [|done].
  apply wp_vis. intros [[]|e]; [|by apply wp_halt]. apply wp_ret. intros _. cbn.
  by rewrite fmap_app, Ht.
Qed.

(** ** Properties *)

(** A host and the files it has. *)
Definition starting_on (h : host) (files : string → result string) : handler startE () := λ X e s x s',
  match e in startE X return X → Prop with
  | Configuring e => λ x, on_host h _ e s x s'
  | Providing e => λ x, provider_on_host h _ e s x s'
  | OpenConfig path => λ x, x = files path
  | _ => λ _, True
  end x.

(** The provider that the host, its file and its environment make. *)
Definition provider_of (h : host) (config : option string) : result cloudProvider :=
  file ← file_config config;
  fresh_provider (configured h file) <$> zone_of h.

Section host.
Context (h : host) (files : string → result string).

Lemma triple_exoscaleFactory config :
  triple (starting_on h files) (λ _, True) (exoscaleFactory config) (λ o _,
    o = Returned (provider_of h config)).
Proof.
  unfold exoscaleFactory, provider_of.
  eapply triple_try_bind with (M := λ o _, o = Returned (configured h <$> file_config config)).
  - apply (triple_lift (@Configuring) (on_host h) _ _ (λ o, o = _)); [by intros; exists tt|by exists tt|].
    apply environment_overrides_file.
  - intros cfg. apply triple_known. intros _ [= Hcfg]. destruct (file_config config) as [file|]; [|done].
    injection Hcfg as ->.
    apply (triple_lift (@Providing) (provider_on_host h) _ _ (λ o, o = _)); [by intros; exists tt|by exists tt|].
    apply zone_precedence.
  - intros e s [= Heq]. by destruct (file_config config); simplify_eq/=.
  - done.
Qed.

(** What reading the configuration file gives. *)
Definition open_config (configFilePath : string) : result (option string) :=
  if bool_decide (configFilePath = "") then Ok None else Some <$> files configFilePath.

Definition registered : registry := λ name,
  if decide (name = ProviderName) then Some exoscaleFactory else None.

(** What the named provider is, given its configuration: none when it is not
    registered. *)
Definition named_provider (name : string) (config : option string) : result (option cloudProvider) :=
  if decide (name = ProviderName) then
    match provider_of h config with Ok cloud => Ok (Some cloud) | Err err => Err err end
  else Ok None.

Lemma triple_GetCloudProvider name config :
  triple (starting_on h files) (λ _, True) (GetCloudProvider registered name config) (λ o _,
    o = Returned (named_provider name config)).
Proof.
  unfold GetCloudProvider, registered, named_provider. case_decide; [|by apply triple_ret].
  eapply triple_bind; [apply triple_exoscaleFactory| |done].
  intros r. apply triple_ret. by intros _ [= ->].
Qed.

Definition start_fails (o : outcome (result (option cloudProvider))) : Prop :=
  (∃ message, o = Halted (Fatalf message)) ∨ (∃ err, o = Returned (Err err)) ∨ o = Returned (Ok None).

Lemma triple_InitCloudProvider name configFilePath :
  triple (starting_on h files) (λ _, True) (InitCloudProvider registered name configFilePath) (λ o _,
    match open_config configFilePath ≫= provider_of h with
    | Ok p => if decide (name = ProviderName) then o = Returned (Ok (Some p)) else start_fails o
    | Err _ => start_fails o
    end).
Proof.
  unfold InitCloudProvider, open_config.
  assert (name ≠ ProviderName → start_fails (Returned (Ok None)) →
    match open_config configFilePath ≫= provider_of h with
    | Ok p => if decide (name = ProviderName) then Returned (Ok None) = Returned (Ok (Some p))
              else start_fails (Returned (Ok None))
    | Err _ => start_fails (Returned (Ok None))
    end) as Hnone.
  { intros Hne Hf. destruct (open_config configFilePath ≫= provider_of h); [|done].
    by rewrite decide_False. }
  case_bool_decide as He; [subst; apply triple_ret; intros _ _; apply Hnone; [done|by right; right]|].
  case_bool_decide as Hx; [subst; apply triple_ret; intros _ _; apply Hnone; [done|by right; right]|].
  clear Hnone.
  eapply triple_bind with (M := λ o _,
    match (if bool_decide (configFilePath = "") then Ok None else Some <$> files configFilePath) with
    | Ok config => o = Returned (named_provider name config)
    | Err _ => ∃ message, o = Halted (Fatalf message)
    end).
  - case_bool_decide as Hp.
    + rewrite bool_decide_eq_false_2 by done.
      eapply triple_vis with (M := λ r _, r = files configFilePath); [by intros s r s' _ Hr|].
      intros r. apply triple_known. intros _ ->. destruct (files configFilePath) as [text|e]; simpl.
      * apply triple_GetCloudProvider.
      * apply triple_halt. intros _ _. by eexists.
    + rewrite bool_decide_eq_true_2 by done. apply triple_GetCloudProvider.
  - intros r. apply triple_ret. intros _ Hr.
    destruct (if bool_decide (configFilePath = "") then _ else _) as [config|e]; [|by destruct Hr].
    injection Hr as ->. simpl. unfold named_provider. case_decide as Hn.
    + destruct (provider_of h config) as [p|e]; [done|]. right. left. by eexists.
    + destruct (provider_of h config); right; left; by eexists.
  - intros m _ Hm.
    destruct (if bool_decide (configFilePath = "") then _ else _) as [config|e]; [done|].
    destruct Hm as [message [= ->]]. left. by eexists.
Qed.

(** C35: how the process starts. The provider is obtained, without clients, exactly
    when the provider asked for is "exoscale", its configuration file (if any)
    opens and decodes, a zone is found, and clusters without an ID are allowed,
    which no cluster of this provider has; it is then the one that the file,
    the environment and the host make. Otherwise the process exits: it never
    runs without a provider. *)
Theorem provider_obtained name configFilePath allow :
  triple (starting_on h files) (λ _, True) (obtain name configFilePath allow) (λ o _,
    match open_config configFilePath ≫= provider_of h with
    | Ok p => if decide (name = ProviderName ∧ allow = true) then o = Returned p
              else ∃ message, o = Halted (Fatalf message)
    | Err _ => ∃ message, o = Halted (Fatalf message)
    end).
Proof.
  unfold obtain, init, RegisterCloudProvider.
  eapply triple_bind; [apply triple_InitCloudProvider| |].
  - intros cloud. apply triple_known. intros _ Hcloud.
    assert (start_fails (Returned cloud) → triple (starting_on h files) (λ _, True)
      (lift (@Providing) (cloudInitializer cloud allow)) (λ o _, ∃ message, o = Halted (Fatalf message)))
      as Hfail.
    { intros [[m [=]]|[[err [= ->]]|[= ->]]]; apply triple_halt; by eexists. }
    destruct (open_config configFilePath ≫= provider_of h) as [p|e]; [|by apply Hfail].
    case_decide as Hn.
    + injection Hcloud as ->. simpl. destruct allow.
      * apply triple_ret. intros _ _. by rewrite decide_True.
      * apply triple_halt. intros _ _. rewrite decide_False by naive_solver. by eexists.
    + eapply triple_conseq; [by apply Hfail|done|]. intros o s Ho. by rewrite decide_False by naive_solver.
  - intros m s Hm.
    assert (∀ o : halt, start_fails (Halted o) → ∃ message, @Halted cloudProvider o = Halted (Fatalf message)) as Hs.
    { intros o [[message [= ->]]|[[? [=]]|[=]]]. by eexists. }
    destruct (open_config configFilePath ≫= provider_of h) as [p|e]; [|by apply Hs].
    case_decide; [done|]. rewrite decide_False by naive_solver. by apply Hs.
Qed.
End host.
End startup.
