(* ===== verification/LoadBalancerSpec.v ===== *)
(** The pure half of exoscale/loadbalancer.go: reading the Service annotations,
    building the desired NLB from a Service, and the comparisons that decide
    whether the NLB or one of its services must be updated. *)
From S2P Require Import Prelude GoErrors GoStrings GoTime Egoscale Kube.
#[local] Open Scope Z_scope.

(** ** Annotations *)

Definition annotationPrefix : string := "service.beta.kubernetes.io/exoscale-loadbalancer-".
Definition annotationLoadBalancerID := annotationPrefix +:+ "id".
Definition annotationLoadBalancerName := annotationPrefix +:+ "name".
Definition annotationLoadBalancerDescription := annotationPrefix +:+ "description".
Definition annotationLoadBalancerExternal := annotationPrefix +:+ "external".
Definition annotationLoadBalancerServiceStrategy := annotationPrefix +:+ "service-strategy".
Definition annotationLoadBalancerServiceName := annotationPrefix +:+ "service-name".
Definition annotationLoadBalancerServiceDescription := annotationPrefix +:+ "service-description".
Definition annotationLoadBalancerServiceInstancePoolID :=
  annotationPrefix +:+ "service-instancepool-id".
Definition annotationLoadBalancerSKSClusterName := annotationPrefix +:+ "sks-cluster-name".
Definition annotationLoadBalancerServiceSKSNodePoolName :=
  annotationPrefix +:+ "service-sks-nodepool-name".
Definition annotationLoadBalancerServiceHealthCheckMode :=
  annotationPrefix +:+ "service-healthcheck-mode".
Definition annotationLoadBalancerServiceHealthCheckPort :=
  annotationPrefix +:+ "service-healthcheck-port".
Definition annotationLoadBalancerServiceHealthCheckURI :=
  annotationPrefix +:+ "service-healthcheck-uri".
Definition annotationLoadBalancerServiceHealthCheckInterval :=
  annotationPrefix +:+ "service-healthcheck-interval".
Definition annotationLoadBalancerServiceHealthCheckTimeout :=
  annotationPrefix +:+ "service-healthcheck-timeout".
Definition annotationLoadBalancerServiceHealthCheckRetries :=
  annotationPrefix +:+ "service-healthcheck-retries".

Definition defaultNLBServiceHealthCheckTimeout : string := "5s".
Definition defaultNLBServiceHealthcheckInterval : string := "10s".
Definition defaultNLBServiceHealthcheckMode : string := "tcp".
Definition defaultNLBServiceHealthcheckRetries : Z := 1.
Definition defaultNLBServiceStrategy : string := "round-robin".

Definition ProtocolTCP : string := "TCP".
Definition ProtocolUDP : string := "UDP".
Definition ServiceExternalTrafficPolicyTypeLocal : string := "Local".

Definition getAnnotation (service : Service) (k defaultValue : string) : string :=
  match annotation service k with
  | Some v => v
  | None => if bool_decide (defaultValue ≠ "") then defaultValue else ""
  end.

Lemma getAnnotation_spec service k d : getAnnotation service k d = default d (annotation service k).
Proof. unfold getAnnotation. destruct (annotation _ _); [done|]. by case_bool_decide; [|destruct d]. Qed.

Section spec.
Context {unicode : UnicodeTables}.

Definition isExternal (service : Service) : bool :=
  bool_decide (ToLower (getAnnotation service annotationLoadBalancerExternal "false") = "true").

(** [GetLoadBalancerName] *)
Definition GetLoadBalancerName (service : Service) : string :=
  getAnnotation service annotationLoadBalancerName ("k8s-" +:+ svc_UID service).

(** ** The desired NLB *)

(** The health check port of one service port (lines 809-837). *)
Definition healthcheckPort (service : Service) (sp : ServicePort) : result Z :=
  let hcPortAnnotation := getAnnotation service annotationLoadBalancerServiceHealthCheckPort "" in
  if bool_decide (hcPortAnnotation ≠ "") then
    match Atoi hcPortAnnotation with
    | Ok hcPortInt => Ok (uint16 hcPortInt)
    | Err err => Err (ErrorfS "invalid healthcheck port annotation: %s" [] err)
    end
  else if bool_decide (svc_ExternalTrafficPolicy service = ServiceExternalTrafficPolicyTypeLocal)
          && (0 <? svc_HealthCheckNodePort service)
  then Ok (uint16 (svc_HealthCheckNodePort service))
  else Ok (uint16 (sp_NodePort sp)).

(** [fmt.Sprintf("%s-%d", service.UID, servicePort.Port)], with the protocol
    appended when it is not TCP. *)
Definition svcName (service : Service) (sp : ServicePort) : string :=
  svc_UID service +:+ "-" +:+ pretty (sp_Port sp)
  +:+ (if bool_decide (sp_Protocol sp ≠ ProtocolTCP) then "-" +:+ ToLower (sp_Protocol sp) else "").

(** The body of the loop over the service ports (lines 808-892). *)
Definition buildService (service : Service) (hcInterval hcTimeout hcRetries : Z)
    (servicePort : ServicePort) : result LoadBalancerService :=
  hcPort ← healthcheckPort service servicePort;
  if bool_decide (sp_Protocol servicePort ≠ ProtocolTCP)
     && bool_decide (sp_Protocol servicePort ≠ ProtocolUDP)
  then Err (ErrorNew "only TCP and UDP are supported as service port protocols" [])
  else
    let single := bool_decide (length (svc_Ports service) = 1%nat) in
    let name := svcName service servicePort in
    Ok {|
      lbs_Healthcheck := Some {|
        hc_Mode := getAnnotation service annotationLoadBalancerServiceHealthCheckMode
                     defaultNLBServiceHealthcheckMode;
        hc_Port := hcPort;
        hc_URI := getAnnotation service annotationLoadBalancerServiceHealthCheckURI "";
        hc_Interval := Seconds hcInterval;
        hc_Timeout := Seconds hcTimeout;
        hc_Retries := hcRetries;
        hc_TlsSNI := "" |};
      lbs_HealthcheckStatus := [];
      lbs_ID := "";
      lbs_InstancePool := Some {|
        ip_ID := getAnnotation service annotationLoadBalancerServiceInstancePoolID "";
        ip_others := [] |};
      lbs_Name := if single then getAnnotation service annotationLoadBalancerServiceName name
                  else name;
      lbs_Description :=
        if single then getAnnotation service annotationLoadBalancerServiceDescription "" else "";
      lbs_Port := sp_Port servicePort;
      lbs_Protocol := ToLower (sp_Protocol servicePort);
      lbs_State := "";
      lbs_Strategy := getAnnotation service annotationLoadBalancerServiceStrategy
                        defaultNLBServiceStrategy;
      lbs_TargetPort := sp_NodePort servicePort |}.

Definition buildLoadBalancerFromAnnotations (service : Service) : result LoadBalancer :=
  hcInterval ← ParseDuration (getAnnotation service
                 annotationLoadBalancerServiceHealthCheckInterval
                 defaultNLBServiceHealthcheckInterval);
  hcTimeout ← ParseDuration (getAnnotation service
                 annotationLoadBalancerServiceHealthCheckTimeout
                 defaultNLBServiceHealthCheckTimeout);
  hcRetries ← Atoi (getAnnotation service annotationLoadBalancerServiceHealthCheckRetries
                 (pretty defaultNLBServiceHealthcheckRetries));
  services ← mapM (buildService service hcInterval hcTimeout hcRetries) (svc_Ports service);
  Ok {|
    lb_ID := getAnnotation service annotationLoadBalancerID "";
    lb_Name := getAnnotation service annotationLoadBalancerName ("k8s-" +:+ svc_UID service);
    lb_Description := getAnnotation service annotationLoadBalancerDescription "";
    lb_IP := None;
    lb_Labels := None;
    lb_Services := services |}.
End spec.

(** ** Comparisons *)

Definition isLoadBalancerUpdated (current update : LoadBalancer) : bool :=
  if bool_decide (lb_Name current ≠ lb_Name update) then true
  else bool_decide (lb_Description current ≠ lb_Description update).

(** [cmp.Equal] ignoring [State] and [HealthcheckStatus]: pointers are compared
    by what they point to. *)
Definition isLoadBalancerServiceUpdated (current update : LoadBalancerService) : bool :=
  negb (bool_decide (lbs_Description current = lbs_Description update)
        && bool_decide (lbs_Healthcheck current = lbs_Healthcheck update)
        && bool_decide (lbs_ID current = lbs_ID update)
        && bool_decide (lbs_InstancePool current = lbs_InstancePool update)
        && bool_decide (lbs_Name current = lbs_Name update)
        && bool_decide (lbs_Port current = lbs_Port update)
        && bool_decide (lbs_Protocol current = lbs_Protocol update)
        && bool_decide (lbs_Strategy current = lbs_Strategy update)
        && bool_decide (lbs_TargetPort current = lbs_TargetPort update)).

(** The key by which NLB services and service ports are matched. *)
Definition ServiceKey : Type := Z * string.
Definition key (s : LoadBalancerService) : ServiceKey := (lbs_Port s, lbs_Protocol s).
