(* ===== verification/LoadBalancerSpecProps.v ===== *)
(** Properties of the desired NLB: when building it fails, what each service
    looks like, that names and keys are unique, and the exact meaning of the
    two update tests. *)
From S2P Require Import Prelude GoErrors GoStrings GoTime Egoscale Kube LoadBalancerSpec.
#[local] Open Scope Z_scope.

(** ** The comparisons *)

Lemma isLoadBalancerUpdated_false c u :
  isLoadBalancerUpdated c u = false ↔
  lb_Name c = lb_Name u ∧ lb_Description c = lb_Description u.
Proof.
  unfold isLoadBalancerUpdated.
  destruct (decide (lb_Name c = lb_Name u)), (decide (lb_Description c = lb_Description u));
    repeat case_bool_decide; naive_solver.
Qed.

(** Two services are equal up to [State] and [HealthcheckStatus]. *)
Definition same_service (c u : LoadBalancerService) : Prop :=
  lbs_Description c = lbs_Description u ∧ lbs_Healthcheck c = lbs_Healthcheck u ∧
  lbs_ID c = lbs_ID u ∧ lbs_InstancePool c = lbs_InstancePool u ∧ lbs_Name c = lbs_Name u ∧
  lbs_Port c = lbs_Port u ∧ lbs_Protocol c = lbs_Protocol u ∧
  lbs_Strategy c = lbs_Strategy u ∧ lbs_TargetPort c = lbs_TargetPort u.

Lemma same_service_trans x y z : same_service x y → same_service y z → same_service x z.
Proof. unfold same_service. intros. invert_all. split_and!; congruence. Qed.

Lemma isLoadBalancerServiceUpdated_false c u :
  isLoadBalancerServiceUpdated c u = false ↔ same_service c u.
Proof.
  unfold isLoadBalancerServiceUpdated, same_service.
  rewrite negb_false_iff, !andb_true_iff, !bool_decide_eq_true. tauto.
Qed.

Section build.
Context {unicode : UnicodeTables}.
Implicit Types (service : Service) (sp : ServicePort).

(** ** Building *)

(** What a successful build reads from the annotations. *)
Definition annotations_parse service (hcInterval hcTimeout hcRetries : Z) : Prop :=
  ParseDuration (getAnnotation service annotationLoadBalancerServiceHealthCheckInterval
                   defaultNLBServiceHealthcheckInterval) = Ok hcInterval ∧
  ParseDuration (getAnnotation service annotationLoadBalancerServiceHealthCheckTimeout
                   defaultNLBServiceHealthCheckTimeout) = Ok hcTimeout ∧
  Atoi (getAnnotation service annotationLoadBalancerServiceHealthCheckRetries
          (pretty defaultNLBServiceHealthcheckRetries)) = Ok hcRetries.

Lemma build_Ok service lb :
  buildLoadBalancerFromAnnotations service = Ok lb →
  ∃ i t r, annotations_parse service i t r ∧
    Forall2 (λ sp s, buildService service i t r sp = Ok s) (svc_Ports service) (lb_Services lb) ∧
    lb_ID lb = getAnnotation service annotationLoadBalancerID "" ∧
    lb_Name lb = GetLoadBalancerName service ∧
    lb_Description lb = getAnnotation service annotationLoadBalancerDescription "" ∧
    lb_Labels lb = None.
Proof.
  unfold buildLoadBalancerFromAnnotations.
  intros (i & Hi & (t & Ht & (r & Hr & (s & Hs%mapM_Ok & [= <-])
    %result_bind_Ok)%result_bind_Ok)%result_bind_Ok)%result_bind_Ok.
  exists i, t, r. done.
Qed.

Lemma build_ID service lb :
  buildLoadBalancerFromAnnotations service = Ok lb →
  lb_ID lb = getAnnotation service annotationLoadBalancerID "".
Proof. intros (i & t & r & _ & _ & H & _)%build_Ok. done. Qed.

Definition supported_protocol sp : Prop :=
  sp_Protocol sp = ProtocolTCP ∨ sp_Protocol sp = ProtocolUDP.

Lemma buildService_Ok service i t r sp s :
  buildService service i t r sp = Ok s →
  supported_protocol sp ∧
  (∃ hcPort, healthcheckPort service sp = Ok hcPort ∧
    lbs_Healthcheck s = Some {|
      hc_Mode := getAnnotation service annotationLoadBalancerServiceHealthCheckMode "tcp";
      hc_Port := hcPort;
      hc_URI := getAnnotation service annotationLoadBalancerServiceHealthCheckURI "";
      hc_Interval := Seconds i; hc_Timeout := Seconds t; hc_Retries := r; hc_TlsSNI := "" |}) ∧
  lbs_Port s = sp_Port sp ∧ lbs_TargetPort s = sp_NodePort sp ∧
  lbs_Protocol s = ToLower (sp_Protocol sp) ∧
  lbs_ID s = "" ∧
  lbs_InstancePool s = Some {|
    ip_ID := getAnnotation service annotationLoadBalancerServiceInstancePoolID "";
    ip_others := [] |} ∧
  (length (svc_Ports service) ≠ 1%nat →
   lbs_Name s = svcName service sp ∧ lbs_Description s = "").
Proof.
  unfold buildService. intros (hc & Hhc & H)%result_bind_Ok.
  case_bool_decide as H1; [case_bool_decide as H2; [done|]|]; simpl in H;
    injection H as <-; simpl;
    (split_and!; eauto;
     [unfold supported_protocol; destruct (decide (sp_Protocol sp = ProtocolTCP)); tauto
     |intros Hl; by rewrite bool_decide_eq_false_2]).
Qed.

Lemma buildService_key service i t r sp s :
  buildService service i t r sp = Ok s → key s = (sp_Port sp, ToLower (sp_Protocol sp)).
Proof. intros (_ & _ & Hp & _ & Hpr & _)%buildService_Ok. unfold key. by rewrite Hp, Hpr. Qed.

Lemma ToLower_protocol_inj sp1 sp2 :
  supported_protocol sp1 → supported_protocol sp2 →
  ToLower (sp_Protocol sp1) = ToLower (sp_Protocol sp2) → sp_Protocol sp1 = sp_Protocol sp2.
Proof. by intros [-> | ->] [-> | ->]. Qed.

(** The decimal number and the protocol suffix can be read back from a name. *)
Definition no_sep (c : ascii) : bool := is_digit c || bool_decide (c = "-"%char).

Lemma pretty_Z_chars (z : Z) : all_bytes no_sep (pretty z) = true.
Proof.
  assert (∀ n : N, all_bytes no_sep (pretty n) = true) as Hn.
  { intros n. eapply all_bytes_mono; [|apply pretty_N_digits].
    intros c Hc. unfold no_sep. by rewrite Hc. }
  destruct z as [|q|q]; [done|apply (Hn (Npos q))|].
  change (all_bytes no_sep (String "-" (pretty (Npos q))) = true). simpl. by rewrite Hn.
Qed.

Lemma all_bytes_app_udp (f : ascii → bool) s : f "u"%char = false →
  all_bytes f (s +:+ "-udp") = false.
Proof.
  intros Hu. rewrite all_bytes_app. simpl. rewrite Hu. simpl. by rewrite !andb_false_r.
Qed.

Definition name_suffix sp : string :=
  if bool_decide (sp_Protocol sp ≠ ProtocolTCP) then "-" +:+ ToLower (sp_Protocol sp) else "".

Lemma string_app_inj_l s t u : s +:+ t = s +:+ u → t = u.
Proof. apply inj, _. Qed.

Lemma string_app_inj_r s t u : s +:+ u = t +:+ u → s = t.
Proof.
  assert (∀ s t : string, String.length (s +:+ t) = (String.length s + String.length t)%nat)
    as Hlen by (intros; apply string_length_app).
  revert t. induction s as [|c s IH]; intros [|d t] Heq; [done|..].
  - apply (f_equal String.length) in Heq. rewrite !Hlen in Heq. simpl in Heq. lia.
  - apply (f_equal String.length) in Heq. rewrite !Hlen in Heq. simpl in Heq. lia.
  - rewrite !string_app_cons in Heq. injection Heq as -> Heq. f_equal. by apply IH.
Qed.

Lemma svcName_inj service sp1 sp2 :
  supported_protocol sp1 → supported_protocol sp2 →
  svcName service sp1 = svcName service sp2 →
  sp_Port sp1 = sp_Port sp2 ∧ sp_Protocol sp1 = sp_Protocol sp2.
Proof.
  unfold svcName. intros H1 H2 Heq.
  apply string_app_inj_l, string_app_inj_l in Heq.
  destruct H1 as [H1|H1], H2 as [H2|H2]; rewrite H1, H2 in Heq |- *; simpl in Heq.
  - rewrite !string_app_nil_r in Heq. by apply (inj pretty) in Heq.
  - exfalso. rewrite string_app_nil_r in Heq.
    pose proof (pretty_Z_chars (sp_Port sp1)) as Hc. rewrite Heq in Hc.
    by rewrite all_bytes_app_udp in Hc.
  - exfalso. rewrite string_app_nil_r in Heq.
    pose proof (pretty_Z_chars (sp_Port sp2)) as Hc. rewrite <-Heq in Hc.
    by rewrite all_bytes_app_udp in Hc.
  - apply string_app_inj_r in Heq. by apply (inj pretty) in Heq.
Qed.
Definition port_id sp : Z * string := (sp_Port sp, sp_Protocol sp).

Lemma Forall2_NoDup_fmap {A B K L} (R : A → B → Prop) (f : A → K) (g : B → L) l k :
  Forall2 R l k →
  (∀ x1 x2 y1 y2, x1 ∈ l → x2 ∈ l → R x1 y1 → R x2 y2 → g y1 = g y2 → f x1 = f x2) →
  NoDup (f <$> l) → NoDup (g <$> k).
Proof.
  induction 1 as [|x y l k Hxy Hlk IH]; intros Hinj Hnd; [constructor|].
  csimpl in *. apply NoDup_cons in Hnd as [Hx Hl]. apply NoDup_cons.
  split; [|apply IH; [|done]; intros; eapply (Hinj x1 x2); set_solver].
  intros (y' & Hg & Hy')%list_elem_of_fmap. destruct Hx.
  apply list_elem_of_lookup in Hy' as [j Hj].
  destruct (Forall2_lookup_r _ _ _ _ _ Hlk Hj) as (x' & Hx' & HR).
  apply list_elem_of_fmap. exists x'. split; [|by eapply list_elem_of_lookup_2].
  eapply Hinj; [| |done|done|done]; [set_solver|].
  apply elem_of_cons. right. by eapply list_elem_of_lookup_2.
Qed.

Lemma build_keys_NoDup service lb :
  buildLoadBalancerFromAnnotations service = Ok lb →
  NoDup (port_id <$> svc_Ports service) → NoDup (key <$> lb_Services lb).
Proof.
  intros (i & t & r & _ & HF & _)%build_Ok. eapply Forall2_NoDup_fmap; [done|].
  intros sp1 sp2 s1 s2 _ _ H1 H2 Hk.
  rewrite (buildService_key _ _ _ _ _ _ H1), (buildService_key _ _ _ _ _ _ H2) in Hk.
  apply buildService_Ok in H1 as [H1 _], H2 as [H2 _]. injection Hk as Hp Hl.
  unfold port_id. f_equal; [done|]. by apply ToLower_protocol_inj.
Qed.

Lemma build_names_NoDup service lb :
  buildLoadBalancerFromAnnotations service = Ok lb →
  NoDup (port_id <$> svc_Ports service) → NoDup (lbs_Name <$> lb_Services lb).
Proof.
  intros (i & t & r & _ & HF & _)%build_Ok.
  destruct (decide (length (svc_Ports service) = 1%nat)) as [Hl|Hl].
  { intros _. rewrite (Forall2_length _ _ _ HF) in Hl.
    destruct (lb_Services lb) as [|s [|??]]; simplify_eq/=. apply NoDup_singleton. }
  eapply Forall2_NoDup_fmap; [done|]. intros sp1 sp2 s1 s2 _ _ H1 H2 Hn.
  apply buildService_Ok in H1 as (H1 & _ & _ & _ & _ & _ & _ & N1).
  apply buildService_Ok in H2 as (H2 & _ & _ & _ & _ & _ & _ & N2).
  rewrite (proj1 (N1 Hl)), (proj1 (N2 Hl)) in Hn.
  apply svcName_inj in Hn as [??]; [|done..]. unfold port_id. by f_equal.
Qed.

Lemma buildService_is_Ok service i t r sp :
  (∃ s, buildService service i t r sp = Ok s) ↔
  supported_protocol sp ∧ ∃ n, healthcheckPort service sp = Ok n.
Proof.
  split; [intros (s & H); apply buildService_Ok in H; naive_solver|].
  intros (Hp & n & Hn). unfold buildService. rewrite Hn. simpl.
  destruct Hp as [-> | ->]; simpl; eauto.
Qed.

Lemma Forall2_exists {A B} (R : A → B → Prop) l :
  (∃ k, Forall2 R l k) ↔ Forall (λ x, ∃ y, R x y) l.
Proof.
  split.
  - intros [k Hk]. induction Hk; constructor; eauto.
  - induction 1 as [|x l [y Hy] _ [k Hk]]; [by exists []|]. by exists (y :: k); constructor.
Qed.

Lemma healthcheckPort_is_Ok service sp :
  (∃ n, healthcheckPort service sp = Ok n) ↔
  let a := getAnnotation service annotationLoadBalancerServiceHealthCheckPort "" in
  a = "" ∨ ∃ n, Atoi a = Ok n.
Proof.
  unfold healthcheckPort. cbv zeta.
  set (a := getAnnotation _ _ _). destruct (decide (a = "")) as [Ha|Ha].
  - rewrite bool_decide_eq_false_2 by auto. split; [by left|]. intros _. case_match; eauto.
  - rewrite bool_decide_eq_true_2 by done. destruct (Atoi a); naive_solver.
Qed.

(** C38: the names of the NLB services built for a Service are pairwise
    distinct, as are their (port, protocol) keys, whenever the Service's
    ports are: what the update loops rely on to tell services apart. *)
Theorem build_services_distinct service lb
    (Hbuild : buildLoadBalancerFromAnnotations service = Ok lb)
    (Hports : NoDup (port_id <$> svc_Ports service)) :
  NoDup (lbs_Name <$> lb_Services lb) ∧ NoDup (key <$> lb_Services lb) ∧
  length (lb_Services lb) = length (svc_Ports service).
Proof.
  split_and!; [by eapply build_names_NoDup|by eapply build_keys_NoDup|].
  apply build_Ok in Hbuild as (i & t & r & _ & HF & _). symmetry. by eapply Forall2_length.
Qed.

(** Building fails exactly when a health check annotation does not parse
    or a port's protocol is neither TCP nor UDP. *)
Theorem build_succeeds_iff service :
  (∃ lb, buildLoadBalancerFromAnnotations service = Ok lb) ↔
  (∃ i t r, annotations_parse service i t r) ∧
  Forall (λ sp, supported_protocol sp ∧
    let a := getAnnotation service annotationLoadBalancerServiceHealthCheckPort "" in
    a = "" ∨ ∃ n, Atoi a = Ok n) (svc_Ports service).
Proof.
  assert (∀ i t r, (∃ k, Forall2 (λ sp s, buildService service i t r sp = Ok s)
                           (svc_Ports service) k) ↔
    Forall (λ sp, supported_protocol sp ∧
      let a := getAnnotation service annotationLoadBalancerServiceHealthCheckPort "" in
      a = "" ∨ ∃ n, Atoi a = Ok n) (svc_Ports service)) as HF.
  { intros i t r. rewrite Forall2_exists. apply Forall_iff. intros sp.
    by rewrite buildService_is_Ok, healthcheckPort_is_Ok. }
  split.
  - intros (lb & (i & t & r & Hp & Hs & _)%build_Ok). split; [by exists i, t, r|].
    apply (HF i t r). eauto.
  - intros ((i & t & r & Hi & Ht & Hr) & Hs). apply (HF i t r) in Hs as [k Hk].
    unfold buildLoadBalancerFromAnnotations. rewrite Hi, Ht, Hr. simpl.
    apply mapM_Ok in Hk. rewrite Hk. simpl. eauto.
Qed.

(** C40: an accepted health check port annotation is any 64-bit integer, and
    the port sent to the API is its residue modulo 2^16: the annotation
    overrides the node ports, and a value outside 0..65535 is silently
    replaced by another port. *)
Theorem healthcheck_port_annotation_wraps service sp n
    (Hn : min_int64 ≤ n ≤ max_int64)
    (Hann : annotation service annotationLoadBalancerServiceHealthCheckPort = Some (pretty n)) :
  ∃ p, healthcheckPort service sp = Ok p ∧ 0 ≤ p < 65536 ∧ p = n `mod` 65536 ∧
    (p = n ↔ 0 ≤ n < 65536).
Proof.
  exists (uint16 n). unfold healthcheckPort. rewrite getAnnotation_spec, Hann. simpl.
  rewrite bool_decide_eq_true_2.
  2:{ intros Hnil. pose proof (Atoi_pretty n Hn) as H. by rewrite Hnil in H. }
  rewrite Atoi_pretty by done. pose proof (uint16_range n).
  split_and!; try done; try lia. split; [intros Hu; rewrite <-Hu; lia|apply uint16_id].
Qed.

(** Interval and timeout annotations written as whole seconds reach the
    API unchanged, over (and well past) the range 5..300 it accepts. *)
Theorem healthcheck_seconds_roundtrip service lb s (interval timeout : N)
    (Hi : (interval ≤ 3600)%N) (Ht : (timeout ≤ 3600)%N)
    (Hai : annotation service annotationLoadBalancerServiceHealthCheckInterval
           = Some (pretty interval +:+ "s"))
    (Hat : annotation service annotationLoadBalancerServiceHealthCheckTimeout
           = Some (pretty timeout +:+ "s"))
    (Hbuild : buildLoadBalancerFromAnnotations service = Ok lb)
    (Hs : s ∈ lb_Services lb) :
  ∃ hc, lbs_Healthcheck s = Some hc ∧
    hc_Interval hc = Z.of_N interval ∧ hc_Timeout hc = Z.of_N timeout.
Proof.
  apply build_Ok in Hbuild as (i & t & r & (Pi & Pt & _) & HF & _).
  rewrite getAnnotation_spec, Hai in Pi. rewrite getAnnotation_spec, Hat in Pt. simpl in Pi, Pt.
  rewrite ParseDuration_seconds in Pi, Pt by (unfold Second, max_int64; lia).
  injection Pi as <-. injection Pt as <-.
  apply list_elem_of_lookup in Hs as [j Hj].
  destruct (Forall2_lookup_r _ _ _ _ _ HF Hj) as (sp & _ & Hb).
  apply buildService_Ok in Hb as (_ & (hc & _ & Hhc) & _).
  eexists. split; [exact Hhc|]. simpl. by rewrite !Seconds_whole by lia.
Qed.
End build.
