(* ===== verification/LoadBalancer.v ===== *)
(** The handlers of exoscale/loadbalancer.go and exoscale/patcher.go: the
    reconciliation of a Kubernetes Service with an Exoscale NLB. A handler that
    receives the [*v1.Service] it may modify threads it explicitly. JSON
    encoding and the strategic merge patch are the parameter [PatchLib]. *)
From S2P Require Import Prelude GoErrors GoStrings GoNet Effects Egoscale Kube CloudConfig.
From S2P Require Import LoadBalancerSpec.
#[local] Open Scope Z_scope.

(** [json.Marshal] of a Service and [strategicpatch.CreateTwoWayMergePatch]. *)
Class PatchLib := {
  json_Marshal : Service → result string;
  CreateTwoWayMergePatch : string → string → result string;
}.

(** ** Threading the Service *)

Abbreviation svc_prog A := (prog ccmE (Service * result A)).

(** A call that does not touch the Service. *)
Definition keep {A} (service : Service) (p : prog ccmE (result A)) : svc_prog A :=
  p ≫= λ r, mret (service, r).

(** [x, err := p; if err != nil { return err }] on a Service-threading call. *)
Definition svc_bind {A B} (p : svc_prog A) (f : Service → A → svc_prog B) : svc_prog B :=
  p ≫= λ sr, match sr.2 with Ok a => f sr.1 a | Err e => mret (sr.1, Err e) end.

Notation "'do' ( s , x ) ← p ; k" := (svc_bind p (λ s x, k))
  (at level 20, s name, x name, p at level 100, k at level 200, only parsing) : stdpp_scope.

Definition svc_wrap {A} (f : error → error) (p : svc_prog A) : svc_prog A :=
  p ≫= λ sr, mret (sr.1, map_err f sr.2).

Section handlers.
Context {unicode : UnicodeTables} {patchlib : PatchLib}.
Context (p : cloudProvider).

(** ** Patching annotations *)

(** [kubeServicePatcher]: [pt_current] is a deep copy of the Service, [pt_modified] the
    Service itself. *)
Record kubeServicePatcher := {
  pt_current : Service;
  pt_modified : Service;
}.

Definition newServicePatcher (service : Service) : kubeServicePatcher :=
  {| pt_current := service; pt_modified := service |}.

(** The patcher after an assignment to the Service it was made for, which
    [pt_modified] points to. *)
Definition edited (c : kubeServicePatcher) (service : Service) : kubeServicePatcher :=
  {| pt_current := pt_current c; pt_modified := service |}.

Definition Patch (c : kubeServicePatcher) : prog ccmE (result ()) :=
  currentJSON ←? mret (map_err (ErrorfS "failed to serialize current original object: %s" [])
                         (json_Marshal (pt_current c)));
  modifiedJSON ←? mret (map_err (ErrorfS "failed to serialize modified updated object: %s" [])
                          (json_Marshal (pt_modified c)));
  patch ←? mret (map_err (ErrorfS "failed to create 2-way merge patch: %s" [])
                   (CreateTwoWayMergePatch currentJSON modifiedJSON));
  if bool_decide (patch = "") || bool_decide (patch = "{}") then mret (Ok ())
  else
    wrap_err (ErrorfS "failed to patch service object %s/%s: %s"
                [svc_Namespace (pt_current c); svc_Name (pt_current c)])
      (kube p (KubePatchService (svc_Namespace (pt_current c)) (svc_Name (pt_current c)) patch)).

Definition patchAnnotation (service : Service) (k v : string) : svc_prog () :=
  let patcher := newServicePatcher service in
  let annotations := default ∅ (svc_Annotations service) in
  let service := with_Annotations service (Some annotations) in
  if bool_decide (annotations !! k = Some v) then mret (service, Ok ())
  else
    let service := with_Annotations service (Some (<[k := v]> annotations)) in
    keep service (Patch (edited patcher service)).

(** ** Reading the NLB *)

Definition fetchLoadBalancer (service : Service) : prog ccmE (result LoadBalancer) :=
  let lbID := getAnnotation service annotationLoadBalancerID "" in
  if bool_decide (lbID ≠ "") then
    wrap_err (λ err, if errors_Is err ErrNotFound then Sentinel errLoadBalancerNotFound else err)
      (exo p (ApiGetLoadBalancer lbID))
  else mret (Err (Sentinel errLoadBalancerNotFound)).

(** The ingress IPs of a [v1.LoadBalancerStatus]. *)
Definition status (nlb : LoadBalancer) : list string := [IP_String (lb_IP nlb)].

Definition GetLoadBalancer (service : Service) :
    prog ccmE (result (option (list string) * bool)) :=
  r ← fetchLoadBalancer service;
  mret match r with
       | Err err => if is_sentinel err errLoadBalancerNotFound then Ok (None, false) else Err err
       | Ok nlb => Ok (Some (status nlb), true)
       end.

(** ** Updating the NLB *)

(** Request bodies built from a desired service. *)
Definition add_request (u : LoadBalancerService) (pool : InstancePool) :
    AddServiceToLoadBalancerRequest := {|
  asr_Name := lbs_Name u; asr_Description := lbs_Description u; asr_Port := lbs_Port u;
  asr_TargetPort := lbs_TargetPort u; asr_Protocol := lbs_Protocol u;
  asr_Strategy := lbs_Strategy u; asr_Healthcheck := lbs_Healthcheck u;
  asr_InstancePool := Some {| ip_ID := ip_ID pool; ip_others := [] |} |}.

Definition update_request (u : LoadBalancerService) : UpdateLoadBalancerServiceRequest := {|
  usr_Name := lbs_Name u; usr_Description := lbs_Description u; usr_Port := lbs_Port u;
  usr_TargetPort := lbs_TargetPort u; usr_Protocol := lbs_Protocol u;
  usr_Strategy := lbs_Strategy u; usr_Healthcheck := lbs_Healthcheck u |}.

Definition with_ID (u : LoadBalancerService) (id : UUID) : LoadBalancerService := {|
  lbs_Description := lbs_Description u; lbs_Healthcheck := lbs_Healthcheck u;
  lbs_HealthcheckStatus := lbs_HealthcheckStatus u; lbs_ID := id;
  lbs_InstancePool := lbs_InstancePool u; lbs_Name := lbs_Name u; lbs_Port := lbs_Port u;
  lbs_Protocol := lbs_Protocol u; lbs_State := lbs_State u; lbs_Strategy := lbs_Strategy u;
  lbs_TargetPort := lbs_TargetPort u |}.

Definition pool_ID (s : LoadBalancerService) : UUID :=
  match lbs_InstancePool s with Some pool => ip_ID pool | None => "" end.

(** Creating an NLB service, then looking the new service up by name in the
    NLB (lines 426-473, and again 506-549). *)
Definition createService (nlbCurrent : LoadBalancer) (u : LoadBalancerService) :
    prog ccmE (result ()) :=
  match lbs_InstancePool u with
  | None => Halt NilDeref
  | Some pool =>
      _ ←? exo p (ApiAddServiceToLoadBalancer (lb_ID nlbCurrent) (add_request u pool));
      nlb ←? exo p (ApiGetLoadBalancer (lb_ID nlbCurrent));
      let svc := default LoadBalancerService_zero
                   (find_last (λ item, bool_decide (lbs_Name item = lbs_Name u))
                      (lb_Services nlb)) in
      if bool_decide (lbs_Name svc = "")
      then mret (Err (ErrorNew "failed to create NLB service %s/%s"
                        [lb_Name nlbCurrent; lbs_Name u]))
      else mret (Ok ())
  end.

(** First loop (lines 371-415): existing services whose key is still desired
    are collected, the others are deleted unless the NLB is external. *)
Definition collectService (service : Service) (nlbCurrent nlbUpdate : LoadBalancer)
    (nlbServices : gmap ServiceKey LoadBalancerService) (cur : LoadBalancerService) :
    prog ccmE (result (gmap ServiceKey LoadBalancerService)) :=
  if existsb (λ u, bool_decide (key cur = key u)) (lb_Services nlbUpdate) then
    mret (Ok (<[key cur := cur]> nlbServices))
  else if isExternal service then mret (Ok nlbServices)
  else
    _ ←? exo p (ApiDeleteLoadBalancerService (lb_ID nlbCurrent) (lbs_ID cur));
    mret (Ok nlbServices).

(** Second loop (lines 418-576): each desired service is created, recreated
    when its Instance Pool changed, or updated when another field differs. *)
Definition reconcileService (nlbCurrent nlbUpdate : LoadBalancer)
    (nlbServices : gmap ServiceKey LoadBalancerService) (_ : ()) (u : LoadBalancerService) :
    prog ccmE (result ()) :=
  match nlbServices !! key u with
  | None => createService nlbCurrent u
  | Some cur =>
      let u := with_ID u (lbs_ID cur) in
      if bool_decide (pool_ID cur ≠ pool_ID u) then
        _ ←? wrap_err (ErrorfW "failed deleting NLB service: %w" [])
               (exo p (ApiDeleteLoadBalancerService (lb_ID nlbCurrent) (lbs_ID cur)));
        createService nlbCurrent u
      else if isLoadBalancerServiceUpdated cur u then
        _ ←? exo p (ApiUpdateLoadBalancerService (lb_ID nlbUpdate) (lbs_ID u)
                      (update_request u));
        mret (Ok ())
      else mret (Ok ())
  end.

(** The update proper, once the NLB has been read (lines 341-579). *)
Definition applyUpdate (service : Service) (nlbUpdate nlbCurrent : LoadBalancer) :
    prog ccmE (result ()) :=
  _ ←? (if negb (isExternal service) && isLoadBalancerUpdated nlbCurrent nlbUpdate then
          _ ←? exo p (ApiUpdateLoadBalancer (lb_ID nlbUpdate) {|
                 ulr_Name := lb_Name nlbUpdate;
                 ulr_Description := lb_Description nlbCurrent;
                 ulr_Labels := lb_Labels nlbUpdate |});
          mret (Ok ())
        else mret (Ok ()));
  nlbServices ←? forM (lb_Services nlbCurrent) ∅ (collectService service nlbCurrent nlbUpdate);
  forM (lb_Services nlbUpdate) () (reconcileService nlbCurrent nlbUpdate nlbServices).

Definition updateLoadBalancer (service : Service) : prog ccmE (result ()) :=
  nlbUpdate ←? mret (buildLoadBalancerFromAnnotations service);
  if bool_decide (lb_ID nlbUpdate = "")
  then mret (Err (Sentinel errLoadBalancerIDAnnotationNotFound))
  else
    nlbCurrent ←? exo p (ApiGetLoadBalancer (lb_ID nlbUpdate));
    applyUpdate service nlbUpdate nlbCurrent.

Definition UpdateLoadBalancer (service : Service) : prog ccmE (result ()) :=
  updateLoadBalancer service.

(** ** Ensuring the NLB exists *)

(** An external NLB given by name gets its ID annotation (lines 105-133). *)
Definition resolveExternal (service : Service) : svc_prog () :=
  if isExternal service then
    let lbID := getAnnotation service annotationLoadBalancerID "" in
    let lbName := getAnnotation service annotationLoadBalancerName "" in
    if bool_decide (lbID = "") && bool_decide (lbName = "") then
      mret (service, Err (ErrorNew "NLB instance marked as external in Service annotations, but no ID or name specified" []))
    else if bool_decide (lbID = "") && bool_decide (lbName ≠ "") then
      do (service, nlbs) ← keep service
        (wrap_err (ErrorfW "error listing NLBs: %w" []) (exo p ApiListLoadBalancers));
      match FindLoadBalancer nlbs lbName with
      | Err _ => mret (service, Err (ErrorNew "NLB instance is marked external by name %q, but no matching NLB was found" [lbName]))
      | Ok nlb =>
          svc_wrap (ErrorfW "error patching annotations: %w" [])
            (patchAnnotation service annotationLoadBalancerID (lb_ID nlb))
      end
    else mret (service, Ok ())
  else mret (service, Ok ()).

(** The Instance Pool of the first SKS node pool with that name (lines 153-159). *)
Definition nodepoolInstancePool (pools : list SKSNodepool) (name : string) : UUID :=
  match List.find (λ pool, EqualFold (np_Name pool) name
                           && bool_decide (is_Some (np_InstancePool pool))) pools with
  | Some pool => match np_InstancePool pool with Some ip => ip_ID ip | None => "" end
  | None => ""
  end.

(** One node of the inference loop (lines 186-205). *)
Definition inferFromNode (instancePoolID : UUID) (node : Node) : prog ccmE (result UUID) :=
  instance ←? wrap_err (ErrorfS "error retrieving Compute instance information: %s" [])
                (exo p (ApiGetInstance (node_SystemUUID node)));
  match inst_Manager instance with
  | None => mret (Ok instancePoolID)
  | Some m =>
      if bool_decide (mgr_Type m ≠ "instance-pool") then mret (Ok instancePoolID)
      else if bool_decide (instancePoolID ≠ "") && bool_decide (mgr_ID m ≠ instancePoolID) then
        mret (Err (ErrorNew "multiple Instance Pools detected across cluster Nodes, an Instance Pool ID must be specified in Service manifest annotations" []))
      else mret (Ok (mgr_ID m))
  end.

Definition inferInstancePool (nodes : list Node) : prog ccmE (result UUID) :=
  instancePoolID ←? forM nodes "" inferFromNode;
  if bool_decide (instancePoolID = "")
  then mret (Err (ErrorNew "couldn't infer any Instance Pool from cluster Nodes" []))
  else mret (Ok instancePoolID).

(** The Instance Pool annotation from the SKS node pool, or inferred from the
    cluster nodes (lines 135-217). *)
Definition resolveInstancePool (service : Service) (nodes : list Node) : svc_prog () :=
  let patch (service : Service) (id : UUID) : svc_prog () :=
    svc_wrap (ErrorfS "error patching annotations: %s" [])
      (patchAnnotation service annotationLoadBalancerServiceInstancePoolID id) in
  let sksClusterName := getAnnotation service annotationLoadBalancerSKSClusterName "" in
  let sksNodePoolName := getAnnotation service annotationLoadBalancerServiceSKSNodePoolName "" in
  if bool_decide (sksClusterName ≠ "") then
    if bool_decide (sksNodePoolName ≠ "") then
      do (service, clusters) ← keep service
        (wrap_err (ErrorfS "error listing SKS clusters: %s" []) (exo p ApiListSKSClusters));
      match FindSKSCluster clusters sksClusterName with
      | Err _ => mret (service, Err (ErrorNew "SKS cluster with name %s not found" [sksClusterName]))
      | Ok sksCluster =>
          let instancePoolID := nodepoolInstancePool (sks_Nodepools sksCluster) sksNodePoolName in
          if bool_decide (instancePoolID = "")
          then mret (service, Err (ErrorNew "SKS node pool with name %s not found" [sksNodePoolName]))
          else patch service instancePoolID
      end
    else mret (service, Ok ())
  else if bool_decide (sksNodePoolName ≠ "") then
    mret (service, Err (ErrorNew "SKS node pool name specified without SKS cluster name" []))
  else if bool_decide (getAnnotation service annotationLoadBalancerServiceInstancePoolID "" = "") then
    do (service, instancePoolID) ← keep service (inferInstancePool nodes);
    patch service instancePoolID
  else mret (service, Ok ()).

(** Creating the NLB and recording its ID (lines 231-251). *)
Definition createLoadBalancer (service : Service) (lbSpec : LoadBalancer) :
    svc_prog LoadBalancer :=
  do (service, op) ← keep service (exo p (ApiCreateLoadBalancer {|
    clr_Name := lb_Name lbSpec;
    clr_Description := lb_Description lbSpec;
    clr_Labels := lb_Labels lbSpec |}));
  match op_Reference op with
  | None => Halt NilDeref
  | Some ref =>
      do (service, nlb) ← keep service (exo p (ApiGetLoadBalancer ref));
      do (service, _) ← svc_wrap (ErrorfS "error patching annotations: %s" [])
                      (patchAnnotation service annotationLoadBalancerID (lb_ID nlb));
      mret (service, Ok nlb)
  end.

(** The NLB, created when it does not exist (lines 224-255). *)
Definition ensureExists (service : Service) (lbSpec : LoadBalancer) : svc_prog LoadBalancer :=
  r ← fetchLoadBalancer service;
  match r with
  | Ok nlb => mret (service, Ok nlb)
  | Err err =>
      if errors_Is err errLoadBalancerNotFound then
        if isExternal service then
          mret (service, Err (ErrorNew "NLB instance marked as external in Service annotations, cannot create" []))
        else createLoadBalancer service lbSpec
      else mret (service, Err err)
  end.

Definition EnsureLoadBalancer (service : Service) (nodes : list Node) : svc_prog (list string) :=
  do (service, _) ← resolveExternal service;
  do (service, _) ← resolveInstancePool service nodes;
  do (service, lbSpec) ← mret (service, buildLoadBalancerFromAnnotations service);
  do (service, nlb) ← ensureExists service lbSpec;
  do (service, _) ← keep service (updateLoadBalancer service);
  mret (service, Ok (status nlb)).

(** ** Deleting the NLB *)

Definition portMatches (nlbService : LoadBalancerService) (servicePort : ServicePort) : bool :=
  bool_decide (lbs_Port nlbService = sp_Port servicePort)
  && EqualFold (lbs_Protocol nlbService) (sp_Protocol servicePort).

(** The nested loops (lines 295-308), counting the remaining services. *)
Definition deleteMatching (nlb : LoadBalancer) (nlbService : LoadBalancerService)
    (remainingServices : Z) (servicePort : ServicePort) : prog ccmE (result Z) :=
  if portMatches nlbService servicePort then
    _ ←? exo p (ApiDeleteLoadBalancerService (lb_ID nlb) (lbs_ID nlbService));
    mret (Ok (remainingServices - 1))
  else mret (Ok remainingServices).

Definition EnsureLoadBalancerDeleted (service : Service) : prog ccmE (result ()) :=
  r ← fetchLoadBalancer service;
  match r with
  | Err err => if errors_Is err errLoadBalancerNotFound then mret (Ok ()) else mret (Err err)
  | Ok nlb =>
      remainingServices ←?
        forM (lb_Services nlb) (Z.of_nat (length (lb_Services nlb)))
          (λ remaining nlbService,
             forM (svc_Ports service) remaining (deleteMatching nlb nlbService));
      if bool_decide (remainingServices = 0) then
        if isExternal service then mret (Ok ())
        else
          _ ←? exo p (ApiDeleteLoadBalancer (lb_ID nlb));
          mret (Ok ())
      else mret (Ok ())
  end.
End handlers.
