(* ===== verification/Interfaces.v ===== *)
(** The interfaces of k8s.io/cloud-provider (cloud.go) as records of operations,
    and the provider as an implementation of them: the constructors of its
    interface objects and the methods of exoscale.go that hand them out. *)
From S2P Require Import Prelude GoErrors GoStrings Effects Egoscale Kube InstancesConfig CloudConfig.
From S2P Require Import Instances InstancesV2 Zones LoadBalancerSpec LoadBalancer Provider.

(** ** The interfaces *)

(** A method that is given a Service leaves one behind, the object it was given.
    The name of the cluster, which the provider ignores, is left out. *)
Record LoadBalancerInterface := {
  lbi_GetLoadBalancer : Service → prog ccmE (result (option (list string) * bool));
  lbi_GetLoadBalancerName : Service → string;
  lbi_EnsureLoadBalancer :
    Service → list Node → prog ccmE (Service * result (option (list string)));
  lbi_UpdateLoadBalancer : Service → list Node → prog ccmE (result ());
  lbi_EnsureLoadBalancerDeleted : Service → prog ccmE (result ());
}.

Record InstancesInterface := {
  in_NodeAddresses : string → prog ccmE (result (list NodeAddress));
  in_NodeAddressesByProviderID : string → prog ccmE (result (list NodeAddress));
  in_InstanceID : string → prog ccmE (result string);
  in_InstanceType : string → prog ccmE (result string);
  in_InstanceTypeByProviderID : string → prog ccmE (result string);
  in_AddSSHKeyToAllInstances : prog ccmE (result ());
  in_CurrentNodeName : string → prog ccmE (result string);
  in_InstanceExistsByProviderID : string → prog ccmE (result bool);
  in_InstanceShutdownByProviderID : string → prog ccmE (result bool);
}.

Record InstancesV2Interface := {
  v2_InstanceExists : Node → prog ccmE (result bool);
  v2_InstanceShutdown : Node → prog ccmE (result bool);
  v2_InstanceMetadata : Node → prog ccmE (result InstanceMetadata);
}.

Record ZonesInterface := {
  zo_GetZone : prog ccmE (result Zone);
  zo_GetZoneByProviderID : string → prog ccmE (result Zone);
  zo_GetZoneByNodeName : string → prog ccmE (result Zone);
}.

(** [cloudprovider.Interface], without clusters and routes, which have no
    implementation. *)
Record Interface := {
  cp_LoadBalancer : LoadBalancerInterface * bool;
  cp_Instances : InstancesInterface * bool;
  cp_InstancesV2 : InstancesV2Interface * bool;
  cp_Zones : ZonesInterface * bool;
  cp_ProviderName : string;
}.

(** ** The implementation *)

Section provider.
Context {unicode : UnicodeTables} {regexp : Regexp} {patchlib : PatchLib}.

(** The status, returned as a pointer. *)
Definition status_pointer (m : svc_prog (list string)) : svc_prog (option (list string)) :=
  do (service, ips) ← m; mret (service, Ok (Some ips)).

(** The objects hold the provider, whose clients are set later; the methods read
    their section of its configuration. *)
Definition newLoadBalancer (provider : cloudProvider) : LoadBalancerInterface := {|
  lbi_GetLoadBalancer := GetLoadBalancer provider;
  lbi_GetLoadBalancerName := GetLoadBalancerName;
  lbi_EnsureLoadBalancer service nodes :=
    status_pointer (EnsureLoadBalancer provider service nodes);
  lbi_UpdateLoadBalancer service _ := UpdateLoadBalancer provider service;
  lbi_EnsureLoadBalancerDeleted := EnsureLoadBalancerDeleted provider;
|}.

Definition newInstances (provider : cloudProvider) : InstancesInterface := {|
  in_NodeAddresses := NodeAddresses provider;
  in_NodeAddressesByProviderID := NodeAddressesByProviderID provider;
  in_InstanceID := InstanceID provider;
  in_InstanceType := InstanceType_ provider;
  in_InstanceTypeByProviderID := InstanceTypeByProviderID provider;
  in_AddSSHKeyToAllInstances := AddSSHKeyToAllInstances;
  in_CurrentNodeName := CurrentNodeName;
  in_InstanceExistsByProviderID := InstanceExistsByProviderID provider;
  in_InstanceShutdownByProviderID := InstanceShutdownByProviderID provider;
|}.

Definition newInstancesV2 (provider : cloudProvider) : InstancesV2Interface := {|
  v2_InstanceExists := InstanceExists provider;
  v2_InstanceShutdown := InstanceShutdown provider;
  v2_InstanceMetadata := InstanceMetadata_ provider;
|}.

Definition newZones (provider : cloudProvider) : ZonesInterface := {|
  zo_GetZone := GetZone;
  zo_GetZoneByProviderID := GetZoneByProviderID provider;
  zo_GetZoneByNodeName := GetZoneByNodeName provider;
|}.

Section getters.
Context (p : cloudProvider).

Definition LoadBalancer_ : LoadBalancerInterface * bool :=
  (newLoadBalancer p, negb (lc_Disabled (cc_LoadBalancer (p_cfg p)))).

Definition Instances_ : InstancesInterface * bool :=
  (newInstances p, negb (ic_Disabled (cc_Instances (p_cfg p)))).

Definition InstancesV2_ : InstancesV2Interface * bool :=
  (newInstancesV2 p, negb (ic_Disabled (cc_Instances (p_cfg p)))).

Definition Zones_ : ZonesInterface * bool := (newZones p, true).

Definition Clusters_ : option () * bool := (None, false).
Definition Routes_ : option () * bool := (None, false).

Definition ProviderName_ : string := ProviderName.
End getters.

Definition cloud_of (p : cloudProvider) : Interface := {|
  cp_LoadBalancer := LoadBalancer_ p;
  cp_Instances := Instances_ p;
  cp_InstancesV2 := InstancesV2_ p;
  cp_Zones := Zones_ p;
  cp_ProviderName := ProviderName_;
|}.
End provider.
