(* ===== verification/NodeLifecycle.v ===== *)
(** The node lifecycle controller of k8s.io/cloud-provider
    (controllers/nodelifecycle), which deletes the nodes whose instance the
    provider reports missing and taints those it reports shut down; and what
    that amounts to with the provider's interfaces. Events are left out. *)
From S2P Require Import Prelude GoErrors GoStrings Effects Egoscale Kube InstancesConfig CloudConfig.
From S2P Require Import Instances InstancesV2 LoadBalancer Provider Interfaces NodesProps.

(** [v1.Node], and the status of its Ready condition if it has one. *)
Record monitored_node := {
  mn_Node : Node;
  mn_Ready : option string;
}.

(** The calls of the provider, the lister, and those to the API server: the
    shutdown taint put on and taken off a node, and its deletion. *)
Inductive nodeE : Type → Type :=
| NodeCloud {X} (e : ccmE X) : nodeE X
| ListMonitored : nodeE (result (list monitored_node))
| RemoveTaintOffNode (name : string) : nodeE (result ())
| AddOrUpdateTaintOnNode (name : string) : nodeE (result ())
| DeleteNode (name : string) : nodeE (result ()).

Definition ConditionTrue : string := "True".
Definition ConditionUnknown : string := "Unknown".

Definition node_call {A} : prog ccmE A → prog nodeE A := lift (@NodeCloud).

Section controller.
Context (cloud : Interface).

(** [cloudprovider.GetInstanceProviderID] *)
Definition GetInstanceProviderID (nodeName : string) : prog ccmE (result string) :=
  let '(instances, ok) := cp_Instances cloud in
  if negb ok then mret (Err (ErrorNew "failed to get instances from cloud provider" []))
  else
    r ← in_InstanceID instances nodeName;
    mret match r with
         | Ok instanceID => Ok (cp_ProviderName cloud +:+ "://" +:+ instanceID)
         | Err err =>
             if is_sentinel err NotImplemented || is_sentinel err InstanceNotFound then Err err
             else Err (ErrorfW "failed to get instance ID from cloud provider: %w" [] err)
         end.

Definition getProviderID (node : Node) : prog ccmE (result string) :=
  if bool_decide (node_ProviderID node ≠ "") then mret (Ok (node_ProviderID node))
  else
    let '(instanceV2, ok) := cp_InstancesV2 cloud in
    if ok : bool then
      metadata ←? v2_InstanceMetadata instanceV2 node;
      mret (Ok (meta_ProviderID metadata))
    else GetInstanceProviderID (node_Name node).

Definition shutdownInCloudProvider (node : Node) : prog ccmE (result bool) :=
  let '(instanceV2, ok) := cp_InstancesV2 cloud in
  if ok : bool then v2_InstanceShutdown instanceV2 node
  else
    let '(instances, ok) := cp_Instances cloud in
    if negb ok then mret (Err (ErrorNew "cloud provider does not support instances" []))
    else
      r ← getProviderID node;
      match r with
      | Err err => if is_sentinel err InstanceNotFound then mret (Ok false) else mret (Err err)
      | Ok providerID =>
          r ← in_InstanceShutdownByProviderID instances providerID;
          mret match r with
               | Err err => if is_sentinel err NotImplemented then Ok false else Err err
               | Ok shutdown => Ok shutdown
               end
      end.

Definition ensureNodeExistsByProviderID (node : Node) : prog ccmE (result bool) :=
  let '(instanceV2, ok) := cp_InstancesV2 cloud in
  if ok : bool then v2_InstanceExists instanceV2 node
  else
    let '(instances, ok) := cp_Instances cloud in
    if negb ok
    then mret (Err (ErrorNew "instances interface not supported in the cloud provider" []))
    else
      r ← getProviderID node;
      match r with
      | Err err => if is_sentinel err InstanceNotFound then mret (Ok false) else mret (Err err)
      | Ok providerID => in_InstanceExistsByProviderID instances providerID
      end.

(** The body of the loop; the errors of the API server are only logged. *)
Definition monitorNode (node : monitored_node) : prog nodeE () :=
  let name := node_Name (mn_Node node) in
  if bool_decide (default ConditionUnknown (mn_Ready node) = ConditionTrue) then
    _ ← trigger (RemoveTaintOffNode name); mret ()
  else
    r ← node_call (ensureNodeExistsByProviderID (mn_Node node));
    match r with
    | Err _ => mret ()
    | Ok false => _ ← trigger (DeleteNode name); mret ()
    | Ok true =>
        r ← node_call (shutdownInCloudProvider (mn_Node node));
        match r with
        | Ok true => _ ← trigger (AddOrUpdateTaintOnNode name); mret ()
        | _ => mret ()
        end
    end.

Fixpoint monitorAll (nodes : list monitored_node) : prog nodeE () :=
  match nodes with
  | [] => mret ()
  | node :: nodes => _ ← monitorNode node; monitorAll nodes
  end.

Definition MonitorNodes : prog nodeE () :=
  r ← trigger ListMonitored;
  match r with
  | Err _ => mret ()
  | Ok nodes => monitorAll nodes
  end.
End controller.

(** ** With the provider *)

Definition as_deletion (c : call nodeE) : option string :=
  match call_event c with DeleteNode name => Some name | _ => None end.

Definition as_monitored (c : call nodeE) : option (list monitored_node) :=
  match call_event c in nodeE X return X → option (list monitored_node) with
  | ListMonitored => λ r, match r with Ok nodes => Some nodes | Err _ => None end
  | _ => λ _, None
  end (call_reply c).

Definition as_taint (c : call nodeE) : option string :=
  match call_event c with AddOrUpdateTaintOnNode name => Some name | _ => None end.

Lemma app_cons_inv {A} (l l' l1 l2 : list A) x :
  l ++ l' = l1 ++ x :: l2 →
  (∃ k, l = l1 ++ x :: k ∧ l2 = k ++ l') ∨ (∃ k, l1 = l ++ k ∧ l' = k ++ x :: l2).
Proof.
  intros [(k & -> & Hk)|(k & -> & ->)]%app_eq_inv; [|by right; exists k].
  destruct k as [|y k]; simplify_eq/=; [right; exists []; by rewrite !app_nil_r|].
  left. by exists k.
Qed.

Section props.
Context {unicode : UnicodeTables} {regexp : Regexp} {patchlib : PatchLib}.
Context (p : cloudProvider).

(** The node was seen not to be ready, and the calls just before say of its
    instance what [reported] says. *)
Definition follows_report (nodes : list monitored_node) (name : string) (t : list (call nodeE))
    (reported : option instancesOverrideConfig → UUID → list (call ccmE) → Prop) : Prop :=
  ∃ node t0 ev, node ∈ nodes ∧ node_Name (mn_Node node) = name ∧ mn_Ready node ≠ Some ConditionTrue ∧
    t = t0 ++ (lift_call (@NodeCloud) <$> ev) ∧ ic_Disabled (cc_Instances (p_cfg p)) = false ∧
    reported (nodeInstanceOverride p (mn_Node node)) (node_ID (mn_Node node)) ev.

(** Every deletion and every taint of a trace is justified. *)
Definition justified (nodes : list monitored_node) (t : list (call nodeE)) : Prop :=
  ∀ t1 c t2, t = t1 ++ c :: t2 →
    (∀ name, as_deletion c = Some name → follows_report nodes name t1 (reported_missing p)) ∧
    (∀ name, as_taint c = Some name → follows_report nodes name t1 (reported_stopped p)).

Lemma follows_report_app nodes name t0 t reported :
  follows_report nodes name t reported → follows_report nodes name (t0 ++ t) reported.
Proof.
  intros (node & t1 & ev & H1 & H2 & H3 & -> & H4). exists node, (t0 ++ t1), ev.
  by rewrite <-app_assoc.
Qed.

Lemma justified_app nodes t t' : justified nodes t → justified nodes t' → justified nodes (t ++ t').
Proof.
  intros H H' t1 c t2 [(k & -> & ->)|(k & -> & Hk)]%app_cons_inv.
  - by eapply H.
  - destruct (H' _ _ _ Hk) as [H1 H2]. split; intros name Hn; by apply follows_report_app; auto.
Qed.

Lemma justified_quiet nodes t :
  Forall (λ c, as_deletion c = None ∧ as_taint c = None) t → justified nodes t.
Proof.
  intros Ht t1 c t2 ->. apply Forall_app in Ht as [_ Ht]. apply Forall_cons in Ht as [[-> ->] _].
  done.
Qed.

Lemma justified_lift nodes t : justified nodes (lift_call (@NodeCloud) <$> t).
Proof. apply justified_quiet. rewrite Forall_fmap. by apply Forall_true. Qed.

(** One call that is justified by what precedes it. *)
Lemma justified_snoc nodes t c :
  justified nodes t →
  (∀ name, as_deletion c = Some name → follows_report nodes name t (reported_missing p)) →
  (∀ name, as_taint c = Some name → follows_report nodes name t (reported_stopped p)) →
  justified nodes (t ++ [c]).
Proof.
  intros Ht Hd Ha t1 c' t2 [(k & -> & ->)|(k & -> & Hk)]%app_cons_inv; [by eapply Ht|].
  destruct k as [|? [|]]; simplify_eq/=. rewrite app_nil_r. by split.
Qed.

Lemma cloud_instances : cp_InstancesV2 (cloud_of p) =
  (newInstancesV2 p, negb (ic_Disabled (cc_Instances (p_cfg p)))).
Proof. done. Qed.

Lemma wp_monitorNode nodes node :
  node ∈ nodes → wp (monitorNode (cloud_of p) node) (λ t _, justified nodes t).
Proof.
  intros Hin. unfold monitorNode. cbv zeta. case_bool_decide as Hr.
  { apply wp_vis. intros r. apply wp_ret, justified_quiet. by constructor. }
  assert (mn_Ready node ≠ Some ConditionTrue) as Hr'.
  { intros Heq. apply Hr. by rewrite Heq. }
  unfold ensureNodeExistsByProviderID, shutdownInCloudProvider. rewrite cloud_instances.
  destruct (ic_Disabled _) eqn:Hd; simpl.
  { rewrite Hd. simpl. by apply wp_ret, justified_quiet. }
  apply wp_bind, wp_lift. eapply wp_mono; [apply (missing_only_on_evidence p)|].
  intros t [[[|]|e]|h] Hm; [| |apply wp_ret; rewrite app_nil_r|]; try apply justified_lift.
  - apply wp_bind, wp_lift. eapply wp_mono; [apply (shut_down_only_on_evidence p)|].
    intros t' o Hs.
    assert (justified nodes ((lift_call (@NodeCloud) <$> t) ++ (lift_call (@NodeCloud) <$> t'))) as Hq
      by (apply justified_app; apply justified_lift).
    destruct o as [[[|]|e]|h]; [|by apply wp_ret; rewrite app_nil_r..|done].
    apply wp_vis. intros r. apply wp_ret. rewrite app_assoc.
    apply justified_snoc; [done|done|]. intros name [= <-].
    exists node, (lift_call (@NodeCloud) <$> t), t'. split_and!; auto.
  - apply wp_vis. intros r. apply wp_ret. apply justified_snoc; [apply justified_lift| |done].
    intros name [= <-]. exists node, [], t. split_and!; auto.
Qed.

(** C26: the node lifecycle controller deletes a node of the cluster only when the
    informer showed it not ready and the provider, asked just before, reported it
    missing: no external override vouches for it, and either the API answered that
    its instance does not exist, or the configuration forbids the API
    ([externalOnly]), where having no such override is enough. It puts the shutdown
    taint on a node only when the provider was just answered with an instance that
    is stopping or stopped. With the interfaces disabled it does neither. *)
Theorem nodes_lost_only_on_evidence :
  wp (MonitorNodes (cloud_of p)) (λ t _, ∀ nodes t',
    t = Call ListMonitored (Ok nodes) :: t' → justified nodes t').
Proof.
  unfold MonitorNodes. apply wp_vis. intros [nodes|e].
  - eapply wp_mono with (Φ := λ t _, justified nodes t).
    + assert (∀ l, (∀ node, node ∈ l → node ∈ nodes) →
        wp (monitorAll (cloud_of p) l) (λ t _, justified nodes t)) as Hall; [|by apply Hall].
      induction l as [|node l IH]; intros Hl; [by apply wp_ret, justified_quiet|].
      apply wp_bind. eapply wp_mono; [by apply wp_monitorNode, Hl; left|].
      intros t [[]|h] Ht; [|done]. eapply wp_mono; [by apply IH; intros n Hn; apply Hl; right|].
      intros t' o Ht'. by apply justified_app.
    + intros t o Ht nodes' t' Heq.
      pose proof (f_equal (λ l, as_monitored <$> head l) Heq) as [= ->].
      by injection Heq as <-.
  - intros t o _ nodes t' Heq. by pose proof (f_equal (λ l, as_monitored <$> head l) Heq).
Qed.
End props.
