(* ===== verification/ServiceController.v ===== *)
(** The service controller of k8s.io/cloud-provider (controllers/service), which
    calls the [LoadBalancer] interface of the provider: what it does for a
    Service that was created, changed or deleted, and when the nodes change.
    Events, metrics and log messages are left out, and so is the filter that
    decides which changes of a Service are worth a call. *)
From S2P Require Import Prelude GoErrors GoStrings Effects Egoscale Kube Interfaces.

(** ** Objects *)

(** [v1.Service] as the controller sees it: what the provider reads of it, and
    the fields the controller decides by. *)
Record object := {
  ob_Service : Service;
  ob_Type : string;
  ob_LoadBalancerClass : option string;
  ob_Finalizers : list string;
  ob_Deleted : bool;
  ob_Ingress : list string;
}.

Definition with_Service (ob : object) (service : Service) : object := {|
  ob_Service := service; ob_Type := ob_Type ob; ob_LoadBalancerClass := ob_LoadBalancerClass ob;
  ob_Finalizers := ob_Finalizers ob; ob_Deleted := ob_Deleted ob; ob_Ingress := ob_Ingress ob |}.

Definition with_Finalizers (ob : object) (finalizers : list string) : object := {|
  ob_Service := ob_Service ob; ob_Type := ob_Type ob; ob_LoadBalancerClass := ob_LoadBalancerClass ob;
  ob_Finalizers := finalizers; ob_Deleted := ob_Deleted ob; ob_Ingress := ob_Ingress ob |}.

Definition with_Ingress (ob : object) (ingress : list string) : object := {|
  ob_Service := ob_Service ob; ob_Type := ob_Type ob; ob_LoadBalancerClass := ob_LoadBalancerClass ob;
  ob_Finalizers := ob_Finalizers ob; ob_Deleted := ob_Deleted ob; ob_Ingress := ingress |}.

(** [v1.Node] likewise; of the taints only the keys matter. *)
Record cluster_node := {
  cn_Node : Node;
  cn_Labels : gmap string string;
  cn_Taints : list string;
  cn_Deleted : bool;
}.

(** The effects: the calls of the provider, the listers, the patch of a Service
    from an old to a new state (finalizers and status), the work queue, and the
    two maps the controller keeps under locks: the cached Services by key and
    the nodes each was last synced with. *)
Inductive ctlE : Type → Type :=
| Cloud {X} (e : ccmE X) : ctlE X
| ListService (namespace name : string) : ctlE (result object)
| ListNodes : ctlE (result (list cluster_node))
| PatchService (old new : object) : ctlE (result ())
| CacheGet (key : string) : ctlE (option object)
| CacheSet (key : string) (ob : object) : ctlE ()
| CacheDelete (key : string) : ctlE ()
| CacheServices : ctlE (list object)
| LoadSynced (key : string) : ctlE (list cluster_node)
| StoreSynced (key : string) (nodes : list cluster_node) : ctlE ()
| QueueForget (key : string) : ctlE ()
| QueueAddRateLimited (key : string) : ctlE ()
| QueueAdd (key : string) : ctlE ().

Definition cloud_call {A} : prog ccmE A → prog ctlE A := lift (@Cloud).

Definition LoadBalancerCleanupFinalizer : string := "service.kubernetes.io/load-balancer-cleanup".
Definition ServiceTypeLoadBalancer : string := "LoadBalancer".

Definition HasLBFinalizer (ob : object) : bool :=
  bool_decide (LoadBalancerCleanupFinalizer ∈ ob_Finalizers ob).

Definition wantsLoadBalancer (ob : object) : bool :=
  bool_decide (ob_Type ob = ServiceTypeLoadBalancer) && bool_decide (ob_LoadBalancerClass ob = None).

Definition needsCleanup (ob : object) : bool :=
  HasLBFinalizer ob && (ob_Deleted ob || bool_decide (ob_Type ob ≠ ServiceTypeLoadBalancer)).

(** ** Patches *)

Definition addFinalizer (ob : object) : prog ctlE (result ()) :=
  if HasLBFinalizer ob then mret (Ok ())
  else trigger (PatchService ob (with_Finalizers ob (ob_Finalizers ob ++ [LoadBalancerCleanupFinalizer]))).

Definition removeString (slice : list string) (s : string) : list string :=
  filter (λ item, item ≠ s) slice.

Definition removeFinalizer (ob : object) : prog ctlE (result ()) :=
  if HasLBFinalizer ob
  then trigger (PatchService ob (with_Finalizers ob
         (removeString (ob_Finalizers ob) LoadBalancerCleanupFinalizer)))
  else mret (Ok ()).

Definition patchStatus (ob : object) (previousStatus newStatus : list string) : prog ctlE (result ()) :=
  if bool_decide (previousStatus = newStatus) then mret (Ok ())
  else trigger (PatchService ob (with_Ingress ob newStatus)).

(** ** Nodes *)

(** [strconv.ParseBool] *)
Definition ParseBool (s : string) : option bool :=
  if bool_decide (s ∈ ["1"; "t"; "T"; "TRUE"; "true"; "True"]) then Some true
  else if bool_decide (s ∈ ["0"; "f"; "F"; "FALSE"; "false"; "False"]) then Some false
  else None.

Definition LabelNodeExcludeBalancers : string := "node.kubernetes.io/exclude-from-external-load-balancers".
Definition ToBeDeletedTaint : string := "ToBeDeletedByClusterAutoscaler".

Definition nodeIncludedPredicate (node : cluster_node) : bool :=
  match cn_Labels node !! LabelNodeExcludeBalancers with
  | Some v => match ParseBool v with Some v => negb v | None => false end
  | None => true
  end.

Definition nodeUnTaintedPredicate (node : cluster_node) : bool :=
  bool_decide (ToBeDeletedTaint ∉ cn_Taints node).

Definition nodeNotDeletedPredicate (node : cluster_node) : bool := negb (cn_Deleted node).

(** [filterWithPredicates(nodes, stableNodeSetPredicates...)] *)
Definition stableNodes (nodes : list cluster_node) : list cluster_node :=
  filter (λ node, nodeNotDeletedPredicate node && nodeIncludedPredicate node
                  && nodeUnTaintedPredicate node = true) nodes.

Definition node_IDs (nodes : list cluster_node) : gmap string string :=
  foldl (λ m n, <[node_Name (cn_Node n) := node_ProviderID (cn_Node n)]> m) ∅ nodes.

Definition nodesSufficientlyEqual (oldNodes newNodes : list cluster_node) : bool :=
  bool_decide (length oldNodes = length newNodes) && bool_decide (node_IDs oldNodes = node_IDs newNodes).

(** ** Ensuring and cleaning up *)

Definition service_key (ob : object) : string :=
  let namespace := svc_Namespace (ob_Service ob) in
  if bool_decide (namespace = "") then svc_Name (ob_Service ob)
  else namespace +:+ "/" +:+ svc_Name (ob_Service ob).

Inductive loadBalancerOperation :=
| deleteLoadBalancer
| ensureLoadBalancer_.

Section controller.
Context (balancer : LoadBalancerInterface).

(** The methods below hand on the object they are given, which the provider may
    have modified. *)
Definition ensureLoadBalancer (ob : object) : prog ctlE (object * result (option (list string))) :=
  r ← trigger ListNodes;
  match r with
  | Err err => mret (ob, Err err)
  | Ok nodes =>
      let nodes := stableNodes nodes in
      _ ← trigger (StoreSynced (service_key ob) nodes);
      sr ← cloud_call (lbi_EnsureLoadBalancer balancer (ob_Service ob) (cn_Node <$> nodes));
      mret (with_Service ob sr.1, sr.2)
  end.

(** Patching the status is the last thing done; a Service that is gone by then
    needs none. *)
Definition finish (ob : object) (op : loadBalancerOperation) (previousStatus newStatus : list string) :
    prog ctlE (object * result loadBalancerOperation) :=
  r ← patchStatus ob previousStatus newStatus;
  mret (ob, match r with
            | Ok _ => Ok op
            | Err err => if errors_Is err StatusNotFound then Ok op
                         else Err (ErrorfS "failed to update load balancer status: %v" [] err)
            end).

Definition cleanUp (ob : object) : prog ctlE (result ()) :=
  r ←? wrap_err (ErrorfS "failed to check if load balancer exists before cleanup: %v" [])
         (cloud_call (lbi_GetLoadBalancer balancer (ob_Service ob)));
  _ ←? (if r.2 : bool then
          r ← cloud_call (lbi_EnsureLoadBalancerDeleted balancer (ob_Service ob));
          mret match r with
               | Ok _ => Ok ()
               | Err err => if is_sentinel err ImplementedElsewhere then Ok ()
                            else Err (ErrorfS "failed to delete load balancer: %v" [] err)
               end
        else mret (Ok ()));
  wrap_err (ErrorfS "failed to remove load balancer cleanup finalizer: %v" []) (removeFinalizer ob).

Definition syncLoadBalancerIfNeeded (ob : object) :
    prog ctlE (object * result loadBalancerOperation) :=
  let previousStatus := ob_Ingress ob in
  if negb (wantsLoadBalancer ob) || needsCleanup ob then
    r ← cleanUp ob;
    match r with
    | Err err => mret (ob, Err err)
    | Ok _ => finish ob deleteLoadBalancer previousStatus []
    end
  else
    r ← addFinalizer ob;
    match r with
    | Err err => mret (ob, Err (ErrorfS "failed to add load balancer cleanup finalizer: %v" [] err))
    | Ok _ =>
        '(ob, r) ← ensureLoadBalancer ob;
        match r with
        | Err err =>
            mret (ob, if is_sentinel err ImplementedElsewhere then Ok ensureLoadBalancer_
                      else Err (ErrorfW "failed to ensure load balancer: %w" [] err))
        | Ok None =>
            mret (ob, Err (ErrorNew "service status returned by EnsureLoadBalancer is nil" []))
        | Ok (Some newStatus) => finish ob ensureLoadBalancer_ previousStatus newStatus
        end
    end.

Definition processLoadBalancerDelete (ob : object) : prog ctlE (result ()) :=
  if wantsLoadBalancer ob
  then cloud_call (lbi_EnsureLoadBalancerDeleted balancer (ob_Service ob))
  else mret (Ok ()).

(** The cache holds the object itself: what the provider does to it while it
    ensures the load balancer shows in the cache, whether it fails or not. *)
Definition processServiceCreateOrUpdate (ob : object) (key : string) : prog ctlE (result ()) :=
  cached ← trigger (CacheGet key);
  _ ←? match cached with
       | Some old => if bool_decide (svc_UID (ob_Service old) ≠ svc_UID (ob_Service ob))
                     then processLoadBalancerDelete old else mret (Ok ())
       | None => mret (Ok ())
       end;
  _ ← trigger (CacheSet key ob);
  '(ob, r) ← syncLoadBalancerIfNeeded ob;
  _ ← trigger (CacheSet key ob);
  match r with
  | Err err => mret (Err err)
  | Ok deleteLoadBalancer => _ ← trigger (CacheDelete key); mret (Ok ())
  | Ok ensureLoadBalancer_ => mret (Ok ())
  end.

Definition processServiceDeletion (key : string) : prog ctlE (result ()) :=
  cached ← trigger (CacheGet key);
  match cached with
  | None => mret (Ok ())
  | Some ob =>
      _ ←? processLoadBalancerDelete ob;
      _ ← trigger (CacheDelete key);
      mret (Ok ())
  end.

(** [cache.SplitMetaNamespaceKey] *)
Definition SplitMetaNamespaceKey (key : string) : result (string * string) :=
  match Split key "/" with
  | [name] => Ok ("", name)
  | [namespace; name] => Ok (namespace, name)
  | _ => Err (ErrorNew "unexpected key format: %q" [key])
  end.

(** The object that is processed is a copy of that of the lister. *)
Definition syncService (key : string) : prog ctlE (result ()) :=
  nn ←? mret (SplitMetaNamespaceKey key);
  r ← trigger (ListService nn.1 nn.2);
  match r with
  | Err err => if errors_Is err StatusNotFound then processServiceDeletion key else mret (Err err)
  | Ok ob => processServiceCreateOrUpdate ob key
  end.

(** No error of the provider is an [api.RetryError], which would set the delay. *)
Definition processNextServiceItem (key : string) : prog ctlE () :=
  r ← syncService key;
  match r with
  | Ok _ => trigger (QueueForget key)
  | Err _ => trigger (QueueAddRateLimited key)
  end.

(** ** Changes of the nodes *)

Definition lockedUpdateLoadBalancerHosts (ob : object) (hosts : list cluster_node) :
    prog ctlE (result ()) :=
  r ← cloud_call (lbi_UpdateLoadBalancer balancer (ob_Service ob) (cn_Node <$> hosts));
  match r with
  | Ok _ => mret (Ok ())
  | Err err =>
      if is_sentinel err ImplementedElsewhere then mret (Ok ())
      else
        r ← cloud_call (lbi_GetLoadBalancer balancer (ob_Service ob));
        match r with
        | Ok (_, false) => mret (Ok ())
        | _ => mret (Err err)
        end
  end.

(** Whether to try again. *)
Definition nodeSyncService (ob : object) : prog ctlE bool :=
  if wantsLoadBalancer ob then
    r ← trigger ListNodes;
    match r with
    | Err _ => mret true
    | Ok nodes =>
        let newNodes := stableNodes nodes in
        oldNodes ← trigger (LoadSynced (service_key ob));
        _ ← trigger (StoreSynced (service_key ob) newNodes);
        if nodesSufficientlyEqual (stableNodes oldNodes) newNodes then mret false
        else r ← lockedUpdateLoadBalancerHosts ob newNodes; mret (negb (is_ok r))
    end
  else mret false.

(** The services are worked on in parallel; in sequence here. *)
Fixpoint updateLoadBalancerHosts (services : list object) : prog ctlE (list string) :=
  match services with
  | [] => mret []
  | ob :: services =>
      retry ← nodeSyncService ob;
      keys ← updateLoadBalancerHosts services;
      mret (if retry : bool
            then (svc_Namespace (ob_Service ob) +:+ "/" +:+ svc_Name (ob_Service ob)) :: keys else keys)
  end.

Fixpoint enqueue (keys : list string) : prog ctlE () :=
  match keys with
  | [] => mret ()
  | key :: keys => _ ← trigger (QueueAdd key); enqueue keys
  end.

(** [processNextNodeItem] with [syncNodes]. *)
Definition syncNodes : prog ctlE () :=
  services ← trigger CacheServices;
  keys ← updateLoadBalancerHosts services;
  enqueue keys.
End controller.
