(* ===== verification/LoadBalancerSafety.v ===== *)
(** Safety of the load balancer handlers against an arbitrary environment: which
    API calls each handler may make, whatever the remote services reply, and
    what it does to the Service it is given. *)
From S2P Require Import Prelude GoErrors GoStrings GoNet Effects Egoscale Kube CloudConfig.
From S2P Require Import LoadBalancerSpec LoadBalancerSpecProps LoadBalancer.
#[local] Open Scope Z_scope.

(** ** The Service a handler leaves behind *)

Definition set_annotation (service : Service) (k v : string) : Service :=
  with_Annotations service (Some (<[k := v]> (default ∅ (svc_Annotations service)))).

Lemma annotation_set service k v k' :
  annotation (set_annotation service k v) k' = if decide (k = k') then Some v else annotation service k'.
Proof.
  unfold annotation, set_annotation. simpl.
  rewrite lookup_insert. case_decide; [done|].
  destruct (svc_Annotations service); simpl; [done|]. apply lookup_empty.
Qed.

(** [s'] is [s] up to the two annotations the handlers resolve. *)
Definition resolved_from (s s' : Service) : Prop :=
  with_Annotations s' (svc_Annotations s) = s ∧
  ∀ k, k ≠ annotationLoadBalancerID → k ≠ annotationLoadBalancerServiceInstancePoolID →
    annotation s' k = annotation s k.

Lemma resolved_from_refl s : resolved_from s s.
Proof. split; [by destruct s|done]. Qed.

Lemma resolved_from_trans s1 s2 s3 :
  resolved_from s1 s2 → resolved_from s2 s3 → resolved_from s1 s3.
Proof.
  intros [H1 A1] [H2 A2]. split.
  - destruct s1, s2, s3. unfold with_Annotations in *. simpl in *. congruence.
  - intros k Hk Hk'. by rewrite A2, A1.
Qed.

Lemma resolved_from_set s k v :
  k = annotationLoadBalancerID ∨ k = annotationLoadBalancerServiceInstancePoolID →
  resolved_from s (set_annotation s k v).
Proof.
  intros Hk. split; [by destruct s|]. intros k' H1 H2. rewrite annotation_set.
  case_decide; [|done]. subst. by destruct Hk.
Qed.

Lemma resolved_from_getAnnotation s s' k d :
  resolved_from s s' → k ≠ annotationLoadBalancerID →
  k ≠ annotationLoadBalancerServiceInstancePoolID →
  getAnnotation s' k d = getAnnotation s k d.
Proof. intros [_ H] ??. rewrite !getAnnotation_spec. by rewrite H. Qed.

#[export] Hint Resolve resolved_from_refl resolved_from_set : ccm.

Section safety.
Context {unicode : UnicodeTables} {patchlib : PatchLib}.
Context (p : cloudProvider).

Lemma isExternal_resolved s s' : resolved_from s s' → isExternal s' = isExternal s.
Proof. intros H. unfold isExternal. by erewrite resolved_from_getAnnotation. Qed.

(** ** Rules for Service-threading code *)

Lemma ensures_svc_bind {A B} P Q (f : Service → A → svc_prog B) (m : svc_prog A) :
  ensures P (λ o, match o with
                  | Returned (s, Ok a) => ensures P Q (f s a)
                  | Returned (s, Err e) => Q (Returned (s, Err e))
                  | Halted h => Q (Halted h)
                  end) m →
  ensures P Q (svc_bind m f).
Proof.
  intros Hm. apply ensures_bind. eapply ensures_mono; [done..|]. by intros [[s [a|e]]|h].
Qed.

Lemma ensures_keep {A} P Q service (m : prog ccmE (result A)) :
  ensures P (λ o, match o with
                  | Returned r => Q (Returned (service, r))
                  | Halted h => Q (Halted h)
                  end) m →
  ensures P Q (keep service m).
Proof. intros Hm. apply ensures_bind. eapply ensures_mono; [done..|]. by intros []. Qed.

Lemma ensures_svc_wrap {A} P Q g (m : svc_prog A) :
  ensures P (λ o, match o with
                  | Returned (s, r) => Q (Returned (s, map_err g r))
                  | Halted h => Q (Halted h)
                  end) m →
  ensures P Q (svc_wrap g m).
Proof. intros Hm. apply ensures_bind. eapply ensures_mono; [done..|]. by intros [[]|]. Qed.

(** ** Classes of calls *)

(** The object of the API server that a Service is. *)
Definition object_key (service : Service) : string * string :=
  (svc_Namespace service, svc_Name service).

Lemma object_key_resolved s s' : resolved_from s s' → object_key s' = object_key s.
Proof. intros [<- _]. done. Qed.

Definition patch_call (key : string * string) {X} (e : ccmE X) : Prop :=
  match e with KubeCall (KubePatchService ns name _) => (ns, name) = key | _ => False end.

(** Creating, updating or deleting an NLB (as opposed to its services). *)
Definition lifecycle_call {X} (e : ccmE X) : Prop :=
  match e with
  | ExoCall (ApiCreateLoadBalancer _) | ExoCall (ApiUpdateLoadBalancer _ _)
  | ExoCall (ApiDeleteLoadBalancer _) => True
  | _ => False
  end.

Lemma ensures_Patch P (Q : outcome (result ()) → Prop) c :
  (∀ X (e : ccmE X), patch_call (object_key (pt_current c)) e → P X e) →
  (∀ o, Q o) →
  ensures P Q (Patch p c).
Proof.
  intros HP HQ. unfold Patch.
  apply ensures_try_bind. destruct (json_Marshal (pt_current c)) as [j1|]; [|apply HQ]. simpl.
  apply ensures_try_bind. destruct (json_Marshal (pt_modified c)) as [j2|]; [|apply HQ]. simpl.
  apply ensures_try_bind. destruct (CreateTwoWayMergePatch j1 j2) as [patch|]; [|apply HQ].
  simpl.
  case_match; [simpl; done|]. apply ensures_wrap_err, ensures_kube; [by apply HP|].
  by intros [].
Qed.

(** [patchAnnotation] always leaves the annotation set in memory, whatever
    becomes of the API call. *)
Lemma ensures_patchAnnotation P (Q : outcome (Service * result ()) → Prop) service k v :
  (∀ X (e : ccmE X), patch_call (object_key service) e → P X e) →
  (∀ r, Q (Returned (set_annotation service k v, r))) →
  (∀ h, Q (Halted h)) →
  ensures P Q (patchAnnotation p service k v).
Proof.
  intros HP HQ Hh. unfold patchAnnotation. case_bool_decide as Hk.
  - simpl. specialize (HQ (Ok ())). unfold set_annotation in HQ.
    by rewrite insert_id in HQ.
  - apply ensures_keep, ensures_Patch; [done|]. by intros [].
Qed.

(** ** The phases of [EnsureLoadBalancer] change only the resolved annotations *)

Definition resolves {A} (service : Service) (o : outcome (Service * result A)) : Prop :=
  match o with Returned (s, _) => resolved_from service s | Halted _ => True end.

Lemma ensures_fetch (P : ∀ X, ccmE X → Prop) (Q : outcome (result LoadBalancer) → Prop) service :
  (∀ id, P _ (ExoCall (ApiGetLoadBalancer id))) → (∀ o, Q o) →
  ensures P Q (fetchLoadBalancer p service).
Proof.
  intros HP HQ. unfold fetchLoadBalancer. case_match; [|simpl; done].
  apply ensures_wrap_err, ensures_exo; [done|]. by intros [].
Qed.

(** Calls that only read, or patch the Service. *)
Definition resolving_call (key : string * string) {X} (e : ccmE X) : Prop :=
  match e with
  | ExoCall (ApiListLoadBalancers) | ExoCall (ApiListSKSClusters)
  | ExoCall (ApiGetInstance _) => True
  | KubeCall (KubePatchService ns name _) => (ns, name) = key
  | _ => False
  end.

Lemma patch_resolving key X (e : ccmE X) : patch_call key e → resolving_call key e.
Proof. by destruct e as [? []|? []|]. Qed.
Hint Resolve patch_resolving : ccm.

Lemma ensures_resolveExternal service :
  ensures (@resolving_call (object_key service)) (resolves service) (resolveExternal p service).
Proof.
  unfold resolveExternal. repeat (case_match; simpl; auto with ccm).
  apply ensures_svc_bind, ensures_keep, ensures_wrap_err, ensures_exo; [done|].
  intros [[nlbs|e]|h]; simpl; auto with ccm.
  destruct (FindLoadBalancer nlbs _); simpl; auto with ccm.
  apply ensures_svc_wrap, ensures_patchAnnotation; simpl; auto with ccm.
Qed.

Lemma ensures_infer key nodes :
  ensures (@resolving_call key) (λ o, ∀ id, o = Returned (Ok id) → id ≠ "")
    (inferInstancePool p nodes).
Proof.
  unfold inferInstancePool. apply ensures_try_bind.
  apply ensures_forM with (I := λ _ _, True); [done| |].
  - intros _ node _ pool _ _. apply ensures_try_bind, ensures_wrap_err, ensures_exo; [done|].
    intros [[i|e]|h]; simpl; [|done..]. destruct (inst_Manager i); simpl; [|done].
    repeat case_match; done.
  - intros pool _. case_bool_decide; simpl; [done|]. by intros ? [= <-].
Qed.

(** The Service named a cluster but no node pool: no Instance Pool is looked up. *)
Definition cluster_without_nodepool (service : Service) : Prop :=
  getAnnotation service annotationLoadBalancerSKSClusterName "" ≠ "" ∧
  getAnnotation service annotationLoadBalancerServiceSKSNodePoolName "" = "".

(** Resolving the Instance Pool sets at most its annotation, and on success the
    annotation is there unless a cluster was named without a node pool. *)
Definition resolves_pool (service : Service) (o : outcome (Service * result ())) : Prop :=
  match o with
  | Returned (s, r) =>
      (s = service ∨ ∃ id, s = set_annotation service annotationLoadBalancerServiceInstancePoolID id) ∧
      (r = Ok () → cluster_without_nodepool service ∨
                   getAnnotation s annotationLoadBalancerServiceInstancePoolID "" ≠ "")
  | Halted _ => True
  end.

Lemma resolves_pool_err service e : resolves_pool service (Returned (service, Err e)).
Proof. by split; [left|]. Qed.

Lemma getAnnotation_set service k v d : getAnnotation (set_annotation service k v) k d = v.
Proof. rewrite getAnnotation_spec, annotation_set. by rewrite decide_True. Qed.

Lemma ensures_patch_pool service id :
  id ≠ "" →
  ensures (@resolving_call (object_key service)) (resolves_pool service)
    (svc_wrap (ErrorfS "error patching annotations: %s" [])
       (patchAnnotation p service annotationLoadBalancerServiceInstancePoolID id)).
Proof.
  intros Hid. apply ensures_svc_wrap, ensures_patchAnnotation; [auto with ccm| |done].
  intros r. split; [by right; exists id|]. intros _. right. by rewrite getAnnotation_set.
Qed.
Hint Resolve resolves_pool_err ensures_patch_pool : ccm.

Lemma ensures_resolveInstancePool service nodes :
  ensures (@resolving_call (object_key service)) (resolves_pool service) (resolveInstancePool p service nodes).
Proof.
  unfold resolveInstancePool. cbv zeta.
  case_bool_decide as Hc; [case_bool_decide as Hn|case_bool_decide as Hn];
    [| |simpl; auto with ccm|case_bool_decide as Hp].
  - apply ensures_svc_bind, ensures_keep, ensures_wrap_err, ensures_exo; [done|].
    intros [[cs|e]|h]; simpl; auto with ccm.
    destruct (FindSKSCluster _ _); simpl; auto with ccm.
    case_bool_decide; simpl; auto with ccm.
  - split; [by left|]. intros _. left. split; [done|]. by destruct (getAnnotation _ _ _).
  - apply ensures_svc_bind, ensures_keep. eapply ensures_mono; [apply ensures_infer|done|].
    intros [[id|e]|h] Hid; simpl; auto with ccm.
  - split; [by left|]. intros _. by right.
Qed.

Lemma resolves_pool_resolves service o : resolves_pool service o → resolves service o.
Proof.
  destruct o as [[s r]|h]; simpl; [|done]. intros [[->|[id ->]] _]; auto with ccm.
Qed.

(** Calls of the creation phase. *)
Definition creating_call (key : string * string) (external : bool) {X} (e : ccmE X) : Prop :=
  match e with
  | ExoCall (ApiGetLoadBalancer _) => True
  | KubeCall (KubePatchService ns name _) => (ns, name) = key
  | ExoCall (ApiCreateLoadBalancer _) => external = false
  | _ => False
  end.

Lemma patch_creating key b X (e : ccmE X) : patch_call key e → creating_call key b e.
Proof. by destruct e as [? []|? []|]. Qed.
Hint Resolve patch_creating : ccm.

Lemma ensures_ensureExists service lbSpec :
  ensures (@creating_call (object_key service) (isExternal service)) (resolves service)
    (ensureExists p service lbSpec).
Proof.
  unfold ensureExists. apply ensures_bind, ensures_fetch; [done|].
  intros [[nlb|e]|h]; simpl; auto with ccm.
  destruct (errors_Is e _); simpl; auto with ccm.
  destruct (isExternal service) eqn:Hx; simpl; auto with ccm.
  unfold createLoadBalancer.
  apply ensures_svc_bind, ensures_keep, ensures_exo; [done|].
  intros [[op|e']|h]; simpl; auto with ccm.
  destruct (op_Reference op) as [ref|]; simpl; auto with ccm.
  apply ensures_svc_bind, ensures_keep, ensures_exo; [done|].
  intros [[nlb|e']|h]; simpl; auto with ccm.
  apply ensures_svc_bind, ensures_svc_wrap, ensures_patchAnnotation; simpl; auto with ccm.
  intros [[]|e']; simpl; auto with ccm.
Qed.
(** ** [updateLoadBalancer] *)

(** The calls the update of [nlb] towards [desired] may make: deletions are of
    services the NLB had, either undesired (and the NLB is managed) or desired
    with another Instance Pool; additions of desired services the NLB did not have,
    or had with another pool; the NLB itself is updated when its name or its
    description differs, and keeps its description. *)
Definition deletable (external : bool) (nlb desired : LoadBalancer) (cur : LoadBalancerService) :
    Prop :=
  cur ∈ lb_Services nlb ∧
  ((external = false ∧ ∀ u, u ∈ lb_Services desired → key u ≠ key cur) ∨
   ∃ u, u ∈ lb_Services desired ∧ key u = key cur ∧ pool_ID u ≠ pool_ID cur).

Definition addable (nlb : LoadBalancer) (u : LoadBalancerService) : Prop :=
  (∀ cur, cur ∈ lb_Services nlb → key cur ≠ key u) ∨
  ∃ cur, cur ∈ lb_Services nlb ∧ key cur = key u ∧ pool_ID cur ≠ pool_ID u.

Definition updating_call (external : bool) (nlb desired : LoadBalancer) {X} (e : ccmE X) : Prop :=
  match e with
  | ExoCall (ApiGetLoadBalancer id) => id = lb_ID nlb
  | ExoCall (ApiUpdateLoadBalancer id req) =>
      external = false ∧ id = lb_ID desired ∧ ulr_Name req = lb_Name desired ∧
      ulr_Description req = lb_Description nlb ∧
      (lb_Name nlb ≠ lb_Name desired ∨ lb_Description nlb ≠ lb_Description desired)
  | ExoCall (ApiDeleteLoadBalancerService id sid) =>
      id = lb_ID nlb ∧ ∃ cur, lbs_ID cur = sid ∧ deletable external nlb desired cur
  | ExoCall (ApiAddServiceToLoadBalancer id req) =>
      id = lb_ID nlb ∧ ∃ u pool, u ∈ lb_Services desired ∧ lbs_InstancePool u = Some pool ∧
        req = add_request u pool ∧ addable nlb u
  | ExoCall (ApiUpdateLoadBalancerService id sid req) =>
      id = lb_ID desired ∧ ∃ cur u, cur ∈ lb_Services nlb ∧ lbs_ID cur = sid ∧
        u ∈ lb_Services desired ∧ key u = key cur ∧ pool_ID u = pool_ID cur ∧
        req = update_request u ∧ ¬ same_service cur (with_ID u sid)
  | _ => False
  end.

(** Entries collected by the first loop. *)
Definition collected (desired : LoadBalancer) (seen : list LoadBalancerService)
    (m : gmap ServiceKey LoadBalancerService) : Prop :=
  (∀ k c, m !! k = Some c → c ∈ seen ∧ key c = k) ∧
  ∀ c u, c ∈ seen → u ∈ lb_Services desired → key u = key c → is_Some (m !! key c).

Lemma existsb_key desired cur :
  existsb (λ u, bool_decide (key cur = key u)) (lb_Services desired) = false →
  ∀ u, u ∈ lb_Services desired → key u ≠ key cur.
Proof.
  intros He u Hu Hk. assert (existsb (λ u, bool_decide (key cur = key u))
    (lb_Services desired) = true) as Ht; [|congruence].
  apply existsb_exists. exists u. split; [by apply list_elem_of_In|].
  by apply bool_decide_eq_true_2.
Qed.

Lemma ensures_collectService service nlb desired m cur (seen : list LoadBalancerService) :
  cur ∈ lb_Services nlb → collected desired seen m →
  ensures (@updating_call (isExternal service) nlb desired)
    (λ o, match o with
          | Returned (Ok m') => collected desired (seen ++ [cur]) m'
          | _ => True
          end) (collectService p service nlb desired m cur).
Proof.
  intros Hcur [Hm Hall].
  assert (∀ k c, m !! k = Some c → c ∈ seen ++ [cur] ∧ key c = k) as Hm'.
  { intros k c Hk. destruct (Hm k c Hk). split; [|done]. apply elem_of_app. by left. }
  unfold collectService. destruct (existsb _ _) eqn:He; simpl.
  { split.
    - intros k c [[<- <-]|[_ Hk]]%lookup_insert_Some; [|by apply Hm'].
      split; [apply elem_of_app; right; by apply list_elem_of_singleton|done].
    - intros c u Hc Hu Hk. destruct (decide (key c = key cur)) as [->|Hne];
        [by rewrite lookup_insert_eq|rewrite lookup_insert_ne by done].
      apply elem_of_snoc in Hc as [Hc| ->]; [by eapply Hall|done]. }
  assert (collected desired (seen ++ [cur]) m) as Hskip.
  { split; [exact Hm'|]. intros c u [Hc| ->]%elem_of_snoc Hu Hk; [by eapply Hall|].
    by destruct (existsb_key _ _ He u Hu). }
  destruct (isExternal service) eqn:Hx; [done|].
  apply ensures_try_bind, ensures_exo; [|by intros [[op|e]|h]; [apply Hskip|..]].
  simpl. split; [done|]. exists cur. split; [done|]. split; [done|]. left.
  split; [done|by apply existsb_key].
Qed.

Lemma ensures_createService external nlb desired (Q : outcome (result ()) → Prop) u v :
  v ∈ lb_Services desired → with_ID u (lbs_ID v) = v → addable nlb v → (∀ o, Q o) →
  ensures (@updating_call external nlb desired) Q (createService p nlb u).
Proof.
  intros Hv Huv Hadd HQ. unfold createService. destruct (lbs_InstancePool u) as [pool|] eqn:Hpool; [|apply HQ].
  apply ensures_try_bind, ensures_exo.
  { simpl. split; [done|]. exists v, pool. split; [done|].
    assert (lbs_InstancePool v = lbs_InstancePool u ∧ add_request v pool = add_request u pool) as [-> ->]
      by (rewrite <-Huv; done). done. }
  intros [[op|e]|h]; [|apply HQ..].
  apply ensures_try_bind, ensures_exo; [done|].
  intros [[lb|e]|h]; [|apply HQ..]. case_match; apply HQ.
Qed.

Lemma ensures_reconcileService external nlb desired m u (Q : outcome (result ()) → Prop) :
  collected desired (lb_Services nlb) m → u ∈ lb_Services desired → (∀ o, Q o) →
  ensures (@updating_call external nlb desired) Q (reconcileService p nlb desired m () u).
Proof.
  intros [Hm Hall] Hu HQ. unfold reconcileService. destruct (m !! key u) as [cur|] eqn:Hcur.
  2:{ eapply ensures_createService; [done|by destruct u| |done]. left. intros c Hc Hk.
      destruct (Hall c u Hc Hu (eq_sym Hk)) as [? Hs]. congruence. }
  destruct (Hm _ _ Hcur) as [Hin Hk].
  assert (pool_ID (with_ID u (lbs_ID cur)) = pool_ID u) as -> by done.
  destruct (decide (pool_ID cur = pool_ID u)) as [Hp|Hp].
  - rewrite bool_decide_eq_false_2 by auto.
    destruct (isLoadBalancerServiceUpdated _ _) eqn:Hup; [|apply HQ].
    apply ensures_try_bind, ensures_exo; [|by intros [[]|]; apply HQ].
    simpl. split; [done|]. exists cur, u. split_and!; try done.
    rewrite <-isLoadBalancerServiceUpdated_false. by rewrite Hup.
  - rewrite bool_decide_eq_true_2 by done.
    apply ensures_try_bind, ensures_wrap_err, ensures_exo.
    + simpl. split; [done|]. exists cur. split; [done|]. split; [done|]. right.
      exists u. split_and!; auto.
    + intros [[op|e]|h]; [|apply HQ..]. eapply ensures_createService; [done|by destruct u| |done].
      right. by exists cur.
Qed.

(** After the NLB has been read, every call is an [updating_call]. *)
Lemma ensures_applyUpdate service desired nlb :
  ensures (@updating_call (isExternal service) nlb desired) (λ _, True)
    (applyUpdate p service desired nlb).
Proof.
  unfold applyUpdate. apply ensures_try_bind.
  assert (ensures (@updating_call (isExternal service) nlb desired) (λ _, True)
    (nlbServices ←? forM (lb_Services nlb) ∅ (collectService p service nlb desired);
     forM (lb_Services desired) () (reconcileService p nlb desired nlbServices))) as Hloops.
  { apply ensures_try_bind, ensures_forM with (I := collected desired);
      [by split; [|intros c u ?%elem_of_nil]| |].
    - intros pre cur post m Hpre Hm. eapply ensures_mono;
        [apply ensures_collectService; [rewrite Hpre; set_solver|done]|done|]. by intros [[]|].
    - intros m Hm. apply ensures_forM with (I := λ _ _, True); [done| |done].
      intros pre u post [] Hpre _. apply ensures_reconcileService; [done|rewrite Hpre; set_solver|].
      by intros [[]|]. }
  destruct (negb (isExternal service) && _) eqn:Hup; [|done].
  apply andb_true_iff in Hup as [Hx Hup]. apply negb_true_iff in Hx.
  apply ensures_try_bind, ensures_exo; [|by intros [[]|]].
  split_and!; [done..|]. unfold isLoadBalancerUpdated in Hup. case_bool_decide; [by left|right].
  by apply bool_decide_eq_true in Hup.
Qed.

(** Everything an update may call, whatever the NLB turns out to be. *)
Definition any_updating_call (external : bool) {X} (e : ccmE X) : Prop :=
  match e with
  | ExoCall (ApiGetLoadBalancer _) | ExoCall (ApiDeleteLoadBalancerService _ _)
  | ExoCall (ApiAddServiceToLoadBalancer _ _) | ExoCall (ApiUpdateLoadBalancerService _ _ _) =>
      True
  | ExoCall (ApiUpdateLoadBalancer _ _) => external = false
  | _ => False
  end.

Lemma updating_any external nlb desired X (e : ccmE X) :
  updating_call external nlb desired e → any_updating_call external e.
Proof. destruct e as [? []|? []|]; simpl; tauto. Qed.

Lemma ensures_updateLoadBalancer service :
  ensures (@any_updating_call (isExternal service)) (λ _, True) (updateLoadBalancer p service).
Proof.
  unfold updateLoadBalancer. apply ensures_try_bind.
  destruct (buildLoadBalancerFromAnnotations service) as [desired|]; [|done]. simpl.
  case_match; [done|]. apply ensures_try_bind, ensures_exo; [done|].
  intros [[nlb|]|]; [|done..].
  eapply ensures_mono; [apply (ensures_applyUpdate service desired nlb)|apply updating_any|done].
Qed.

(** ** [EnsureLoadBalancerDeleted] *)

(** Deletions of services of [nlb] that some port of [service] matches. *)
Definition deleting_call (service : Service) (nlb : LoadBalancer) {X} (e : ccmE X) : Prop :=
  match e with
  | ExoCall (ApiDeleteLoadBalancerService id sid) =>
      id = lb_ID nlb ∧ ∃ s sp, s ∈ lb_Services nlb ∧ lbs_ID s = sid ∧
        sp ∈ svc_Ports service ∧ portMatches s sp = true
  | ExoCall (ApiDeleteLoadBalancer id) =>
      id = lb_ID nlb ∧ isExternal service = false ∧
      ((∀ s, s ∈ lb_Services nlb →
          (length (filter (λ sp, portMatches s sp = true) (svc_Ports service)) ≤ 1)%nat) →
       ∀ s, s ∈ lb_Services nlb → ∃ sp, sp ∈ svc_Ports service ∧ portMatches s sp = true)
  | _ => False
  end.

(** How many ports of the Service match an NLB service. *)
Definition matches (service : Service) (s : LoadBalancerService) : nat :=
  length (filter (λ sp, portMatches s sp = true) (svc_Ports service)).

Lemma matches_pos service s :
  (0 < matches service s)%nat → ∃ sp, sp ∈ svc_Ports service ∧ portMatches s sp = true.
Proof.
  unfold matches. destruct (filter _ _) as [|sp l] eqn:Hf; [simpl; lia|]. intros _.
  exists sp. assert (sp ∈ filter (λ sp, portMatches s sp = true) (svc_Ports service)) as Hin.
  { rewrite Hf. set_solver. }
  by apply list_elem_of_filter in Hin as [??].
Qed.

(** If the matches of all services add up to their number and none has more
    than one, each has one. *)
Lemma all_matched service l :
  (∀ s, s ∈ l → (matches service s ≤ 1)%nat) →
  sum_list (matches service <$> l) = length l →
  ∀ s, s ∈ l → (0 < matches service s)%nat.
Proof.
  intros Hle Hsum.
  assert (∀ l, (∀ s, s ∈ l → (matches service s ≤ 1)%nat) →
    (sum_list (matches service <$> l) ≤ length l)%nat) as Hbound.
  { clear. induction l as [|s l IH]; intros Hl; [done|]. csimpl.
    pose proof (Hl s ltac:(set_solver)). specialize (IH ltac:(set_solver)). lia. }
  induction l as [|s l IH]; [by intros ? ?%elem_of_nil|]. csimpl in Hsum.
  pose proof (Hle s ltac:(set_solver)).
  pose proof (Hbound l ltac:(set_solver)).
  intros s' [->|Hs]%elem_of_cons; [lia|]. apply IH; [set_solver|lia|done].
Qed.
End safety.
