(* ===== verification/LoadBalancerProps.v ===== *)
(** What the load balancer handlers promise, against an arbitrary environment:
    the calls they make, in which order, and what they return. *)
From S2P Require Import Prelude GoErrors GoStrings GoNet Effects Egoscale Kube CloudConfig.
From S2P Require Import LoadBalancerSpec LoadBalancerSpecProps LoadBalancer LoadBalancerSafety.
#[local] Open Scope Z_scope.

(** The call of a trace entry, without its reply. *)
Definition event {E : Type → Type} (c : call E) : {X : Type & E X} := existT _ (call_event c).

Definition exo_event {X} (e : exoE X) : {X : Type & ccmE X} := existT _ (ExoCall e).

(** The calls of a trace. *)
Abbreviation events t := (event <$> t).

Section props.
Context {unicode : UnicodeTables} {patchlib : PatchLib}.
Context (p : cloudProvider).

Lemma wp_ensures {E A} (P : ∀ X, E X → Prop) Q (m : prog E A) :
  ensures P Q m → wp m (λ t o, Forall (on_call P) t ∧ Q o).
Proof. apply ensures_wp. Qed.

Lemma wp_svc_bind {A B} (f : Service → A → svc_prog B) (m : svc_prog A) Φ :
  wp m (λ t o, match o with
               | Returned (s, Ok a) => wp (f s a) (λ t' o', Φ (t ++ t') o')
               | Returned (s, Err e) => Φ t (Returned (s, Err e))
               | Halted h => Φ t (Halted h)
               end) →
  wp (svc_bind m f) Φ.
Proof.
  intros Hm. apply wp_bind. eapply wp_mono; [apply Hm|].
  intros t [[s [a|e]]|h] H; simpl; [done| |done].
  apply wp_ret. by rewrite app_nil_r.
Qed.

Lemma wp_keep {A} service (m : prog ccmE (result A)) Φ :
  wp m (λ t o, match o with
               | Returned r => Φ t (Returned (service, r))
               | Halted h => Φ t (Halted h)
               end) →
  wp (keep service m) Φ.
Proof.
  intros Hm. apply wp_bind. eapply wp_mono; [apply Hm|].
  intros t [r|h] H; [|done]. apply wp_ret. by rewrite app_nil_r.
Qed.

(** ** The external annotation *)

(** Calls on an external NLB. *)
Definition service_call {X} (e : ccmE X) : Prop := ¬ lifecycle_call e.

Lemma resolving_not_lifecycle key X (e : ccmE X) : resolving_call key e → service_call e.
Proof. unfold service_call. by destruct e as [? []|? []|]; simpl; auto. Qed.

Lemma creating_not_lifecycle key X (e : ccmE X) : creating_call key true e → service_call e.
Proof. unfold service_call. destruct e as [? []|? []|]; simpl; intuition done. Qed.

Lemma updating_not_lifecycle X (e : ccmE X) : any_updating_call true e → service_call e.
Proof. unfold service_call. destruct e as [? []|? []|]; simpl; intuition done. Qed.

(** The phases of [EnsureLoadBalancer] in sequence, for any two predicates that
    the calls and the Services of each phase satisfy. *)
Lemma ensures_EnsureLoadBalancer (P : ∀ X, ccmE X → Prop) service nodes :
  (∀ X (e : ccmE X), resolving_call (object_key service) e → P X e) →
  (∀ X (e : ccmE X), creating_call (object_key service) (isExternal service) e → P X e) →
  (∀ X (e : ccmE X), any_updating_call (isExternal service) e → P X e) →
  ensures P (resolves service) (EnsureLoadBalancer p service nodes).
Proof.
  intros HR HC HU. unfold EnsureLoadBalancer.
  apply ensures_svc_bind. eapply ensures_mono; [apply ensures_resolveExternal|by apply HR|].
  intros [[s1 [[]|e]]|h] H1; simpl in *; [|done..].
  apply ensures_svc_bind. eapply ensures_mono; [apply ensures_resolveInstancePool| |].
  { rewrite (object_key_resolved _ _ H1). apply HR. }
  intros [[s2 [[]|e]]|h] H2%resolves_pool_resolves; simpl in *; [|by eapply resolved_from_trans|done].
  assert (resolved_from service s2) as H02 by by eapply resolved_from_trans.
  apply ensures_svc_bind. simpl.
  destruct (buildLoadBalancerFromAnnotations s2) as [lbSpec|e]; [|done].
  apply ensures_svc_bind. eapply ensures_mono; [apply ensures_ensureExists| |].
  { rewrite (isExternal_resolved _ _ H02), (object_key_resolved _ _ H02). apply HC. }
  intros [[s3 [nlb|e]]|h] H3; simpl in *; [|by eapply resolved_from_trans|done].
  assert (resolved_from service s3) as H03 by by eapply resolved_from_trans.
  apply ensures_svc_bind, ensures_keep. eapply ensures_mono; [apply ensures_updateLoadBalancer| |].
  { rewrite (isExternal_resolved _ _ H03). apply HU. }
  intros [[[]|e]|h] _; simpl; done.
Qed.

(** C13: an NLB annotated as external is never created, renamed, updated or
    deleted, by any of the three handlers and whatever the API replies; only
    its services are. *)
Theorem external_nlb_untouched service nodes (Hexternal : isExternal service = true) :
  wp (EnsureLoadBalancer p service nodes) (λ t _, Forall (on_call (@service_call)) t) ∧
  wp (UpdateLoadBalancer p service) (λ t _, Forall (on_call (@service_call)) t) ∧
  wp (EnsureLoadBalancerDeleted p service) (λ t _, Forall (on_call (@service_call)) t).
Proof.
  split_and!; (eapply wp_mono; [apply (ensures_wp (@service_call) (λ _, True))|by intros t o [Ht _]]).
  - eapply ensures_mono; [apply (ensures_EnsureLoadBalancer (@service_call))|done..]; [apply resolving_not_lifecycle| |];
      rewrite Hexternal; [apply creating_not_lifecycle|apply updating_not_lifecycle].
  - eapply ensures_mono; [apply ensures_updateLoadBalancer| |done].
    rewrite Hexternal. apply updating_not_lifecycle.
  - unfold EnsureLoadBalancerDeleted. apply ensures_bind, ensures_fetch; [by intros ? []|].
    intros [[nlb|e]|h]; [|by simpl; case_match|done].
    apply ensures_try_bind, ensures_forM with (I := λ _ _, True); [done| |].
    + intros _ s _ n _ _. apply ensures_forM with (I := λ _ _, True); [done| |done].
      intros _ sp _ m _ _. unfold deleteMatching. case_match; [|done].
      apply ensures_try_bind, ensures_exo; [by intros []|]. by intros [[]|].
    + intros n _. rewrite Hexternal. by case_match.
Qed.

(** C36: [EnsureLoadBalancer] modifies the Service it is given in at most the two
    annotations it resolves, the NLB ID and the Instance Pool ID: every other
    annotation, the metadata and the spec are those it received. *)
Theorem ensure_modifies_only_resolved_annotations service nodes :
  wp (EnsureLoadBalancer p service nodes) (λ _ o,
    ∀ service' r, o = Returned (service', r) →
      svc_Namespace service' = svc_Namespace service ∧ svc_Name service' = svc_Name service ∧
      svc_UID service' = svc_UID service ∧ svc_Ports service' = svc_Ports service ∧
      svc_ExternalTrafficPolicy service' = svc_ExternalTrafficPolicy service ∧
      svc_HealthCheckNodePort service' = svc_HealthCheckNodePort service ∧
      ∀ k, k ≠ annotationLoadBalancerID → k ≠ annotationLoadBalancerServiceInstancePoolID →
        annotation service' k = annotation service k).
Proof.
  eapply wp_mono.
  - apply ensures_wp, (ensures_EnsureLoadBalancer (λ _ _, True)); done.
  - intros t o [_ Ho] service' r ->. destruct Ho as [Hs Ha].
    destruct service, service'. unfold with_Annotations in Hs. simpl in *.
    inversion Hs; subst. split_and!; [done..|exact Ha].
Qed.
(** ** Creation *)

(** The creation requests of a trace, and the NLBs it read. *)
Definition creates (t : list (call ccmE)) : list CreateLoadBalancerRequest :=
  omap (λ c, match call_event c with
             | ExoCall (ApiCreateLoadBalancer req) => Some req
             | _ => None
             end) t.

Definition read_NLB (t : list (call ccmE)) (id : UUID) (nlb : LoadBalancer) : Prop :=
  Call (ExoCall (ApiGetLoadBalancer id)) (Ok nlb) ∈ t.

Definition not_found (service : Service) (t : list (call ccmE)) : Prop :=
  getAnnotation service annotationLoadBalancerID "" = "" ∨
  ∃ err, (errors_Is err ErrNotFound = true ∨ errors_Is err errLoadBalancerNotFound = true) ∧
    Call (ExoCall (ApiGetLoadBalancer (getAnnotation service annotationLoadBalancerID "")))
      (Err err) ∈ t.

Definition create_request (service : Service) : CreateLoadBalancerRequest := {|
  clr_Name := GetLoadBalancerName service;
  clr_Description := getAnnotation service annotationLoadBalancerDescription "";
  clr_Labels := None |}.

Definition not_create {X} (e : ccmE X) : Prop :=
  match e with ExoCall (ApiCreateLoadBalancer _) => False | _ => True end.

Lemma creates_app t t' : creates (t ++ t') = creates t ++ creates t'.
Proof. apply omap_app. Qed.

Lemma creates_nil t : Forall (on_call (@not_create)) t → creates t = [].
Proof.
  induction 1 as [|[X e x] t He _ IH]; [done|]. unfold creates in *. simpl.
  destruct e as [? []|? []|]; simpl in *; done.
Qed.

Lemma resolving_not_create key X (e : ccmE X) : resolving_call key e → not_create e.
Proof. by destruct e as [? []|? []|]. Qed.

Lemma updating_not_create b X (e : ccmE X) : any_updating_call b e → not_create e.
Proof. by destruct e as [? []|? []|]. Qed.

Lemma patch_not_create key X (e : ccmE X) : patch_call key e → not_create e.
Proof. by destruct e as [? []|? []|]. Qed.

Lemma wp_fetchLoadBalancer service Φ :
  (getAnnotation service annotationLoadBalancerID "" = "" →
   Φ [] (Returned (Err (Sentinel errLoadBalancerNotFound)))) →
  (getAnnotation service annotationLoadBalancerID "" ≠ "" → ∀ r,
   Φ [Call (ExoCall (ApiGetLoadBalancer (getAnnotation service annotationLoadBalancerID ""))) r]
     (Returned (map_err (λ err, if errors_Is err ErrNotFound
                                then Sentinel errLoadBalancerNotFound else err) r))) →
  Φ [] (Halted NilDeref) →
  wp (fetchLoadBalancer p service) Φ.
Proof.
  intros H0 H1 H2. unfold fetchLoadBalancer. case_bool_decide as Hid.
  - apply wp_wrap_err, wp_exo_call; [|done]. by apply H1.
  - by apply wp_ret, H0.
Qed.

(** The creation phase: it makes at most one creation, and the NLB it returns
    was read from the API under the ID it is recorded by. *)
Definition ensured (service : Service) (lbSpec : LoadBalancer) (t : list (call ccmE))
    (o : outcome (Service * result LoadBalancer)) : Prop :=
  (creates t = [] ∨
   isExternal service = false ∧ not_found service t ∧
   creates t = [{| clr_Name := lb_Name lbSpec; clr_Description := lb_Description lbSpec;
                   clr_Labels := lb_Labels lbSpec |}]) ∧
  ∀ service' nlb, o = Returned (service', Ok nlb) →
    (service' = service ∧
     read_NLB t (getAnnotation service annotationLoadBalancerID "") nlb) ∨
    (service' = set_annotation service annotationLoadBalancerID (lb_ID nlb) ∧
     ∃ id, read_NLB t id nlb).

Lemma ensured_failed service lbSpec t t' x o :
  isExternal service = false → not_found service t → creates t = [] → creates t' = [] →
  (∀ s' nlb, o ≠ Returned (s', Ok nlb)) →
  ensured service lbSpec (t ++ Call (ExoCall (ApiCreateLoadBalancer {|
    clr_Name := lb_Name lbSpec; clr_Description := lb_Description lbSpec;
    clr_Labels := lb_Labels lbSpec |})) x :: t') o.
Proof.
  intros Hx Hnf Ht Ht' Ho. split; [|naive_solver]. right. split; [done|]. split.
  - destruct Hnf as [?|(err & ? & ?)]; [by left|right; exists err]. set_solver.
  - rewrite creates_app, Ht. simpl. by f_equal.
Qed.

Lemma wp_createLoadBalancer service lbSpec t :
  isExternal service = false → not_found service t → creates t = [] →
  wp (createLoadBalancer p service lbSpec) (λ t' o, ensured service lbSpec (t ++ t') o).
Proof.
  intros Hx Hnf Ht. unfold createLoadBalancer.
  apply wp_svc_bind, wp_keep, wp_exo_call; [|by rewrite app_nil_r; split; [left|]].
  intros [op|e]; [|by apply ensured_failed].
  destruct (op_Reference op) as [ref|]; [|by apply wp_halt, ensured_failed].
  apply wp_svc_bind, wp_keep, wp_exo_call; [|by apply ensured_failed].
  intros [nlb|e]; [|by apply ensured_failed].
  apply wp_svc_bind. eapply wp_mono.
  { apply (wp_ensures (@not_create) (λ o, match o with
      | Returned (s, _) => s = set_annotation service annotationLoadBalancerID (lb_ID nlb)
      | Halted _ => True end)).
    apply ensures_svc_wrap, ensures_patchAnnotation; [apply patch_not_create|done..]. }
  intros t' [[s' [[]|e]]|h] [Ht'%creates_nil Hs']; simpl in *; [apply wp_ret| |];
    [|by apply ensured_failed..].
  subst s'. rewrite app_nil_r.
  destruct (ensured_failed service lbSpec t (Call (ExoCall (ApiGetLoadBalancer ref)) (Ok nlb) :: t')
    (Ok op) (Halted NilDeref)) as [Hc _]; [done..|]. split; [exact Hc|].
  intros service' nlb' [= <- <-]. right. split; [done|]. exists ref. unfold read_NLB. set_solver.
Qed.

Lemma wp_ensureExists service lbSpec :
  wp (ensureExists p service lbSpec) (ensured service lbSpec).
Proof.
  unfold ensureExists. apply wp_bind, wp_fetchLoadBalancer.
  - intros Hid. simpl. destruct (isExternal service) eqn:Hx; [by apply wp_ret; split; [left|]|].
    apply (wp_createLoadBalancer _ _ []); [done|by left|done].
  - intros Hid [nlb|err]; simpl.
    { apply wp_ret. split; [by left|]. intros ? ? [= <- <-]. left. unfold read_NLB. set_solver. }
    assert (errors_Is err ErrNotFound = true ∨ errors_Is err errLoadBalancerNotFound = true →
      not_found service [Call (ExoCall (ApiGetLoadBalancer
        (getAnnotation service annotationLoadBalancerID ""))) (Err err)]) as Hnf.
    { intros He. right. exists err. set_solver. }
    destruct (errors_Is err ErrNotFound) eqn:He; simpl;
      [|destruct (errors_Is err errLoadBalancerNotFound) eqn:He'; simpl];
      [..|by apply wp_ret; split; [left|]];
      (destruct (isExternal service) eqn:Hx; [by apply wp_ret; split; [left|]|]);
      (apply (wp_createLoadBalancer _ _ [_]); [done|auto|done]).
  - by split; [left|].
Qed.

(** ** [EnsureLoadBalancer] as a whole *)

Lemma build_create_request service service' lb :
  resolved_from service service' → buildLoadBalancerFromAnnotations service' = Ok lb →
  {| clr_Name := lb_Name lb; clr_Description := lb_Description lb; clr_Labels := lb_Labels lb |}
  = create_request service.
Proof.
  intros Hr (i & t & r & _ & _ & _ & -> & -> & ->)%build_Ok. unfold create_request. f_equal.
  - by eapply resolved_from_getAnnotation.
  - unfold GetLoadBalancerName. erewrite resolved_from_getAnnotation by done.
    destruct Hr as [Hs _]. by rewrite <-Hs.
Qed.

Lemma wp_resolveExternal service :
  wp (resolveExternal p service) (λ t o,
    creates t = [] ∧ resolves service o ∧
    (isExternal service = false → o = Returned (service, Ok ()))).
Proof.
  destruct (isExternal service) eqn:Hx.
  - eapply wp_mono; [apply ensures_wp, ensures_resolveExternal|].
    intros t o [Ht Ho]. split; [|by split].
    eapply creates_nil, Forall_impl; [done|]. intros c. apply resolving_not_create.
  - unfold resolveExternal. rewrite Hx. apply wp_ret. split_and!; auto with ccm.
    apply resolved_from_refl.
Qed.

Lemma wp_resolveInstancePool service nodes :
  wp (resolveInstancePool p service nodes) (λ t o, creates t = [] ∧ resolves_pool service o).
Proof.
  eapply wp_mono; [apply ensures_wp, ensures_resolveInstancePool|].
  intros t o [Ht Ho]. split; [|done].
  eapply creates_nil, Forall_impl; [done|]. intros c. apply resolving_not_create.
Qed.

Lemma wp_updateLoadBalancer service :
  wp (updateLoadBalancer p service) (λ t o,
    creates t = [] ∧
    (o = Returned (Ok ()) → getAnnotation service annotationLoadBalancerID "" ≠ "")).
Proof.
  apply (wp_mono _ (λ t o, (Forall (on_call (@any_updating_call (isExternal service))) t ∧ True) ∧
    (Forall (on_call (λ _ _, True)) t ∧
      (o = Returned (Ok ()) → getAnnotation service annotationLoadBalancerID "" ≠ "")))).
  - apply wp_and; [apply ensures_wp, ensures_updateLoadBalancer|].
    apply (wp_ensures _ (λ o, o = Returned (Ok ()) → _)).
    unfold updateLoadBalancer. apply ensures_try_bind.
    destruct (buildLoadBalancerFromAnnotations service) as [lb|] eqn:Hlb; [|done]. simpl.
    rewrite (build_ID _ _ Hlb). case_bool_decide as Hid; [done|].
    apply (ensures_mono (λ _ _, True) (λ _ _, True) (λ _, True)); [|done|by intros].
    apply ensures_try_bind, ensures_exo; [done|]. intros [[nlb|e]|h]; [|done..].
    eapply ensures_mono; [apply (ensures_applyUpdate p service lb nlb)|done|done].
  - intros t o [[Ht _] [_ Ho]]. split; [|done].
    eapply creates_nil, Forall_impl; [done|]. intros c. apply updating_not_create.
Qed.

Lemma not_found_resolved service service' t t' t0 :
  annotation service' annotationLoadBalancerID = annotation service annotationLoadBalancerID →
  not_found service' t → not_found service (t0 ++ t ++ t').
Proof.
  unfold not_found. rewrite !getAnnotation_spec. intros -> [?|(err & ? & ?)]; [by left|right].
  exists err. set_solver.
Qed.

(** What a run of [EnsureLoadBalancer] may create and how it ends. *)
Definition ensure_creates (service : Service) (t : list (call ccmE)) : Prop :=
  creates t = [] ∨
  isExternal service = false ∧ not_found service t ∧ creates t = [create_request service].

Definition ensure_returns (service : Service) (t : list (call ccmE))
    (o : outcome (Service * result (list string))) : Prop :=
  ∀ service' ips, o = Returned (service', Ok ips) →
    ∃ nlb id, read_NLB t id nlb ∧ ips = [IP_String (lb_IP nlb)] ∧
      getAnnotation service' annotationLoadBalancerID "" ≠ "" ∧
      (getAnnotation service' annotationLoadBalancerID "" = id ∨
       getAnnotation service' annotationLoadBalancerID "" = lb_ID nlb) ∧
      (cluster_without_nodepool service ∨
       getAnnotation service' annotationLoadBalancerServiceInstancePoolID "" ≠ "").

Lemma annotation_pool_ID service id :
  annotation (set_annotation service annotationLoadBalancerServiceInstancePoolID id)
    annotationLoadBalancerID = annotation service annotationLoadBalancerID.
Proof. by rewrite annotation_set. Qed.

Lemma cluster_without_nodepool_resolved s s' :
  resolved_from s s' → cluster_without_nodepool s' → cluster_without_nodepool s.
Proof.
  unfold cluster_without_nodepool. intros Hr.
  by rewrite !(resolved_from_getAnnotation _ _ _ _ Hr).
Qed.

Lemma wp_EnsureLoadBalancer service nodes :
  wp (EnsureLoadBalancer p service nodes) (λ t o,
    ensure_creates service t ∧ ensure_returns service t o).
Proof.
  unfold EnsureLoadBalancer. apply wp_svc_bind. eapply wp_mono; [apply wp_resolveExternal|].
  intros t1 [[s1 [[]|e]]|h] (C1 & R1 & X1); simpl in *; [|by split; [left|]..].
  apply wp_svc_bind. eapply wp_mono; [apply wp_resolveInstancePool|].
  intros t2 [[s2 [[]|e]]|h] (C2 & R2); [|by split; [left; rewrite creates_app, C1, C2|]..].
  pose proof (resolves_pool_resolves _ _ R2) as R02%(resolved_from_trans _ _ _ R1).
  assert (annotation s2 annotationLoadBalancerID = annotation s1 annotationLoadBalancerID) as Hid.
  { destruct R2 as [[->|[id ->]] _]; [done|]. apply annotation_pool_ID. }
  apply wp_svc_bind. destruct (buildLoadBalancerFromAnnotations s2) as [lbSpec|e] eqn:Hb;
    apply wp_ret; [|by split; [left; rewrite app_nil_r, creates_app, C1, C2|]].
  apply wp_svc_bind. eapply wp_mono; [apply wp_ensureExists|].
  intros t3 o3 [C3 R3].
  assert (∀ t4, creates t4 = [] → ensure_creates service (t1 ++ t2 ++ [] ++ t3 ++ t4)) as Hc.
  { intros t4 C4. unfold ensure_creates. rewrite !creates_app, C1, C2, C4. simpl.
    rewrite app_nil_r. destruct C3 as [->|(Hx & Hnf & ->)]; [by left|right].
    rewrite (isExternal_resolved _ _ R02) in Hx. split; [done|].
    rewrite (build_create_request _ _ _ R02 Hb). split; [|done].
    specialize (X1 Hx) as [= ->]. rewrite app_assoc. by eapply not_found_resolved. }
  destruct o3 as [[s3 [nlb|e]]|h];
    [|by specialize (Hc [] eq_refl); rewrite app_nil_r in Hc|].
  2:{ specialize (Hc [] eq_refl). by rewrite app_nil_r in Hc. }
  apply wp_svc_bind, wp_keep. eapply wp_mono; [apply wp_updateLoadBalancer|].
  intros t4 [[[]|e]|h] (C4 & Hann); [apply wp_ret| |]; rewrite ?app_nil_r;
    (split; [by apply Hc|]); [|done..].
  intros s' ips [= <- <-]. specialize (Hann eq_refl).
  destruct (R3 _ _ eq_refl) as [[-> Hr]|[-> [id Hr]]].
  - exists nlb, (getAnnotation s2 annotationLoadBalancerID "").
    split_and!; [unfold read_NLB in *; set_solver|done|done|by left|].
    destruct R2 as [_ [Hw|]]; [done|left|by right].
    exact (cluster_without_nodepool_resolved _ _ R1 Hw).
  - exists nlb, id. split_and!; [unfold read_NLB in *; set_solver|done|done| |].
    { right. apply getAnnotation_set. }
    destruct R2 as [_ [Hw|Hp]]; [done|left; exact (cluster_without_nodepool_resolved _ _ R1 Hw)|right].
    by rewrite getAnnotation_spec, annotation_set, decide_False, <-getAnnotation_spec.
Qed.

(** C21: [EnsureLoadBalancer] creates at most one NLB, only when the Service is
    not external and its NLB ID is absent or unknown to the API, and with the
    name and description the annotations give. *)
Theorem ensure_creates_at_most_once service nodes :
  wp (EnsureLoadBalancer p service nodes) (λ t _, ensure_creates service t).
Proof. eapply wp_mono; [apply wp_EnsureLoadBalancer|]. by intros t o [? _]. Qed.

(** C23: when [EnsureLoadBalancer] succeeds, the reported ingress IP is that of
    an NLB read from the API, the Service carries that NLB's ID, and it carries
    an Instance Pool ID too unless an SKS cluster was named without a node
    pool. *)
Theorem ensure_success_resolves service nodes :
  wp (EnsureLoadBalancer p service nodes) (λ t o, ensure_returns service t o).
Proof. eapply wp_mono; [apply wp_EnsureLoadBalancer|]. by intros t o [_ ?]. Qed.

(** ** [UpdateLoadBalancer] *)

Definition get_call (id : UUID) (r : result LoadBalancer) : call ccmE :=
  Call (ExoCall (ApiGetLoadBalancer id)) r.

(** Reading a trace entry back as an NLB lookup and its reply. *)
Definition exo_lookup {X} (e : exoE X) : X → option (UUID * result LoadBalancer) :=
  match e with ApiGetLoadBalancer id => λ r, Some (id, r) | _ => λ _, None end.

Definition as_get (c : call ccmE) : option (UUID * result LoadBalancer) :=
  match call_event c in ccmE X return X → _ with
  | ExoCall e => exo_lookup e
  | _ => λ _, None
  end (call_reply c).

Lemma get_call_cons_inj id id' r r' t t' :
  get_call id r :: t = get_call id' r' :: t' → id = id' ∧ r = r' ∧ t = t'.
Proof.
  intros H. assert (as_get <$> head (get_call id r :: t)
    = as_get <$> head (get_call id' r' :: t')) as Heq by (by rewrite H).
  injection Heq as -> ->. by injection H.
Qed.

(** C11: an update whose annotations do not parse or carry no NLB ID fails
    without calling the API; otherwise it reads the NLB and then only makes
    calls warranted by what it read: it deletes a service only if the Service
    no longer wants its port (and the NLB is managed) or wants it in another
    Instance Pool, updates a service only if it differs, adds only wanted
    services that the NLB did not have, or had in another Instance Pool, and
    renames only a managed NLB whose name or description differs (sending back
    the description it read). *)
Theorem update_calls_warranted service :
  wp (UpdateLoadBalancer p service) (λ t o,
    match buildLoadBalancerFromAnnotations service with
    | Err e => t = [] ∧ o = Returned (Err e)
    | Ok desired =>
        if decide (lb_ID desired = "")
        then t = [] ∧ o = Returned (Err (Sentinel errLoadBalancerIDAnnotationNotFound))
        else (t = [] ∧ o = Halted NilDeref) ∨
             (∃ e, t = [get_call (lb_ID desired) (Err e)] ∧ o = Returned (Err e)) ∨
             ∃ nlb t', t = get_call (lb_ID desired) (Ok nlb) :: t' ∧
               Forall (on_call (@updating_call (isExternal service) nlb desired)) t'
    end).
Proof.
  unfold UpdateLoadBalancer, updateLoadBalancer. apply wp_try_bind, wp_ret.
  destruct (buildLoadBalancerFromAnnotations service) as [desired|e]; [|done]. simpl.
  destruct (decide (lb_ID desired = "")) as [Hid|Hid];
    [rewrite bool_decide_eq_true_2 by done|rewrite bool_decide_eq_false_2 by done];
    [by apply wp_ret|].
  apply wp_try_bind, wp_exo_call; [|by left]. intros [nlb|e]; [|right; left; by exists e].
  eapply wp_mono; [apply ensures_wp, ensures_applyUpdate|].
  intros t o [Ht _]. right. right. by exists nlb, t.
Qed.

(** ** [EnsureLoadBalancerDeleted] *)

Definition matching_ports (service : Service) (s : LoadBalancerService) : list ServicePort :=
  filter (λ sp, portMatches s sp = true) (svc_Ports service).

(** The service deletions of [EnsureLoadBalancerDeleted], in order. *)
Definition deletions (service : Service) (nlb : LoadBalancer) (l : list LoadBalancerService) :
    list {X : Type & ccmE X} :=
  l ≫= λ s, (λ _, exo_event (ApiDeleteLoadBalancerService (lb_ID nlb) (lbs_ID s)))
              <$> matching_ports service s.

Lemma deletions_app service nlb l l' :
  deletions service nlb (l ++ l') = deletions service nlb l ++ deletions service nlb l'.
Proof. apply bind_app. Qed.

Lemma deletions_length service nlb l :
  length (deletions service nlb l) = sum_list (matches service <$> l).
Proof.
  induction l as [|s l IH]; [done|]. unfold deletions in *. csimpl.
  by rewrite length_app, length_fmap, IH.
Qed.

(** The deletions of a trace were accepted. *)
Definition exo_accepted {X} (e : exoE X) : X → Prop :=
  match e with
  | ApiDeleteLoadBalancer _ | ApiDeleteLoadBalancerService _ _ => λ r, is_ok r = true
  | _ => λ _, True
  end.

Definition accepted (c : call ccmE) : Prop :=
  match call_event c in ccmE X return X → Prop with
  | ExoCall e => exo_accepted e
  | _ => λ _, True
  end (call_reply c).

Lemma wp_deleteMatching service nlb s remaining :
  wp (forM (svc_Ports service) remaining (deleteMatching p nlb s)) (λ t o,
    ∀ n, o = Returned (Ok n) →
      events t = deletions service nlb [s] ∧ n = remaining - Z.of_nat (matches service s) ∧
      Forall accepted t).
Proof.
  apply wp_forM with (I := λ l n t,
    events t = (λ _, exo_event (ApiDeleteLoadBalancerService (lb_ID nlb) (lbs_ID s)))
                 <$> filter (λ sp, portMatches s sp = true) l ∧
    n = remaining - Z.of_nat (length (filter (λ sp, portMatches s sp = true) l)) ∧
    Forall accepted t).
  - simpl. split_and!; [done|lia|done].
  - intros pre sp post n t Hpre (Ht & -> & Hok). unfold deleteMatching.
    rewrite filter_app, filter_cons, filter_nil, length_app.
    destruct (portMatches s sp) eqn:Hm; simpl.
    + apply wp_try_bind, wp_exo_call; [|done]. intros [op|e]; [|done].
      apply wp_ret. rewrite app_nil_r, !fmap_app, Ht.
      split_and!; [done|simpl; lia|]. apply Forall_app. split; [done|by constructor].
    + apply wp_ret. rewrite !app_nil_r. split_and!; [done|simpl; lia|done].
  - intros n t (Ht & Hn & Hok) n' [= <-]. unfold deletions, matches. simpl. by rewrite app_nil_r.
Qed.

Lemma wp_deleteServices service nlb :
  wp (forM (lb_Services nlb) (Z.of_nat (length (lb_Services nlb)))
        (λ remaining s, forM (svc_Ports service) remaining (deleteMatching p nlb s)))
    (λ t o, ∀ n, o = Returned (Ok n) →
      events t = deletions service nlb (lb_Services nlb) ∧
      n = Z.of_nat (length (lb_Services nlb))
          - Z.of_nat (length (deletions service nlb (lb_Services nlb))) ∧
      Forall accepted t).
Proof.
  apply wp_forM with (I := λ l n t,
    events t = deletions service nlb l ∧
    n = Z.of_nat (length (lb_Services nlb)) - Z.of_nat (length (deletions service nlb l)) ∧
    Forall accepted t).
  - simpl. split_and!; [done|lia|done].
  - intros pre s post n t Hpre (Ht & -> & Hok). eapply wp_mono; [apply wp_deleteMatching|].
    intros t' [[n'|e]|h] H; [|done..]. destruct (H n' eq_refl) as (Ht' & -> & Hok').
    rewrite fmap_app, Ht, Ht', deletions_app, length_app. split; [done|].
    rewrite (deletions_length _ _ [s]). split; [simpl; lia|]. by apply Forall_app.
  - intros n t (Ht & Hn & Hok) n' [= <-]. done.
Qed.

(** What the calls of a trace left of the NLB of a Service: there was none, or
    it was read, each of its services deleted once per port that it matches, and
    the NLB with them if that made as many deletions as it had services and it
    is not external. *)
Definition cleaned (service : Service) (t : list (call ccmE)) : Prop :=
  (not_found service t ∧ (length t ≤ 1)%nat) ∨
  ∃ nlb, let id := getAnnotation service annotationLoadBalancerID "" in
    let dels := deletions service nlb (lb_Services nlb) in
    read_NLB t id nlb ∧
    events t = exo_event (ApiGetLoadBalancer id) :: dels ++
      (if decide (length dels = length (lb_Services nlb) ∧ isExternal service = false)
       then [exo_event (ApiDeleteLoadBalancer (lb_ID nlb))] else []) ∧
    Forall accepted t.

Lemma wp_EnsureLoadBalancerDeleted service :
  wp (EnsureLoadBalancerDeleted p service) (λ t o, o = Returned (Ok ()) → cleaned service t).
Proof.
  unfold EnsureLoadBalancerDeleted. apply wp_bind, wp_fetchLoadBalancer; [..|done].
  - intros Hid. apply wp_ret. intros _. left. split; [by left|simpl; lia].
  - intros Hid [nlb|err]; simpl.
    + apply wp_try_bind. eapply wp_mono; [apply wp_deleteServices|].
      intros t [[n|e]|h] H; [|done..]. destruct (H n eq_refl) as (Ht & -> & Hok).
      case_bool_decide as Hn; [destruct (isExternal service) eqn:Hx|].
      * apply wp_ret. intros _. right. exists nlb. split; [by left|]. cbv zeta.
        split; [by rewrite fmap_cons, !fmap_app, Ht, decide_False by (intros [_ ?]; congruence)|].
        rewrite app_nil_r. by constructor.
      * apply wp_try_bind, wp_exo_call; [|done]. intros [op|e]; [|done].
        apply wp_ret. intros _. right. exists nlb. split; [by left|]. cbv zeta.
        split; [by rewrite fmap_cons, !fmap_app, Ht, decide_True by (split; [lia|done])|].
        constructor; [done|]. apply Forall_app. split; [done|by constructor].
      * apply wp_ret. intros _. right. exists nlb. split; [by left|]. cbv zeta.
        split; [by rewrite fmap_cons, !fmap_app, Ht, decide_False by (intros [??]; lia)|].
        rewrite app_nil_r. by constructor.
    + case_match eqn:He; apply wp_ret; [|done]. intros _. left. split; [|simpl; lia].
      right. exists err. split; [|by left].
      destruct (errors_Is err ErrNotFound); [by left|by right].
Qed.

(** C14: when [EnsureLoadBalancerDeleted] succeeds, either the Service has no
    NLB (no ID, or an ID the API does not know), or its calls are exactly: the
    NLB is read, each of its services is deleted once per port of the Service
    that it matches, and the NLB itself is then deleted if and only if as many
    services were deleted as it had and it is not external; and the API
    accepted each deletion. *)
Theorem deleted_calls_exact service :
  wp (EnsureLoadBalancerDeleted p service) (λ t o, o = Returned (Ok ()) →
    (not_found service t ∧ (length t ≤ 1)%nat) ∨
    ∃ nlb, let id := getAnnotation service annotationLoadBalancerID "" in
      let dels := deletions service nlb (lb_Services nlb) in
      read_NLB t id nlb ∧
      events t = exo_event (ApiGetLoadBalancer id) :: dels ++
        (if decide (length dels = length (lb_Services nlb) ∧ isExternal service = false)
         then [exo_event (ApiDeleteLoadBalancer (lb_ID nlb))] else []) ∧
      Forall accepted t).
Proof. apply wp_EnsureLoadBalancerDeleted. Qed.

Definition not_delete_NLB {X} (e : ccmE X) : Prop :=
  match e with ExoCall (ApiDeleteLoadBalancer _) => False | _ => True end.

Lemma ensures_deleteServices service nlb :
  ensures (@not_delete_NLB) (λ _, True)
    (forM (lb_Services nlb) (Z.of_nat (length (lb_Services nlb)))
      (λ remaining s, forM (svc_Ports service) remaining (deleteMatching p nlb s))).
Proof.
  apply ensures_forM with (I := λ _ _, True); [done| |done]. intros _ s _ n _ _.
  apply ensures_forM with (I := λ _ _, True); [done| |done]. intros _ sp _ m _ _.
  unfold deleteMatching. case_match; [|done].
  apply ensures_try_bind, ensures_exo; [done|]. by intros [[]|].
Qed.

(** C15: deleting a Service never deletes an NLB that still serves another one:
    if the NLB it reads has a service that no port of this Service matches,
    while none of its services matches two of them, no call deletes the NLB. *)
Theorem shared_nlb_kept service :
  wp (EnsureLoadBalancerDeleted p service) (λ t _, ∀ id nlb other t',
    t = get_call id (Ok nlb) :: t' →
    other ∈ lb_Services nlb → matches service other = 0%nat →
    (∀ s, s ∈ lb_Services nlb → (matches service s ≤ 1)%nat) →
    Forall (on_call (@not_delete_NLB)) t').
Proof.
  unfold EnsureLoadBalancerDeleted. apply wp_bind, wp_fetchLoadBalancer; [| |done].
  { intros _. by apply wp_ret. }
  intros _ [nlb|err]; simpl; [|case_match; apply wp_ret;
    by intros ? nlb' other t' (_ & ? & _)%get_call_cons_inj].
  apply wp_try_bind. eapply wp_mono.
  { apply wp_and; [apply wp_deleteServices|apply ensures_wp, ensures_deleteServices]. }
  intros t o [H [Ht _]].
  destruct o as [[n|e]|h]; [|by intros ? nlb' other t' (_ & _ & <-)%get_call_cons_inj..].
  destruct (H n eq_refl) as (_ & -> & _).
  case_bool_decide as Hn; [destruct (isExternal service)|];
    [apply wp_ret; rewrite app_nil_r; by intros ? nlb' other t' (_ & _ & <-)%get_call_cons_inj| |
     apply wp_ret; rewrite app_nil_r; by intros ? nlb' other t' (_ & _ & <-)%get_call_cons_inj].
  assert (∀ other, other ∈ lb_Services nlb → matches service other = 0%nat →
    (∀ s, s ∈ lb_Services nlb → (matches service s ≤ 1)%nat) → False) as Hall.
  { intros other Hin H0 Hle. rewrite deletions_length in Hn.
    pose proof (all_matched service _ Hle ltac:(lia) other Hin). lia. }
  eapply wp_mono with (Φ := λ _ _, True); [by intros|].
  intros t' o _ id nlb' other t'' (_ & [= <-] & <-)%get_call_cons_inj Hin H0 Hle.
  destruct (Hall other Hin H0 Hle).
Qed.

(** ** Lookups *)

(** [GetLoadBalancer] makes at most one call, the lookup of the NLB whose
    ID the Service carries: it reports the NLB's IP when the API returns it,
    absence when the API does not know it, and the API's error otherwise. *)
Theorem get_load_balancer_spec service (Hclient : p_client p = true) :
  wp (GetLoadBalancer p service) (λ t o,
    let id := getAnnotation service annotationLoadBalancerID "" in
    (id = "" ∧ t = [] ∧ o = Returned (Ok (None, false))) ∨
    (id ≠ "" ∧ ∃ r, t = [get_call id r] ∧
      o = Returned (match r with
                    | Ok nlb => Ok (Some [IP_String (lb_IP nlb)], true)
                    | Err e => if errors_Is e ErrNotFound || is_sentinel e errLoadBalancerNotFound
                               then Ok (None, false) else Err e
                    end))).
Proof.
  unfold GetLoadBalancer. apply wp_bind.
  unfold fetchLoadBalancer, exo. rewrite Hclient. case_bool_decide as Hid.
  - apply wp_wrap_err, wp_vis. intros r. apply wp_ret, wp_ret. right. split; [done|].
    exists r. split; [done|]. destruct r as [nlb|e]; simpl; [done|].
    destruct (errors_Is e ErrNotFound); simpl; [done|]. by destruct (is_sentinel _ _).
  - apply wp_ret, wp_ret. left. by split_and!.
Qed.

(** Without an NLB ID nothing is called: deletion succeeds at once, the
    lookup reports absence, and an update fails before reaching the API. *)
Theorem no_id_no_call service
    (Hid : getAnnotation service annotationLoadBalancerID "" = "") :
  EnsureLoadBalancerDeleted p service = Ret (Ok ()) ∧
  GetLoadBalancer p service = Ret (Ok (None, false)) ∧
  ∃ e, UpdateLoadBalancer p service = Ret (Err e).
Proof.
  unfold EnsureLoadBalancerDeleted, GetLoadBalancer, fetchLoadBalancer.
  rewrite Hid. simpl. split_and!; [done..|].
  unfold UpdateLoadBalancer, updateLoadBalancer.
  destruct (buildLoadBalancerFromAnnotations service) as [lb|e] eqn:Hb; [|by exists e].
  rewrite try_bind_Ok, (build_ID _ _ Hb), Hid. simpl. eauto.
Qed.

(** ** Inferring the Instance Pool *)

(** The pool that manages an instance. *)
Definition pool_of (i : ComputeInstance) : option UUID :=
  match inst_Manager i with
  | Some m => if bool_decide (mgr_Type m = "instance-pool") then Some (mgr_ID m) else None
  | None => None
  end.

(** The pools of the instances a trace has read. *)
Definition instances (t : list (call ccmE)) : list ComputeInstance := omap as_instance t.
Definition pools (t : list (call ccmE)) : list UUID := omap pool_of (instances t).

Lemma instances_app t t' : instances (t ++ t') = instances t ++ instances t'.
Proof. apply omap_app. Qed.

Lemma pools_app t t' : pools (t ++ t') = pools t ++ pools t'.
Proof. unfold pools. by rewrite instances_app, omap_app. Qed.

Definition lookups (nodes : list Node) : list {X : Type & ccmE X} :=
  (λ n, exo_event (ApiGetInstance (node_SystemUUID n))) <$> nodes.

(** [pool] is the pool of all the instances read, or empty before the first. *)
Definition unique_pool (t : list (call ccmE)) (pool : UUID) : Prop :=
  Forall (λ q, q ≠ "") (pools t) →
  (pool = "" ∧ pools t = []) ∨ (pool ≠ "" ∧ ∀ q, q ∈ pools t ↔ q = pool).

Definition infer_inv (l : list Node) (pool : UUID) (t : list (call ccmE)) : Prop :=
  events t = lookups l ∧ length (instances t) = length l ∧ unique_pool t pool.

(** The result of the inference, given the instances read. *)
Definition infer_post (nodes : list Node) (t : list (call ccmE)) (o : outcome (result UUID)) : Prop :=
  (∀ id, o = Returned (Ok id) →
     events t = lookups nodes ∧ length (instances t) = length nodes) ∧
  (length (instances t) = length nodes → Forall (λ q, q ≠ "") (pools t) →
   p_client p = true → ∀ id, o = Returned (Ok id) ↔ ∀ q, q ∈ pools t ↔ q = id).

Lemma wp_inferFromNode nodes pre node post pool t :
  nodes = pre ++ node :: post → infer_inv pre pool t →
  wp (inferFromNode p pool node) (λ t' o, match o with
    | Returned (Ok pool') => infer_inv (pre ++ [node]) pool' (t ++ t')
    | Returned (Err e) => infer_post nodes (t ++ t') (Returned (Err e))
    | Halted h => infer_post nodes (t ++ t') (Halted h)
    end).
Proof.
  intros -> (Hev & Hlen & Huniq). unfold inferFromNode.
  assert (∀ t' pool', events t' = lookups [node] → length (instances t') = 1%nat →
    unique_pool (t ++ t') pool' → infer_inv (pre ++ [node]) pool' (t ++ t')) as Hnext.
  { intros t' pool' Hev' Hlen' Hu. split_and!; [| |done].
    - unfold lookups in *. by rewrite !fmap_app, Hev, Hev'.
    - rewrite instances_app, !length_app, Hlen, Hlen'. done. }
  apply wp_try_bind, wp_wrap_err. unfold exo. destruct (p_client p) eqn:Hc.
  2:{ apply wp_halt. split; [done|]. by rewrite Hc. }
  apply wp_vis. intros [i|e]; apply wp_ret; simpl.
  2:{ split; [done|]. rewrite instances_app, length_app, Hlen, length_app. simpl. lia. }
  assert (pools [Call (ExoCall (ApiGetInstance (node_SystemUUID node))) (Ok i)]
    = match pool_of i with Some q => [q] | None => [] end) as Hp.
  { unfold pools. simpl. by destruct (pool_of i). }
  unfold pool_of in Hp. destruct (inst_Manager i) as [m|]; [case_bool_decide as Hm|].
  - rewrite bool_decide_eq_false_2 by auto. case_bool_decide as Hpool; simpl.
    + case_bool_decide as Hneq; apply wp_ret; simpl.
      * split; [done|]. intros _ Hne _ id. split; [done|]. intros Hall. exfalso.
        rewrite pools_app, Hp in Hne, Hall. apply Forall_app in Hne as [Hne _].
        destruct (Huniq Hne) as [[??]|[_ Hu]]; [done|].
        apply Hneq. assert (mgr_ID m = id) as -> by (apply Hall; set_solver).
        symmetry. apply Hall. apply elem_of_app. left. by apply Hu.
      * apply Hnext; [done|done|]. intros Hne. right.
        rewrite pools_app, Hp in Hne |- *.
        apply Forall_app in Hne as [Hne _]. destruct (Huniq Hne) as [[??]|[? Hu]]; [done|].
        rewrite Hneq. split; [done|].
        intros q. rewrite elem_of_app, Hu. set_solver.
    + apply wp_ret. simpl. apply Hnext; [done|done|]. intros Hne. right.
      rewrite pools_app, Hp in Hne |- *.
      apply Forall_app in Hne as [Hne Hm']. rewrite Forall_singleton in Hm'. split; [exact Hm'|].
      destruct (Huniq Hne) as [[_ ->]|[? _]]; [|done]. set_solver.
  - rewrite bool_decide_eq_true_2 by done. apply wp_ret. apply Hnext; [done|done|].
    unfold unique_pool. by rewrite pools_app, Hp, app_nil_r.
  - apply wp_ret. apply Hnext; [done|done|].
    unfold unique_pool. by rewrite pools_app, Hp, app_nil_r.
Qed.

(** The Instance Pool of a Service is inferred from every node of the
    cluster: on success each node's instance was looked up, in order, and, when
    all lookups succeed, the inference succeeds with a pool exactly when the
    instances that are managed by a pool are all managed by that one. *)
Theorem infer_unique_pool nodes :
  wp (inferInstancePool p nodes) (infer_post nodes).
Proof.
  unfold inferInstancePool. apply wp_try_bind.
  apply wp_forM with (I := infer_inv).
  - split_and!; [done..|]. intros _. by left.
  - intros. by eapply wp_inferFromNode.
  - intros pool t (Hev & Hlen & Hu). case_bool_decide as Hpool; apply wp_ret; rewrite app_nil_r.
    + split; [done|]. intros _ Hne _ id. split; [done|]. intros Hall. exfalso.
      destruct (Hu Hne) as [[_ Hnil]|[? _]]; [|done].
      rewrite Hnil in Hall. assert (id ∈ []) as []%elem_of_nil by by apply Hall.
    + split; [done|]. intros _ Hne _ id. destruct (Hu Hne) as [[? _]|[_ Hall]]; [done|].
      split; [by intros [= <-]|]. intros Hall'. do 2 f_equal. symmetry.
      apply Hall, Hall'. done.
Qed.

(** ** Patching *)

Lemma wp_Patch_length c :
  wp (Patch p c) (λ t _, (length t ≤ 1)%nat).
Proof.
  unfold Patch. apply wp_try_bind, wp_ret.
  destruct (json_Marshal (pt_current c)) as [j1|]; simpl; [|lia].
  apply wp_try_bind, wp_ret. destruct (json_Marshal (pt_modified c)) as [j2|]; simpl; [|lia].
  apply wp_try_bind, wp_ret. destruct (CreateTwoWayMergePatch j1 j2); simpl; [|lia].
  case_match; [apply wp_ret; simpl; lia|]. apply wp_wrap_err. unfold kube.
  destruct (p_kclient p); [|apply wp_halt; simpl; lia].
  apply wp_vis. intros r. apply wp_ret. simpl. lia.
Qed.

(** [patchAnnotation] leaves the annotation set in the caller's Service
    even when the patch is refused by the API server, and a second call with
    the same value then makes no API call at all. *)
Theorem patch_annotation_idempotent service k v :
  wp (patchAnnotation p service k v) (λ t o, ∀ service' r, o = Returned (service', r) →
    service' = set_annotation service k v ∧ (length t ≤ 1)%nat ∧
    patchAnnotation p service' k v = Ret (service', Ok ())).
Proof.
  unfold patchAnnotation at 1. case_bool_decide as Hk.
  - apply wp_ret. intros s' r [= <- <-]. unfold set_annotation. rewrite insert_id by done.
    split_and!; [done|simpl; lia|]. unfold patchAnnotation. simpl.
    by rewrite bool_decide_eq_true_2.
  - apply wp_keep. eapply wp_mono; [apply wp_Patch_length|]. intros t [r|h] Ht; [|done].
    intros s' r' [= <- <-]. split_and!; [done|done|].
    unfold patchAnnotation. simpl. by rewrite bool_decide_eq_true_2 by apply lookup_insert_eq.
Qed.
End props.
