(* ===== verification/Requests.v ===== *)
(** The requests of the load balancer handlers conform to the schema that
    egoscale gives them (operations.go, schemas.go): the [validate] tags of the
    request types and the values of their enumerations. *)
From S2P Require Import Prelude GoErrors GoStrings GoTime GoNet Effects Egoscale Kube CloudConfig.
From S2P Require Import LoadBalancerSpec LoadBalancerSpecProps LoadBalancer LoadBalancerSafety LoadBalancerProps.
#[local] Open Scope Z_scope.

(** ** The schema *)

(** [omitempty,gte=lo,lte=hi] *)
Definition opt_within (lo hi z : Z) : bool := (z =? 0) || (lo <=? z) && (z <=? hi).

(** [required,gte=1,lte=255], and [lte=255] *)
Definition text_within (s : string) : bool := (String.length s <=? 255)%nat.
Definition named (s : string) : bool := (1 <=? String.length s)%nat && text_within s.

Definition healthcheck_conforms (hc : Healthcheck) : bool :=
  opt_within 5 300 (hc_Interval hc) && bool_decide (hc_Mode hc ∈ ["tcp"; "http"; "https"])
  && opt_within 1 65535 (hc_Port hc) && opt_within 1 20 (hc_Retries hc)
  && opt_within 2 60 (hc_Timeout hc) && text_within (hc_TlsSNI hc) && text_within (hc_URI hc).

Definition port_conforms (port : Z) : bool := (1 <=? port) && (port <=? 65535).
Definition protocol_conforms (s : string) : bool := bool_decide (s ∈ ["tcp"; "udp"]).
Definition strategy_conforms (s : string) : bool :=
  bool_decide (s ∈ ["round-robin"; "maglev-hash"; "source-hash"]).

Definition create_conforms (req : CreateLoadBalancerRequest) : bool :=
  text_within (clr_Description req) && named (clr_Name req).

Definition add_conforms (req : AddServiceToLoadBalancerRequest) : bool :=
  text_within (asr_Description req)
  && match asr_Healthcheck req with Some hc => healthcheck_conforms hc | None => false end
  && bool_decide (is_Some (asr_InstancePool req)) && named (asr_Name req)
  && port_conforms (asr_Port req) && protocol_conforms (asr_Protocol req)
  && strategy_conforms (asr_Strategy req) && port_conforms (asr_TargetPort req).

(** Of an update each part may be left out. *)
Definition update_conforms (req : UpdateLoadBalancerServiceRequest) : bool :=
  text_within (usr_Description req)
  && match usr_Healthcheck req with Some hc => healthcheck_conforms hc | None => true end
  && text_within (usr_Name req) && opt_within 1 65535 (usr_Port req)
  && (bool_decide (usr_Protocol req = "") || protocol_conforms (usr_Protocol req))
  && (bool_decide (usr_Strategy req = "") || strategy_conforms (usr_Strategy req))
  && opt_within 1 65535 (usr_TargetPort req).

Definition rename_conforms (req : UpdateLoadBalancerRequest) : bool :=
  text_within (ulr_Description req) && (bool_decide (ulr_Name req = "") || named (ulr_Name req)).

Definition conforms {X} (e : ccmE X) : Prop :=
  match e with
  | ExoCall (ApiCreateLoadBalancer req) => create_conforms req = true
  | ExoCall (ApiUpdateLoadBalancer _ req) => rename_conforms req = true
  | ExoCall (ApiAddServiceToLoadBalancer _ req) => add_conforms req = true
  | ExoCall (ApiUpdateLoadBalancerService _ _ req) => update_conforms req = true
  | _ => True
  end.

(** An NLB that the API gives has a description within the bounds of its type: a
    request that renames it sends this description back. *)
Definition exo_reply_conforms {X} (e : exoE X) : X → Prop :=
  match e with
  | ApiGetLoadBalancer _ => λ r, ∀ nlb, r = Ok nlb → text_within (lb_Description nlb) = true
  | _ => λ _, True
  end.

Definition reply_conforms (c : call ccmE) : Prop :=
  match call_event c in ccmE X return X → Prop with
  | ExoCall e => exo_reply_conforms e
  | _ => λ _, True
  end (call_reply c).

(** ** Services with admissible annotations *)

(** A Service with valid ports for which node ports are allocated (Kubernetes does
    so unless [allocateLoadBalancerNodePorts] is false), a UID that is no longer
    than a name may be, and annotations with values in their range. Nothing is
    asked of the health check port. *)
Record admissible {unicode : UnicodeTables} (service : Service) : Prop := {
  adm_ports : Forall (λ sp, port_conforms (sp_Port sp) = true ∧ port_conforms (sp_NodePort sp) = true)
                (svc_Ports service);
  adm_uid : (String.length (svc_UID service) ≤ 200)%nat;
  adm_name : named (GetLoadBalancerName service) = true;
  adm_description : text_within (getAnnotation service annotationLoadBalancerDescription "") = true;
  adm_service_name a : annotation service annotationLoadBalancerServiceName = Some a → named a = true;
  adm_service_description :
    text_within (getAnnotation service annotationLoadBalancerServiceDescription "") = true;
  adm_strategy : strategy_conforms
    (getAnnotation service annotationLoadBalancerServiceStrategy defaultNLBServiceStrategy) = true;
  adm_mode : getAnnotation service annotationLoadBalancerServiceHealthCheckMode
    defaultNLBServiceHealthcheckMode ∈ ["tcp"; "http"; "https"];
  adm_uri : text_within (getAnnotation service annotationLoadBalancerServiceHealthCheckURI "") = true;
  adm_healthcheck i t r : annotations_parse service i t r →
    opt_within 5 300 (Seconds i) = true ∧ opt_within 2 60 (Seconds t) = true ∧
    opt_within 1 20 r = true;
}.

Lemma pretty_port_length z : port_conforms z = true → (String.length (pretty z) ≤ 5)%nat.
Proof.
  unfold port_conforms. rewrite andb_true_iff, !Z.leb_le. intros Hz.
  apply pretty_Z_length. change (10 ^ Z.of_nat 5) with 100000. lia.
Qed.

Lemma text_within_le s : (String.length s ≤ 255)%nat ↔ text_within s = true.
Proof. unfold text_within. by rewrite Nat.leb_le. Qed.

Lemma named_within s : named s = true → text_within s = true.
Proof. unfold named. by intros [_ ?]%andb_true_iff. Qed.

Section requests.
Context {unicode : UnicodeTables} {patchlib : PatchLib}.
Context (p : cloudProvider).

Lemma svcName_named service sp :
  admissible service → supported_protocol sp → port_conforms (sp_Port sp) = true →
  named (svcName service sp) = true.
Proof.
  intros Ha Hsp Hp%pretty_port_length. pose proof (adm_uid _ Ha) as Hu.
  assert (∃ suffix, svcName service sp = svc_UID service +:+ "-" +:+ pretty (sp_Port sp) +:+ suffix ∧
    (String.length suffix ≤ 4)%nat) as (suffix & -> & Hs).
  { unfold svcName. eexists. split; [done|]. destruct Hsp as [-> | ->]; vm_compute; lia. }
  unfold named, text_within. rewrite andb_true_iff, !Nat.leb_le, !string_length_app. simpl. lia.
Qed.

(** What a request takes from a desired service is in order. *)
Definition service_conforms (u : LoadBalancerService) : Prop :=
  text_within (lbs_Description u) = true ∧
  (∃ hc, lbs_Healthcheck u = Some hc ∧ healthcheck_conforms hc = true) ∧
  named (lbs_Name u) = true ∧ port_conforms (lbs_Port u) = true ∧
  protocol_conforms (lbs_Protocol u) = true ∧ strategy_conforms (lbs_Strategy u) = true ∧
  port_conforms (lbs_TargetPort u) = true.

Lemma healthcheckPort_within service sp port :
  healthcheckPort service sp = Ok port → opt_within 1 65535 port = true.
Proof.
  intros Hp. assert (0 ≤ port < 65536) as Hport.
  { unfold healthcheckPort in Hp. repeat case_match; simplify_eq; apply Z.mod_pos_bound; lia. }
  unfold opt_within. rewrite orb_true_iff, andb_true_iff, Z.eqb_eq, !Z.leb_le. lia.
Qed.

Lemma buildService_conforms service i t r sp u :
  admissible service → annotations_parse service i t r → sp ∈ svc_Ports service →
  buildService service i t r sp = Ok u → service_conforms u.
Proof.
  intros Ha Hparse Hsp Hb. pose proof (buildService_Ok _ _ _ _ _ _ Hb) as
    (Hpr & (port & Hhp & Hhc) & Hport & Htarget & Hproto & _).
  pose proof (adm_ports _ Ha) as Hall. eapply Forall_forall in Hall as [Hp Hn]; [|done].
  destruct (adm_healthcheck _ Ha _ _ _ Hparse) as (Hi & Ht & Hr).
  unfold service_conforms. rewrite Hport, Htarget, Hproto. split_and!; [| | |done| | |done].
  - unfold buildService in Hb. apply result_bind_Ok in Hb as (h & _ & Hb).
    case_match; [done|]. injection Hb as <-. simpl. case_bool_decide; [|done].
    apply (adm_service_description _ Ha).
  - eexists. split; [done|]. unfold healthcheck_conforms. simpl.
    rewrite Hi, Ht, Hr, (healthcheckPort_within _ _ _ Hhp), (adm_uri _ Ha), !andb_true_r.
    apply bool_decide_eq_true, (adm_mode _ Ha).
  - unfold buildService in Hb. apply result_bind_Ok in Hb as (h & _ & Hb).
    case_match; [done|]. injection Hb as <-. simpl.
    assert (named (svcName service sp) = true) by by apply svcName_named.
    case_bool_decide; [|done]. rewrite getAnnotation_spec.
    destruct (annotation service annotationLoadBalancerServiceName) as [a|] eqn:Han; [|done].
    by apply (adm_service_name _ Ha).
  - by destruct Hpr as [-> | ->].
  - unfold buildService in Hb. apply result_bind_Ok in Hb as (h & _ & Hb).
    case_match; [done|]. injection Hb as <-. apply (adm_strategy _ Ha).
Qed.

Lemma build_conforms service desired :
  admissible service → buildLoadBalancerFromAnnotations service = Ok desired →
  Forall service_conforms (lb_Services desired) ∧ named (lb_Name desired) = true ∧
  text_within (lb_Description desired) = true.
Proof.
  intros Ha (i & t & r & Hparse & Hall & _ & Hname & Hd & _)%build_Ok. split_and!.
  - apply Forall_forall. intros u [k Hu]%list_elem_of_lookup.
    destruct (Forall2_lookup_r _ _ _ _ _ Hall Hu) as (sp & Hsp%list_elem_of_lookup_2 & Hb).
    by eapply buildService_conforms.
  - rewrite Hname. apply (adm_name _ Ha).
  - rewrite Hd. apply (adm_description _ Ha).
Qed.

Lemma port_opt z : port_conforms z = true → opt_within 1 65535 z = true.
Proof. unfold port_conforms, opt_within. intros ->. apply orb_true_r. Qed.

Lemma add_request_conforms u pool :
  service_conforms u → add_conforms (add_request u pool) = true.
Proof.
  intros (Hd & (hc & Hhc & Hh) & Hn & Hp & Hpr & Hs & Ht).
  unfold add_conforms. simpl. rewrite Hhc, Hd, Hh, Hn, Hp, Hpr, Hs, Ht. done.
Qed.

Lemma update_request_conforms u : service_conforms u → update_conforms (update_request u) = true.
Proof.
  intros (Hd & (hc & Hhc & Hh) & Hn%named_within & Hp%port_opt & Hpr & Hs & Ht%port_opt).
  unfold update_conforms. simpl. by rewrite Hhc, Hd, Hh, Hn, Hp, Hpr, Hs, Ht, !orb_true_r.
Qed.

(** Given replies that conform, so do the calls. *)
Definition in_order (t : list (call ccmE)) : Prop :=
  Forall reply_conforms t → Forall (on_call (@conforms)) t.

Lemma in_order_nil : in_order [].
Proof. intros _. constructor. Qed.

Lemma in_order_app t t' : in_order t → in_order t' → in_order (t ++ t').
Proof. unfold in_order. rewrite !Forall_app. naive_solver. Qed.

Lemma wp_in_order {A} (Q : outcome A → Prop) (m : prog ccmE A) :
  ensures (@conforms) Q m → wp m (λ t o, in_order t ∧ Q o).
Proof. intros Hm%ensures_wp. eapply wp_mono; [exact Hm|].
  intros t o [Ht Ho]. split; [intros _; exact Ht|exact Ho].
Qed.

Lemma wp_update_in_order service :
  admissible service → wp (updateLoadBalancer p service) (λ t _, in_order t).
Proof.
  intros Ha. unfold updateLoadBalancer. apply wp_try_bind, wp_ret.
  destruct (buildLoadBalancerFromAnnotations service) as [desired|e] eqn:Hb; [|apply in_order_nil].
  destruct (build_conforms _ _ Ha Hb) as (Hs & Hn & _). simpl.
  case_match; [apply wp_ret, in_order_nil|]. unfold exo.
  destruct (p_client p); [|apply wp_halt, in_order_nil].
  apply wp_vis. intros [nlb|e]; [|by apply wp_ret; intros _; repeat constructor].
  eapply wp_mono; [apply ensures_wp, ensures_applyUpdate|]. intros t o [Ht _].
  intros [Hd _]%Forall_cons. constructor; [done|].
  eapply Forall_impl; [exact Ht|]. intros [X e x] He. unfold on_call in *. simpl in *.
  destruct e as [X e|X e|X e]; [|done..]. destruct e; try done; simpl in He |- *.
  - destruct He as (_ & u & pool & Hu & _ & -> & _). apply add_request_conforms.
    by eapply Forall_forall in Hs.
  - destruct He as (_ & _ & Hname & Hdescr & _). unfold rename_conforms.
    rewrite Hname, Hn, Hdescr, (Hd nlb eq_refl). apply orb_true_r.
  - destruct He as (_ & cur & u & _ & _ & Hu & _ & _ & -> & _). apply update_request_conforms.
    by eapply Forall_forall in Hs.
Qed.

Lemma calls_ensureExists service desired :
  create_conforms {| clr_Description := lb_Description desired; clr_Labels := lb_Labels desired;
                     clr_Name := lb_Name desired |} = true →
  calls (@conforms) (ensureExists p service desired).
Proof.
  intros Hd. unfold ensureExists, fetchLoadBalancer. apply calls_bind.
  { case_match; [|done]. by apply calls_wrap_err, calls_exo. }
  intros [nlb|e]; [done|]. case_match; [|done]. case_match; [done|]. unfold createLoadBalancer.
  apply ensures_svc_bind, ensures_keep, ensures_exo; [done|].
  intros [[op|e']|h]; simpl; [|done..]. destruct (op_Reference op); [|done].
  apply ensures_svc_bind, ensures_keep, ensures_exo; [done|].
  intros [[nlb|e']|h]; simpl; [|done..].
  apply ensures_svc_bind, ensures_svc_wrap, ensures_patchAnnotation; [by intros X []|by intros []|done].
Qed.

Lemma admissible_resolved service s :
  resolved_from service s → admissible service → admissible s.
Proof.
  intros Hr Ha. pose proof Hr as [Hs Hann].
  assert (svc_UID s = svc_UID service ∧ svc_Ports s = svc_Ports service) as [Hu Hp] by (by rewrite <-Hs).
  destruct Ha as [H1 H2 H3 H4 H5 H6 H7 H8 H9 H10].
  assert (∀ k d, k ≠ annotationLoadBalancerID → k ≠ annotationLoadBalancerServiceInstancePoolID →
    getAnnotation s k d = getAnnotation service k d) as Hget.
  { intros k d H H'. by apply resolved_from_getAnnotation. }
  unfold GetLoadBalancerName, annotations_parse in *.
  split; unfold GetLoadBalancerName, annotations_parse; rewrite ?Hu, ?Hp, ?Hget by done; try done.
  intros a. rewrite Hann by done. apply H5.
Qed.

End requests.
