(* ===== verification/ControllerProps.v ===== *)
(** What the service controller makes of the provider's load balancer: the
    finalizer it keeps on a Service while an NLB may exist for it. *)
From S2P Require Import Prelude GoErrors GoStrings Effects Egoscale Kube CloudConfig.
From S2P Require Import LoadBalancerSpec LoadBalancer Interfaces ServiceController.
From S2P Require Import LoadBalancerSafety LoadBalancerProps.
#[local] Open Scope Z_scope.

(** ** Traces of the controller *)

(** The provider's calls among those of the controller. *)
Definition as_cloud (c : call ctlE) : option (call ccmE) :=
  match call_event c in ctlE X return X → option (call ccmE) with
  | Cloud e => λ x, Some (Call e x)
  | _ => λ _, None
  end (call_reply c).

Definition cloud_calls (t : list (call ctlE)) : list (call ccmE) := omap as_cloud t.

(** The patches that take the cleanup finalizer off a Service. *)
Definition as_removal (c : call ctlE) : option object :=
  match call_event c with
  | PatchService old new =>
      if HasLBFinalizer old && negb (HasLBFinalizer new) then Some old else None
  | _ => None
  end.

Definition removals (t : list (call ctlE)) : list object := omap as_removal t.

Lemma cloud_calls_app t t' : cloud_calls (t ++ t') = cloud_calls t ++ cloud_calls t'.
Proof. apply omap_app. Qed.

Lemma removals_app t t' : removals (t ++ t') = removals t ++ removals t'.
Proof. apply omap_app. Qed.

Lemma cloud_calls_lift t : cloud_calls (lift_call (@Cloud) <$> t) = t.
Proof. induction t as [|[X e x] t IH]; [done|]. csimpl. unfold cloud_calls in *. simpl. by rewrite IH. Qed.

Lemma removals_lift t : removals (lift_call (@Cloud) <$> t) = [].
Proof. induction t as [|[X e x] t IH]; [done|]. csimpl. unfold removals in *. simpl. by rewrite IH. Qed.

(** The provider called by the controller. *)
Lemma wp_cloud_call {A} (m : prog ccmE A) Φ :
  wp m (λ t o, Φ (lift_call (@Cloud) <$> t) o) → wp (cloud_call m) Φ.
Proof. apply wp_lift. Qed.

Lemma wp_trigger {E X} (e : E X) Φ : (∀ x, Φ [Call e x] (Returned x)) → wp (trigger e) Φ.
Proof. intros H. apply wp_vis. intros x. by apply wp_ret. Qed.

(** ** Errors of the provider *)

(** The API does not reply with an error of k8s.io/cloud-provider, which is not
    of its libraries. *)
Definition elsewhere {A} (r : result A) : Prop := r = Err (Sentinel ImplementedElsewhere).

Definition exo_genuine {X} (e : exoE X) : X → Prop :=
  match e with
  | ApiCreateLoadBalancer _ | ApiAddServiceToLoadBalancer _ _ | ApiDeleteLoadBalancer _
  | ApiDeleteLoadBalancerService _ _ | ApiUpdateLoadBalancer _ _
  | ApiUpdateLoadBalancerService _ _ _ | ApiWait _ _ => λ r, ¬ elsewhere r
  | ApiGetInstance _ => λ r, ¬ elsewhere r
  | ApiGetInstanceType _ => λ r, ¬ elsewhere r
  | ApiGetLoadBalancer _ => λ r, ¬ elsewhere r
  | ApiListInstances => λ r, ¬ elsewhere r
  | ApiListLoadBalancers => λ r, ¬ elsewhere r
  | ApiListSKSClusters => λ r, ¬ elsewhere r
  end.

Definition genuine (c : call ccmE) : Prop :=
  match call_event c in ccmE X return X → Prop with
  | ExoCall e => exo_genuine e
  | _ => λ _, True
  end (call_reply c).

(** Then no error of the program is one either. *)
Definition own_error {A} (t : list (call ccmE)) (r : result A) : Prop :=
  Forall genuine t → ¬ elsewhere r.

Definition honest {A} (m : prog ccmE (result A)) : Prop :=
  wp m (λ t o, ∀ r, o = Returned r → own_error t r).

Definition honest_svc {A} (m : svc_prog A) : Prop :=
  wp m (λ t o, ∀ s r, o = Returned (s, r) → own_error t r).

Lemma own_error_app {A} t t' (r : result A) : own_error t' r → own_error (t ++ t') r.
Proof. intros H [_ Ht]%Forall_app. by apply H. Qed.

Lemma honest_ret {A} (r : result A) : ¬ elsewhere r → honest (mret r).
Proof. intros Hr. apply wp_ret. by intros ? [= <-] _. Qed.

Lemma honest_halt {A} h : honest (A := A) (Halt h).
Proof. by apply wp_halt. Qed.

Lemma honest_try_bind {A B} (f : A → prog ccmE (result B)) (m : prog ccmE (result A)) :
  honest m → (∀ a, honest (f a)) → honest (try_bind m f).
Proof.
  intros Hm Hf. apply wp_try_bind. eapply wp_mono; [exact Hm|].
  intros t [[a|e]|h] Ht; [| |done].
  - eapply wp_mono; [apply Hf|]. intros t' o Ho r Hr. by apply own_error_app, Ho.
  - intros r [= <-] Hg He. apply (Ht _ eq_refl Hg). unfold elsewhere in *. congruence.
Qed.

Lemma honest_wrap_err {A} f (m : prog ccmE (result A)) :
  (∀ e, f e ≠ Sentinel ImplementedElsewhere) → honest (wrap_err f m).
Proof.
  intros Hf. apply wp_wrap_err. intros t [[a|e]|h] _; [|intros r [= <-] _ [= He]..|done].
  - by intros r [= <-] _.
  - by apply (Hf e).
Qed.

Lemma honest_forM {A T} (body : T → A → prog ccmE (result T)) l st :
  (∀ st x, honest (body st x)) → honest (forM l st body).
Proof.
  intros Hb. revert st. induction l as [|x l IH]; intros st; [by apply honest_ret|].
  apply honest_try_bind; [apply Hb|exact IH].
Qed.

Section props.
Context {unicode : UnicodeTables} {patchlib : PatchLib}.
Context (p : cloudProvider).

Lemma honest_exo {A} (e : exoE (result A)) :
  (∀ r, exo_genuine e r → ¬ elsewhere r) → honest (exo p e).
Proof.
  intros He. apply wp_exo_call; [|done]. intros x r [= <-] Hg.
  inversion_clear Hg as [|?? Hc _]. by apply He.
Qed.

Lemma honest_fetch service : honest (fetchLoadBalancer p service).
Proof.
  apply wp_fetchLoadBalancer; [by intros _ r [= <-] _| |done].
  intros _ r r' [= <-] Hg. inversion_clear Hg as [|?? Hc _]. destruct r as [nlb|e]; [done|].
  unfold elsewhere. simpl. case_match; [done|]. intros [= ->]. by apply Hc.
Qed.

Lemma honest_bind {A B} (f : result A → prog ccmE (result B)) (m : prog ccmE (result A)) :
  honest m →
  (∀ r, wp (f r) (λ t o, (Forall genuine t → ¬ elsewhere r) → ∀ r', o = Returned r' → own_error t r')) →
  honest (m ≫= f).
Proof.
  intros Hm Hf. apply wp_bind. eapply wp_mono; [exact Hm|]. intros t [r|h] Hr; [|done].
  eapply wp_mono; [apply Hf|]. intros t' o Ho r' Hr' Hg. pose proof Hg as [Hg1 Hg2]%Forall_app.
  apply (Ho (λ _, Hr r eq_refl Hg1) r' Hr' Hg2).
Qed.

(** A deletion fails with an error of its own. *)
Lemma honest_deletion service : honest (EnsureLoadBalancerDeleted p service).
Proof.
  unfold EnsureLoadBalancerDeleted. apply honest_bind; [apply honest_fetch|].
  intros [nlb|e].
  - eapply wp_mono with (Φ := λ t o, ∀ r, o = Returned r → own_error t r); [|by auto].
    apply honest_try_bind.
    + apply honest_forM. intros n s. apply honest_forM. intros m sp. unfold deleteMatching.
      case_match; [|by apply honest_ret]. apply honest_try_bind; [by apply honest_exo|].
      intros op. by apply honest_ret.
    + intros n. case_bool_decide; [|by apply honest_ret]. case_match; [by apply honest_ret|].
      apply honest_try_bind; [by apply honest_exo|]. intros op. by apply honest_ret.
  - case_match; apply wp_ret; intros He r [= <-]; [done|]. intros Hg [= ->].
    by apply He.
Qed.

(** ** The finalizer *)

(** Nothing of the run bears on the finalizer or creates an NLB. *)
Definition quiet (t : list (call ctlE)) : Prop := removals t = [] ∧ creates (cloud_calls t) = [].

Lemma quiet_app t t' : quiet t → quiet t' → quiet (t ++ t').
Proof.
  intros [H1 H2] [H1' H2']. split; [by rewrite removals_app, H1, H1'|].
  by rewrite cloud_calls_app, creates_app, H2, H2'.
Qed.

Lemma quiet_lift t : creates t = [] → quiet (lift_call (@Cloud) <$> t).
Proof. intros Ht. split; [apply removals_lift|by rewrite cloud_calls_lift]. Qed.

(** The only patch of the run that takes the finalizer off the Service comes
    after the cleaning up that lets it go, as the last thing that concerns the
    cloud. *)
Definition guarded (ob : object) (t : list (call ctlE)) : Prop :=
  removals t = [] ∨
  ∃ t1 new r t2, t = t1 ++ Call (PatchService ob new) r :: t2 ∧
    removals t1 = [] ∧ removals t2 = [] ∧ cloud_calls t2 = [] ∧
    negb (wantsLoadBalancer ob) || needsCleanup ob = true ∧
    ∃ before last, cloud_calls t1 = before ++ last ∧ cleaned (ob_Service ob) last.

(** An NLB is created only for a Service that has the finalizer, or has accepted
    it before. *)
Definition finalized (ob : object) (t : list (call ctlE)) : Prop :=
  creates (cloud_calls t) = [] ∨
  HasLBFinalizer ob = true ∨
  ∃ new t1 t2, t = t1 ++ Call (PatchService ob new) (Ok ()) :: t2 ∧
    HasLBFinalizer new = true ∧ creates (cloud_calls t1) = [].

Definition orderly (ob : object) (t : list (call ctlE)) : Prop :=
  (Forall genuine (cloud_calls t) → guarded ob t) ∧ finalized ob t.

Lemma orderly_quiet ob t : quiet t → orderly ob t.
Proof. intros [??]. by split; left. Qed.

Lemma orderly_before ob t t' : quiet t → orderly ob t' → orderly ob (t ++ t').
Proof.
  intros [Hr Hc] [Hg Hf]. split.
  - rewrite cloud_calls_app. intros [_ Ht]%Forall_app.
    destruct (Hg Ht) as [H0|(t1 & new & r & t2 & -> & H1 & H2 & H3 & H4 & before & last & H5 & H6)].
    + left. by rewrite removals_app, Hr, H0.
    + right. exists (t ++ t1), new, r, t2. split; [by rewrite <-app_assoc|].
      split; [by rewrite removals_app, Hr, H1|]. split_and!; [done..|].
      exists (cloud_calls t ++ before), last. split; [|done].
      by rewrite cloud_calls_app, H5, app_assoc.
  - destruct Hf as [H0|[H0|(new & t1 & t2 & -> & H1 & H2)]].
    + left. by rewrite cloud_calls_app, creates_app, Hc, H0.
    + right. by left.
    + right. right. exists new, (t ++ t1), t2. split; [by rewrite <-app_assoc|]. split; [done|].
      by rewrite cloud_calls_app, creates_app, Hc, H2.
Qed.

Lemma orderly_after ob t t' :
  removals t' = [] → cloud_calls t' = [] → orderly ob t → orderly ob (t ++ t').
Proof.
  intros Hr Hc [Hg Hf]. split.
  - rewrite cloud_calls_app, Hc, app_nil_r. intros Ht.
    destruct (Hg Ht) as [H0|(t1 & new & r & t2 & -> & H1 & H2 & H3 & H4)].
    + left. by rewrite removals_app, Hr, H0.
    + right. exists t1, new, r, (t2 ++ t'). split; [by rewrite <-app_assoc|]. split; [done|].
      split; [by rewrite removals_app, H2|]. split; [by rewrite cloud_calls_app, H3|]. done.
  - destruct Hf as [H0|[H0|(new & t1 & t2 & -> & H1 & H2)]].
    + left. by rewrite cloud_calls_app, Hc, app_nil_r.
    + right. by left.
    + right. right. exists new, t1, (t2 ++ t'). by rewrite <-app_assoc.
Qed.

Lemma calls_deletion service : calls (@not_create) (EnsureLoadBalancerDeleted p service).
Proof.
  unfold EnsureLoadBalancerDeleted. apply ensures_bind, ensures_fetch; [done|].
  intros [[nlb|e]|h]; [|by simpl; case_match|done].
  apply calls_try_bind.
  - apply calls_forM. intros n s. apply calls_forM. intros m sp. unfold deleteMatching.
    case_match; [|done]. apply calls_try_bind; [by apply ensures_exo|done].
  - intros n. case_match; [case_match; [done|]|done].
    apply calls_try_bind; [by apply ensures_exo|done].
Qed.

Lemma wp_deletion_quiet service :
  wp (cloud_call (EnsureLoadBalancerDeleted p service)) (λ t _, quiet t).
Proof.
  apply wp_cloud_call. eapply wp_mono; [apply ensures_wp, calls_deletion|].
  intros t o [Ht _]. by apply quiet_lift, creates_nil.
Qed.

Lemma wp_finish ob op old new :
  wp (finish ob op old new) (λ t _, removals t = [] ∧ cloud_calls t = []).
Proof.
  unfold finish, patchStatus. apply wp_bind. case_bool_decide; [by apply wp_ret, wp_ret|].
  apply wp_trigger. intros r. apply wp_ret. split; [|done]. unfold removals, as_removal. simpl.
  unfold HasLBFinalizer. simpl. by destruct (bool_decide _).
Qed.

(** The lookup before the cleanup: what it reports absent needs no deletion. *)
Lemma wp_lookup service :
  wp (GetLoadBalancer p service) (λ t o, creates t = [] ∧
    ∀ ips, o = Returned (Ok (ips, false)) → cleaned service t).
Proof.
  unfold GetLoadBalancer. apply wp_bind, wp_fetchLoadBalancer; [| |done].
  - intros Hid. apply wp_ret. split; [done|]. intros ips _. left. split; [by left|simpl; lia].
  - intros Hid r. apply wp_ret. split; [done|]. intros ips Ho. left. split; [|simpl; lia].
    right. destruct r as [nlb|err]; [done|]. exists err. split; [|by left].
    simpl in Ho. destruct (errors_Is err ErrNotFound); [by left|]. right.
    destruct (is_sentinel err errLoadBalancerNotFound) eqn:He; [|done].
    apply is_sentinel_true in He as ->. done.
Qed.

Lemma wp_deletion service :
  wp (EnsureLoadBalancerDeleted p service) (λ t o,
    creates t = [] ∧ (o = Returned (Ok ()) → cleaned service t) ∧
    ∀ r, o = Returned r → own_error t r).
Proof.
  eapply wp_mono.
  - apply wp_and; [apply ensures_wp, calls_deletion|].
    apply wp_and; [apply wp_EnsureLoadBalancerDeleted|apply honest_deletion].
  - intros t o ([Ht _] & Hcl & He). split_and!; [by apply creates_nil|done..].
Qed.

(** Taking the finalizer off is in order after a cleanup. *)
Lemma wp_removeFinalizer f ob t :
  negb (wantsLoadBalancer ob) || needsCleanup ob = true → quiet t →
  (Forall genuine (cloud_calls t) →
     ∃ before last, cloud_calls t = before ++ last ∧ cleaned (ob_Service ob) last) →
  wp (wrap_err f (removeFinalizer ob)) (λ t' _, orderly ob (t ++ t')).
Proof.
  intros Hn [Hr Hc] Hcl. apply wp_wrap_err. unfold removeFinalizer.
  destruct (HasLBFinalizer ob) eqn:Hf; [|by apply wp_ret; rewrite app_nil_r; apply orderly_quiet].
  apply wp_trigger. intros r. split; [|by left; rewrite cloud_calls_app, app_nil_r].
  rewrite cloud_calls_app, app_nil_r. intros Hg. right. eexists t, _, r, []. by split_and!; auto.
Qed.

Lemma wp_cleanUp ob :
  negb (wantsLoadBalancer ob) || needsCleanup ob = true →
  wp (cleanUp (newLoadBalancer p) ob) (λ t _, orderly ob t).
Proof.
  intros Hn. unfold cleanUp. apply wp_try_bind, wp_wrap_err, wp_cloud_call.
  eapply wp_mono; [apply wp_lookup|]. intros t1 [[[ips [|]]|e]|h] [Hc Habsent]; simpl;
    [..|by apply orderly_quiet, quiet_lift|by apply orderly_quiet, quiet_lift].
  - apply wp_try_bind, wp_bind, wp_cloud_call. eapply wp_mono; [apply wp_deletion|].
    intros t2 o (Hc2 & Hcl & He).
    assert (quiet (lift_call (@Cloud) <$> t1 ++ t2)) as Hq.
    { apply quiet_lift. by rewrite creates_app, Hc, Hc2. }
    rewrite fmap_app in Hq.
    destruct o as [[[]|e]|h]; [apply wp_ret|apply wp_ret|by apply orderly_quiet].
    + rewrite !app_nil_r. eapply wp_mono; [apply wp_removeFinalizer; [done|exact Hq|]|].
      * intros _. exists t1, t2. split; [|by apply Hcl].
        by rewrite cloud_calls_app, !cloud_calls_lift.
      * intros t o. by rewrite app_assoc.
    + destruct (is_sentinel e _) eqn:Hs; rewrite !app_nil_r; [|by apply orderly_quiet].
      eapply wp_mono; [apply wp_removeFinalizer; [done|exact Hq|]|intros t o; by rewrite app_assoc].
      rewrite cloud_calls_app, !cloud_calls_lift. intros [_ Hg]%Forall_app.
      apply is_sentinel_true in Hs as ->. by destruct (He _ eq_refl Hg).
  - apply wp_try_bind, wp_ret. simpl.
    eapply wp_mono; [apply (wp_removeFinalizer _ ob (lift_call (@Cloud) <$> t1)); [done|by apply quiet_lift|]|done].
    intros _. rewrite cloud_calls_lift. exists [], t1. split; [done|]. by eapply Habsent.
Qed.

Lemma wp_ensureLoadBalancer ob :
  wp (ensureLoadBalancer (newLoadBalancer p) ob) (λ t _, removals t = []).
Proof.
  unfold ensureLoadBalancer. apply wp_bind, wp_trigger. intros [nodes|e]; [|by apply wp_ret].
  apply wp_bind, wp_trigger. intros []. apply wp_bind, wp_cloud_call.
  intros t o _. pose proof (removals_lift t) as Ht. destruct o as [[]|h]; [apply wp_ret|];
    unfold removals in *; simpl; by rewrite ?omap_app, ?Ht.
Qed.

Lemma wp_addFinalizer ob :
  wp (addFinalizer ob) (λ t o, quiet t ∧ (o = Returned (Ok ()) → ∀ t', removals t' = [] →
    orderly ob (t ++ t'))).
Proof.
  unfold addFinalizer. destruct (HasLBFinalizer ob) eqn:Hf.
  - apply wp_ret. split; [done|]. intros _ t' Ht'. split; [by left|]. right. by left.
  - apply wp_trigger. intros r.
    assert (as_removal (Call (PatchService ob (with_Finalizers ob
      (ob_Finalizers ob ++ [LoadBalancerCleanupFinalizer]))) r) = None) as Hr.
    { unfold as_removal. simpl. by rewrite Hf. }
    split; [split; [|done]; unfold removals; simpl; by rewrite Hr|].
    intros [= ->] t' Ht'. split; [left; unfold removals; simpl; by rewrite Hr|].
    right. right. eexists _, [], t'. split; [done|]. split; [|done].
    unfold HasLBFinalizer. apply bool_decide_eq_true. simpl. set_solver.
Qed.

Lemma wp_syncLoadBalancerIfNeeded ob :
  wp (syncLoadBalancerIfNeeded (newLoadBalancer p) ob) (λ t _, orderly ob t).
Proof.
  unfold syncLoadBalancerIfNeeded. cbv zeta. destruct (negb _ || _) eqn:Hn.
  - apply wp_bind. eapply wp_mono; [by apply wp_cleanUp|].
    intros t [[[]|e]|h] Ht; [|by apply wp_ret; rewrite app_nil_r|done].
    eapply wp_mono; [apply wp_finish|]. intros t' o [??]. by apply orderly_after.
  - apply wp_bind. eapply wp_mono; [apply wp_addFinalizer|].
    intros t [[[]|e]|h] [Hq Ht]; [|by apply wp_ret; rewrite app_nil_r; apply orderly_quiet|by apply orderly_quiet].
    specialize (Ht eq_refl). apply wp_bind. eapply wp_mono; [apply wp_ensureLoadBalancer|].
    intros t' [[ob' [[ips|]|e]]|h] Hr; [|by apply wp_ret; rewrite app_nil_r; apply Ht..|by apply Ht].
    eapply wp_mono; [apply wp_finish|]. intros t'' o [Hr'' _]. apply Ht.
    by rewrite removals_app, Hr, Hr''.
Qed.

Lemma wp_processLoadBalancerDelete ob :
  wp (processLoadBalancerDelete (newLoadBalancer p) ob) (λ t _, quiet t).
Proof.
  unfold processLoadBalancerDelete. case_match; [apply wp_deletion_quiet|by apply wp_ret].
Qed.

Lemma wp_processServiceCreateOrUpdate ob key :
  wp (processServiceCreateOrUpdate (newLoadBalancer p) ob key) (λ t _, orderly ob t).
Proof.
  unfold processServiceCreateOrUpdate. apply wp_bind, wp_trigger. intros cached.
  apply wp_try_bind. eapply wp_mono with (Φ := λ t _, quiet t).
  { destruct cached as [old|]; [|by apply wp_ret]. case_bool_decide; [|by apply wp_ret].
    apply wp_processLoadBalancerDelete. }
  intros t [[[]|e]|h] Hq; [|by apply (orderly_quiet _ (_ ++ _)), quiet_app..].
  apply wp_bind, wp_trigger. intros [].
  apply wp_bind. eapply wp_mono; [apply wp_syncLoadBalancerIfNeeded|].
  assert (∀ t' t'', orderly ob t' → removals t'' = [] → cloud_calls t'' = [] →
    orderly ob ([Call (CacheGet key) cached] ++ t ++ [Call (CacheSet key ob) ()] ++ t' ++ t'')) as Hall.
  { intros t' t'' Ht' ??. apply orderly_before; [done|]. apply orderly_before; [done|].
    apply orderly_before; [done|]. by apply orderly_after. }
  intros t' [[ob' r]|h] Ht'; [|by specialize (Hall t' [] Ht' eq_refl eq_refl); rewrite app_nil_r in Hall].
  apply wp_bind, wp_trigger. intros [].
  destruct r as [[|]|e]; [apply wp_bind, wp_trigger; intros []; apply wp_ret
    |apply wp_ret|apply wp_ret].
  - exact (Hall t' [Call (CacheSet key ob') (); Call (CacheDelete key) ()] Ht' eq_refl eq_refl).
  - exact (Hall t' [Call (CacheSet key ob') ()] Ht' eq_refl eq_refl).
  - exact (Hall t' [Call (CacheSet key ob') ()] Ht' eq_refl eq_refl).
Qed.

Lemma wp_processServiceDeletion key :
  wp (processServiceDeletion (newLoadBalancer p) key) (λ t _, quiet t).
Proof.
  unfold processServiceDeletion. apply wp_bind, wp_trigger. intros [ob|]; [|by apply wp_ret].
  apply wp_try_bind. eapply wp_mono; [apply wp_processLoadBalancerDelete|].
  intros t [[[]|e]|h] Hq; [|by apply (quiet_app [_])..].
  apply wp_bind, wp_trigger. intros []. apply wp_ret. by apply (quiet_app [_]), quiet_app.
Qed.

(** C12: the service controller keeps its finalizer on a Service for as long as
    an NLB may exist for it. Whatever the API, the API server and the informers
    reply, a sync takes the finalizer off at most once, and only from a Service
    that is being deleted or no longer is a load balancer, after the provider
    found that it has no NLB or deleted from the NLB every service that matches
    its ports, each deletion accepted, and the NLB if that left none; nothing is
    asked of the cloud afterwards. And a sync creates an NLB only for a Service
    that was read with the finalizer or has accepted it before. *)
Theorem finalizer_guards_nlb key :
  wp (syncService (newLoadBalancer p) key) (λ t _,
    (removals t = [] ∧ creates (cloud_calls t) = []) ∨
    ∃ namespace name ob t', t = Call (ListService namespace name) (Ok ob) :: t' ∧
      (Forall genuine (cloud_calls t') → guarded ob t') ∧ finalized ob t').
Proof.
  unfold syncService. apply wp_try_bind, wp_ret.
  destruct (SplitMetaNamespaceKey key) as [[namespace name]|e]; [|by left].
  apply wp_bind, wp_trigger. intros [ob|e].
  - eapply wp_mono; [apply wp_processServiceCreateOrUpdate|]. intros t o [??]. right.
    by exists namespace, name, ob, t.
  - eapply wp_mono with (Φ := λ t _, quiet t); [|by intros t o Hq; left].
    destruct (errors_Is e StatusNotFound); [apply wp_processServiceDeletion|by apply wp_ret].
Qed.
End props.
