(* ===== verification/Cluster.v ===== *)
(** A Service in the cluster over time: its version at the API server, which the
    patches of the provider and of the service controller change, next to edits
    by anyone else, while the controller runs again and again, may fail or be
    killed at any call, and reads the Service from an informer that lags. *)
From S2P Require Import Prelude GoErrors GoStrings Effects Egoscale Kube CloudConfig.
From S2P Require Import LoadBalancerSpec LoadBalancer Interfaces ServiceController.
From S2P Require Import LoadBalancerSafety LoadBalancerProps ControllerProps.
#[local] Open Scope Z_scope.

(** What the API server makes of a strategic merge patch: the difference between
    a Service and the same Service with another annotation is not empty, and
    applying it sets that annotation, whatever the Service has become. *)
Class PatchServer {patchlib : PatchLib} := {
  apply_patch : string → Service → Service;
  apply_difference : ∀ current k v j j' patch,
    annotation current k ≠ Some v →
    json_Marshal current = Ok j → json_Marshal (set_annotation current k v) = Ok j' →
    CreateTwoWayMergePatch j j' = Ok patch →
    patch ≠ "" ∧ patch ≠ "{}" ∧
    ∀ service, apply_patch patch service = set_annotation service k v;
}.

(** ** Runs of the controller *)

(** The calls of a run that may not have come to its end. *)
Fixpoint partial {E A} (p : prog E A) (t : list (call E)) : Prop :=
  match p with
  | Ret _ | Halt _ => t = []
  | Vis e k => t = [] ∨ ∃ x t', t = Call e x :: t' ∧ partial (k x) t'
  end.

(** Any run can be brought to its end by giving the remaining calls the replies [d]. *)
Lemma partial_completes {E A} (d : ∀ X, E X → X) (p : prog E A) t :
  partial p t → ∃ t' o, exec p (t ++ t') o ∧
    Forall (λ c, call_reply c = d _ (call_event c)) t'.
Proof.
  revert t. induction p as [a|h|X e k IH]; intros t; simpl.
  - intros ->. by exists [], (Returned a).
  - intros ->. by exists [], (Halted h).
  - intros [->|(x & t1 & -> & Ht)].
    + destruct (IH (d X e) []) as (t' & o & Ht' & Hd).
      { destruct (k (d X e)); simpl; auto. }
      exists (Call e (d X e) :: t'), o. split; [|by constructor]. simpl. eauto.
    + destruct (IH x t1 Ht) as (t' & o & Ht' & Hd). exists t', o. split; [|done]. simpl. eauto.
Qed.

(** The NLBs created in a trace, and the patches the API server accepted. *)
Definition exo_created {X} (e : exoE X) : X → option Operation :=
  match e with
  | ApiCreateLoadBalancer _ => λ r, match r with Ok op => Some op | Err _ => None end
  | _ => λ _, None
  end.

Definition as_created (c : call ccmE) : option Operation :=
  match call_event c in ccmE X return X → option Operation with
  | ExoCall e => exo_created e
  | _ => λ _, None
  end (call_reply c).

Definition kube_patched {X} (e : kubeE X) : X → option string :=
  match e with
  | KubePatchService _ _ patch => λ r, if is_ok r then Some patch else None
  | _ => λ _, None
  end.

Definition as_patched (c : call ccmE) : option string :=
  match call_event c in ccmE X return X → option string with
  | KubeCall e => kube_patched e
  | _ => λ _, None
  end (call_reply c).

Definition created (t : list (call ccmE)) : list Operation := omap as_created t.
Definition patched (t : list (call ccmE)) : list string := omap as_patched t.

(** The NLBs a reply tells about; the API gives each an ID. *)
Definition exo_NLBs {X} (e : exoE X) : X → list LoadBalancer :=
  match e with
  | ApiGetLoadBalancer _ => λ r, match r with Ok nlb => [nlb] | Err _ => [] end
  | ApiListLoadBalancers => λ r, match r with Ok nlbs => nlbs | Err _ => [] end
  | _ => λ _, []
  end.

Definition identified (c : call ccmE) : Prop :=
  Forall (λ nlb, lb_ID nlb ≠ "")
    (match call_event c in ccmE X return X → list LoadBalancer with
     | ExoCall e => exo_NLBs e
     | _ => λ _, []
     end (call_reply c)).

Lemma created_app t t' : created (t ++ t') = created t ++ created t'.
Proof. apply omap_app. Qed.

Lemma patched_app t t' : patched (t ++ t') = patched t ++ patched t'.
Proof. apply omap_app. Qed.

(** Calls that neither create an NLB nor patch a Service. *)
Definition harmless {X} (e : ccmE X) : Prop :=
  match e with
  | ExoCall (ApiCreateLoadBalancer _) | KubeCall (KubePatchService _ _ _) => False
  | _ => True
  end.

Lemma harmless_nil t : Forall (on_call (@harmless)) t → created t = [] ∧ patched t = [].
Proof.
  induction 1 as [|[X e x] t He _ [IHc IHp]]; [done|]. unfold created, patched in *. simpl.
  assert (as_created (Call e x) = None ∧ as_patched (Call e x) = None) as [-> ->]; [|done].
  destruct e as [? []|? []|]; simpl in *; done.
Qed.

(** ** One run *)

Section run.
Context {unicode : UnicodeTables} {patchlib : PatchLib} {server : PatchServer}.
Context (p : cloudProvider).

Definition recorded_ID (service : Service) : UUID :=
  getAnnotation service annotationLoadBalancerID "".

(** What a patch does to the NLB ID of any Service. *)
Definition keeps (patch : string) : Prop :=
  ∀ service, recorded_ID (apply_patch patch service) = recorded_ID service.

Definition records (patch : string) : Prop :=
  ∀ service, recorded_ID (apply_patch patch service) ≠ "".

(** No NLB is created and no ID lost. *)
Definition tame (t : list (call ccmE)) : Prop :=
  created t = [] ∧ Forall (λ patch, keeps patch ∨ records patch) (patched t).

(** At most one NLB is created, for a Service whose NLB is not found; after that
    the Service is only patched to record an ID. *)
Definition accountable (service : Service) (t : list (call ccmE)) : Prop :=
  tame t ∨
  ∃ t1 req op t2, t = t1 ++ Call (ExoCall (ApiCreateLoadBalancer req)) (Ok op) :: t2 ∧
    tame t1 ∧ not_found service t1 ∧ created t2 = [] ∧ Forall records (patched t2).

Lemma tame_app t t' : tame (t ++ t') ↔ tame t ∧ tame t'.
Proof.
  unfold tame. rewrite created_app, patched_app, Forall_app, app_nil. tauto.
Qed.

Lemma tame_harmless t : Forall (on_call (@harmless)) t → tame t.
Proof. intros [Hc Hp]%harmless_nil. split; [done|by rewrite Hp]. Qed.

Lemma accountable_tame service t : tame t → accountable service t.
Proof. by left. Qed.

Lemma accountable_prefix service t t' : accountable service (t ++ t') → accountable service t.
Proof.
  intros [Ht|(t1 & req & op & t2 & Ht & H1 & Hnf & Hc & Hr)].
  - apply tame_app in Ht as [? _]. by left.
  - apply app_eq_inv in Ht as [(k & -> & Hk)|(k & -> & Hk)].
    + destruct k as [|c k]; simplify_eq/=; [left; by rewrite app_nil_r|].
      right. exists t1, req, op, k. rewrite created_app in Hc. rewrite patched_app, Forall_app in Hr.
      apply app_nil in Hc as [? _]. by destruct Hr as [? _].
    + left. by apply tame_app in H1 as [? _].
Qed.

Lemma accountable_before service service' t t' :
  recorded_ID service' = recorded_ID service → tame t →
  accountable service' t' → accountable service (t ++ t').
Proof.
  intros Hid Ht [Ht'|(t1 & req & op & t2 & -> & H1 & Hnf & Hc & Hr)].
  - left. by apply tame_app.
  - right. exists (t ++ t1), req, op, t2. rewrite <-app_assoc. split; [done|].
    split; [by apply tame_app|]. split; [|done]. unfold not_found in *.
    unfold recorded_ID in Hid. rewrite <-Hid. destruct Hnf as [?|(err & ? & ?)]; [by left|].
    right. exists err. split; [done|]. apply elem_of_app. by right.
Qed.

Lemma accountable_after service t t' :
  created t' = [] → patched t' = [] → accountable service t → accountable service (t ++ t').
Proof.
  intros Hc Hp [Ht|(t1 & req & op & t2 & -> & H1 & Hnf & Hc2 & Hr)].
  - left. apply tame_app. split; [done|]. split; [done|]. by rewrite Hp.
  - right. exists t1, req, op, (t2 ++ t'). rewrite <-app_assoc. split_and!; [done..| |].
    + by rewrite created_app, Hc2, Hc.
    + by rewrite patched_app, Hp, app_nil_r.
Qed.

(** *** The phases of [EnsureLoadBalancer] *)

Lemma annotation_differs service k v :
  default ∅ (svc_Annotations service) !! k ≠ Some v →
  annotation service k ≠ Some v.
Proof. unfold annotation. by destruct (svc_Annotations service). Qed.

(** Setting an annotation sends at most the difference it makes. *)
Lemma wp_patchAnnotation service k v :
  wp (patchAnnotation p service k v) (λ t _, created t = [] ∧
    Forall (λ patch, ∀ s, apply_patch patch s = set_annotation s k v) (patched t)).
Proof.
  unfold patchAnnotation. case_bool_decide as Hk; [by apply wp_ret|].
  apply wp_keep. unfold Patch.
  apply wp_try_bind, wp_ret. destruct (json_Marshal (pt_current _)) as [j|] eqn:Hj; [|done].
  apply wp_try_bind, wp_ret. destruct (json_Marshal (pt_modified _)) as [j'|] eqn:Hj'; [|done].
  apply wp_try_bind, wp_ret. destruct (CreateTwoWayMergePatch j j') as [patch|] eqn:Hp; [|done].
  simpl. case_match; [by apply wp_ret|]. apply wp_wrap_err. unfold kube.
  destruct (p_kclient p); [|by apply wp_halt]. apply wp_vis. intros [[]|e]; [|by apply wp_ret].
  apply wp_ret. split; [done|]. unfold patched, as_patched. simpl. apply Forall_singleton.
  eapply (apply_difference _ _ _ _ _ _ (annotation_differs _ _ _ Hk) Hj Hj' Hp).
Qed.

Lemma recorded_ID_set service id : recorded_ID (set_annotation service annotationLoadBalancerID id) = id.
Proof. apply getAnnotation_set. Qed.

Lemma recorded_ID_pool service id :
  recorded_ID (set_annotation service annotationLoadBalancerServiceInstancePoolID id)
  = recorded_ID service.
Proof. unfold recorded_ID. rewrite !getAnnotation_spec. by rewrite annotation_pool_ID. Qed.

(** The ID annotation is only ever set to an ID. *)
Lemma wp_patch_ID service id :
  wp (patchAnnotation p service annotationLoadBalancerID id) (λ t _, created t = [] ∧
    (id ≠ "" → Forall records (patched t))).
Proof.
  eapply wp_mono; [apply wp_patchAnnotation|]. intros t _ [Hc Hp]. split; [done|].
  intros Hid. eapply Forall_impl; [exact Hp|]. intros patch Hpatch s.
  by rewrite Hpatch, recorded_ID_set.
Qed.

Lemma wp_patch_pool service id :
  wp (patchAnnotation p service annotationLoadBalancerServiceInstancePoolID id) (λ t _, tame t).
Proof.
  eapply wp_mono; [apply wp_patchAnnotation|]. intros t _ [Hc Hp]. split; [done|].
  eapply Forall_impl; [exact Hp|]. intros patch Hpatch. left. intros s.
  by rewrite Hpatch, recorded_ID_pool.
Qed.

Lemma wp_svc_wrap {A} f (m : svc_prog A) Φ :
  wp m (λ t o, match o with
               | Returned (s, r) => Φ t (Returned (s, map_err f r))
               | Halted h => Φ t (Halted h)
               end) →
  wp (svc_wrap f m) Φ.
Proof.
  intros Hm. apply wp_bind. eapply wp_mono; [apply Hm|].
  intros t [[s r]|h] H; [|done]. apply wp_ret. by rewrite app_nil_r.
Qed.

Lemma wp_resolveExternal_tame service :
  wp (resolveExternal p service) (λ t _, Forall identified t → tame t).
Proof.
  unfold resolveExternal. cbv zeta. destruct (isExternal service); [|by apply wp_ret].
  destruct (bool_decide _ && bool_decide _); [by apply wp_ret|].
  destruct (bool_decide _ && bool_decide _); [|by apply wp_ret].
  apply wp_svc_bind, wp_keep, wp_wrap_err, wp_exo_call; [|done].
  intros [nlbs|e]; [|done]. simpl.
  destruct (FindLoadBalancer nlbs _) as [nlb|] eqn:Hf; [|by apply wp_ret].
  apply find_by_name_or_id_Ok in Hf as [Hin _].
  apply wp_svc_wrap. eapply wp_mono; [apply wp_patch_ID|].
  assert (∀ t, created t = [] ∧ (lb_ID nlb ≠ "" → Forall records (patched t)) →
    Forall identified (Call (ExoCall ApiListLoadBalancers) (Ok nlbs) :: t) →
    tame (Call (ExoCall ApiListLoadBalancers) (Ok nlbs) :: t)) as Ht.
  { intros t [Hc Hp] Hid. apply (tame_app [_]). split; [done|]. split; [done|].
    eapply Forall_impl; [apply Hp|by right].
    inversion_clear Hid as [|?? Hl _]. unfold identified in Hl. simpl in Hl.
    rewrite Forall_forall in Hl. by apply Hl. }
  intros t o Hp. specialize (Ht t Hp). by destruct o as [[]|].
Qed.

Lemma calls_infer nodes : calls (@harmless) (inferInstancePool p nodes).
Proof.
  unfold inferInstancePool. apply calls_try_bind; [|intros id; by case_match].
  apply calls_forM. intros pool node. unfold inferFromNode.
  apply calls_try_bind; [by apply calls_wrap_err, ensures_exo|].
  intros i. by repeat case_match.
Qed.

Lemma wp_resolveInstancePool_tame service nodes :
  wp (resolveInstancePool p service nodes) (λ t _, tame t).
Proof.
  assert (∀ id, wp (svc_wrap (ErrorfS "error patching annotations: %s" [])
    (patchAnnotation p service annotationLoadBalancerServiceInstancePoolID id)) (λ t _, tame t))
    as Hpatch.
  { intros id. apply wp_svc_wrap. eapply wp_mono; [apply wp_patch_pool|]. by intros t [[]|]. }
  unfold resolveInstancePool. cbv zeta. case_bool_decide; [case_bool_decide|case_bool_decide;
    [|case_bool_decide]]; try by apply wp_ret.
  - apply wp_svc_bind, wp_keep, wp_wrap_err, wp_exo_call; [|done].
    intros [clusters|e]; [|done]. simpl.
    destruct (FindSKSCluster _ _); [|by apply wp_ret]. case_bool_decide; [by apply wp_ret|].
    eapply wp_mono; [apply Hpatch|]. intros t o Ht. by apply (tame_app [_]).
  - apply wp_svc_bind, wp_keep. eapply wp_mono; [apply ensures_wp, calls_infer|].
    intros t o [Ht%tame_harmless _]. destruct o as [[id|e]|h]; [|done..].
    eapply wp_mono; [apply Hpatch|]. intros t' o' Ht'. by apply tame_app.
Qed.

(** The creation, for a Service whose NLB was not found. *)
Lemma wp_createLoadBalancer_accountable service lbSpec t :
  tame t → not_found service t →
  wp (createLoadBalancer p service lbSpec) (λ t' _,
    Forall identified t' → accountable service (t ++ t')).
Proof.
  intros Ht Hnf. unfold createLoadBalancer.
  apply wp_svc_bind, wp_keep, wp_exo_call; [|by rewrite app_nil_r; left].
  intros [op|e]; [|intros _; left; by apply tame_app].
  assert (∀ t2, created t2 = [] → Forall records (patched t2) → accountable service
    (t ++ Call (ExoCall (ApiCreateLoadBalancer {| clr_Name := lb_Name lbSpec;
       clr_Description := lb_Description lbSpec; clr_Labels := lb_Labels lbSpec |})) (Ok op) :: t2))
    as Hdone.
  { intros t2 ??. right. by eexists t, _, op, t2. }
  destruct (op_Reference op) as [ref|]; [|by apply wp_halt; intros _; apply Hdone].
  apply wp_svc_bind, wp_keep, wp_exo_call; [|by intros _; apply Hdone].
  intros [nlb|e]; [|by intros _; apply Hdone].
  apply wp_svc_bind, wp_svc_wrap. eapply wp_mono; [apply wp_patch_ID|].
  intros t' o [Hc Hp].
  assert (∀ c, Forall identified (c :: Call (ExoCall (ApiGetLoadBalancer ref)) (Ok nlb) :: t') →
    Forall records (patched t')) as Hr.
  { intros c Hid. apply Hp. apply Forall_cons in Hid as [_ Hid].
    apply Forall_cons in Hid as [Hn _]. by apply Forall_cons in Hn as [? _]. }
  destruct o as [[s [[]|e]]|h]; simpl; [apply wp_ret; rewrite (app_nil_r t')| |];
    intros Hid%Hr; by apply Hdone.
Qed.

Lemma wp_ensureExists_accountable service lbSpec :
  wp (ensureExists p service lbSpec) (λ t _, Forall identified t → accountable service t).
Proof.
  unfold ensureExists. apply wp_bind, wp_fetchLoadBalancer; [| |by left].
  - intros Hid. simpl. destruct (isExternal service); [by apply wp_ret; left|].
    apply (wp_createLoadBalancer_accountable _ _ []); [done|by left].
  - intros Hid [nlb|err]; simpl; [by apply wp_ret; left|].
    assert (tame [get_call (getAnnotation service annotationLoadBalancerID "") (Err err)]) as Ht by done.
    assert (errors_Is err ErrNotFound = true ∨ errors_Is err errLoadBalancerNotFound = true →
      not_found service [get_call (getAnnotation service annotationLoadBalancerID "") (Err err)]) as Hnf.
    { intros He. right. exists err. split; [done|]. by apply list_elem_of_singleton. }
    destruct (errors_Is err ErrNotFound) eqn:He; simpl;
      [|destruct (errors_Is err errLoadBalancerNotFound) eqn:He'; simpl; [|by apply wp_ret; left]];
      (destruct (isExternal service); [by apply wp_ret; left|]);
      (eapply wp_mono; [apply wp_createLoadBalancer_accountable; [exact Ht|auto]|]);
      intros t o Ha Hid'; apply Ha; by inversion_clear Hid'.
Qed.

Lemma calls_update_harmless service : calls (@harmless) (updateLoadBalancer p service).
Proof.
  eapply ensures_mono; [apply ensures_updateLoadBalancer| |done]. by intros ? [? []|? []|].
Qed.

Lemma calls_ensureExists_external service lbSpec :
  isExternal service = true → calls (@harmless) (ensureExists p service lbSpec).
Proof.
  intros Hx. unfold ensureExists. apply ensures_bind, ensures_fetch; [done|].
  intros [[nlb|e]|h]; [done| |done]. case_match; [|done]. by rewrite Hx.
Qed.

Lemma wp_EnsureLoadBalancer_accountable service nodes :
  wp (EnsureLoadBalancer p service nodes) (λ t _, Forall identified t → accountable service t).
Proof.
  unfold EnsureLoadBalancer. apply wp_svc_bind.
  eapply wp_mono; [apply wp_and; [apply (wp_resolveExternal p service)|apply wp_resolveExternal_tame]|].
  intros t1 [[s1 [[]|e]]|h] [(_ & R1 & X1) T1]; [|by intros ?%T1; left..].
  apply wp_svc_bind. eapply wp_mono.
  { apply wp_and; [apply (wp_resolveInstancePool p s1 nodes)|apply wp_resolveInstancePool_tame]. }
  intros t2 o [[_ R2] T2].
  assert (Forall identified (t1 ++ t2) → tame (t1 ++ t2)) as T12.
  { intros [H1 _]%Forall_app. apply tame_app. auto. }
  destruct o as [[s2 [[]|e]]|h]; [|by intros ?%T12; left..].
  apply wp_svc_bind, wp_ret.
  destruct (buildLoadBalancerFromAnnotations s2) as [lbSpec|e]; simpl; [|by rewrite app_nil_r; intros ?%T12; left].
  apply wp_svc_bind. eapply wp_mono with (Φ := λ t _, Forall identified t →
    Forall identified (t1 ++ t2) → accountable service ((t1 ++ t2) ++ t)).
  - destruct (isExternal service) eqn:Hx.
    + eapply wp_mono; [apply ensures_wp, calls_ensureExists_external|].
      * erewrite isExternal_resolved; [exact Hx|].
        eapply resolved_from_trans; [exact R1|exact (resolves_pool_resolves _ _ R2)].
      * intros t o [Ht%tame_harmless _] _ H12. left. apply tame_app. auto.
    + eapply wp_mono; [apply wp_ensureExists_accountable|]. intros t o Ha Hid H12.
      specialize (X1 eq_refl) as [= ->].
      eapply accountable_before; [|by apply T12|by apply Ha].
      destruct R2 as [[->|[id ->]] _]; [done|apply recorded_ID_pool].
  - intros t3 o Ht3.
    assert (∀ t4, created t4 = [] → patched t4 = [] →
      Forall identified (t1 ++ t2 ++ [] ++ t3 ++ t4) → accountable service (t1 ++ t2 ++ [] ++ t3 ++ t4)) as Hdone.
    { intros t4 Hc Hp Hid. simpl in *. rewrite !app_assoc in *.
      apply Forall_app in Hid as [[Hid H3]%Forall_app _]. by apply accountable_after; auto. }
    destruct o as [[s3 [nlb|e]]|h];
      [|by specialize (Hdone []); rewrite app_nil_r in Hdone; apply Hdone..].
    apply wp_svc_bind, wp_keep. eapply wp_mono; [apply ensures_wp, calls_update_harmless|].
    intros t4 o4 [[Hc Hp]%harmless_nil _].
    destruct o4 as [[[]|e]|h]; [apply wp_ret; rewrite (app_nil_r t4)| |]; by apply Hdone.
Qed.

(** *** The controller around it *)

(** Calls of the controller that do not have the provider create or patch. *)
Definition idle {X} (e : ctlE X) : Prop :=
  match e with Cloud e => harmless e | _ => True end.

Lemma calls_cloud_call {A} (m : prog ccmE A) :
  calls (@harmless) m → calls (@idle) (cloud_call m).
Proof.
  induction m as [a|h|X e k IH]; [done..|]. intros [He Hk]. split; [done|].
  intros x. exact (IH x (Hk x)).
Qed.

Lemma idle_nil t :
  Forall (on_call (@idle)) t → created (cloud_calls t) = [] ∧ patched (cloud_calls t) = [].
Proof.
  intros Ht. apply harmless_nil. induction Ht as [|[X e x] t He _ IH]; [done|].
  destruct e; try exact IH. by constructor.
Qed.

Lemma calls_deletion_harmless service : calls (@harmless) (EnsureLoadBalancerDeleted p service).
Proof.
  unfold EnsureLoadBalancerDeleted. apply ensures_bind, ensures_fetch; [done|].
  intros [[nlb|e]|h]; [|by simpl; case_match|done].
  apply calls_try_bind.
  - apply calls_forM. intros n s. apply calls_forM. intros m sp. unfold deleteMatching.
    case_match; [|done]. apply calls_try_bind; [by apply ensures_exo|done].
  - intros n. case_match; [case_match; [done|]|done].
    apply calls_try_bind; [by apply ensures_exo|done].
Qed.

Lemma calls_lookup service : calls (@harmless) (GetLoadBalancer p service).
Proof. apply calls_bind; [by apply ensures_fetch|done]. Qed.

Lemma calls_processLoadBalancerDelete ob :
  calls (@idle) (processLoadBalancerDelete (newLoadBalancer p) ob).
Proof.
  unfold processLoadBalancerDelete. case_match; [|done].
  apply calls_cloud_call, calls_deletion_harmless.
Qed.

Lemma calls_cleanUp ob : calls (@idle) (cleanUp (newLoadBalancer p) ob).
Proof.
  unfold cleanUp. apply calls_try_bind; [apply calls_wrap_err, calls_cloud_call, calls_lookup|].
  intros [ips found]. apply calls_try_bind.
  - destruct found; [|done]. apply calls_bind; [apply calls_cloud_call, calls_deletion_harmless|done].
  - intros []. apply calls_wrap_err. unfold removeFinalizer. by case_match.
Qed.

Lemma calls_finish ob op old new : calls (@idle) (finish ob op old new).
Proof. apply calls_bind; [|done]. unfold patchStatus. by case_match. Qed.

Lemma calls_processServiceDeletion key :
  calls (@idle) (processServiceDeletion (newLoadBalancer p) key).
Proof.
  split; [done|]. intros [ob|]; [|done].
  apply calls_try_bind; [apply calls_processLoadBalancerDelete|done].
Qed.

Lemma calls_nodeSyncService ob : calls (@idle) (nodeSyncService (newLoadBalancer p) ob).
Proof.
  unfold nodeSyncService. case_match; [|done]. split; [done|]. intros [nodes|e]; [|done].
  split; [done|]. intros old. split; [done|]. intros []. case_match; [done|].
  apply calls_bind; [|done]. unfold lockedUpdateLoadBalancerHosts.
  apply calls_bind; [apply calls_cloud_call, calls_update_harmless|].
  intros [[]|e]; [done|]. case_match; [done|].
  apply calls_bind; [apply calls_cloud_call, calls_lookup|]. by intros [[? []]|?].
Qed.

Lemma calls_syncNodes : calls (@idle) (syncNodes (newLoadBalancer p)).
Proof.
  split; [done|]. intros services. apply calls_bind.
  - induction services as [|ob services IH]; [done|].
    apply calls_bind; [apply calls_nodeSyncService|]. intros retry.
    by apply calls_bind.
  - intros keys. induction keys as [|key keys IH]; [done|]. split; [done|]. by intros [].
Qed.

(** What the calls of a sync amount to, once the Service has been read. *)
Definition accounted (service : Service) (t : list (call ctlE)) : Prop :=
  Forall identified (cloud_calls t) → accountable service (cloud_calls t).

Lemma accounted_idle service t : Forall (on_call (@idle)) t → accounted service t.
Proof. intros [Hc Hp]%idle_nil _. left. split; [done|by rewrite Hp]. Qed.

Lemma accounted_app service t0 t t' :
  Forall (on_call (@idle)) t0 → Forall (on_call (@idle)) t' →
  accounted service t → accounted service (t0 ++ t ++ t').
Proof.
  intros [Hc0 Hp0]%idle_nil [Hc Hp]%idle_nil Ht. unfold accounted.
  rewrite !cloud_calls_app. intros [_ [Hid _]%Forall_app]%Forall_app.
  eapply accountable_before; [done|split; [done|by rewrite Hp0]|].
  apply accountable_after; [done..|]. by apply Ht.
Qed.

Lemma wp_idle {A} (m : prog ctlE A) :
  calls (@idle) m → wp m (λ t _, Forall (on_call (@idle)) t).
Proof. intros Hm. eapply wp_mono; [by apply ensures_wp, Hm|]. by intros t o [? _]. Qed.

Lemma wp_ensure_accounted ob :
  wp (ensureLoadBalancer (newLoadBalancer p) ob) (λ t _, accounted (ob_Service ob) t).
Proof.
  unfold ensureLoadBalancer. apply wp_bind, wp_trigger. intros [nodes|e]; [|by apply wp_ret; left].
  apply wp_bind, wp_trigger. intros []. apply wp_bind, wp_cloud_call. simpl.
  unfold status_pointer. apply wp_svc_bind.
  eapply wp_mono; [apply wp_EnsureLoadBalancer_accountable|]. intros t o Ha.
  assert (accounted (ob_Service ob) ([Call ListNodes (Ok nodes)] ++
    [Call (StoreSynced (service_key ob) (stableNodes nodes)) ()] ++ (lift_call (@Cloud) <$> t))) as Ht.
  { unfold accounted. rewrite !cloud_calls_app, cloud_calls_lift. exact Ha. }
  destruct o as [[s [ips|e]]|h]; [apply wp_ret, wp_ret|apply wp_ret|exact Ht];
    by rewrite !app_nil_r.
Qed.

Lemma wp_sync_accounted ob :
  wp (syncLoadBalancerIfNeeded (newLoadBalancer p) ob) (λ t _, accounted (ob_Service ob) t).
Proof.
  unfold syncLoadBalancerIfNeeded. cbv zeta. destruct (negb _ || _).
  - eapply wp_mono; [apply wp_idle, calls_bind; [apply calls_cleanUp|]|].
    + intros [[]|e]; [apply calls_finish|done].
    + intros t o. apply accounted_idle.
  - apply wp_bind. eapply wp_mono; [apply wp_idle; unfold addFinalizer; by case_match|].
    intros t [[[]|e]|h] Ht; [|by apply wp_ret; rewrite app_nil_r; apply accounted_idle|by apply accounted_idle].
    apply wp_bind. eapply wp_mono; [apply wp_ensure_accounted|]. intros t' o Ht'.
    assert (∀ t'', Forall (on_call (@idle)) t'' → accounted (ob_Service ob) (t ++ t' ++ t'')) as Hall.
    { intros t'' Hi. by apply accounted_app. }
    destruct o as [[ob' [[ips|]|e]]|h]; [|by apply wp_ret, Hall..|].
    + eapply wp_mono; [apply wp_idle, calls_finish|]. intros t'' ?. apply Hall.
    + rewrite <-(app_nil_r t'). by apply Hall.
Qed.

Lemma wp_process_accounted ob key :
  wp (processServiceCreateOrUpdate (newLoadBalancer p) ob key) (λ t _, accounted (ob_Service ob) t).
Proof.
  unfold processServiceCreateOrUpdate. apply wp_bind, wp_trigger. intros cached.
  apply wp_try_bind. eapply wp_mono.
  { apply wp_idle. destruct cached as [old|]; [|done]. case_bool_decide; [|done].
    apply calls_processLoadBalancerDelete. }
  intros t o Ht.
  assert (Forall (on_call (@idle)) ([Call (CacheGet key) cached] ++ t ++ [Call (CacheSet key ob) ()])) as Hi.
  { constructor; [done|]. apply Forall_app. split; [done|by constructor]. }
  destruct o as [[[]|e]|h]; [|by apply (accounted_idle _ (_ :: t)); constructor..].
  apply wp_bind, wp_trigger. intros [].
  apply wp_bind. eapply wp_mono; [apply wp_sync_accounted|]. intros t' o Ht'.
  assert (∀ t'', Forall (on_call (@idle)) t'' → accounted (ob_Service ob)
    ([Call (CacheGet key) cached] ++ t ++ [Call (CacheSet key ob) ()] ++ t' ++ t'')) as Hall.
  { intros t'' Hi''. pose proof (accounted_app _ _ _ _ Hi Hi'' Ht') as H. by rewrite <-!app_assoc in H. }
  destruct o as [[ob' r]|h]; [|by specialize (Hall []); rewrite app_nil_r in Hall; apply Hall].
  eapply wp_mono; [apply wp_idle|intros t'' ?; apply Hall].
  split; [done|]. intros []. by destruct r as [[|]|e].
Qed.

(** A sync reads the Service, and accounts for what it does with it. *)
Definition explained (t : list (call ctlE)) : Prop :=
  (created (cloud_calls t) = [] ∧ patched (cloud_calls t) = []) ∨
  ∃ namespace name ob t', t = Call (ListService namespace name) (Ok ob) :: t' ∧
    accounted (ob_Service ob) t'.

Lemma wp_item_explained key :
  wp (processNextServiceItem (newLoadBalancer p) key) (λ t _, explained t).
Proof.
  unfold processNextServiceItem, syncService. apply wp_bind, wp_try_bind, wp_ret.
  destruct (SplitMetaNamespaceKey key) as [[namespace name]|e]; simpl; [|by apply wp_trigger; left].
  apply wp_vis. intros [ob|e].
  - eapply wp_mono; [apply wp_process_accounted|]. intros t o Ht.
    assert (∀ t', Forall (on_call (@idle)) t' → explained (Call (ListService namespace name) (Ok ob) :: t ++ t')) as Hall.
    { intros t' Hi. right. exists namespace, name, ob, (t ++ t'). split; [done|].
      by apply (accounted_app _ [] t t'). }
    destruct o as [[[]|e]|h]; [apply wp_trigger; intros []; apply (Hall [_]); by constructor..|].
    specialize (Hall []). rewrite app_nil_r in Hall. by apply Hall.
  - eapply wp_mono with (Φ := λ t _, Forall (on_call (@idle)) t).
    { destruct (errors_Is e StatusNotFound); [apply wp_idle, calls_processServiceDeletion|by apply wp_ret]. }
    intros t o Ht.
    assert (∀ t', Forall (on_call (@idle)) t' → explained (Call (ListService namespace name) (Err e) :: t ++ t')) as Hall.
    { intros t' Hi. left. apply idle_nil. constructor; [done|]. by apply Forall_app. }
    destruct o as [[[]|e']|h]; [apply wp_trigger; intros []; apply (Hall [_]); by constructor..|].
    specialize (Hall []). rewrite app_nil_r in Hall. by apply Hall.
Qed.
End run.

(** ** The history of a Service *)

(** A patch of the controller changes the finalizers or the status. *)
Definition patched_object (old new ob : object) : object :=
  with_Ingress
    (with_Finalizers ob (if decide (ob_Finalizers old = ob_Finalizers new)
                         then ob_Finalizers ob else ob_Finalizers new))
    (if decide (ob_Ingress old = ob_Ingress new) then ob_Ingress ob else ob_Ingress new).

Section history.
Context {unicode : UnicodeTables} {patchlib : PatchLib} {server : PatchServer}.
Context (p : cloudProvider) (key : string).

(** What the API server makes of a call. *)
Definition served (c : call ctlE) (ob : object) : object :=
  match call_event c in ctlE X return X → object with
  | Cloud e => λ x,
      match as_patched (Call e x) with
      | Some patch => with_Service ob (apply_patch patch (ob_Service ob))
      | None => ob
      end
  | PatchService old new => λ r, if is_ok r then patched_object old new ob else ob
  | _ => λ _, ob
  end (call_reply c).

(** The Service after the calls of a run, if nobody else edits it. *)
Definition after (ob : object) (t : list (call ctlE)) : object := foldl (λ ob c, served c ob) ob t.

Definition object_ID (ob : object) : UUID := recorded_ID (ob_Service ob).

(** The Service as the API server has it, while the calls of a run are made and
    anyone may edit the Service, but not the annotation with the NLB ID. *)
Inductive evolves : object → list (call ctlE) → object → Prop :=
| evolves_done ob : evolves ob [] ob
| evolves_edit ob ob1 t ob' :
    object_ID ob1 = object_ID ob → evolves ob1 t ob' → evolves ob t ob'
| evolves_call c ob t ob' : evolves (served c ob) t ob' → evolves ob (c :: t) ob'.

Lemma evolves_after ob t : evolves ob t (after ob t).
Proof. revert ob. induction t as [|c t IH]; intros ob; [apply evolves_done|apply evolves_call, IH]. Qed.

(** The two workers of the controller. *)
Inductive job :=
| ServiceItem
| NodeItem.

Definition job_prog (j : job) : prog ctlE () :=
  match j with
  | ServiceItem => processNextServiceItem (newLoadBalancer p) key
  | NodeItem => syncNodes (newLoadBalancer p)
  end.

(** A run: the Service when it started, and the calls it made until it returned,
    panicked or was killed. The informer may reply with any version of the
    Service, or none. *)
Record round := {
  round_object : object;
  round_calls : list (call ctlE);
}.

Inductive history : object → list round → object → Prop :=
| history_done ob : history ob [] ob
| history_run j ob t ob1 rs ob' :
    partial (job_prog j) t → Forall identified (cloud_calls t) → evolves ob t ob1 →
    history ob1 rs ob' →
    history ob ({| round_object := ob; round_calls := t |} :: rs) ob'.

(** *** Excuses *)

Definition as_listed (c : call ctlE) : option object :=
  match call_event c in ctlE X return X → option object with
  | ListService _ _ => λ r, match r with Ok ob => Some ob | Err _ => None end
  | _ => λ _, None
  end (call_reply c).

Definition listed (r : round) : list object := omap as_listed (round_calls r).

(** The informer has not seen the ID yet. *)
Definition stale (r : round) : bool :=
  bool_decide (object_ID (round_object r) ≠ "")
  && existsb (λ ob, bool_decide (object_ID ob = "")) (listed r).

Definition exo_missing {X} (e : exoE X) : X → option UUID :=
  match e with
  | ApiGetLoadBalancer id => λ r,
      match r with
      | Ok _ => None
      | Err err => if errors_Is err ErrNotFound || errors_Is err errLoadBalancerNotFound
                   then Some id else None
      end
  | _ => λ _, None
  end.

Definition as_missing (c : call ccmE) : option UUID :=
  match call_event c in ccmE X return X → option UUID with
  | ExoCall e => exo_missing e
  | _ => λ _, None
  end (call_reply c).

(** The API does not know the ID that was read. *)
Definition gone (r : round) : bool :=
  existsb (λ ob, bool_decide (object_ID ob ≠ "" ∧
                              object_ID ob ∈ omap as_missing (cloud_calls (round_calls r))))
    (listed r).

(** The patch with the ID of the NLB was not sent or not accepted. *)
Fixpoint unrecorded (t : list (call ccmE)) : bool :=
  match t with
  | [] => false
  | c :: t => match as_created c with
              | Some _ => bool_decide (patched t = [])
              | None => unrecorded t
              end
  end.

Definition excused (r : round) : bool :=
  stale r || gone r || unrecorded (cloud_calls (round_calls r)).

Definition creations (r : round) : nat := length (created (cloud_calls (round_calls r))).

Definition unexcused (rs : list round) : nat :=
  sum_list (creations <$> filter (λ r, excused r = false) rs).

(** Whether the ID of an NLB is recorded. *)
Definition has_ID (ob : object) : nat := if bool_decide (object_ID ob = "") then 0 else 1.

(** *** At most one NLB *)

Lemma served_cases c ob :
  (patched (cloud_calls [c]) = [] ∧ object_ID (served c ob) = object_ID ob) ∨
  ∃ patch, patched (cloud_calls [c]) = [patch] ∧
    object_ID (served c ob) = recorded_ID (apply_patch patch (ob_Service ob)).
Proof.
  destruct c as [X e x]. destruct e as [X e|?|?|?|?|?|?|?|?|?|?|?|?];
    try (left; split; [done|]; unfold served; simpl; try done; by case_match).
  unfold served, patched, cloud_calls. simpl.
  destruct (as_patched (Call e x)) as [patch|]; [right; by exists patch|by left].
Qed.

Lemma evolves_ID ob t ob' :
  evolves ob t ob' → Forall (λ patch, keeps patch ∨ records patch) (patched (cloud_calls t)) →
  (object_ID ob ≠ "" → object_ID ob' ≠ "") ∧
  ∀ patch, last (patched (cloud_calls t)) = Some patch → records patch → object_ID ob' ≠ "".
Proof.
  induction 1 as [ob|ob ob1 t ob' Hid _ IH|c ob t ob' Hev IH]; intros Hp; [done| |].
  - rewrite <-Hid. by apply IH.
  - change (c :: t) with ([c] ++ t) in *. rewrite cloud_calls_app, patched_app in Hp |- *.
    apply Forall_app in Hp as [Hp Ht].
    destruct (IH Ht) as [IH1 IH2].
    destruct (served_cases c ob) as [[Hc Hid]|(patch & Hc & Hid)]; rewrite Hc, Hid in *; [done|].
    rewrite Forall_singleton in Hp. split.
    + intros Hob. apply IH1. destruct Hp as [Hk|Hr]; [by rewrite Hk|apply Hr].
    + intros patch' Hlast Hr. destruct (patched (cloud_calls t)) as [|x l] eqn:Hl.
      * injection Hlast as ->. apply IH1, Hr.
      * apply (IH2 patch'); [|done]. change (last (patch :: x :: l) = Some patch') in Hlast. by rewrite last_cons_cons in Hlast.
Qed.

(** The replies that end a run in which nothing more succeeds. *)
Definition exo_failure X (e : exoE X) : X.
Proof. destruct e; exact (Err (ErrorNew "" [])). Defined.

Definition ctl_failure X (e : ctlE X) : X.
Proof.
  destruct e as [Y [Z e|Z []|Z []]|?|?|?|?|?|?|?|?|?|?|?|?];
    first [exact (exo_failure Z e) | exact (Err (ErrorNew "" [])) | exact (None, None)
          | exact None | exact [] | exact ()].
Defined.

Lemma failures_identified t :
  Forall (λ c, call_reply c = ctl_failure _ (call_event c)) t → Forall identified (cloud_calls t).
Proof.
  induction 1 as [|[X e x] t Hx _ IH]; [constructor|]. simpl in Hx. subst x.
  destruct e as [X e|?|?|?|?|?|?|?|?|?|?|?|?]; try exact IH. constructor; [|exact IH].
  destruct e as [X []|X []|X []]; constructor.
Qed.

(** What a run leaves explained, whether or not it came to its end. *)
Lemma partial_explained j t :
  partial (job_prog j) t → Forall identified (cloud_calls t) →
  (created (cloud_calls t) = [] ∧ patched (cloud_calls t) = []) ∨
  ∃ namespace name ob t', t = Call (ListService namespace name) (Ok ob) :: t' ∧
    accountable (ob_Service ob) (cloud_calls t').
Proof.
  intros (t' & o & Hex & Hf%failures_identified)%(partial_completes ctl_failure) Hid.
  destruct j; simpl in Hex.
  - destruct (wp_item_explained p key _ _ Hex) as [[Hc Hp]|(ns & name & ob & t1 & Ht & Ha)].
    + left. rewrite cloud_calls_app, created_app, patched_app in *.
      by apply app_nil in Hc as [-> _], Hp as [-> _].
    + destruct t as [|c t]; [by left|]. simplify_eq/=. right.
      exists ns, name, ob, t. split; [done|]. unfold accounted in Ha. rewrite cloud_calls_app in Ha.
      eapply accountable_prefix, Ha. by apply Forall_app.
  - left. pose proof (wp_idle _ (calls_syncNodes p) _ _ Hex) as [Hi _]%Forall_app.
    by apply idle_nil.
Qed.

Lemma has_ID_le ob ob' : (object_ID ob ≠ "" → object_ID ob' ≠ "") → (has_ID ob ≤ has_ID ob')%nat.
Proof. unfold has_ID. intros H. repeat case_bool_decide; try lia. by destruct H. Qed.

Lemma tame_unrecorded t t' : created t = [] → unrecorded (t ++ t') = unrecorded t'.
Proof.
  unfold created. induction t as [|c t IH]; [done|]. simpl.
  destruct (as_created c); [done|]. exact IH.
Qed.

(** A reply that says the NLB of a Service is not found shows in the excuses. *)
Lemma not_found_missing service t :
  recorded_ID service ≠ "" → not_found service t → recorded_ID service ∈ omap as_missing t.
Proof.
  intros Hid [?|(err & Herr & Hin)]; [done|]. apply list_elem_of_omap.
  eexists. split; [exact Hin|]. unfold as_missing. simpl.
  destruct Herr as [->| ->]; simpl; [done|]. by rewrite orb_true_r.
Qed.

Lemma run_bounded j ob t ob' :
  partial (job_prog j) t → Forall identified (cloud_calls t) → evolves ob t ob' →
  (creations {| round_object := ob; round_calls := t |} ≤ 1)%nat ∧
  (has_ID ob ≤ has_ID ob')%nat ∧
  (excused {| round_object := ob; round_calls := t |} = false →
   (creations {| round_object := ob; round_calls := t |} + has_ID ob ≤ has_ID ob')%nat).
Proof.
  intros Hp Hid Hev. unfold creations, excused. simpl round_calls.
  destruct (partial_explained j t Hp Hid) as [[Hc Hpat]|(ns & name & l & t' & -> & Ha)].
  { rewrite Hc. destruct (evolves_ID _ _ _ Hev) as [H _]; [by rewrite Hpat|].
    pose proof (has_ID_le _ _ H). simpl. split_and!; [lia|lia|]. intros _. lia. }
  change (cloud_calls (_ :: t')) with (cloud_calls t').
  pose proof (evolves_ID _ _ _ Hev) as Hmono.
  change (cloud_calls (_ :: t')) with (cloud_calls t') in Hmono.
  destruct Ha as [[Hc Ht]|(t1 & req & op & t2 & Ht' & [Hc1 Ht1] & Hnf & Hc2 & Hr)].
  { rewrite Hc. destruct (Hmono Ht) as [H _]. pose proof (has_ID_le _ _ H). simpl.
    split_and!; [lia|lia|]. intros _. lia. }
  assert (created (cloud_calls t') = [op]) as ->.
  { rewrite Ht', created_app, Hc1. change (op :: created t2 = [op]). by rewrite Hc2. }
  rewrite Ht', patched_app in Hmono.
  destruct Hmono as [Hmono Hlast].
  { apply Forall_app. split; [done|]. eapply Forall_impl; [exact Hr|]. by right. }
  pose proof (has_ID_le _ _ Hmono). simpl. split_and!; [lia|done|].
  intros [[Hstale Hgone]%orb_false_iff Hun]%orb_false_iff.
  assert (has_ID ob' = 1%nat) as ->.
  { unfold has_ID. rewrite bool_decide_eq_false_2; [done|].
    change (cloud_calls _) with (cloud_calls t') in Hun.
    rewrite Ht', tame_unrecorded in Hun by done. simpl in Hun.
    apply bool_decide_eq_false in Hun.
    destruct (last (patched t2)) as [patch|] eqn:Hl; [|by apply last_None in Hl].
    eapply (Hlast patch).
    - rewrite last_app. change (patched (_ :: t2)) with (patched t2). by rewrite Hl.
    - rewrite Forall_forall in Hr. apply Hr. by apply last_Some_elem_of. }
  assert (has_ID ob = 0%nat) as ->; [|lia].
  unfold has_ID. rewrite bool_decide_eq_true_2; [done|].
  destruct (decide (object_ID ob = "")) as [|Hob]; [done|exfalso].
  unfold stale, gone, listed in Hstale, Hgone. simpl in Hstale, Hgone.
  rewrite bool_decide_eq_true_2 in Hstale by done. simpl in Hstale.
  apply orb_false_iff in Hstale as [Hl%bool_decide_eq_false _].
  apply orb_false_iff in Hgone as [Hg%bool_decide_eq_false _].
  apply Hg. split; [done|]. change (cloud_calls _) with (cloud_calls t').
  apply not_found_missing; [done|]. rewrite Ht'. destruct Hnf as [?|(err & ? & ?)]; [by left|].
  right. exists err. set_solver.
Qed.

(** C3: over the whole life of a Service in the cluster, however often the
    controller runs, fails or is killed at any call, and whatever the informer,
    the API and the API server reply, each run creates at most one NLB, and all
    runs together at most one, and none if the ID of an NLB was already
    recorded, except for a run with one of three excuses: the informer it read the
    Service from did not show the recorded ID yet, the API did not know the ID
    that was read, or the patch with the ID of the new NLB was not sent or not
    accepted. And a recorded ID is never lost. *)
Theorem creations_bounded ob rs ob' (H : history ob rs ob') :
  Forall (λ r, (creations r ≤ 1)%nat) rs ∧
  (unexcused rs + has_ID ob ≤ has_ID ob')%nat.
Proof.
  induction H as [ob|j ob t ob1 rs ob' Hp Hid Hev _ [IH1 IH2]]; [done|].
  destruct (run_bounded j ob t ob1 Hp Hid Hev) as (Hc & Hle & Hex). split; [by constructor|].
  unfold unexcused. rewrite filter_cons. fold (unexcused rs).
  case_decide as He; [|unfold unexcused in IH2; lia].
  rewrite fmap_cons. simpl. unfold unexcused in IH2. specialize (Hex He). lia.
Qed.
End history.
