(* ===== verification/Reconcile.v ===== *)
(** Convergence of the NLB reconciliation. The API is a state machine of which
    only the documented effect of each call is assumed ([NLBServer]); against
    it, [updateLoadBalancer] brings the NLB to the state the Service asks for,
    and has nothing left to do once it is there. *)
From S2P Require Import Prelude GoErrors GoStrings GoNet Effects Egoscale Kube CloudConfig.
From S2P Require Import LoadBalancerSpec LoadBalancerSpecProps LoadBalancer.
#[local] Open Scope Z_scope.

(** ** The specification of the API *)

(** A field sent in a request replaces the field; an empty one is not sent (the
    requests are encoded with [omitempty]). *)
Definition sent (new old : string) : string := if bool_decide (new = "") then old else new.
Definition sentZ (new old : Z) : Z := if bool_decide (new = 0) then old else new.

(** A health check is replaced as a whole. What is left out of it is none, for
    the two texts, and a default of the API for everything else (schemas.go gives
    those of the interval and the timeout), which is not assumed to be any value. *)
Definition agrees (h h' : Healthcheck) : Prop :=
  (hc_Mode h ≠ "" → hc_Mode h' = hc_Mode h) ∧ (hc_Port h ≠ 0 → hc_Port h' = hc_Port h) ∧
  (hc_Interval h ≠ 0 → hc_Interval h' = hc_Interval h) ∧
  (hc_Timeout h ≠ 0 → hc_Timeout h' = hc_Timeout h) ∧
  (hc_Retries h ≠ 0 → hc_Retries h' = hc_Retries h) ∧
  hc_TlsSNI h' = hc_TlsSNI h ∧ hc_URI h' = hc_URI h.

Definition stored (req old new : option Healthcheck) : Prop :=
  match req with Some h => ∃ h', new = Some h' ∧ agrees h h' | None => new = old end.

(** [y] is [x] after the update. *)
Definition patched (req : UpdateLoadBalancerServiceRequest) (x y : LoadBalancerService) : Prop :=
  lbs_Description y = sent (usr_Description req) (lbs_Description x) ∧
  stored (usr_Healthcheck req) (lbs_Healthcheck x) (lbs_Healthcheck y) ∧
  lbs_ID y = lbs_ID x ∧ lbs_InstancePool y = lbs_InstancePool x ∧
  lbs_Name y = sent (usr_Name req) (lbs_Name x) ∧
  lbs_Port y = sentZ (usr_Port req) (lbs_Port x) ∧
  lbs_Protocol y = sent (usr_Protocol req) (lbs_Protocol x) ∧
  lbs_Strategy y = sent (usr_Strategy req) (lbs_Strategy x) ∧
  lbs_TargetPort y = sentZ (usr_TargetPort req) (lbs_TargetPort x).

Definition created (req : AddServiceToLoadBalancerRequest) (x : LoadBalancerService) : Prop :=
  lbs_Description x = asr_Description req ∧
  stored (asr_Healthcheck req) None (lbs_Healthcheck x) ∧
  lbs_InstancePool x = asr_InstancePool req ∧ lbs_Name x = asr_Name req ∧
  lbs_Port x = asr_Port req ∧ lbs_Protocol x = asr_Protocol req ∧
  lbs_Strategy x = asr_Strategy req ∧ lbs_TargetPort x = asr_TargetPort req.

Definition with_Services (lb : LoadBalancer) (l : list LoadBalancerService) : LoadBalancer := {|
  lb_Description := lb_Description lb; lb_ID := lb_ID lb; lb_IP := lb_IP lb;
  lb_Labels := lb_Labels lb; lb_Name := lb_Name lb; lb_Services := l |}.

Definition renamed (req : UpdateLoadBalancerRequest) (lb : LoadBalancer) : LoadBalancer := {|
  lb_Description := sent (ulr_Description req) (lb_Description lb); lb_ID := lb_ID lb;
  lb_IP := lb_IP lb;
  lb_Labels := match ulr_Labels req with Some m => Some m | None => lb_Labels lb end;
  lb_Name := sent (ulr_Name req) (lb_Name lb); lb_Services := lb_Services lb |}.

(** The effect of each successful call on the NLB [view s id]. *)
Class NLBServer {S : Type} (R : handler ccmE S) (view : S → UUID → option LoadBalancer) : Prop := {
  server_id s id lb : view s id = Some lb → lb_ID lb = id;
  server_get s id lb s' : R _ (ExoCall (ApiGetLoadBalancer id)) s (Ok lb) s' →
    view s id = Some lb ∧ view s' id = Some lb;
  server_update s id req lb op s' : view s id = Some lb →
    R _ (ExoCall (ApiUpdateLoadBalancer id req)) s (Ok op) s' →
    view s' id = Some (renamed req lb);
  server_add s id req lb op s' : view s id = Some lb →
    R _ (ExoCall (ApiAddServiceToLoadBalancer id req)) s (Ok op) s' →
    ∃ x l, created req x ∧ lbs_ID x ∉ lbs_ID <$> lb_Services lb ∧ l ≡ₚ x :: lb_Services lb ∧
      view s' id = Some (with_Services lb l);
  server_delete s id sid lb op s' : view s id = Some lb →
    R _ (ExoCall (ApiDeleteLoadBalancerService id sid)) s (Ok op) s' →
    view s' id = Some (with_Services lb (filter (λ x, lbs_ID x ≠ sid) (lb_Services lb)));
  server_update_service s id sid req lb op s' : view s id = Some lb →
    R _ (ExoCall (ApiUpdateLoadBalancerService id sid req)) s (Ok op) s' →
    ∃ f : LoadBalancerService → LoadBalancerService,
      (∀ x, patched req x (f x)) ∧
      view s' id = Some (with_Services lb
        ((λ x, if decide (lbs_ID x = sid) then f x else x) <$> lb_Services lb));
}.

(** A server that grants every well-formed request about an NLB it has. *)
Definition reliable {S} (R : handler ccmE S) (view : S → UUID → option LoadBalancer) : Prop :=
  ∀ s id lb, view s id = Some lb →
    (∀ r s', R _ (ExoCall (ApiGetLoadBalancer id)) s r s' → is_ok r = true) ∧
    (∀ req r s', R _ (ExoCall (ApiUpdateLoadBalancer id req)) s r s' → is_ok r = true) ∧
    (∀ req r s', R _ (ExoCall (ApiAddServiceToLoadBalancer id req)) s r s' →
       asr_Name req ≠ "" → (asr_Port req, asr_Protocol req) ∉ key <$> lb_Services lb →
       is_ok r = true) ∧
    (∀ sid r s', R _ (ExoCall (ApiDeleteLoadBalancerService id sid)) s r s' →
       sid ∈ lbs_ID <$> lb_Services lb → is_ok r = true) ∧
    (∀ sid req r s', R _ (ExoCall (ApiUpdateLoadBalancerService id sid req)) s r s' →
       sid ∈ lbs_ID <$> lb_Services lb → is_ok r = true).

(** ** The specification of the reconciliation *)

(** NLB service [x] is what the desired service [u] asks for. *)
Definition realises (u x : LoadBalancerService) : Prop := same_service x (with_ID u (lbs_ID x)).

#[export] Instance realises_dec u x : Decision (realises u x).
Proof. unfold realises, same_service. apply _. Defined.

Definition single_pool (x : LoadBalancerService) : Prop :=
  ∃ id, lbs_InstancePool x = Some {| ip_ID := id; ip_others := [] |}.

(** The API keeps service IDs and (port, protocol) pairs distinct within an NLB,
    and refers to pools by their ID. *)
Record nlb_wf (lb : LoadBalancer) : Prop := {
  wf_ids : NoDup (lbs_ID <$> lb_Services lb);
  wf_keys : NoDup (key <$> lb_Services lb);
  wf_pools : Forall single_pool (lb_Services lb);
}.

(** A desired service none of whose fields but the description is left out of
    the update request. *)
Definition sendable (u : LoadBalancerService) : Prop :=
  lbs_Name u ≠ "" ∧ lbs_Strategy u ≠ "" ∧ lbs_Protocol u ≠ "" ∧ lbs_Port u ≠ 0 ∧
  lbs_TargetPort u ≠ 0 ∧ is_Some (lbs_Healthcheck u) ∧ single_pool u.

(** A change the API cannot express: emptying the description of a service. *)
Definition clears_description (desired nlb : LoadBalancer) : Prop :=
  ∃ u x, u ∈ lb_Services desired ∧ x ∈ lb_Services nlb ∧ key u = key x ∧
    lbs_Description u = "" ∧ lbs_Description x ≠ "".

(** A health check of which no setting is left to the API. *)
Definition complete (u : LoadBalancerService) : Prop :=
  ∀ h, lbs_Healthcheck u = Some h → hc_Mode h ≠ "" ∧ hc_Port h ≠ 0 ∧ hc_Interval h ≠ 0 ∧
    hc_Timeout h ≠ 0 ∧ hc_Retries h ≠ 0.

(** What the service [x] of the reconciled NLB is of the desired [u]: the settings
    asked for, but that of the health check the API chooses what is left out,
    and that no description means the one the service had in [nlb]. *)
Record fulfils (nlb : LoadBalancer) (u x : LoadBalancerService) : Prop := {
  ful_name : lbs_Name x = lbs_Name u;
  ful_port : lbs_Port x = lbs_Port u;
  ful_protocol : lbs_Protocol x = lbs_Protocol u;
  ful_strategy : lbs_Strategy x = lbs_Strategy u;
  ful_target : lbs_TargetPort x = lbs_TargetPort u;
  ful_pool : lbs_InstancePool x = lbs_InstancePool u;
  ful_healthcheck : ∃ h h', lbs_Healthcheck u = Some h ∧ lbs_Healthcheck x = Some h' ∧ agrees h h';
  ful_description : lbs_Description x = lbs_Description u ∨
    lbs_Description u = "" ∧ ∃ c, c ∈ lb_Services nlb ∧ key c = key u ∧ pool_ID c = pool_ID u ∧
      lbs_Description x = lbs_Description c;
}.

Definition wanted (desired : LoadBalancer) (k : ServiceKey) : Prop :=
  k ∈ key <$> lb_Services desired.

#[export] Instance wanted_dec desired k : Decision (wanted desired k).
Proof. unfold wanted. apply _. Defined.

(** [nlb'] is [nlb] reconciled with [desired]: every desired service is fulfilled
    by exactly one service, and the others are gone, or untouched when the NLB
    is external. The name is the one asked for, but the description stays. *)
Record in_sync (external : bool) (desired nlb nlb' : LoadBalancer) : Prop := {
  sync_wf : nlb_wf nlb';
  sync_realised u : u ∈ lb_Services desired → ∃ x, x ∈ lb_Services nlb' ∧ fulfils nlb u x;
  sync_others x : x ∈ lb_Services nlb' → ¬ wanted desired (key x) →
    external = true ∧ x ∈ lb_Services nlb;
  sync_kept x : external = true → x ∈ lb_Services nlb → ¬ wanted desired (key x) →
    x ∈ lb_Services nlb';
  sync_name : lb_Name nlb' = if external then lb_Name nlb else lb_Name desired;
  sync_description : lb_Description nlb' = lb_Description nlb;
  sync_id : lb_ID nlb' = lb_ID nlb;
  sync_ip : lb_IP nlb' = lb_IP nlb;
}.

(** ** Nothing to do *)

(** An NLB that already is as desired, its description included. *)
Definition synced (external : bool) (desired nlb : LoadBalancer) : Prop :=
  NoDup (key <$> lb_Services nlb) ∧
  (∀ u, u ∈ lb_Services desired → ∃ x, x ∈ lb_Services nlb ∧ realises u x) ∧
  (external = true ∨
   lb_Name nlb = lb_Name desired ∧ lb_Description nlb = lb_Description desired ∧
   ∀ x, x ∈ lb_Services nlb → wanted desired (key x)).

Lemma realises_key u x : realises u x → key x = key u.
Proof. intros (_ & _ & _ & _ & _ & Hp & Hpr & _). unfold key. simpl in *. by rewrite Hp, Hpr. Qed.

Lemma fulfils_key nlb u x : fulfils nlb u x → key x = key u.
Proof. intros H. unfold key. by rewrite (ful_port _ _ _ H), (ful_protocol _ _ _ H). Qed.

Lemma agrees_refl h : agrees h h.
Proof. by split_and!. Qed.

Lemma agrees_complete u h h' :
  complete u → lbs_Healthcheck u = Some h → agrees h h' → h' = h.
Proof.
  intros Hc Hu (H1 & H2 & H3 & H4 & H5 & H6 & H7). destruct (Hc h Hu) as (? & ? & ? & ? & ?).
  destruct h, h'. simpl in *. f_equal; auto.
Qed.

(** A service that is exactly what is desired. *)
Lemma realises_fulfils nlb u x : is_Some (lbs_Healthcheck u) → realises u x → fulfils nlb u x.
Proof.
  intros [h Hh] (Hd & Hhc & _ & Hp & Hn & Hpo & Hpr & Hs & Ht). simpl in *. split; try done.
  - exists h, h. split_and!; [done|congruence|apply agrees_refl].
  - by left.
Qed.

Lemma fulfils_realises desired nlb u x :
  ¬ clears_description desired nlb → complete u → u ∈ lb_Services desired →
  fulfils nlb u x → realises u x.
Proof.
  intros Hcl Hco Hu [Hn Hpo Hpr Hs Ht Hp (h & h' & Hh & Hh' & Ha) Hd].
  unfold realises, same_service. simpl. split_and!; try done.
  - destruct Hd as [|(He & c & Hc & Hk & _ & Hd)]; [done|]. rewrite Hd, He.
    apply dec_stable. intros Hne. apply Hcl. by exists u, c.
  - rewrite Hh, Hh'. f_equal. by eapply agrees_complete.
Qed.

Lemma existsb_wanted desired k :
  existsb (λ u, bool_decide (k = key u)) (lb_Services desired) = true ↔ wanted desired k.
Proof.
  rewrite existsb_exists. unfold wanted. rewrite list_elem_of_fmap.
  setoid_rewrite bool_decide_eq_true. setoid_rewrite list_elem_of_In. naive_solver.
Qed.

Section quiescence.
Context {unicode : UnicodeTables}.
Context (p : cloudProvider) (service : Service) (desired nlb : LoadBalancer).

(** The first loop collects the services with a wanted key. *)
Definition collects (l : list LoadBalancerService) (m : gmap ServiceKey LoadBalancerService) :
    Prop :=
  ∀ k c, m !! k = Some c ↔ c ∈ l ∧ key c = k ∧ wanted desired k.

Lemma collects_nil : collects [] ∅.
Proof. intros k c. rewrite lookup_empty. split; [done|]. by intros [?%elem_of_nil _]. Qed.

Lemma collects_wanted l c m :
  NoDup (key <$> l ++ [c]) → wanted desired (key c) → collects l m →
  collects (l ++ [c]) (<[key c := c]> m).
Proof.
  intros Hnd Hw Hm k c'. rewrite lookup_insert_Some, (Hm k c').
  rewrite elem_of_app, list_elem_of_singleton.
  rewrite fmap_app, NoDup_app in Hnd. destruct Hnd as (_ & Hdis & _).
  split; [naive_solver|]. intros ([Hc|Hc] & Hk & Hk').
  - right. split; [|done]. intros Heq. apply (Hdis (key c')).
    + by apply list_elem_of_fmap_2.
    + rewrite Hk, <-Heq. by apply list_elem_of_fmap_2, list_elem_of_singleton.
  - left. naive_solver.
Qed.

Lemma collects_unwanted l c m :
  ¬ wanted desired (key c) → collects l m → collects (l ++ [c]) m.
Proof.
  intros Hw Hm k c'. rewrite (Hm k c'), elem_of_app, list_elem_of_singleton. naive_solver.
Qed.

Lemma collectService_wanted m c :
  wanted desired (key c) → collectService p service nlb desired m c = Ret (Ok (<[key c := c]> m)).
Proof. intros Hw%existsb_wanted. unfold collectService. by rewrite Hw. Qed.

Lemma collectService_unwanted m c :
  ¬ wanted desired (key c) → isExternal service = true →
  collectService p service nlb desired m c = Ret (Ok m).
Proof.
  intros Hw Hx. unfold collectService. destruct (existsb _ _) eqn:He.
  - by apply existsb_wanted in He.
  - by rewrite Hx.
Qed.

(** Collecting makes no call when nothing has to be deleted. *)
Lemma collect_synced :
  NoDup (key <$> lb_Services nlb) →
  (isExternal service = true ∨ ∀ x, x ∈ lb_Services nlb → wanted desired (key x)) →
  ∃ m, forM (lb_Services nlb) ∅ (collectService p service nlb desired) = Ret (Ok m) ∧
       collects (lb_Services nlb) m.
Proof.
  intros Hnd Hall.
  cut (∀ post pre m, lb_Services nlb = pre ++ post → collects pre m →
    ∃ m', forM post m (collectService p service nlb desired) = Ret (Ok m') ∧
          collects (lb_Services nlb) m').
  { intros H. by apply (H (lb_Services nlb) []), collects_nil. }
  induction post as [|c post IH]; intros pre m Hl Hm.
  { exists m. rewrite app_nil_r in Hl. by rewrite Hl. }
  assert (lb_Services nlb = (pre ++ [c]) ++ post) as Hl' by (by rewrite <-app_assoc).
  rewrite Hl', fmap_app, NoDup_app in Hnd. simpl.
  destruct (decide (wanted desired (key c))) as [Hw|Hw].
  - rewrite collectService_wanted by done. apply (IH (pre ++ [c])); [done|].
    apply collects_wanted; tauto.
  - rewrite collectService_unwanted; [|done|].
    + apply (IH (pre ++ [c])); [done|]. by apply collects_unwanted.
    + destruct Hall as [|Hall]; [done|]. destruct Hw. apply Hall. rewrite Hl. set_solver.
Qed.

Lemma collects_lookup m u x :
  NoDup (key <$> lb_Services nlb) → collects (lb_Services nlb) m →
  u ∈ lb_Services desired → x ∈ lb_Services nlb → key x = key u → m !! key u = Some x.
Proof.
  intros Hnd Hm Hu Hx Hk. apply Hm. split_and!; [done..|].
  by apply list_elem_of_fmap_2.
Qed.

Lemma reconcile_synced m u x :
  m !! key u = Some x → realises u x → reconcileService p nlb desired m () u = Ret (Ok ()).
Proof.
  intros Hm Hr. unfold reconcileService. rewrite Hm.
  assert (isLoadBalancerServiceUpdated x (with_ID u (lbs_ID x)) = false) as ->.
  { by apply isLoadBalancerServiceUpdated_false. }
  destruct Hr as (_ & _ & _ & Hp & _). unfold pool_ID. rewrite Hp.
  by rewrite bool_decide_eq_false_2 by auto.
Qed.

Lemma reconcile_all_synced m l :
  (∀ u, u ∈ l → ∃ x, m !! key u = Some x ∧ realises u x) →
  forM l () (reconcileService p nlb desired m) = Ret (Ok ()).
Proof.
  induction l as [|u l IH]; intros Hl; [done|]. simpl.
  destruct (Hl u ltac:(set_solver)) as (x & Hx & Hr).
  rewrite (reconcile_synced _ _ _ Hx Hr). apply IH. set_solver.
Qed.
End quiescence.

Lemma applyUpdate_synced `{UnicodeTables} p service desired nlb :
  synced (isExternal service) desired nlb → applyUpdate p service desired nlb = Ret (Ok ()).
Proof.
  intros (Hnd & Hreal & Htop). unfold applyUpdate.
  assert (negb (isExternal service) && isLoadBalancerUpdated nlb desired = false) as ->.
  { destruct Htop as [->|(Hn & Hd & _)]; [done|]. apply andb_false_iff. right.
    by apply isLoadBalancerUpdated_false. }
  rewrite try_bind_Ok.
  destruct (collect_synced p service desired nlb Hnd) as (m & -> & Hm); [naive_solver|].
  change (forM (lb_Services desired) () (reconcileService p nlb desired m) = Ret (Ok ())).
  apply reconcile_all_synced. intros u Hu. destruct (Hreal u Hu) as (x & Hx & Hr).
  exists x. split; [|done]. eapply collects_lookup; [done..|]. by apply realises_key.
Qed.

(** Reading the NLB is the first thing an update does. *)
Lemma updateLoadBalancer_reads `{UnicodeTables} p service desired :
  buildLoadBalancerFromAnnotations service = Ok desired → lb_ID desired ≠ "" →
  p_client p = true →
  ∃ k, updateLoadBalancer p service = Vis (ExoCall (ApiGetLoadBalancer (lb_ID desired))) k ∧
       ∀ nlb, k (Ok nlb) = applyUpdate p service desired nlb.
Proof.
  intros Hbuild Hid Hclient. unfold updateLoadBalancer.
  rewrite Hbuild, try_bind_Ok, bool_decide_eq_false_2 by done.
  unfold exo. rewrite Hclient. eexists. split; [reflexivity|done].
Qed.

(** C10: reconciling is idempotent: on an NLB that is already as the Service
    asks, the update makes no call at all after reading it. *)
Theorem update_quiescent `{UnicodeTables} p service desired nlb
    (Hbuild : buildLoadBalancerFromAnnotations service = Ok desired)
    (Hid : lb_ID desired ≠ "")
    (Hclient : p_client p = true)
    (Hsynced : synced (isExternal service) desired nlb) :
  ∃ k, updateLoadBalancer p service = Vis (ExoCall (ApiGetLoadBalancer (lb_ID desired))) k ∧
       k (Ok nlb) = Ret (Ok ()).
Proof.
  destruct (updateLoadBalancer_reads p service desired) as (k & Hk & Hnlb); [done..|].
  exists k. by rewrite Hnlb, applyUpdate_synced.
Qed.

(** C39: the description of a managed NLB is never updated. When it is not the
    annotated one, every reconciliation sends an update that carries the old
    description back. *)
Theorem description_change_lost `{UnicodeTables} p service desired nlb
    (Hbuild : buildLoadBalancerFromAnnotations service = Ok desired)
    (Hid : lb_ID desired ≠ "")
    (Hclient : p_client p = true)
    (Hmanaged : isExternal service = false)
    (Hdescription : lb_Description nlb ≠ lb_Description desired) :
  ∃ k k', updateLoadBalancer p service = Vis (ExoCall (ApiGetLoadBalancer (lb_ID desired))) k ∧
    k (Ok nlb) = Vis (ExoCall (ApiUpdateLoadBalancer (lb_ID desired) {|
      ulr_Name := lb_Name desired;
      ulr_Description := lb_Description nlb;
      ulr_Labels := None |})) k'.
Proof.
  destruct (updateLoadBalancer_reads p service desired) as (k & Hk & Hnlb); [done..|].
  exists k. rewrite Hk, Hnlb. unfold applyUpdate, exo. rewrite Hmanaged, Hclient.
  assert (isLoadBalancerUpdated nlb desired = true) as ->.
  { apply not_false_iff_true. by intros [_ ?]%isLoadBalancerUpdated_false. }
  apply build_Ok in Hbuild as (? & ? & ? & _ & _ & _ & _ & _ & Hlabels).
  simpl. rewrite Hlabels. eexists. split; reflexivity.
Qed.

(** ** Convergence *)

Section convergence.
Context {unicode : UnicodeTables} {S : Type} (R : handler ccmE S).
Context (view : S → UUID → option LoadBalancer) {server : NLBServer R view}.
Context (p : cloudProvider).

(** A failing call is the server's doing, and a panic means the client was never
    set. *)
Definition else_blame {A} (I : A → S → Prop) (o : outcome (result A)) (s : S) : Prop :=
  match o with
  | Returned (Ok a) => I a s
  | Returned (Err _) => ¬ reliable R view
  | Halted h => h = NilDeref ∧ p_client p = false
  end.

Lemma triple_call {A B} (e : exoE (result A)) (k : A → prog ccmE (result B)) (P : S → Prop)
    (M I : _ → S → Prop) :
  (∀ s x s', P s → R _ (ExoCall e) s (Ok x) s' → M x s') →
  (∀ s er s', P s → R _ (ExoCall e) s (Err er) s' → ¬ reliable R view) →
  (∀ x, triple R (M x) (k x) (else_blame I)) →
  triple R P (try_bind (exo p e) k) (else_blame I).
Proof.
  intros HM HE Hk. unfold exo. destruct (p_client p) eqn:Hc.
  - eapply triple_vis with (M := λ r s', match r with
      | Ok x => M x s' | Err _ => ¬ reliable R view end).
    + intros s [x|er] s' Hs Hr; eauto.
    + intros [x|er]; simpl; [apply Hk|]. by apply triple_ret.
  - by apply triple_halt.
Qed.

(** Rewording an error does not matter. *)
Lemma triple_wrap {A B} f (e : exoE (result A)) (k : A → prog ccmE (result B)) P I :
  triple R P (try_bind (exo p e) k) (else_blame I) →
  triple R P (try_bind (wrap_err f (exo p e)) k) (else_blame I).
Proof.
  unfold exo. destruct (p_client p) eqn:Hc; [|done].
  intros H s o s' Hs (r & s1 & Hr & Hrun). destruct r as [a|er]; simpl in Hrun.
  - apply (H s o s' Hs). exists (Ok a), s1. done.
  - destruct Hrun as [-> ->]. apply (H s (Returned (Err er)) s1 Hs). by exists (Err er), s1.
Qed.

(** ** The services of the NLB during the second loop *)

Section progressing.
Context (nlb : LoadBalancer).

(** [l] holds a service that fulfils each of [done], the services [kept] by the
    first loop whose key is not among theirs, and nothing else. *)
Record progress (kept done l : list LoadBalancerService) : Prop := {
  pr_ids : NoDup (lbs_ID <$> l);
  pr_keys : NoDup (key <$> l);
  pr_pools : Forall single_pool l;
  pr_done u : u ∈ done → ∃ x, x ∈ l ∧ fulfils nlb u x;
  pr_kept c : c ∈ kept → key c ∉ key <$> done → c ∈ l;
  pr_only x : x ∈ l → key x ∈ key <$> done ∨ (x ∈ kept ∧ key x ∉ key <$> done);
}.

Lemma progress_perm kept done l l' : l ≡ₚ l' → progress kept done l → progress kept done l'.
Proof.
  intros Hp [H1 H2 H3 H4 H5 H6]. split.
  - by rewrite <-Hp.
  - by rewrite <-Hp.
  - by rewrite <-Hp.
  - intros u Hu. destruct (H4 u Hu) as (x & Hx & Hr). exists x. by rewrite <-Hp.
  - intros c. rewrite <-Hp. apply H5.
  - intros x. rewrite <-Hp. apply H6.
Qed.

(** The new service: nothing in the NLB had its key, and its ID is fresh. *)
Lemma progress_add kept done l u x :
  progress kept done l → key u ∉ key <$> l → fulfils nlb u x → single_pool x →
  lbs_ID x ∉ lbs_ID <$> l → progress kept (done ++ [u]) (x :: l).
Proof.
  intros [H1 H2 H3 H4 H5 H6] Hl Hr Hp Hid. pose proof (fulfils_key _ _ _ Hr) as Hk. split.
  - csimpl. by apply NoDup_cons.
  - csimpl. rewrite Hk. by apply NoDup_cons.
  - by apply Forall_cons.
  - intros v [Hv| ->]%elem_of_snoc.
    + destruct (H4 v Hv) as (y & Hy & ?). exists y. split; [by right|done].
    + exists x. split; [by left|done].
  - intros c Hc Hn. rewrite elem_of_fmap_snoc in Hn. right. apply H5; tauto.
  - intros y Hy. rewrite elem_of_fmap_snoc. apply elem_of_cons in Hy as [->|Hy]; [tauto|].
    assert (key y ≠ key u) as Hne.
    { intros Heq. destruct Hl. rewrite <-Heq. by apply list_elem_of_fmap_2. }
    destruct (H6 y Hy); tauto.
Qed.

(** The service that had the wanted key is replaced in place. *)
Section update.
Context (kept done l : list LoadBalancerService) (u c : LoadBalancerService).
Context (f : LoadBalancerService → LoadBalancerService).
Context (Hl : progress kept done l) (Hc : c ∈ l) (Hk : key c = key u).
Context (Hr : fulfils nlb u (f c)) (Hid : lbs_ID (f c) = lbs_ID c) (Hp : single_pool (f c)).

Definition replace (x : LoadBalancerService) : LoadBalancerService :=
  if decide (lbs_ID x = lbs_ID c) then f x else x.

Lemma replace_c : replace c = f c.
Proof. unfold replace. by rewrite decide_True. Qed.

Lemma replace_other x : x ∈ l → x = c ∨ replace x = x ∧ x ≠ c.
Proof.
  intros Hx. unfold replace. case_decide as Heq; [left|right].
  - by apply (NoDup_fmap_inj_in lbs_ID l); [apply Hl|..].
  - split; [done|]. by intros ->.
Qed.

Lemma replace_fmap {K} (g : LoadBalancerService → K) :
  g (f c) = g c → g <$> (replace <$> l) = g <$> l.
Proof.
  intros Hg. rewrite <-list_fmap_compose. apply list_fmap_ext.
  intros i x Hi%list_elem_of_lookup_2. simpl.
  destruct (replace_other x Hi) as [->|[-> _]]; [by rewrite replace_c|done].
Qed.

Lemma progress_update :
  key u ∉ key <$> done → progress kept (done ++ [u]) (replace <$> l).
Proof.
  intros Hd. pose proof (fulfils_key _ _ _ Hr) as Hkf. destruct Hl as [H1 H2 H3 H4 H5 H6]. split.
  - by rewrite replace_fmap.
  - rewrite replace_fmap; [done|congruence].
  - apply Forall_fmap, Forall_forall. intros x Hx. simpl.
    destruct (replace_other x Hx) as [->|[-> _]]; [by rewrite replace_c|].
    by eapply Forall_forall in H3.
  - intros v [Hv| ->]%elem_of_snoc.
    + destruct (H4 v Hv) as (y & Hy & Hry). exists y. split; [|done].
      apply list_elem_of_fmap. exists y. split; [|done].
      destruct (replace_other y Hy) as [->|[-> _]]; [|done]. destruct Hd.
      rewrite <-Hk, (fulfils_key _ _ _ Hry). by apply list_elem_of_fmap_2.
    + exists (f c). split; [|done]. apply list_elem_of_fmap. exists c. by rewrite replace_c.
  - intros d Hd' Hn. rewrite elem_of_fmap_snoc in Hn. apply list_elem_of_fmap.
    exists d. assert (d ∈ l) as Hdl by (apply H5; tauto). split; [|done].
    destruct (replace_other d Hdl) as [->|[-> _]]; [|done]. tauto.
  - intros y (x & -> & Hx)%list_elem_of_fmap. rewrite elem_of_fmap_snoc.
    destruct (replace_other x Hx) as [->|[-> Hne]]; [rewrite replace_c; tauto|].
    assert (key x ≠ key u) as Hxu.
    { intros Heq. apply Hne, (NoDup_fmap_inj_in key l); [done..|congruence]. }
    destruct (H6 x Hx); tauto.
Qed.
End update.

(** Deleting the service that had the wanted key. *)
Lemma progress_delete kept done l u c :
  progress kept done l → c ∈ l → key c = key u → key u ∉ key <$> done →
  let l' := filter (λ x, lbs_ID x ≠ lbs_ID c) l in
  key u ∉ key <$> l' ∧ progress (filter (λ x, key x ≠ key u) kept) done l'.
Proof.
  intros [H1 H2 H3 H4 H5 H6] Hc Hk Hd l'.
  assert (∀ x, x ∈ l' ↔ x ∈ l ∧ lbs_ID x ≠ lbs_ID c) as Hl'.
  { intros x. unfold l'. rewrite list_elem_of_filter. tauto. }
  assert (∀ x, x ∈ l → key x = key u → x = c) as Hkey.
  { intros x Hx Hxk. apply (NoDup_fmap_inj_in key l); [done..|congruence]. }
  assert (∀ x, x ∈ l → lbs_ID x = lbs_ID c → x = c) as Hids.
  { intros x Hx Hxk. by apply (NoDup_fmap_inj_in lbs_ID l). }
  split.
  - intros (x & Hx & [Hxl Hne]%Hl')%list_elem_of_fmap. apply Hne. f_equal. by apply Hkey.
  - split.
    + by apply NoDup_fmap_filter.
    + by apply NoDup_fmap_filter.
    + apply Forall_forall. intros x [Hx _]%Hl'. by eapply Forall_forall in H3.
    + intros v Hv. destruct (H4 v Hv) as (y & Hy & Hr). exists y. split; [|done].
      apply Hl'. split; [done|]. intros Heq%Hids; [|done]. subst y. destruct Hd.
      rewrite <-Hk, (fulfils_key _ _ _ Hr). by apply list_elem_of_fmap_2.
    + intros d [Hdu Hdk]%list_elem_of_filter Hn. apply Hl'. split; [by apply H5|].
      intros Heq. apply Hdu. rewrite (Hids d); [done|by apply H5|done].
    + intros x [Hx Hne]%Hl'. destruct (H6 x Hx) as [?|[? ?]]; [by left|right].
      split; [|done]. apply list_elem_of_filter. split; [|done].
      intros Hxu. apply Hne. by rewrite (Hkey x).
Qed.

Lemma progress_with_ID kept done l u id :
  progress kept (done ++ [with_ID u id]) l → progress kept (done ++ [u]) l.
Proof.
  intros [H1 H2 H3 H4 H5 H6]. split; try done.
  - intros v [Hv| ->]%elem_of_snoc; [apply H4, elem_of_snoc; by left|].
    destruct (H4 (with_ID u id)) as (x & Hx & []); [apply elem_of_snoc; by right|by exists x].
  - intros c Hc. specialize (H5 c Hc). by rewrite fmap_app in H5 |- *.
  - intros x Hx. specialize (H6 x Hx). by rewrite fmap_app in H6 |- *.
Qed.

(** Once a service is realised, what the first loop kept under its key does not
    matter. *)
Lemma progress_kept kept done l u :
  progress (filter (λ x, key x ≠ key u) kept) (done ++ [u]) l → progress kept (done ++ [u]) l.
Proof.
  intros [H1 H2 H3 H4 H5 H6]. split; try done.
  - intros c Hc Hn. apply H5; [|done]. apply list_elem_of_filter. split; [|done].
    intros Heq. apply Hn. rewrite elem_of_fmap_snoc. by right.
  - intros x Hx. destruct (H6 x Hx) as [?|[[_ ?]%list_elem_of_filter ?]]; [by left|by right].
Qed.

(** ** The calls *)

Section nlb.
Context (base : LoadBalancer).

(** The NLB holds the services [l], the rest of it as in [base]. *)
Definition has (l : list LoadBalancerService) (s : S) : Prop :=
  view s (lb_ID base) = Some (with_Services base l).

Lemma triple_get {A} l (k : LoadBalancer → prog ccmE (result A)) (I : A → S → Prop) :
  (∀ lb, lb = with_Services base l → triple R (has l) (k lb) (else_blame I)) →
  triple R (has l) (try_bind (exo p (ApiGetLoadBalancer (lb_ID base))) k)
    (else_blame I).
Proof.
  intros Hk. apply triple_call with (M := λ lb s, lb = with_Services base l ∧ has l s).
  - intros s lb s' Hs Hr. destruct (server_get _ _ _ _ Hr) as [Hv Hv']. unfold has in *.
    split; congruence.
  - intros s e s' Hs Hr Hrel. destruct (Hrel _ _ _ Hs) as (Hg & _). by specialize (Hg _ _ Hr).
  - intros lb. apply triple_pure. apply Hk.
Qed.

Lemma triple_delete {A} l sid (k : Operation → prog ccmE (result A)) (I : A → S → Prop) :
  sid ∈ lbs_ID <$> l →
  (∀ op, triple R (has (filter (λ x, lbs_ID x ≠ sid) l)) (k op) (else_blame I)) →
  triple R (has l) (try_bind (exo p (ApiDeleteLoadBalancerService (lb_ID base) sid)) k)
    (else_blame I).
Proof.
  intros Hsid Hk. apply triple_call with (M := λ _, has (filter (λ x, lbs_ID x ≠ sid) l)).
  - intros s op s' Hs Hr. by apply (server_delete _ _ _ _ _ _ Hs) in Hr.
  - intros s e s' Hs Hr Hrel. destruct (Hrel _ _ _ Hs) as (_ & _ & _ & Hd & _).
    by specialize (Hd _ _ _ Hr Hsid).
  - done.
Qed.

(** Adding a service and finding it again by name. *)
Lemma triple_create kept done l u :
  lb_ID nlb = lb_ID base → sendable u → progress kept done l → key u ∉ key <$> l →
  triple R (has l) (createService p nlb u)
    (else_blame (λ _ s, ∃ l, progress kept (done ++ [u]) l ∧ has l s)).
Proof.
  intros Hid (Hn & _ & _ & _ & _ & [h Hh] & [pid Hpool]) Hpr Hk. unfold createService.
  rewrite Hpool, Hid.
  apply triple_call with (M := λ _ s,
    ∃ l', (progress kept (done ++ [u]) l' ∧ ∃ x, x ∈ l' ∧ lbs_Name x = lbs_Name u) ∧ has l' s).
  - intros s op s' Hs Hr.
    destruct (server_add _ _ _ _ _ _ Hs Hr) as (x & l' & Hx & Hfresh & Hperm & Hv).
    exists l'. split; [|done].
    destruct Hx as (X1 & X2 & X3 & X4 & X5 & X6 & X7 & X8). simpl in *. rewrite Hh in X2.
    destruct X2 as (h' & X2 & Ha).
    split; [|exists x; rewrite Hperm; split; [by left|done]].
    eapply progress_perm; [by symmetry|]. apply progress_add; [done..| | |done].
    + split; try done; [by rewrite Hpool|by exists h, h'|by left].
    + by exists pid.
  - intros s e s' Hs Hr Hrel. destruct (Hrel _ _ _ Hs) as (_ & _ & Ha & _).
    by specialize (Ha _ _ _ Hr Hn Hk).
  - intros _. apply triple_ex. intros l'. apply triple_pure. intros [Hpr' (x & Hx & Hxn)].
    apply triple_get. intros lb ->. simpl.
    destruct (find_last _ l') as [y|] eqn:Hf.
    + apply find_last_Some in Hf as [_ Hy%bool_decide_eq_true]. simpl.
      rewrite bool_decide_eq_false_2 by congruence. apply triple_ret. intros s Hs. by exists l'.
    + apply find_last_None in Hf. eapply Forall_forall in Hf; [|done].
      by apply bool_decide_eq_false in Hf.
Qed.

(** ** The loops *)

Section loops.
Context (service : Service) (desired : LoadBalancer).
Context (Hwf : nlb_wf nlb).
Context (Hbase : lb_ID nlb = lb_ID base) (Hdesired : lb_ID desired = lb_ID base).
Context (Hkeys : NoDup (key <$> lb_Services desired)).
Context (Hsend : Forall sendable (lb_Services desired)).

(** What the first loop leaves in the NLB. *)
Definition left_over (x : LoadBalancerService) : Prop :=
  isExternal service = true ∨ wanted desired (key x).

Definition collecting (pre : list LoadBalancerService) : list LoadBalancerService :=
  filter (λ x, left_over x ∨ x ∉ pre) (lb_Services nlb).

Lemma collecting_kept pre c : left_over c → collecting (pre ++ [c]) = collecting pre.
Proof.
  intros Hc. apply list_filter_iff. intros x. rewrite elem_of_snoc.
  destruct (decide (x = c)) as [->|]; tauto.
Qed.

Lemma collecting_deleted pre c :
  c ∈ lb_Services nlb → ¬ left_over c →
  filter (λ x, lbs_ID x ≠ lbs_ID c) (collecting pre) = collecting (pre ++ [c]).
Proof.
  intros Hin Hc. unfold collecting. rewrite list_filter_filter. apply filter_ext_in.
  intros x Hx. rewrite elem_of_snoc.
  assert (lbs_ID x = lbs_ID c ↔ x = c) as ->.
  { split; [|by intros ->]. by apply (NoDup_fmap_inj_in lbs_ID (lb_Services nlb)); [apply Hwf|..]. }
  destruct (decide (x = c)) as [->|]; tauto.
Qed.

Lemma collecting_all : collecting (lb_Services nlb) = filter left_over (lb_Services nlb).
Proof. apply filter_ext_in. intros x Hx. tauto. Qed.

Lemma triple_collect :
  triple R (has (lb_Services nlb)) (forM (lb_Services nlb) ∅ (collectService p service nlb desired))
    (else_blame (λ m s, collects desired (lb_Services nlb) m ∧
                        has (filter left_over (lb_Services nlb)) s)).
Proof.
  set (J pre m s := collects desired pre m ∧ has (collecting pre) s).
  eapply triple_conseq.
  { apply triple_forM with (I := J) (Q := else_blame (J (lb_Services nlb))); [|by intros].
    intros pre c post m Hl. apply triple_pure. intros Hm.
    assert (lb_Services nlb = (pre ++ [c]) ++ post) as Hl' by (by rewrite <-app_assoc).
    assert (c ∈ lb_Services nlb) as Hc by (rewrite Hl'; set_solver).
    pose proof (wf_keys _ Hwf) as Hnd. rewrite Hl', fmap_app, NoDup_app in Hnd.
    unfold collectService. destruct (existsb _ _) eqn:Hw.
    { apply existsb_wanted in Hw. apply triple_ret. intros s Hs. simpl.
      split; [apply collects_wanted; tauto|]. rewrite collecting_kept; [done|by right]. }
    rewrite <-not_true_iff_false, existsb_wanted in Hw.
    destruct (isExternal service) eqn:Hx.
    { apply triple_ret. intros s Hs. simpl. split; [by apply collects_unwanted|].
      rewrite collecting_kept; [done|by left]. }
    assert (¬ left_over c) as Hleft by (unfold left_over; rewrite Hx; naive_solver).
    rewrite Hbase. eapply triple_conseq; [apply triple_delete with (l := collecting pre)
      (I := λ m s, collects desired (pre ++ [c]) m ∧ has (collecting (pre ++ [c])) s)|done|].
    - apply list_elem_of_fmap_2, list_elem_of_filter. split; [right|done].
      intros Hpre. destruct Hnd as (Hnd & _). rewrite fmap_app, NoDup_app in Hnd.
      destruct Hnd as (_ & Hdis & _). apply (Hdis (key c)); [by apply list_elem_of_fmap_2|].
      csimpl. by left.
    - intros op. rewrite collecting_deleted by done. apply triple_ret.
      intros s Hs. simpl. split; [by apply collects_unwanted|done].
    - by intros [[?|?]|?] s. }
  - intros s Hs. split; [apply collects_nil|]. unfold collecting.
    rewrite filter_all; [done|]. intros x _. right. by intros ?%elem_of_nil.
  - unfold J. rewrite collecting_all. by intros.
Qed.

Definition reconciled (done : list LoadBalancerService) (s : S) : Prop :=
  ∃ l, progress (filter left_over (lb_Services nlb)) done l ∧ has l s.

Section step.
Context (m : gmap ServiceKey LoadBalancerService) (Hm : collects desired (lb_Services nlb) m).
Context (pre : list LoadBalancerService) (u : LoadBalancerService) (post : list LoadBalancerService).
Context (Hl : lb_Services desired = pre ++ u :: post).

Lemma step_in : u ∈ lb_Services desired.
Proof. rewrite Hl. set_solver. Qed.

Lemma step_wanted : wanted desired (key u).
Proof. apply list_elem_of_fmap_2, step_in. Qed.

Lemma step_fresh : key u ∉ key <$> pre.
Proof.
  pose proof Hkeys as Hnd. rewrite Hl, fmap_app, NoDup_app in Hnd.
  destruct Hnd as (_ & Hdis & _). intros Hin. apply (Hdis _ Hin). csimpl. by left.
Qed.

Lemma step_sendable : sendable u.
Proof. pose proof Hsend as H. eapply Forall_forall in H; [done|apply step_in]. Qed.

Lemma step_new l :
  m !! key u = None → progress (filter left_over (lb_Services nlb)) pre l → key u ∉ key <$> l.
Proof.
  intros Hnone Hpr (x & Hk & Hx)%list_elem_of_fmap.
  destruct (pr_only _ _ _ Hpr x Hx) as [Hin|[[_ Hin]%list_elem_of_filter _]].
  - apply step_fresh. by rewrite Hk.
  - assert (m !! key u = Some x); [|congruence].
    apply Hm. split_and!; [done|done|apply step_wanted].
Qed.

Lemma step_present cur l :
  m !! key u = Some cur → progress (filter left_over (lb_Services nlb)) pre l →
  cur ∈ lb_Services nlb ∧ key cur = key u ∧ cur ∈ l.
Proof.
  intros (Hin & Hk & Hw)%Hm Hpr. split_and!; [done..|].
  apply (pr_kept _ _ _ Hpr); [|rewrite Hk; apply step_fresh].
  apply list_elem_of_filter. split; [|done]. right. by rewrite Hk.
Qed.

Lemma step_pool cur :
  cur ∈ lb_Services nlb → pool_ID cur = pool_ID u → lbs_InstancePool cur = lbs_InstancePool u.
Proof.
  intros Hin. pose proof (wf_pools _ Hwf) as Hp. eapply Forall_forall in Hp as [id Hid]; [|done].
  destruct step_sendable as (_ & _ & _ & _ & _ & _ & [id' Hid']).
  unfold pool_ID. rewrite Hid, Hid'. simpl. by intros ->.
Qed.

(** What the API makes of the update request is what was desired. *)
Lemma step_patched cur y :
  cur ∈ lb_Services nlb → key cur = key u → pool_ID cur = pool_ID u →
  patched (update_request (with_ID u (lbs_ID cur))) cur y →
  fulfils nlb u y ∧ lbs_ID y = lbs_ID cur.
Proof.
  intros Hin Hk Hp. destruct step_sendable as (Sn & Ss & Sp & Spo & St & [h Sh] & _).
  unfold patched, sent, sentZ. simpl.
  rewrite Sh, (bool_decide_eq_false_2 _ Sn), (bool_decide_eq_false_2 _ Ss),
    (bool_decide_eq_false_2 _ Sp), (bool_decide_eq_false_2 _ Spo), (bool_decide_eq_false_2 _ St).
  intros (Hd & (h' & Hh' & Ha) & Hid & Hpool & ? & ? & ? & ? & ?). split; [|done]. split; try done.
  - rewrite Hpool. by apply step_pool.
  - by exists h, h'.
  - case_bool_decide as He; [right|by left]. split; [done|]. by exists cur.
Qed.

Lemma step_realised cur l (f : LoadBalancerService → LoadBalancerService) :
  progress (filter left_over (lb_Services nlb)) pre l →
  cur ∈ lb_Services nlb → cur ∈ l → key cur = key u → pool_ID cur = pool_ID u →
  fulfils nlb u (f cur) → lbs_ID (f cur) = lbs_ID cur →
  progress (filter left_over (lb_Services nlb)) (pre ++ [u]) (replace cur f <$> l).
Proof.
  intros Hpr Hin Hcl Hk Hp Hf Hid. pose proof (ful_pool _ _ _ Hf) as Hpool.
  apply progress_update with (u := u); [done..| |apply step_fresh].
  - destruct step_sendable as (_ & _ & _ & _ & _ & _ & [id' Hid']). exists id'. by rewrite Hpool.
Qed.

Lemma triple_reconcile :
  triple R (reconciled pre) (reconcileService p nlb desired m () u)
    (else_blame (λ _, reconciled (pre ++ [u]))).
Proof.
  apply triple_ex. intros l. apply triple_pure. intros Hpr.
  unfold reconcileService. destruct (m !! key u) as [cur|] eqn:Hcur.
  2:{ apply triple_create; [done|apply step_sendable|done|by apply step_new]. }
  destruct (step_present _ _ Hcur Hpr) as (Hin & Hk & Hcl).
  assert (pool_ID (with_ID u (lbs_ID cur)) = pool_ID u) as -> by done.
  destruct (decide (pool_ID cur = pool_ID u)) as [Hp|Hp].
  - rewrite bool_decide_eq_false_2 by auto.
    destruct (isLoadBalancerServiceUpdated _ _) eqn:Hup.
    + rewrite Hdesired.
      apply triple_call with (M := λ _, reconciled (pre ++ [u])).
      * intros s op s' Hs Hr. destruct (server_update_service _ _ _ _ _ _ _ Hs Hr) as (f & Hf & Hv).
        exists (replace cur f <$> l). split; [|done].
        destruct (step_patched cur (f cur) Hin Hk Hp (Hf cur)). by apply step_realised.
      * intros s e s' Hs Hr Hrel. destruct (Hrel _ _ _ Hs) as (_ & _ & _ & _ & Hu).
        by specialize (Hu _ _ _ _ Hr (list_elem_of_fmap_2 _ _ _ Hcl)).
      * intros op. apply triple_ret. by intros.
    + apply isLoadBalancerServiceUpdated_false in Hup.
      apply triple_ret. intros s Hs. exists (replace cur id <$> l). split.
      { apply step_realised; [done..| |done]. apply realises_fulfils; [apply step_sendable|done]. }
      assert (replace cur id <$> l = l) as ->; [|done].
      rewrite <-(list_fmap_id l) at 2. apply list_fmap_ext. intros i x _.
      unfold replace. destruct (decide _); reflexivity.
  - rewrite bool_decide_eq_true_2, Hbase by done. apply triple_wrap.
    destruct (progress_delete _ _ _ _ _ Hpr Hcl Hk step_fresh) as [Hnew Hpr'].
    apply triple_delete; [by apply list_elem_of_fmap_2|]. intros op.
    eapply triple_conseq; [apply triple_create with (u := with_ID u (lbs_ID cur)); [done| |done..]|done|].
    + apply step_sendable.
    + intros [[[]|e]|h] s; [|done..]. intros (l' & Hl' & Hs). exists l'. split; [|done].
      eapply progress_kept, progress_with_ID. done.
Qed.
End step.

Lemma progress_start :
  progress (filter left_over (lb_Services nlb)) [] (filter left_over (lb_Services nlb)).
Proof.
  destruct Hwf as [H1 H2 H3]. split.
  - by apply NoDup_fmap_filter.
  - by apply NoDup_fmap_filter.
  - apply Forall_forall. intros x [_ Hx]%list_elem_of_filter. by eapply Forall_forall in H3.
  - by intros u ?%elem_of_nil.
  - by intros.
  - intros x Hx. right. split; [done|]. by intros ?%elem_of_nil.
Qed.

Lemma triple_loops :
  triple R (has (lb_Services nlb))
    (nlbServices ←? forM (lb_Services nlb) ∅ (collectService p service nlb desired);
     forM (lb_Services desired) () (reconcileService p nlb desired nlbServices))
    (else_blame (λ _, reconciled (lb_Services desired))).
Proof.
  eapply triple_try_bind; [apply triple_collect|..]; [|done..].
  intros m. apply triple_pure. intros Hm.
  eapply triple_conseq.
  { apply triple_forM with (I := λ done _, reconciled done)
      (Q := else_blame (λ _, reconciled (lb_Services desired))); [|by intros].
    intros pre u post [] Hl. eapply triple_conseq; [by eapply triple_reconcile|done|].
    by intros [[[]|e]|h] s. }
  - intros s Hs. exists (filter left_over (lb_Services nlb)). split; [apply progress_start|done].
  - done.
Qed.

Lemma reconciled_in_sync s :
  lb_Name base = (if isExternal service then lb_Name nlb else lb_Name desired) →
  lb_Description base = lb_Description nlb → lb_IP base = lb_IP nlb →
  reconciled (lb_Services desired) s →
  ∃ nlb', view s (lb_ID desired) = Some nlb' ∧ in_sync (isExternal service) desired nlb nlb'.
Proof.
  intros Hname Hdescr Hip (l & [H1 H2 H3 H4 H5 H6] & Hs). exists (with_Services base l).
  rewrite Hdesired. split; [done|]. split; simpl; try done.
  - intros x Hx Hw. destruct (H6 x Hx) as [?|[[Hk ?]%list_elem_of_filter _]]; [done|].
    by destruct Hk.
  - intros x Hx Hin Hw. apply H5; [|done]. apply list_elem_of_filter. split; [by left|done].
Qed.
End loops.
End nlb.
End progressing.

Lemma triple_updateLoadBalancer service desired nlb
    (Hbuild : buildLoadBalancerFromAnnotations service = Ok desired)
    (Hid : lb_ID desired ≠ "") (Hname : lb_Name desired ≠ "")
    (Hports : NoDup (port_id <$> svc_Ports service))
    (Hsend : Forall sendable (lb_Services desired)) (Hwf : nlb_wf nlb) :
  triple R (λ s, view s (lb_ID desired) = Some nlb) (updateLoadBalancer p service)
    (else_blame (λ _ s, ∃ nlb', view s (lb_ID desired) = Some nlb' ∧
       in_sync (isExternal service) desired nlb nlb')).
Proof.
  unfold updateLoadBalancer. rewrite Hbuild, try_bind_Ok, bool_decide_eq_false_2 by done.
  assert (NoDup (key <$> lb_Services desired)) as Hkeys by by eapply build_keys_NoDup.
  intros s0 o s' Hs0. pose proof (server_id _ _ _ Hs0) as Hlb. revert s0 o s' Hs0.
  assert (∀ base, lb_ID base = lb_ID nlb → lb_Description base = lb_Description nlb →
    lb_IP base = lb_IP nlb →
    lb_Name base = (if isExternal service then lb_Name nlb else lb_Name desired) →
    triple R (has base (lb_Services nlb))
      (nlbServices ←? forM (lb_Services nlb) ∅ (collectService p service nlb desired);
       forM (lb_Services desired) () (reconcileService p nlb desired nlbServices))
      (else_blame (λ _ s, ∃ nlb', view s (lb_ID desired) = Some nlb' ∧
         in_sync (isExternal service) desired nlb nlb'))) as Hloops.
  { intros base Hbid Hbd Hbi Hbn. eapply triple_conseq;
      [apply triple_loops with (base := base) (service := service); [done|congruence..|done|done]
      |done|].
    intros [[[]|e]|h] s Ho; [|done..]. apply (reconciled_in_sync nlb base); congruence || done. }
  assert (nlb = with_Services nlb (lb_Services nlb)) as Hnlb by by destruct nlb.
  apply triple_call with (M := λ lb s, lb = nlb ∧ view s (lb_ID desired) = Some nlb).
  { intros s lb s' Hs Hr. destruct (server_get _ _ _ _ Hr) as [Hv Hv']. split; congruence. }
  { intros s e s' Hs Hr Hrel. destruct (Hrel _ _ _ Hs) as (Hg & _). by specialize (Hg _ _ Hr). }
  intros lb. apply triple_pure. intros ->. unfold applyUpdate.
  destruct (negb (isExternal service) && isLoadBalancerUpdated nlb desired) eqn:Hup.
  - apply andb_true_iff in Hup as [Hx%negb_true_iff _].
    set (req := {| ulr_Name := _; ulr_Description := _; ulr_Labels := _ |}).
    eapply triple_try_bind; [apply triple_call with (I := λ _, has (renamed req nlb) (lb_Services nlb))
      (M := λ _, has (renamed req nlb) (lb_Services nlb))|..]; [| |by intros; apply triple_ret|..].
    + intros s op s' Hs Hr. apply (server_update _ _ _ _ _ _ Hs) in Hr.
      unfold has. simpl. by rewrite Hlb.
    + intros s e s' Hs Hr Hrel. destruct (Hrel _ _ _ Hs) as (_ & Hu & _).
      by specialize (Hu _ _ _ Hr).
    + intros []. apply Hloops; [done| |done|].
      * simpl. unfold sent. by case_bool_decide.
      * rewrite Hx. simpl. unfold sent. by rewrite bool_decide_eq_false_2.
    + done.
    + done.
  - rewrite try_bind_Ok. eapply triple_conseq; [apply (Hloops nlb); [done..|]|..]; [| |done].
    + destruct (isExternal service); [done|].
      by apply isLoadBalancerUpdated_false in Hup as [? _].
    + intros s Hs. unfold has. by rewrite Hlb, <-Hnlb.
Qed.

(** C2: reconciling converges. When the Service asks for distinct ports and leaves
    no required field empty, and the services of the NLB have distinct IDs and
    ports and an Instance Pool each, [updateLoadBalancer] either brings the NLB to
    [in_sync] with what the Service asks for or fails because the API refused a
    well-formed request. In sync, each port is served by exactly one service with
    the settings asked for; every other service is deleted, or left alone when the
    NLB is external; and the NLB has the name asked for, unless it is external.
    Three things are not brought about: the description of the NLB stays as it
    was; a service for which no description is asked keeps the one it had; and a
    setting of the health check that is zero or empty is left to the API. *)
Theorem update_converges service desired nlb
    (Hbuild : buildLoadBalancerFromAnnotations service = Ok desired)
    (Hid : lb_ID desired ≠ "") (Hname : lb_Name desired ≠ "")
    (Hports : NoDup (port_id <$> svc_Ports service))
    (Hsend : Forall sendable (lb_Services desired)) (Hwf : nlb_wf nlb) :
  triple R (λ s, view s (lb_ID desired) = Some nlb) (updateLoadBalancer p service)
    (else_blame (λ _ s, ∃ nlb', view s (lb_ID desired) = Some nlb' ∧
       in_sync (isExternal service) desired nlb nlb')).
Proof. by apply triple_updateLoadBalancer. Qed.

Lemma in_sync_synced external desired nlb nlb' :
  in_sync external desired nlb nlb' →
  ¬ clears_description desired nlb → Forall complete (lb_Services desired) →
  external = true ∨ lb_Description nlb = lb_Description desired →
  synced external desired nlb'.
Proof.
  intros [[_ Hk _] Hr Ho _ Hn Hd _] Hcl Hco Hext. split_and!; [done| |].
  - intros u Hu. destruct (Hr u Hu) as (x & Hx & Hf). exists x. split; [done|].
    eapply Forall_forall in Hco; [|done]. by eapply fulfils_realises.
  - destruct external; [by left|right]. destruct Hext as [|Hext]; [done|].
    split_and!; [done|congruence|]. intros x Hx. apply dec_stable. intros Hw.
    by destruct (Ho x Hx Hw).
Qed.

End convergence.
