(* ===== verification/Lifecycle.v ===== *)
(** The life of an NLB: against an API server that also creates and deletes NLBs
    ([NLBLifecycle]), [EnsureLoadBalancer] leaves behind the NLB the Service
    asks for, [EnsureLoadBalancerDeleted] removes what serves the Service, and
    the one after the other leaves nothing. *)
From S2P Require Import Prelude GoErrors GoStrings GoNet Effects Egoscale Kube CloudConfig.
From S2P Require Import LoadBalancerSpec LoadBalancerSpecProps LoadBalancer LoadBalancerSafety.
From S2P Require Import Reconcile.
#[local] Open Scope Z_scope.

(** ** The API *)

(** The calls that may change the NLB [id]. *)
Definition affects (id : UUID) {X} (e : ccmE X) : Prop :=
  match e with
  | ExoCall (ApiCreateLoadBalancer _) => True
  | ExoCall (ApiUpdateLoadBalancer id' _) | ExoCall (ApiDeleteLoadBalancer id')
  | ExoCall (ApiAddServiceToLoadBalancer id' _) | ExoCall (ApiDeleteLoadBalancerService id' _)
  | ExoCall (ApiUpdateLoadBalancerService id' _ _) => id' = id
  | _ => False
  end.

Class NLBLifecycle {S : Type} (R : handler ccmE S) (view : S → UUID → option LoadBalancer) :
    Prop := {
  lifecycle_server :: NLBServer R view;
  server_create s req op s' : R _ (ExoCall (ApiCreateLoadBalancer req)) s (Ok op) s' →
    ∃ id lb, op_Reference op = Some id ∧ id ≠ "" ∧ view s id = None ∧ view s' id = Some lb ∧
      lb_Name lb = clr_Name req ∧ lb_Description lb = clr_Description req ∧ lb_Services lb = [] ∧
      ∀ id', id' ≠ id → view s' id' = view s id';
  server_remove s id op s' : R _ (ExoCall (ApiDeleteLoadBalancer id)) s (Ok op) s' →
    view s' id = None;
  server_frame id X (e : ccmE X) s x s' : ¬ affects id e → R _ e s x s' → view s' id = view s id;
}.

(** ** Services the handlers can serve *)

(** Distinct, allocated ports, and no annotation that empties a field the API
    requires. *)
Record well_posed (service : Service) : Prop := {
  posed_ports : NoDup (port_id <$> svc_Ports service);
  posed_allocated : Forall (λ sp, sp_Port sp ≠ 0 ∧ sp_NodePort sp ≠ 0) (svc_Ports service);
  posed_strategy : annotation service annotationLoadBalancerServiceStrategy ≠ Some "";
  posed_name : annotation service annotationLoadBalancerName ≠ Some "";
  posed_service_name : annotation service annotationLoadBalancerServiceName ≠ Some "";
}.

Lemma resolved_from_ports s s' : resolved_from s s' → svc_Ports s' = svc_Ports s.
Proof. intros [<- _]. done. Qed.

Lemma well_posed_resolved s s' : resolved_from s s' → well_posed s → well_posed s'.
Proof.
  intros Hr [H1 H2 H3 H4 H5]. pose proof Hr as [_ Ha].
  split; rewrite ?(resolved_from_ports _ _ Hr), ?Ha; done.
Qed.

Lemma getAnnotation_nonempty service k d :
  annotation service k ≠ Some "" → d ≠ "" → getAnnotation service k d ≠ "".
Proof.
  rewrite getAnnotation_spec. destruct (annotation service k); simpl; [congruence|done].
Qed.

Lemma app_nonempty_r s t : t ≠ "" → s +:+ t ≠ "".
Proof. by destruct s. Qed.

Section well_posed.
Context {unicode : UnicodeTables}.

Lemma buildService_sendable service i t r sp u :
  well_posed service → sp ∈ svc_Ports service → buildService service i t r sp = Ok u → sendable u.
Proof.
  intros Hwp Hsp Hb. pose proof (buildService_Ok _ _ _ _ _ _ Hb) as
    (Hpr & (hc & _ & Hhc) & Hport & Htarget & Hproto & _ & Hpool & _).
  pose proof (posed_allocated _ Hwp) as Hall. eapply Forall_forall in Hall as [Hp Hn]; [|done].
  assert (svcName service sp ≠ "") as Hname.
  { unfold svcName. apply app_nonempty_r. by destruct (pretty (sp_Port sp)). }
  unfold sendable. rewrite Hport, Htarget, Hproto, Hhc. split_and!; [| | |done..| |].
  - unfold buildService in Hb. apply result_bind_Ok in Hb as (h & _ & Hb).
    case_match; [done|]. injection Hb as <-. simpl. case_bool_decide; [|done].
    apply getAnnotation_nonempty; [apply Hwp|done].
  - unfold buildService in Hb. apply result_bind_Ok in Hb as (h & _ & Hb).
    case_match; [done|]. injection Hb as <-. simpl.
    apply getAnnotation_nonempty; [apply Hwp|done].
  - by destruct Hpr as [-> | ->].
  - done.
  - by eexists.
Qed.

Lemma build_sendable service lb :
  well_posed service → buildLoadBalancerFromAnnotations service = Ok lb →
  Forall sendable (lb_Services lb) ∧ lb_Name lb ≠ "".
Proof.
  intros Hwp (i & t & r & _ & Hall & _ & Hname & _)%build_Ok. split.
  - apply Forall_forall. intros u [k Hu]%list_elem_of_lookup.
    destruct (Forall2_lookup_r _ _ _ _ _ Hall Hu) as (sp & Hsp & Hb).
    eapply buildService_sendable; [done| |done]. by eapply list_elem_of_lookup_2.
  - rewrite Hname. apply getAnnotation_nonempty; [apply Hwp|done].
Qed.

Lemma EqualFold_protocol sp sp' :
  supported_protocol sp → supported_protocol sp' →
  EqualFold (ToLower (sp_Protocol sp)) (sp_Protocol sp') = bool_decide (sp_Protocol sp = sp_Protocol sp').
Proof. by intros [-> | ->] [-> | ->]. Qed.

(** A service with a wanted key is matched by exactly the port it is wanted for. *)
Lemma wanted_matched service desired x :
  buildLoadBalancerFromAnnotations service = Ok desired →
  NoDup (port_id <$> svc_Ports service) → wanted desired (key x) → matches service x = 1%nat.
Proof.
  intros (i & t & r & _ & Hall & _)%build_Ok Hnd (u & Hk & [k Hu]%list_elem_of_lookup)%list_elem_of_fmap.
  destruct (Forall2_lookup_r _ _ _ _ _ Hall Hu) as (sp & Hsp%list_elem_of_lookup_2 & Hb).
  rewrite (buildService_key _ _ _ _ _ _ Hb) in Hk. unfold key in Hk. injection Hk as Hp Hpr.
  assert (∀ sp', sp' ∈ svc_Ports service → supported_protocol sp') as Hsup.
  { intros sp' [j Hj]%list_elem_of_lookup. destruct (Forall2_lookup_l _ _ _ _ _ Hall Hj) as (y & _ & Hy).
    by apply buildService_Ok in Hy as [? _]. }
  assert (∀ sp', sp' ∈ svc_Ports service → portMatches x sp' = true ↔ port_id sp = port_id sp') as Hm.
  { intros sp' Hsp'. unfold portMatches. rewrite Hp, Hpr, EqualFold_protocol by auto.
    rewrite andb_true_iff, !bool_decide_eq_true. unfold port_id. split; [|by intros [= -> ->]].
    by intros [-> ->]. }
  assert (0 < matches service x)%nat as Hpos.
  { unfold matches. assert (sp ∈ filter (λ sp, portMatches x sp = true) (svc_Ports service)) as Hin.
    { apply list_elem_of_filter. split; [by apply Hm|done]. }
    destruct (filter _ _); [by apply elem_of_nil in Hin|simpl; lia]. }
  assert (matches service x ≤ 1)%nat; [|lia].
  apply (length_filter_key port_id); [done|]. intros a b Ha Hb' Hma Hmb.
  rewrite Hm in Hma, Hmb by done. congruence.
Qed.
End well_posed.

Section lifecycle.
Context {unicode : UnicodeTables} {patchlib : PatchLib} {S : Type} (R : handler ccmE S).
Context (view : S → UUID → option LoadBalancer) {server : NLBLifecycle R view}.
Context (p : cloudProvider).

(** ** Rules for Service-threading code *)

Lemma triple_svc_bind {A B} (f : Service → A → svc_prog B) (m : svc_prog A) P Q
    (M : outcome (Service * result A) → S → Prop) :
  triple R P m M →
  (∀ s a, triple R (M (Returned (s, Ok a))) (f s a) Q) →
  (∀ s e st, M (Returned (s, Err e)) st → Q (Returned (s, Err e)) st) →
  (∀ h st, M (Halted h) st → Q (Halted h) st) →
  triple R P (svc_bind m f) Q.
Proof.
  intros Hm Hf He Hh. eapply triple_bind; [done| |done].
  intros [s [a|e]]; simpl; [apply Hf|]. apply triple_ret. auto.
Qed.

Lemma triple_keep {A} service (m : prog ccmE (result A)) P (Q : outcome (Service * result A) → S → Prop) :
  triple R P m (λ o st, match o with
                        | Returned r => Q (Returned (service, r)) st
                        | Halted h => Q (Halted h) st
                        end) →
  triple R P (keep service m) Q.
Proof. intros Hm. eapply triple_bind; [done| |done]. intros r. by apply triple_ret. Qed.

Lemma triple_exo {X} (e : exoE X) (P : S → Prop) (Q : outcome X → S → Prop) :
  (∀ st x st', P st → R _ (ExoCall e) st x st' → Q (Returned x) st') →
  (∀ st, P st → Q (Halted NilDeref) st) →
  triple R P (exo p e) Q.
Proof.
  intros HQ Hh. unfold exo. destruct (p_client p); [|by apply triple_halt].
  eapply triple_vis with (M := λ x, Q (Returned x)); [done|]. intros x. by apply triple_ret.
Qed.

(** ** Frames *)

(** The NLBs but [id] are as in [v0]. *)
Definition others_as (v0 : UUID → option LoadBalancer) (id : UUID) (st : S) : Prop :=
  ∀ id', id' ≠ id → view st id' = v0 id'.

(** All the NLBs are. *)
Definition all_as (v0 : UUID → option LoadBalancer) (st : S) : Prop := ∀ id, view st id = v0 id.

Lemma triple_reading {A} (C : ∀ X, ccmE X → Prop) Q v0 (m : prog ccmE A) :
  ensures C Q m → (∀ X (e : ccmE X) id, C X e → ¬ affects id e) →
  triple R (all_as v0) m (λ o st, Q o ∧ all_as v0 st).
Proof.
  intros Hm HC. eapply triple_ensures; [done|]. intros X e st x st' He Hst Hr id.
  rewrite (server_frame id _ _ _ _ _ (HC _ _ id He) Hr). apply Hst.
Qed.

Lemma resolving_reads key X (e : ccmE X) id : resolving_call key e → ¬ affects id e.
Proof. destruct e as [? []|? []|]; simpl; tauto. Qed.

Lemma patch_reads key X (e : ccmE X) id : patch_call key e → ¬ affects id e.
Proof. destruct e as [? []|? []|]; simpl; tauto. Qed.

(** An update affects only the NLB it is about. *)
Lemma triple_update_frame service v0 id :
  getAnnotation service annotationLoadBalancerID "" = id →
  triple R (others_as v0 id) (updateLoadBalancer p service) (λ _, others_as v0 id).
Proof.
  intros Hid. unfold updateLoadBalancer.
  destruct (buildLoadBalancerFromAnnotations service) as [desired|] eqn:Hb; [|by apply triple_ret].
  pose proof (build_ID _ _ Hb) as Hdid. rewrite Hid in Hdid. rewrite try_bind_Ok.
  case_bool_decide; [by apply triple_ret|]. rewrite Hdid.
  eapply triple_try_bind with (M := λ o st, others_as v0 id st ∧
    ∀ nlb, o = Returned (Ok nlb) → lb_ID nlb = id); [| |by intros ?? [??]..].
  - apply triple_exo; [|by intros st Hst; split].
    intros st r st' Hst Hr. split.
    + intros id' Hne. rewrite (server_frame id' _ (ExoCall (ApiGetLoadBalancer id)) st r st'); [by apply Hst|tauto|done].
    + intros nlb [= ->]. destruct (server_get _ _ _ _ Hr) as [Hv _]. by eapply server_id.
  - intros nlb. apply triple_conseq with (P' := λ st, lb_ID nlb = id ∧ others_as v0 id st)
      (Q' := λ _, others_as v0 id); [apply triple_pure| |done].
    2:{ intros st [Hst Hn]. split; [by apply Hn|done]. }
    intros Hnlb. eapply triple_conseq; [eapply triple_ensures; [apply ensures_applyUpdate|]|done|].
    + intros X e st x st' He Hst Hr id' Hne.
      rewrite (server_frame id' X e st x st'); [by apply Hst| |done].
      destruct e as [X e|X e|X e]; [|done..].
      destruct e; simpl in He |- *; first [tauto|intros ->; apply Hne; intuition congruence].
    + by intros o st [_ ?].
Qed.

(** ** Finding the NLB, or creating it *)

(** The NLB [id] is [nlb], the others are as in [v0]. *)
Definition serves (v0 : UUID → option LoadBalancer) (id : UUID) (nlb : LoadBalancer) (st : S) :
    Prop :=
  view st id = Some nlb ∧ others_as v0 id st.

Lemma frame_all v0 X (e : ccmE X) st x st' :
  all_as v0 st → R _ e st x st' → (∀ id, ¬ affects id e) → all_as v0 st'.
Proof. intros Hst Hr He id. by rewrite (server_frame id _ _ _ _ _ (He id) Hr). Qed.

Lemma frame_serves v0 id nlb X (e : ccmE X) st x st' :
  serves v0 id nlb st → R _ e st x st' → (∀ id, ¬ affects id e) → serves v0 id nlb st'.
Proof.
  intros [Hv Ho] Hr He. split; [by rewrite (server_frame id _ _ _ _ _ (He id) Hr)|].
  intros id' Hne. rewrite (server_frame id' _ _ _ _ _ (He id') Hr). by apply Ho.
Qed.

Lemma all_serves v0 id nlb st : all_as v0 st → v0 id = Some nlb → serves v0 id nlb st.
Proof. intros Hst Hid. split; [by rewrite Hst|]. by intros id' _. Qed.

(** What creating an NLB for [desired] gives. *)
Definition blank (desired nlb : LoadBalancer) : Prop :=
  lb_Name nlb = lb_Name desired ∧ lb_Description nlb = lb_Description desired ∧
  lb_Services nlb = [].

(** The NLB is the one of [v0] that the Service is annotated with (an external
    one may have been found by name), or a new one for a Service that allows it. *)
Definition obtained (v0 : UUID → option LoadBalancer) (service : Service)
    (desired nlb : LoadBalancer) : Prop :=
  (v0 (lb_ID nlb) = Some nlb ∧
   (isExternal service = true ∨ getAnnotation service annotationLoadBalancerID "" = lb_ID nlb)) ∨
  isExternal service = false ∧ v0 (lb_ID nlb) = None ∧ blank desired nlb.

Definition found (v0 : UUID → option LoadBalancer) (service : Service) (desired : LoadBalancer)
    (o : outcome (Service * result LoadBalancer)) (st : S) : Prop :=
  ∀ s' nlb, o = Returned (s', Ok nlb) →
    resolved_from service s' ∧ getAnnotation s' annotationLoadBalancerID "" = lb_ID nlb ∧
    lb_ID nlb ≠ "" ∧ serves v0 (lb_ID nlb) nlb st ∧ obtained v0 service desired nlb.

Lemma triple_fetch v0 service :
  triple R (all_as v0) (fetchLoadBalancer p service) (λ o st, all_as v0 st ∧
    ∀ nlb, o = Returned (Ok nlb) →
      getAnnotation service annotationLoadBalancerID "" = lb_ID nlb ∧ lb_ID nlb ≠ "" ∧
      v0 (lb_ID nlb) = Some nlb).
Proof.
  unfold fetchLoadBalancer. case_bool_decide as Hid; [|by apply triple_ret].
  set (id := getAnnotation _ _ _) in *.
  eapply triple_bind with (M := λ o st, all_as v0 st ∧
    ∀ nlb, o = Returned (Ok nlb) → lb_ID nlb = id ∧ v0 id = Some nlb).
  - apply triple_exo; [|done]. intros st r st' Hst Hr. split.
    + eapply frame_all; [done..|]. intros id'. simpl. tauto.
    + intros nlb [= ->]. destruct (server_get _ _ _ _ Hr) as [Hv _].
      split; [by eapply server_id|]. by rewrite <-Hst.
  - intros r. apply triple_ret. intros st [Hst Hr]. split; [done|]. intros nlb [= Heq].
    destruct r as [lb|e]; simplify_eq/=. destruct (Hr nlb eq_refl) as [Hlb Hv].
    rewrite Hlb. by split_and!.
  - by intros h st [Hst _].
Qed.

Lemma resolved_set_ID service id :
  resolved_from service (set_annotation service annotationLoadBalancerID id).
Proof. auto with ccm. Qed.

Lemma triple_createLoadBalancer v0 service desired :
  isExternal service = false →
  triple R (all_as v0) (createLoadBalancer p service desired) (found v0 service desired).
Proof.
  intros Hx. unfold createLoadBalancer. set (req := {| clr_Name := _ |}).
  set (new id nlb := v0 id = None ∧ id ≠ "" ∧ lb_ID nlb = id ∧ blank desired nlb).
  eapply triple_svc_bind with (M := λ o st, ∀ s op, o = Returned (s, Ok op) → s = service ∧
    ∃ id nlb, (op_Reference op = Some id ∧ new id nlb) ∧ serves v0 id nlb st); [| |by intros ..].
  { apply triple_keep, triple_exo; [|done]. intros st r st' Hst Hr s op [= <- ->]. split; [done|].
    destruct (server_create _ _ _ _ Hr) as (id & lb & Href & Hid & Hnone & Hv & Hn & Hd & Hs & Ho).
    exists id, lb. split.
    - unfold new, blank. rewrite <-Hst. split_and!; try done. by eapply server_id.
    - split; [done|]. intros id' Hne. rewrite Ho by done. apply Hst. }
  intros s op. destruct (op_Reference op) as [ref|] eqn:Href; [|by apply triple_halt].
  apply triple_pre with (P' := λ st, s = service ∧ ∃ nlb, new ref nlb ∧ serves v0 ref nlb st).
  { intros st Hst. destruct (Hst s op eq_refl) as [-> (id & nlb & [Heq Hnew] & Hserve)].
      rewrite Href in Heq. injection Heq as <-. split; [done|]. by exists nlb. }
  apply triple_pure. intros ->. apply triple_ex. intros nlb. apply triple_pure.
  intros (Hnone & Hne & Hlb & Hblank).
  eapply triple_svc_bind with (M := λ o st, serves v0 ref nlb st ∧
    ∀ s lb, o = Returned (s, Ok lb) → s = service ∧ lb = nlb); [| |by intros ..].
  { apply triple_keep, triple_exo; [|by intros st ?; split]. intros st r st' Hst Hr. split.
    - eapply frame_serves; [done..|]. intros id. simpl. tauto.
    - intros s lb [= <- ->]. split; [done|]. destruct (server_get _ _ _ _ Hr) as [Hv _].
      destruct Hst as [Hst _]. congruence. }
  intros s lb.
  apply triple_pre with (P' := λ st, (s = service ∧ lb = nlb) ∧ serves v0 ref nlb st).
  { intros st [Hst Heq]. split; [by apply Heq|done]. }
  apply triple_pure. intros [-> ->]. rewrite Hlb.
  eapply triple_svc_bind with (M := λ o st, (∀ s r, o = Returned (s, r) →
    s = set_annotation service annotationLoadBalancerID ref) ∧ serves v0 ref nlb st); [| |by intros ..].
  { eapply triple_ensures.
    - apply ensures_svc_wrap, ensures_patchAnnotation with (P := @patch_call (object_key service)); [done| |done].
      by intros r s' r' [= <- _].
    - intros X e st x st' He Hst Hr. eapply frame_serves; [done..|]. intros id. by eapply patch_reads. }
  intros s []. apply triple_ret. intros st [Hs Hst] s' lb [= <- <-].
  rewrite (Hs s (Ok ()) eq_refl), getAnnotation_set, Hlb.
  split_and!; [apply resolved_set_ID|done..|right; by rewrite Hlb].
Qed.

Lemma triple_ensureExists v0 service desired :
  triple R (all_as v0) (ensureExists p service desired) (found v0 service desired).
Proof.
  unfold ensureExists. eapply triple_bind; [apply triple_fetch| |by intros].
  intros [nlb|e].
  - apply triple_ret. intros st [Hst Hnlb] s' lb [= <- <-].
    destruct (Hnlb nlb eq_refl) as (Hid & Hne & Hv).
    split_and!; try done; [apply resolved_from_refl|by apply all_serves|left; by auto].
  - destruct (errors_Is e _); [|by apply triple_ret].
    destruct (isExternal service) eqn:Hx; [by apply triple_ret|].
    eapply triple_conseq; [by apply triple_createLoadBalancer|by intros st [? _]|done].
Qed.

(** ** Ensuring *)

(** The NLB is the one desired, and the rest of the API is as before. *)
Definition ensured (v0 : UUID → option LoadBalancer) (service service' : Service)
    (ips : list string) (st : S) : Prop :=
  ∃ desired nlb nlb', resolved_from service service' ∧
    buildLoadBalancerFromAnnotations service' = Ok desired ∧
    lb_ID nlb = lb_ID desired ∧ lb_ID desired ≠ "" ∧ obtained v0 service desired nlb ∧
    serves v0 (lb_ID desired) nlb' st ∧ in_sync (isExternal service) desired nlb nlb' ∧
    ips = [IP_String (lb_IP nlb')].

Lemma blank_resolved service s desired desired' nlb :
  resolved_from service s → buildLoadBalancerFromAnnotations service = Ok desired →
  buildLoadBalancerFromAnnotations s = Ok desired' → blank desired nlb → blank desired' nlb.
Proof.
  intros Hr (? & ? & ? & _ & _ & _ & Hn & Hd & _)%build_Ok
    (? & ? & ? & _ & _ & _ & Hn' & Hd' & _)%build_Ok (Hbn & Hbd & Hbs).
  split_and!; [| |done].
  - rewrite Hbn, Hn, Hn'. unfold GetLoadBalancerName. destruct Hr as [Heq Ha].
    rewrite !getAnnotation_spec, Ha by done. by rewrite <-Heq.
  - rewrite Hbd, Hd, Hd'. by rewrite (resolved_from_getAnnotation _ _ _ _ Hr).
Qed.

Lemma blank_wf desired nlb : blank desired nlb → nlb_wf nlb.
Proof. intros (_ & _ & Hs). split; rewrite Hs; csimpl; constructor. Qed.

Section ensure.
Context (v0 : UUID → option LoadBalancer) (service : Service).
Context (Hposed : well_posed service).
Context (Hv0 : ∀ id nlb, v0 id = Some nlb → nlb_wf nlb).

Lemma obtained_fits desired nlb :
  obtained v0 service desired nlb → nlb_wf nlb.
Proof. intros [[H _]|(_ & _ & H)]; [by eapply Hv0|by eapply blank_wf]. Qed.

(** The update of the NLB that was found or created. *)
Lemma triple_ensure_update s nlb :
  resolved_from service s →
  getAnnotation s annotationLoadBalancerID "" = lb_ID nlb → lb_ID nlb ≠ "" →
  (∀ desired, buildLoadBalancerFromAnnotations s = Ok desired → obtained v0 service desired nlb) →
  triple R (serves v0 (lb_ID nlb) nlb) (updateLoadBalancer p s) (λ o st,
    o = Returned (Ok ()) → ensured v0 service s [IP_String (lb_IP nlb)] st).
Proof.
  intros Hs Hid Hne Hob. destruct (buildLoadBalancerFromAnnotations s) as [desired|e] eqn:Hb.
  2:{ unfold updateLoadBalancer. rewrite Hb. by apply triple_ret. }
  specialize (Hob _ eq_refl). pose proof (obtained_fits _ _ Hob) as Hwf.
  destruct (build_sendable s desired) as [Hsend Hname]; [by eapply well_posed_resolved|done|].
  assert (lb_ID desired = lb_ID nlb) as Hd by (by rewrite (build_ID _ _ Hb)).
  eapply triple_conseq.
  - apply triple_and; [apply (triple_updateLoadBalancer R view p s desired nlb); try done|].
    + by rewrite Hd.
    + rewrite (resolved_from_ports _ _ Hs). apply Hposed.
    + by apply triple_update_frame with (id := lb_ID nlb).
  - intros st [Hst Ho]. by rewrite Hd.
  - intros o st [Hu Ho] ->. destruct Hu as (nlb' & Hv & Hsync).
    rewrite (isExternal_resolved _ _ Hs) in Hsync.
    exists desired, nlb, nlb'. rewrite (sync_ip _ _ _ _ Hsync). unfold serves. rewrite Hd in *.
    by split_and!.
Qed.

(** Resolving leaves the ID annotation of a managed Service alone. *)
Definition resolves_keeping_ID {A} (service0 : Service) (o : outcome (Service * result A)) : Prop :=
  ∀ s r, o = Returned (s, r) → resolved_from service0 s ∧
    (isExternal service0 = true ∨ getAnnotation s annotationLoadBalancerID "" =
                                    getAnnotation service0 annotationLoadBalancerID "").

Lemma triple_resolveExternal :
  triple R (all_as v0) (resolveExternal p service)
    (λ o st, resolves_keeping_ID service o ∧ all_as v0 st).
Proof.
  destruct (isExternal service) eqn:Hx.
  - eapply triple_conseq; [|done|].
    + eapply triple_reading; [apply ensures_resolveExternal|apply resolving_reads].
    + intros o st [Ho Hst]. split; [|done]. intros s r ->. by split; [|left].
  - unfold resolveExternal. rewrite Hx. apply triple_ret. intros st Hst. split; [|done].
    intros s r [= <- <-]. split; [apply resolved_from_refl|by right].
Qed.

Lemma triple_resolveInstancePool s nodes :
  resolves_keeping_ID service (Returned (s, Ok ())) →
  triple R (all_as v0) (resolveInstancePool p s nodes)
    (λ o st, resolves_keeping_ID service o ∧ all_as v0 st).
Proof.
  intros Hs. destruct (Hs s (Ok ()) eq_refl) as [Hres Hid]. eapply triple_conseq; [|done|].
  - eapply triple_reading; [apply ensures_resolveInstancePool|apply resolving_reads].
  - intros o st [Ho Hst]. split; [|done]. intros s' r ->. destruct Ho as [Ho _]. split.
    + eapply resolved_from_trans; [done|]. destruct Ho as [->|[id ->]]; auto with ccm.
    + destruct Hid as [|Hid]; [by left|right]. rewrite <-Hid. destruct Ho as [->|[id ->]]; [done|].
      rewrite !getAnnotation_spec, annotation_set. by rewrite decide_False.
Qed.

Lemma triple_EnsureLoadBalancer nodes :
  triple R (all_as v0) (EnsureLoadBalancer p service nodes) (λ o st,
    ∀ service' ips, o = Returned (service', Ok ips) → ensured v0 service service' ips st).
Proof.
  unfold EnsureLoadBalancer.
  eapply triple_svc_bind; [apply triple_resolveExternal| |by intros ..].
  intros s1 []. apply triple_pure. intros H1.
  eapply triple_svc_bind; [by apply triple_resolveInstancePool| |by intros ..].
  intros s2 []. apply triple_pure. intros H2.
  destruct (H2 s2 (Ok ()) eq_refl) as [Hres2 Hid2].
  destruct (buildLoadBalancerFromAnnotations s2) as [spec|e] eqn:Hspec; [|by apply triple_ret].
  change (triple R (all_as v0) (
    do (service, nlb) ← ensureExists p s2 spec;
    do (service, _) ← keep service (updateLoadBalancer p service);
    mret (service, Ok (status nlb))) (λ o st,
    ∀ service' ips, o = Returned (service', Ok ips) → ensured v0 service service' ips st)).
  eapply triple_svc_bind with (M := found v0 s2 spec); [apply triple_ensureExists| |by intros ..].
  intros s3 nlb.
  set (fits := resolved_from s2 s3 ∧ getAnnotation s3 annotationLoadBalancerID "" = lb_ID nlb ∧
    lb_ID nlb ≠ "" ∧ obtained v0 s2 spec nlb).
  apply triple_pre with (P' := λ st, fits ∧ serves v0 (lb_ID nlb) nlb st).
  { intros st Hst. destruct (Hst s3 nlb eq_refl) as (? & ? & ? & ? & ?). unfold fits. auto. }
  apply triple_pure. intros (H3 & Hid & Hne & Hob).
  eapply triple_svc_bind with (M := λ o st, ∀ s r, o = Returned (s, r) → s = s3 ∧
    (r = Ok () → ensured v0 service s3 [IP_String (lb_IP nlb)] st)); [| |by intros ..].
  - apply triple_keep. eapply triple_conseq; [apply triple_ensure_update with (nlb := nlb)|done|].
    + by eapply resolved_from_trans.
    + done.
    + done.
    + intros desired Hd. unfold obtained in *. rewrite (isExternal_resolved _ _ Hres2) in Hob.
      destruct Hob as [[? Hann]|(Hx & Hnone & Hblank)]; [left|right].
      * split; [done|]. destruct Hann as [|Hann]; [by left|]. destruct Hid2 as [|<-]; [by left|by right].
      * split_and!; [done..|by eapply blank_resolved].
    + intros [r|h] st Ho; [|done]. intros s r' [= <- <-]. split; [done|]. intros ->. by apply Ho.
  - intros s []. apply triple_ret. intros st Hst s' ips [= <- <-].
    destruct (Hst s (Ok ()) eq_refl) as [-> He]. by apply He.
Qed.
End ensure.

(** ** Deleting *)

(** A [reliable] server that also deletes the NLBs it has. *)
Definition dependable : Prop :=
  reliable R view ∧
  ∀ st id lb r st', view st id = Some lb →
    R _ (ExoCall (ApiDeleteLoadBalancer id)) st r st' → is_ok r = true.

Section delete.
Context (service : Service) (nlb : LoadBalancer).
Context (Hids : NoDup (lbs_ID <$> lb_Services nlb)).
Context (Hone : ∀ x, x ∈ lb_Services nlb → (matches service x ≤ 1)%nat).

(** The services of the NLB that no port of the Service matches. *)
Definition unmatched : list LoadBalancerService :=
  filter (λ x, matches service x = 0%nat) (lb_Services nlb).

Definition surviving (pre : list LoadBalancerService) : list LoadBalancerService :=
  filter (λ x, matches service x = 0%nat ∨ x ∉ pre) (lb_Services nlb).

Lemma surviving_kept pre c : matches service c = 0%nat → surviving (pre ++ [c]) = surviving pre.
Proof.
  intros Hc. apply list_filter_iff. intros x. rewrite elem_of_snoc.
  destruct (decide (x = c)) as [->|]; tauto.
Qed.

Lemma surviving_deleted pre c :
  c ∈ lb_Services nlb → matches service c ≠ 0%nat →
  filter (λ x, lbs_ID x ≠ lbs_ID c) (surviving pre) = surviving (pre ++ [c]).
Proof.
  intros Hin Hc. unfold surviving. rewrite list_filter_filter. apply filter_ext_in.
  intros x Hx. rewrite elem_of_snoc.
  assert (lbs_ID x = lbs_ID c ↔ x = c) as ->.
  { split; [|by intros ->]. by apply (NoDup_fmap_inj_in lbs_ID (lb_Services nlb)). }
  destruct (decide (x = c)) as [->|]; tauto.
Qed.

Lemma surviving_all : surviving (lb_Services nlb) = unmatched.
Proof. apply filter_ext_in. intros x Hx. tauto. Qed.

(** The inner loop deletes the service if a port matches it. *)
Lemma triple_deleteMatching x l n :
  (matches service x ≤ 1)%nat → lbs_ID x ∈ lbs_ID <$> l →
  triple R (has view nlb l) (forM (svc_Ports service) n (deleteMatching p nlb x))
    (else_blame R view p (λ n' st, n' = n - Z.of_nat (matches service x) ∧
       has view nlb (if decide (matches service x = 0%nat) then l
                     else filter (λ y, lbs_ID y ≠ lbs_ID x) l) st)).
Proof.
  intros Hle Hx. set (count pre := length (filter (λ sp, portMatches x sp = true) pre)).
  set (J pre n' st := n' = n - Z.of_nat (count pre) ∧
    has view nlb (if decide (count pre = 0%nat) then l else filter (λ y, lbs_ID y ≠ lbs_ID x) l) st).
  apply triple_pre with (P' := J [] n).
  { intros st Hst. split; [unfold count; simpl; lia|done]. }
  apply triple_forM; [|by intros]. intros pre sp post n' Hports. apply triple_pure. intros ->.
  unfold deleteMatching. unfold J. assert (∀ b, portMatches x sp = b →
    count (pre ++ [sp]) = (count pre + if b then 1 else 0)%nat) as Hcount.
  { intros b Hb. unfold count. rewrite filter_app, filter_cons, filter_nil, length_app, Hb.
    by destruct b. }
  destruct (portMatches x sp) eqn:Hm; rewrite (Hcount _ eq_refl).
  - assert (count pre = 0%nat) as ->.
    { unfold matches in Hle. rewrite Hports, filter_app, filter_cons, Hm in Hle.
      rewrite length_app in Hle. simpl in Hle. unfold count. lia. }
    apply triple_pre with (P' := has view nlb l); [done|].
    eapply triple_conseq; [apply (triple_delete R view p nlb l) with (I := λ n' st, n' = n - 1 ∧
      has view nlb (filter (λ y, lbs_ID y ≠ lbs_ID x) l) st); [done|]|done|].
    + intros op. apply triple_ret. intros st Hst. split; [lia|done].
    + by intros [[n'|e]|h] st.
  - rewrite Nat.add_0_r. apply triple_ret. intros st Hst. split; [done|done].
Qed.

Lemma matches_cases x : x ∈ lb_Services nlb → matches service x = 0%nat ∨ matches service x = 1%nat.
Proof. intros Hx%Hone. lia. Qed.

Lemma surviving_length pre c :
  c ∈ lb_Services nlb → c ∉ pre →
  length (surviving (pre ++ [c])) = (length (surviving pre) - matches service c)%nat ∧
  (matches service c ≤ length (surviving pre))%nat ∧ c ∈ surviving pre.
Proof.
  intros Hc Hpre. assert (c ∈ surviving pre) as Hs.
  { apply list_elem_of_filter. split; [by right|done]. }
  destruct (matches_cases c Hc) as [H0|H1].
  - rewrite surviving_kept, H0 by done. split; [lia|]. split; [lia|done].
  - rewrite <-surviving_deleted, H1 by (done || lia). split; [|split; [|done]].
    + rewrite (length_filter_fresh lbs_ID (surviving pre) c); [done|by apply NoDup_fmap_filter|done].
    + destruct (surviving pre); [by apply elem_of_nil in Hs|simpl; lia].
Qed.

(** Both loops leave the services no port matches, and count them. *)
Lemma triple_deleteServices :
  triple R (has view nlb (lb_Services nlb))
    (forM (lb_Services nlb) (Z.of_nat (length (lb_Services nlb)))
       (λ remaining x, forM (svc_Ports service) remaining (deleteMatching p nlb x)))
    (else_blame R view p (λ n st, n = Z.of_nat (length unmatched) ∧ has view nlb unmatched st)).
Proof.
  set (J pre n st := n = Z.of_nat (length (surviving pre)) ∧ has view nlb (surviving pre) st).
  apply triple_pre with (P' := J [] (Z.of_nat (length (lb_Services nlb)))).
  { intros st Hst. unfold J, surviving. rewrite filter_all; [done|]. intros x _. right.
    by intros ?%elem_of_nil. }
  apply triple_forM; [|intros n st; unfold J; by rewrite surviving_all].
  intros pre c post n Hl. apply triple_pure. intros ->.
  assert (c ∈ lb_Services nlb) as Hc by (rewrite Hl; set_solver).
  assert (c ∉ pre) as Hpre.
  { pose proof Hids as Hnd. rewrite Hl, fmap_app, NoDup_app in Hnd. destruct Hnd as (_ & Hdis & _).
    intros Hin. apply (Hdis (lbs_ID c)); [by apply list_elem_of_fmap_2|csimpl; by left]. }
  destruct (surviving_length pre c Hc Hpre) as (Hlen & Hle & Hs).
  eapply triple_conseq; [apply (triple_deleteMatching c (surviving pre))|done|].
  - by apply Hone.
  - by apply list_elem_of_fmap_2.
  - intros [[n|e]|h] st; [|done..]. intros [-> Hst]. unfold J. rewrite Hlen. split; [lia|].
    case_decide as H0; [by rewrite surviving_kept|by rewrite <-surviving_deleted].
Qed.

(** What deletion leaves of the NLB. *)
Definition removed (st : S) : Prop :=
  view st (lb_ID nlb) =
    if decide (unmatched = [] ∧ isExternal service = false) then None
    else Some (with_Services nlb unmatched).

(** A call that is granted. *)
Lemma triple_granted {X A} (e : exoE (result X)) (k : X → prog ccmE A) P Q (M : X → S → Prop) :
  p_client p = true →
  (∀ st r st', P st → R _ (ExoCall e) st r st' → ∃ x, r = Ok x ∧ M x st') →
  (∀ x, triple R (M x) (k x) Q) →
  ∀ f : result X → prog ccmE A, (∀ x, f (Ok x) = k x) → triple R P (exo p e ≫= f) Q.
Proof.
  intros Hc HM Hk f Hf. unfold exo. rewrite Hc.
  eapply triple_vis with (M := λ r st, ∃ x, r = Ok x ∧ M x st); [done|].
  intros r. apply triple_ex. intros x. apply triple_pure. intros ->. simpl. by rewrite Hf.
Qed.

Lemma triple_EnsureLoadBalancerDeleted :
  getAnnotation service annotationLoadBalancerID "" = lb_ID nlb → lb_ID nlb ≠ "" →
  dependable → p_client p = true →
  triple R (λ st, view st (lb_ID nlb) = Some nlb) (EnsureLoadBalancerDeleted p service) (λ o st,
    o = Returned (Ok ()) ∧ removed st).
Proof.
  intros Hid Hne [Hrel Hdel] Hc. unfold EnsureLoadBalancerDeleted, fetchLoadBalancer.
  rewrite Hid, bool_decide_eq_true_2 by done.
  eapply triple_bind with (M := λ o st, o = Returned (Ok nlb) ∧ has view nlb (lb_Services nlb) st);
    [| |by intros h st []].
  { eapply triple_granted with (M := λ lb st, lb = nlb ∧ has view nlb (lb_Services nlb) st)
      (k := λ lb, Ret (Ok lb)); [done| | |done].
    - intros st r st' Hst Hr. destruct (Hrel _ _ _ Hst) as (Hg & _). specialize (Hg _ _ Hr).
      destruct r as [lb|e]; [|done]. exists lb. destruct (server_get _ _ _ _ Hr) as [Hv Hv'].
      rewrite Hst in Hv. injection Hv as <-. split_and!; [done..|]. unfold has. rewrite Hv'.
      by destruct nlb.
    - intros lb. apply triple_ret. by intros st [-> ?]. }
  intros r. apply triple_pure. intros [= ->].
  eapply triple_try_bind; [apply triple_deleteServices| |by intros e st []|].
  - intros n. apply triple_pure. intros ->. unfold removed.
    case_bool_decide as Hn; [destruct (isExternal service) eqn:Hx|].
    + apply triple_ret. intros st Hst. split; [done|]. by rewrite decide_False by naive_solver.
    + eapply triple_granted with (M := λ _ st, view st (lb_ID nlb) = None) (k := λ _, Ret (Ok ()));
        [done| | |done].
      * intros st r st' Hst Hr. specialize (Hdel _ _ _ _ _ Hst Hr). destruct r as [op|e]; [|done].
        exists op. split; [done|]. by eapply server_remove.
      * intros _. apply triple_ret. intros st Hst. split; [done|]. rewrite decide_True; [done|].
        split; [|done]. destruct unmatched; [done|simpl in Hn; lia].
    + apply triple_ret. intros st Hst. split; [done|]. rewrite decide_False; [done|].
      intros [Hu _]. by rewrite Hu in Hn.
  - intros h st [_ ?]. congruence.
Qed.

Lemma ensures_deleting (C : ∀ X, ccmE X → Prop) lb :
  (∀ sid, C _ (ExoCall (ApiDeleteLoadBalancerService (lb_ID lb) sid))) →
  C _ (ExoCall (ApiDeleteLoadBalancer (lb_ID lb))) →
  ensures C (λ _, True) (
    remaining ←? forM (lb_Services lb) (Z.of_nat (length (lb_Services lb)))
      (λ remaining x, forM (svc_Ports service) remaining (deleteMatching p lb x));
    if bool_decide (remaining = 0) then
      if isExternal service then mret (Ok ())
      else _ ←? exo p (ApiDeleteLoadBalancer (lb_ID lb)); mret (Ok ())
    else mret (Ok ())).
Proof.
  intros Hs Hd. apply ensures_try_bind, ensures_forM with (I := λ _ _, True); [done| |].
  - intros _ x _ n _ _. eapply ensures_mono; [|done|].
    + apply ensures_forM with (I := λ _ _, True) (Q := λ _, True); [done| |done].
      intros _ sp _ m _ _. unfold deleteMatching. case_match; [|done].
      apply ensures_try_bind, ensures_exo; [done|]. by intros [[]|].
    + by intros [[]|].
  - intros n _. repeat (case_match; [|done]). case_match; [done|].
    apply ensures_try_bind, ensures_exo; [done|]. by intros [[]|].
Qed.

(** It is about no other NLB. *)
Lemma triple_delete_frame v0 id :
  getAnnotation service annotationLoadBalancerID "" = id →
  triple R (others_as v0 id) (EnsureLoadBalancerDeleted p service) (λ _, others_as v0 id).
Proof.
  intros Hid. unfold EnsureLoadBalancerDeleted.
  eapply triple_bind with (M := λ o st, others_as v0 id st ∧
    ∀ lb, o = Returned (Ok lb) → lb_ID lb = id); [| |by intros h st [? _]].
  { unfold fetchLoadBalancer. rewrite Hid. case_bool_decide; [|by apply triple_ret].
    eapply triple_bind with (M := λ o st, others_as v0 id st ∧
      ∀ lb, o = Returned (Ok lb) → lb_ID lb = id); [| |by intros h st [? _]].
    - apply triple_exo; [|done]. intros st r st' Hst Hr. split.
      + intros id' Hne. rewrite (server_frame id' _ (ExoCall (ApiGetLoadBalancer id)) st r st');
          [by apply Hst|tauto|done].
      + intros lb [= ->]. destruct (server_get _ _ _ _ Hr) as [Hv _]. by eapply server_id.
    - intros r. apply triple_ret. intros st [Hst Hr]. split; [done|]. intros lb [= Heq].
      destruct r; simplify_eq/=. by apply Hr. }
  intros [lb|e]; [|case_match; apply triple_ret; by intros st [? _]].
  apply triple_pre with (P' := λ st, lb_ID lb = id ∧ others_as v0 id st).
  { intros st [Hst Hn]. split; [by apply Hn|done]. }
  apply triple_pure. intros Hlb.
  eapply triple_conseq; [eapply triple_ensures with (I := others_as v0 id)
    (C := λ X e, ∀ id', affects id' e → id' = id)|done|].
  - apply (ensures_deleting (λ X e, ∀ id', affects id' e → id' = id) lb).
    + intros sid id' <-. done.
    + by intros id' <-.
  - intros X e st x st' He Hst Hr id' Hne. rewrite (server_frame id' X e st x st'); [by apply Hst| |done].
    intros Ha. by apply Hne, He.
  - by intros o st [_ ?].
Qed.
End delete.

(** ** A Service that needs no resolving *)

Lemma svc_bind_Ok {A B} s (a : A) (f : Service → A → svc_prog B) :
  svc_bind (Ret (s, Ok a)) f = f s a.
Proof. done. Qed.

Record settled (service : Service) : Prop := {
  settled_ID : getAnnotation service annotationLoadBalancerID "" ≠ "";
  settled_pool : getAnnotation service annotationLoadBalancerServiceInstancePoolID "" ≠ "";
  settled_cluster : getAnnotation service annotationLoadBalancerSKSClusterName "" = "";
  settled_nodepool : getAnnotation service annotationLoadBalancerServiceSKSNodePoolName "" = "";
}.

Lemma settled_resolves service nodes :
  settled service →
  resolveExternal p service = Ret (service, Ok ()) ∧
  resolveInstancePool p service nodes = Ret (service, Ok ()).
Proof.
  intros [Hid Hpool Hc Hn]. unfold resolveExternal, resolveInstancePool.
  rewrite Hc, Hn, (bool_decide_eq_false_2 _ Hid), (bool_decide_eq_false_2 _ Hpool).
  split; [|done]. by destruct (isExternal service).
Qed.

Lemma triple_deletion v0 service nlb :
  NoDup (lbs_ID <$> lb_Services nlb) →
  (∀ x, x ∈ lb_Services nlb → (matches service x ≤ 1)%nat) →
  getAnnotation service annotationLoadBalancerID "" = lb_ID nlb → lb_ID nlb ≠ "" →
  dependable → p_client p = true →
  triple R (serves v0 (lb_ID nlb) nlb) (EnsureLoadBalancerDeleted p service) (λ o st,
    o = Returned (Ok ()) ∧ removed service nlb st ∧ others_as v0 (lb_ID nlb) st).
Proof.
  intros Hids Hone Hid Hne Hserver Hclient.
  eapply triple_conseq; [apply triple_and| |].
  - by apply triple_EnsureLoadBalancerDeleted.
  - by apply triple_delete_frame.
  - done.
  - by intros o st [[??] ?].
Qed.

(** ** The properties *)

(** C4: ensuring converges. Against an API of which only the documented effect of
    each call is assumed, and whose NLBs have services with distinct IDs and ports,
    a successful [EnsureLoadBalancer] of a well-posed Service (distinct allocated
    ports, no required field emptied) leaves exactly one NLB changed: the one whose
    ID the Service then carries, which existed, or is a new one that only a managed
    Service gets. It is [in_sync] with what the Service asks for: every port is
    served once with the settings asked for, the other services are removed unless
    the NLB is external, and so is the name set. A new NLB has the description
    asked for, an old one keeps its own, and so does a service for which none is
    asked. The ingress reported is the IP of the NLB. *)
Theorem ensure_converges v0 service nodes
    (Hposed : well_posed service)
    (Hv0 : ∀ id nlb, v0 id = Some nlb → nlb_wf nlb) :
  triple R (all_as v0) (EnsureLoadBalancer p service nodes) (λ o st,
    ∀ service' ips, o = Returned (service', Ok ips) → ensured v0 service service' ips st).
Proof. by apply triple_EnsureLoadBalancer. Qed.


(** C7: deleting converges. On the NLB the Service is annotated with, against a
    server that grants well-formed requests, [EnsureLoadBalancerDeleted]
    succeeds; exactly the services that no port of the Service matches are
    left, and the NLB is gone when none is and it is not external. No other
    NLB changes. *)
Theorem delete_converges v0 service nlb
    (Hids : NoDup (lbs_ID <$> lb_Services nlb))
    (Hone : ∀ x, x ∈ lb_Services nlb → (matches service x ≤ 1)%nat)
    (Hid : getAnnotation service annotationLoadBalancerID "" = lb_ID nlb) (Hne : lb_ID nlb ≠ "")
    (Hserver : dependable) (Hclient : p_client p = true) :
  triple R (serves v0 (lb_ID nlb) nlb) (EnsureLoadBalancerDeleted p service) (λ o st,
    o = Returned (Ok ()) ∧ removed service nlb st ∧ others_as v0 (lb_ID nlb) st).
Proof. by apply triple_deletion. Qed.

(** C5: what a managed Service created is removed with it. When
    [EnsureLoadBalancer] has succeeded for a well-posed Service whose NLB did not
    exist, then, against a server that grants every well-formed request about an
    NLB it has, [EnsureLoadBalancerDeleted] on the Service it left succeeds and
    puts every NLB back as it was before both. *)
Theorem lifecycle_leaves_nothing v0 service nodes
    (Hposed : well_posed service)
    (Hv0 : ∀ id nlb, v0 id = Some nlb → nlb_wf nlb)
    (Hmanaged : isExternal service = false)
    (Hfresh : v0 (getAnnotation service annotationLoadBalancerID "") = None)
    (Hserver : dependable) (Hclient : p_client p = true) :
  triple R (all_as v0) (EnsureLoadBalancer p service nodes) (λ o st,
    ∀ service' ips, o = Returned (service', Ok ips) →
    ∀ o' st', runs R (EnsureLoadBalancerDeleted p service') st o' st' →
      o' = Returned (Ok ()) ∧ all_as v0 st').
Proof.
  eapply triple_conseq; [by apply triple_EnsureLoadBalancer|done|].
  intros o st Ho s' ips Heq o' st' Hrun.
  destruct (Ho s' ips Heq) as (desired & nlb & nlb' & Hs & Hb & Hid & Hne & Hob & [Hv Hoth] & Hsync & _).
  rewrite Hmanaged in Hsync.
  assert (v0 (lb_ID desired) = None) as Hnone.
  { rewrite <-Hid. destruct Hob as [[Hsome Hann]|(_ & ? & _)]; [|done].
    destruct Hann as [|Hann]; [congruence|]. by rewrite Hann in Hfresh. }
  assert (lb_ID nlb' = lb_ID desired) as Hid' by (by rewrite (sync_id _ _ _ _ Hsync)).
  assert (∀ x, x ∈ lb_Services nlb' → matches s' x = 1%nat) as Hm.
  { intros x Hx. apply (wanted_matched _ desired); [done| |].
    - rewrite (resolved_from_ports _ _ Hs). apply Hposed.
    - apply dec_stable. intros Hw. by destruct (sync_others _ _ _ _ Hsync x Hx Hw). }
  destruct (triple_and R _ _ _ _ _ (triple_EnsureLoadBalancerDeleted s' nlb'
    (wf_ids _ (sync_wf _ _ _ _ Hsync)) ltac:(intros x Hx; by rewrite Hm) ltac:(by rewrite Hid', (build_ID _ _ Hb))
    ltac:(by rewrite Hid') Hserver Hclient)
    (triple_delete_frame s' v0 (lb_ID desired) ltac:(by rewrite (build_ID _ _ Hb))) st o' st')
    as [[-> Hrm] Hfr]; [by rewrite Hid'|done|].
  split; [done|]. intros id. destruct (decide (id = lb_ID desired)) as [->|Hne']; [|by apply Hfr].
  unfold removed in Hrm. rewrite Hid', decide_True in Hrm; [congruence|].
  split; [|by rewrite (isExternal_resolved _ _ Hs)].
  apply elem_of_nil_inv. intros x [H0 Hx]%list_elem_of_filter. by rewrite Hm in H0.
Qed.
End lifecycle.
