(* ===== verification/Convergence.v ===== *)
(** A sync of the service controller that succeeds brings the cloud and the
    Service to what the user asked for. *)
From S2P Require Import Prelude GoErrors GoStrings GoTime Effects Egoscale Kube CloudConfig.
From S2P Require Import LoadBalancerSpec LoadBalancer Interfaces ServiceController.
From S2P Require Import LoadBalancerSafety LoadBalancerProps Reconcile Lifecycle.
From S2P Require Import ControllerProps Cluster.
#[local] Open Scope Z_scope.

(** ** Errors that are not sentinels *)

Definition fresh {A} (r : result A) : Prop := ∀ s, r ≠ Err (Sentinel s).

Lemma fresh_bind {A B} (f : A → result B) r : fresh r → (∀ a, fresh (f a)) → fresh (r ≫= f).
Proof. intros Hr Hf. destruct r as [a|e]; [apply Hf|]. intros s [= ->]. by apply (Hr s). Qed.

Lemma fresh_mapM {A B} (f : A → result B) l : (∀ a, fresh (f a)) → fresh (mapM f l).
Proof.
  intros Hf. induction l as [|x l IH]; [done|]. apply fresh_bind; [apply Hf|].
  intros y. by apply fresh_bind.
Qed.

Lemma fresh_parse_uint x s : fresh (parse_uint x s).
Proof.
  revert x. induction s as [|c s IH]; intros x; simpl; [done|]. repeat case_match; done || apply IH.
Qed.

Lemma fresh_Atoi s : fresh (Atoi s).
Proof.
  unfold Atoi. destruct (match s with "" => _ | _ => _ end) as [neg [|c digits]]; [done|].
  apply fresh_bind; [apply fresh_parse_uint|]. intros un. by repeat case_match.
Qed.

Lemma fresh_parse_group s : fresh (parse_group s).
Proof. unfold parse_group. by repeat case_match. Qed.

Lemma fresh_parse_groups n d s : fresh (parse_groups n d s).
Proof.
  revert d s. induction n as [|n IH]; intros d [|c s]; simpl; [done..|].
  apply fresh_bind; [apply fresh_parse_group|]. intros [v rest]. by case_match.
Qed.

Lemma fresh_ParseDuration s : fresh (ParseDuration s).
Proof.
  unfold ParseDuration. destruct (match s with "" => _ | _ => _ end) as [neg digits].
  destruct (bool_decide _); [done|]. destruct (bool_decide _); [done|].
  apply fresh_bind; [apply fresh_parse_groups|]. intros d. by repeat case_match.
Qed.

Section fresh.
Context {unicode : UnicodeTables}.

Lemma fresh_healthcheckPort service sp : fresh (healthcheckPort service sp).
Proof. unfold healthcheckPort. by repeat case_match. Qed.

Lemma fresh_build service : fresh (buildLoadBalancerFromAnnotations service).
Proof.
  apply fresh_bind; [apply fresh_ParseDuration|]. intros i.
  apply fresh_bind; [apply fresh_ParseDuration|]. intros t.
  apply fresh_bind; [apply fresh_Atoi|]. intros r.
  apply fresh_bind; [|done]. apply fresh_mapM. intros sp.
  apply fresh_bind; [apply fresh_healthcheckPort|]. intros hc. by case_match.
Qed.
End fresh.

Section converge.
Context {unicode : UnicodeTables} {patchlib : PatchLib}.
Context (p : cloudProvider).

Lemma fresh_honest {A} (r : result A) : fresh r → honest (mret r).
Proof. intros Hr. apply honest_ret. apply Hr. Qed.

(** ** Errors of [EnsureLoadBalancer] *)

Lemma honest_createService nlb u : honest (createService p nlb u).
Proof.
  unfold createService. destruct (lbs_InstancePool u); [|apply honest_halt].
  apply honest_try_bind; [by apply honest_exo|]. intros op.
  apply honest_try_bind; [by apply honest_exo|]. intros lb. by case_match; apply honest_ret.
Qed.

Lemma honest_updateLoadBalancer service : honest (updateLoadBalancer p service).
Proof.
  unfold updateLoadBalancer. apply honest_try_bind; [apply fresh_honest, fresh_build|].
  intros desired. case_match; [by apply honest_ret|].
  apply honest_try_bind; [by apply honest_exo|]. intros nlb. unfold applyUpdate.
  apply honest_try_bind.
  { case_match; [|by apply honest_ret]. apply honest_try_bind; [by apply honest_exo|].
    intros op. by apply honest_ret. }
  intros []. apply honest_try_bind.
  - apply honest_forM. intros m cur. unfold collectService. case_match; [by apply honest_ret|].
    case_match; [by apply honest_ret|]. apply honest_try_bind; [by apply honest_exo|].
    intros op. by apply honest_ret.
  - intros m. apply honest_forM. intros [] u. unfold reconcileService.
    case_match; [|apply honest_createService]. cbv zeta. case_match.
    + apply honest_try_bind; [by apply honest_wrap_err|]. intros op. apply honest_createService.
    + case_match; [|by apply honest_ret]. apply honest_try_bind; [by apply honest_exo|].
      intros op. by apply honest_ret.
Qed.

Lemma honest_svc_ret {A} s (r : result A) : ¬ elsewhere r → honest_svc (mret (s, r)).
Proof. intros Hr. apply wp_ret. by intros ? ? [= _ <-] _. Qed.

Lemma honest_svc_bind {A B} (f : Service → A → svc_prog B) (m : svc_prog A) :
  honest_svc m → (∀ s a, honest_svc (f s a)) → honest_svc (svc_bind m f).
Proof.
  intros Hm Hf. apply wp_svc_bind. eapply wp_mono; [exact Hm|].
  intros t [[s [a|e]]|h] Ht; [| |done].
  - eapply wp_mono; [apply Hf|]. intros t' o Ho s' r Hr. by eapply own_error_app, Ho.
  - intros s' r [= _ <-] Hg He. apply (Ht _ _ eq_refl Hg). unfold elsewhere in *. congruence.
Qed.

Lemma honest_keep {A} s (m : prog ccmE (result A)) : honest m → honest_svc (keep s m).
Proof.
  intros Hm. apply wp_keep. eapply wp_mono; [exact Hm|]. intros t [r|h] Ht; [|done].
  intros s' r' [= _ <-]. by apply Ht.
Qed.

Lemma honest_svc_wrap {A} f (m : svc_prog A) :
  (∀ e, f e ≠ Sentinel ImplementedElsewhere) → honest_svc (svc_wrap f m).
Proof.
  intros Hf. apply wp_svc_wrap. intros t [[s [a|e]]|h] _; [|intros s' r [= _ <-] _ [= He]..|done].
  - by intros s' r [= _ <-] _.
  - by apply (Hf e).
Qed.

Lemma honest_resolveExternal service : honest_svc (resolveExternal p service).
Proof.
  unfold resolveExternal. cbv zeta. destruct (isExternal service); [|by apply honest_svc_ret].
  destruct (_ && _); [by apply honest_svc_ret|]. destruct (_ && _); [|by apply honest_svc_ret].
  apply honest_svc_bind; [by apply honest_keep, honest_wrap_err|]. intros s nlbs.
  destruct (FindLoadBalancer _ _); [by apply honest_svc_wrap|by apply honest_svc_ret].
Qed.

Lemma honest_infer nodes : honest (inferInstancePool p nodes).
Proof.
  apply honest_try_bind; [|intros id; by case_match; apply honest_ret].
  apply honest_forM. intros pool node. unfold inferFromNode.
  apply honest_try_bind; [by apply honest_wrap_err|]. intros i.
  repeat case_match; by apply honest_ret.
Qed.

Lemma honest_resolveInstancePool service nodes : honest_svc (resolveInstancePool p service nodes).
Proof.
  unfold resolveInstancePool. cbv zeta.
  case_bool_decide; [case_bool_decide|case_bool_decide; [|case_bool_decide]];
    try by apply honest_svc_ret.
  - apply honest_svc_bind; [by apply honest_keep, honest_wrap_err|]. intros s clusters.
    destruct (FindSKSCluster _ _); [|by apply honest_svc_ret].
    case_bool_decide; [by apply honest_svc_ret|by apply honest_svc_wrap].
  - apply honest_svc_bind; [apply honest_keep, honest_infer|]. intros s id. by apply honest_svc_wrap.
Qed.

Lemma honest_createLoadBalancer service lbSpec : honest_svc (createLoadBalancer p service lbSpec).
Proof.
  unfold createLoadBalancer. apply honest_svc_bind; [by apply honest_keep, honest_exo|].
  intros s op. destruct (op_Reference op) as [ref|]; [|by apply wp_halt].
  apply honest_svc_bind; [by apply honest_keep, honest_exo|]. intros s' nlb.
  apply honest_svc_bind; [by apply honest_svc_wrap|]. intros s'' []. by apply honest_svc_ret.
Qed.

Lemma honest_ensureExists service lbSpec : honest_svc (ensureExists p service lbSpec).
Proof.
  unfold ensureExists. apply wp_bind. eapply wp_mono; [apply honest_fetch|].
  intros t [[nlb|e]|h] Ht; [by apply wp_ret; intros s r [= _ <-]| |done].
  destruct (errors_Is e _).
  - eapply wp_mono with (Φ := λ t o, ∀ s r, o = Returned (s, r) → own_error t r).
    + case_match; [by apply honest_svc_ret|apply honest_createLoadBalancer].
    + intros t' o Ho s r Hr. by eapply own_error_app, Ho.
  - apply wp_ret. rewrite app_nil_r. intros s r [= _ <-] Hg He. apply (Ht _ eq_refl Hg).
    unfold elsewhere in *. congruence.
Qed.

Lemma honest_EnsureLoadBalancer service nodes : honest_svc (EnsureLoadBalancer p service nodes).
Proof.
  apply honest_svc_bind; [apply honest_resolveExternal|]. intros s1 [].
  apply honest_svc_bind; [apply honest_resolveInstancePool|]. intros s2 [].
  apply honest_svc_bind; [apply honest_svc_ret, fresh_build|]. intros s3 lbSpec.
  apply honest_svc_bind; [apply honest_ensureExists|]. intros s4 nlb.
  apply honest_svc_bind; [apply honest_keep, honest_updateLoadBalancer|]. intros s5 [].
  by apply honest_svc_ret.
Qed.

(** ** The patches of [EnsureLoadBalancer] *)

Context {server : PatchServer}.

Definition apply_all (patches : list string) (service : Service) : Service :=
  foldl (λ s patch, apply_patch patch s) service patches.

(** The annotations that are set in memory are those the API server has been
    given. *)
Definition faithful {A} (service : Service) (m : svc_prog A) : Prop :=
  wp m (λ t o, ∀ s a, o = Returned (s, Ok a) → apply_all (patched t) service = s).

Lemma faithful_bind {A B} service (f : Service → A → svc_prog B) (m : svc_prog A) :
  faithful service m → (∀ s a, faithful s (f s a)) → faithful service (svc_bind m f).
Proof.
  intros Hm Hf. apply wp_svc_bind. eapply wp_mono; [exact Hm|].
  intros t [[s [a|e]]|h] Ht; [|done..]. eapply wp_mono; [apply Hf|].
  intros t' o Ho s' b Hb. unfold apply_all. rewrite patched_app, foldl_app.
  change (foldl _ service (patched t)) with (apply_all (patched t) service).
  rewrite (Ht _ _ eq_refl). by eapply Ho.
Qed.

Lemma patchless_exo {X} (e : exoE X) : wp (exo p e) (λ t _, patched t = []).
Proof. apply wp_exo_call; [|done]. intros x. by destruct e. Qed.

Lemma patchless_calls {A} (m : prog ccmE A) :
  calls (@harmless) m → wp m (λ t _, patched t = []).
Proof. intros Hm. eapply wp_mono; [apply ensures_wp, Hm|]. by intros t o [[_ ?]%harmless_nil _]. Qed.

Lemma patchless_wrap {A} f (m : prog ccmE (result A)) :
  wp m (λ t _, patched t = []) → wp (wrap_err f m) (λ t _, patched t = []).
Proof. intros Hm. apply wp_wrap_err. eapply wp_mono; [exact Hm|]. by intros t [|]. Qed.

Lemma faithful_keep {A} service (m : prog ccmE (result A)) :
  wp m (λ t _, patched t = []) → faithful service (keep service m).
Proof.
  intros Hm. apply wp_keep. eapply wp_mono; [exact Hm|].
  intros t [r|h] Hp; [|done]. intros s a [= <- _]. by rewrite Hp.
Qed.

Lemma faithful_ret {A} service (r : result A) : faithful service (mret (service, r)).
Proof. apply wp_ret. by intros s a [= <- _]. Qed.

Lemma faithful_wrap {A} service f (m : svc_prog A) :
  faithful service m → faithful service (svc_wrap f m).
Proof.
  intros Hm. apply wp_svc_wrap. eapply wp_mono; [exact Hm|].
  intros t [[s [a|e]]|h] Ht; [|done..]. intros s' a' [= <- _]. by eapply Ht.
Qed.

Lemma faithful_patchAnnotation service k v : faithful service (patchAnnotation p service k v).
Proof.
  unfold patchAnnotation. case_bool_decide as Hk.
  { apply wp_ret. intros s [] [= <-]. unfold patched, apply_all. simpl.
    destruct service as [? ? ? [a|] ? ? ?]; [done|]. simpl in Hk. by rewrite lookup_empty in Hk. }
  apply wp_keep. unfold Patch.
  apply wp_try_bind, wp_ret. destruct (json_Marshal (pt_current _)) as [j|] eqn:Hj; [|done].
  apply wp_try_bind, wp_ret. destruct (json_Marshal (pt_modified _)) as [j'|] eqn:Hj'; [|done].
  apply wp_try_bind, wp_ret. destruct (CreateTwoWayMergePatch j j') as [patch|] eqn:Hp; [|done].
  destruct (apply_difference _ _ _ _ _ _ (annotation_differs _ _ _ Hk) Hj Hj' Hp) as (H1 & H2 & H3).
  simpl. rewrite (bool_decide_eq_false_2 _ H1), (bool_decide_eq_false_2 _ H2). simpl.
  apply wp_wrap_err. unfold kube. destruct (p_kclient p); [|by apply wp_halt].
  apply wp_vis. intros [[]|e]; apply wp_ret; [|done]. intros s [] [= <-].
  unfold patched, apply_all. simpl. apply H3.
Qed.

Lemma faithful_resolveExternal service : faithful service (resolveExternal p service).
Proof.
  unfold resolveExternal. cbv zeta. destruct (isExternal service); [|apply faithful_ret].
  destruct (_ && _); [apply faithful_ret|]. destruct (_ && _); [|apply faithful_ret].
  apply faithful_bind; [apply faithful_keep, patchless_wrap, patchless_exo|]. intros s nlbs.
  destruct (FindLoadBalancer _ _); [apply faithful_wrap, faithful_patchAnnotation|apply faithful_ret].
Qed.

Lemma faithful_resolveInstancePool service nodes :
  faithful service (resolveInstancePool p service nodes).
Proof.
  unfold resolveInstancePool. cbv zeta.
  case_bool_decide; [case_bool_decide|case_bool_decide; [|case_bool_decide]];
    try apply faithful_ret.
  - apply faithful_bind; [apply faithful_keep, patchless_wrap, patchless_exo|]. intros s clusters.
    destruct (FindSKSCluster _ _); [|apply faithful_ret].
    case_bool_decide; [apply faithful_ret|apply faithful_wrap, faithful_patchAnnotation].
  - apply faithful_bind; [apply faithful_keep, patchless_calls, calls_infer|].
    intros s id. apply faithful_wrap, faithful_patchAnnotation.
Qed.

Lemma faithful_createLoadBalancer service lbSpec :
  faithful service (createLoadBalancer p service lbSpec).
Proof.
  unfold createLoadBalancer. apply faithful_bind; [apply faithful_keep, patchless_exo|].
  intros s op. destruct (op_Reference op) as [ref|]; [|by apply wp_halt].
  apply faithful_bind; [apply faithful_keep, patchless_exo|]. intros s' nlb.
  apply faithful_bind; [apply faithful_wrap, faithful_patchAnnotation|]. intros s'' [].
  apply faithful_ret.
Qed.

Lemma faithful_ensureExists service lbSpec : faithful service (ensureExists p service lbSpec).
Proof.
  unfold ensureExists. apply wp_bind. eapply wp_mono; [apply patchless_calls; by apply ensures_fetch|].
  intros t [[nlb|e]|h] Ht; [| |done].
  - apply wp_ret. rewrite app_nil_r, Ht. by intros s a [= <- _].
  - eapply wp_mono with (Φ := λ t o, ∀ s a, o = Returned (s, Ok a) → apply_all (patched t) service = s).
    + case_match; [|apply faithful_ret]. case_match; [apply faithful_ret|apply faithful_createLoadBalancer].
    + intros t' o Ho s a Hs. rewrite patched_app, Ht. by eapply Ho.
Qed.

Lemma faithful_EnsureLoadBalancer service nodes :
  faithful service (EnsureLoadBalancer p service nodes).
Proof.
  apply faithful_bind; [apply faithful_resolveExternal|]. intros s1 [].
  apply faithful_bind; [apply faithful_resolveInstancePool|]. intros s2 [].
  apply faithful_bind; [apply faithful_ret|]. intros s3 lbSpec.
  apply faithful_bind; [apply faithful_ensureExists|]. intros s4 nlb.
  apply faithful_bind; [apply faithful_keep, patchless_calls, calls_update_harmless|].
  intros s5 []. apply faithful_ret.
Qed.

(** ** A sync, in the cluster *)

Lemma Forall_app_3 {A} (P : A → Prop) l1 l2 l3 :
  Forall P (l1 ++ l2 ++ l3) → Forall P l1 ∧ Forall P l2 ∧ Forall P l3.
Proof. by rewrite !Forall_app. Qed.

Lemma after_app ob t t' : after ob (t ++ t') = after (after ob t) t'.
Proof. apply foldl_app. Qed.

Lemma after_lift ob t :
  after ob (lift_call (@Cloud) <$> t) = with_Service ob (apply_all (patched t) (ob_Service ob)).
Proof.
  revert ob. induction t as [|[X e x] t IH]; intros ob; [by destruct ob|].
  csimpl. unfold after in *. simpl. rewrite IH. unfold served, patched. simpl.
  by destruct (as_patched (Call e x)).
Qed.

(** Replies that are what they seem: no error of the API or of an informer is one
    of k8s.io/cloud-provider, and the API server does not say of a Service that
    it patches that it does not exist. *)
Definition sound (c : call ctlE) : Prop :=
  match call_event c in ctlE X return X → Prop with
  | Cloud e => λ x, genuine (Call e x)
  | ListNodes => λ r, ¬ elsewhere r
  | PatchService _ _ => λ r, ∀ e, r = Err e → errors_Is e StatusNotFound = false
  | _ => λ _, True
  end (call_reply c).

Lemma sound_genuine t : Forall sound t → Forall genuine (cloud_calls t).
Proof.
  induction 1 as [|[X e x] t He _ IH]; [done|]. destruct e; try exact IH. by constructor.
Qed.

(** The Service the cache has by that name, if any, is an earlier version. *)
Definition cached_version (ob : object) (c : call ctlE) : Prop :=
  match call_event c in ctlE X return X → Prop with
  | CacheGet _ => λ r, ∀ old, r = Some old → svc_UID (ob_Service old) = svc_UID (ob_Service ob)
  | _ => λ _, True
  end (call_reply c).

Lemma wp_finish_patches ob op new :
  wp (finish ob op (ob_Ingress ob) new) (λ t o, ∀ ob' op', o = Returned (ob', Ok op') →
    Forall sound t → ∀ api, ob_Ingress api = ob_Ingress ob → after api t = with_Ingress api new).
Proof.
  unfold finish, patchStatus. apply wp_bind. case_bool_decide as Hn.
  - apply wp_ret, wp_ret. intros _ _ _ _ api Hapi. rewrite <-Hn, <-Hapi. by destruct api.
  - apply wp_trigger. intros r. apply wp_ret. intros ob' op' [= _ Hr] Hs api Hapi.
    destruct r as [[]|e].
    + unfold after. simpl. unfold served. simpl. unfold patched_object. simpl.
      by rewrite decide_True, decide_False.
    + inversion_clear Hs as [|?? He _]. simpl in He. rewrite (He e eq_refl) in Hr. done.
Qed.

Lemma wp_addFinalizer_patches ob :
  wp (addFinalizer ob) (λ t o, cloud_calls t = [] ∧ (o = Returned (Ok ()) →
    ∃ fs, after ob t = with_Finalizers ob fs ∧ LoadBalancerCleanupFinalizer ∈ fs)).
Proof.
  unfold addFinalizer. destruct (HasLBFinalizer ob) eqn:Hf.
  - apply wp_ret. split; [done|]. intros _. exists (ob_Finalizers ob). split; [by destruct ob|].
    by apply bool_decide_eq_true in Hf.
  - apply wp_trigger. intros r. split; [done|]. intros [= ->].
    exists (ob_Finalizers ob ++ [LoadBalancerCleanupFinalizer]). split; [|set_solver].
    unfold after. simpl. unfold served. simpl. unfold patched_object. simpl.
    rewrite decide_False, decide_True; [by destruct ob|done|].
    intros Heq. apply bool_decide_eq_false in Hf. apply Hf. rewrite Heq. set_solver.
Qed.

(** *** The calls around the sync proper *)

(** Calls that concern neither the cloud nor the Service at the API server. *)
Definition local (t : list (call ctlE)) : Prop := cloud_calls t = [] ∧ ∀ ob, after ob t = ob.

(** A property of runs that such calls preserve. *)
Record stable (ob : object) (G : list (call ctlE) → Prop) : Prop := {
  stable_local t0 t t1 : local t0 → local t1 → G t → G (t0 ++ t ++ t1);
  stable_cached t : ¬ Forall (cached_version ob) t → G t;
}.

Lemma wp_process_stable ob key G :
  stable ob G →
  wp (syncLoadBalancerIfNeeded (newLoadBalancer p) ob) (λ t o, ∀ ob' op,
    o = Returned (ob', Ok op) → G t) →
  wp (processServiceCreateOrUpdate (newLoadBalancer p) ob key) (λ t o, o = Returned (Ok ()) → G t).
Proof.
  intros [Hlocal Hcached] Hsync. unfold processServiceCreateOrUpdate.
  apply wp_bind, wp_trigger. intros cached.
  destruct (match cached with Some old => bool_decide (svc_UID (ob_Service old) ≠ svc_UID (ob_Service ob))
            | None => false end) eqn:Hc.
  { destruct cached as [old|]; [|done]. apply bool_decide_eq_true in Hc.
    intros t o _ _. apply Hcached. intros Hv. apply Forall_cons in Hv as [Hv _].
    by destruct Hc; apply Hv. }
  assert ((match cached with
           | Some old => if bool_decide (svc_UID (ob_Service old) ≠ svc_UID (ob_Service ob))
                         then processLoadBalancerDelete (newLoadBalancer p) old else mret (Ok ())
           | None => mret (Ok ())
           end : prog ctlE (result ())) = mret (Ok ())) as ->.
  { destruct cached; [|done]. by rewrite Hc. }
  rewrite try_bind_Ok. apply wp_bind, wp_trigger. intros [].
  apply wp_bind. eapply wp_mono; [exact Hsync|].
  intros t [[ob' r]|h] Ht; [|done]. apply wp_bind, wp_trigger. intros [].
  destruct r as [op|e]; [|by apply wp_ret]. specialize (Ht _ _ eq_refl).
  destruct op; [apply wp_bind, wp_trigger; intros []|]; apply wp_ret; intros _.
  - by apply (Hlocal [Call (CacheGet key) cached; Call (CacheSet key ob) ()] t
      [Call (CacheSet key ob') (); Call (CacheDelete key) ()]).
  - by apply (Hlocal [Call (CacheGet key) cached; Call (CacheSet key ob) ()] t
      [Call (CacheSet key ob') ()]).
Qed.

Lemma wp_syncService_stable ob key G :
  stable ob G →
  wp (syncLoadBalancerIfNeeded (newLoadBalancer p) ob) (λ t o, ∀ ob' op,
    o = Returned (ob', Ok op) → G t) →
  wp (syncService (newLoadBalancer p) key) (λ t o, ∀ namespace name t',
    t = Call (ListService namespace name) (Ok ob) :: t' → o = Returned (Ok ()) → G t').
Proof.
  intros HG Hsync. unfold syncService. apply wp_try_bind, wp_ret.
  destruct (SplitMetaNamespaceKey key) as [[namespace name]|e]; [|done].
  apply wp_bind, wp_trigger. intros [ob1|e].
  - eapply wp_mono with (Φ := λ t o, ob1 = ob → o = Returned (Ok ()) → G t).
    + intros t o Ht ->. revert t o Ht. by apply wp_process_stable.
    + intros t o Ho ns n t' Ht ->.
      pose proof (f_equal (λ l, as_listed <$> head l) Ht) as [= ->].
      injection Ht as _ _ <-. by apply Ho.
  - intros t o _ ns n t' Ht. by pose proof (f_equal (λ l, as_listed <$> head l) Ht).
Qed.

Section sync.
Context {S : Type} (R : handler ccmE S) (view : S → UUID → option LoadBalancer).
Context {lifecycle : NLBLifecycle R view}.
Context (v0 : UUID → option LoadBalancer) (ob : object).
Context (Hposed : well_posed (ob_Service ob)).
Context (Hv0 : ∀ id nlb, v0 id = Some nlb → nlb_wf nlb).

(** What [ensureLoadBalancer] makes of the cloud and of the Service. *)
Lemma wp_ensure_converges :
  wp (ensureLoadBalancer (newLoadBalancer p) ob) (λ t o, ∀ ob' r, o = Returned (ob', r) →
    ob_Ingress ob' = ob_Ingress ob ∧
    ∀ st st', all_as view v0 st → follows R st (cloud_calls t) st' → Forall sound t →
      r ≠ Err (Sentinel ImplementedElsewhere) ∧
      ∀ ips, r = Ok (Some ips) →
        ensured view v0 (ob_Service ob) (ob_Service ob') ips st' ∧
        ∀ api, ob_Service api = ob_Service ob → after api t = with_Service api (ob_Service ob')).
Proof.
  unfold ensureLoadBalancer. apply wp_bind, wp_trigger. intros [nodes|e].
  2:{ apply wp_ret. intros ob' r [= <- <-]. split; [done|]. intros st st' _ _ Hs.
      inversion_clear Hs as [|?? Hl _]. split; [|done]. intros [= ->]. by apply Hl. }
  apply wp_bind, wp_trigger. intros []. apply wp_bind, wp_cloud_call. simpl.
  unfold status_pointer. apply wp_svc_bind.
  eapply wp_mono; [apply wp_and|].
  { apply (wp_follows R), (triple_EnsureLoadBalancer R view p v0 (ob_Service ob) Hposed Hv0). }
  { apply wp_and; [apply faithful_EnsureLoadBalancer|apply honest_EnsureLoadBalancer]. }
  intros t o (He & Hf & Hh). destruct o as [[s [ips|e]]|h]; [apply wp_ret, wp_ret|apply wp_ret|done];
    rewrite !app_nil_r, cloud_calls_lift; intros ob' r [= <- <-]; (split; [done|]);
    intros st st' Hst Hfol Hs.
  - split; [done|]. intros ips' [= <-]. split; [by eapply He|]. intros api Hapi.
    change (after api (lift_call (@Cloud) <$> t) = with_Service api s).
    rewrite after_lift, Hapi. f_equal. by eapply Hf.
  - split; [|done]. intros [= ->].
    apply (Hh s (Err (Sentinel ImplementedElsewhere)) eq_refl); [|done].
    apply sound_genuine in Hs. rewrite <-(cloud_calls_lift t). exact Hs.
Qed.

Lemma wp_sync_converges :
  wantsLoadBalancer ob = true → needsCleanup ob = false →
  wp (syncLoadBalancerIfNeeded (newLoadBalancer p) ob) (λ t o, ∀ ob' op, o = Returned (ob', Ok op) →
    ∀ st st', all_as view v0 st → follows R st (cloud_calls t) st' → Forall sound t →
      let api := after ob t in
      ensured view v0 (ob_Service ob) (ob_Service api) (ob_Ingress api) st' ∧
      HasLBFinalizer api = true).
Proof.
  intros Hw Hn. unfold syncLoadBalancerIfNeeded. rewrite Hw, Hn. cbn [negb orb]. cbv zeta.
  apply wp_bind. eapply wp_mono; [apply wp_addFinalizer_patches|].
  intros t1 [[[]|e]|h] [Hc1 H1]; [|by apply wp_ret; intros ? ? [= _ ?]|done].
  destruct (H1 eq_refl) as (fs & Hfs & Hin).
  apply wp_bind. eapply wp_mono; [apply wp_ensure_converges|].
  intros t2 [[ob2 r]|h] H2; [|done]. destruct (H2 _ _ eq_refl) as [Hing H3].
  destruct r as [[ips|]|e]; [rewrite <-Hing| |].
  - eapply wp_mono; [apply wp_and; [apply wp_finish|apply wp_finish_patches]|].
    intros t3 o [[_ Hc3] H4] ob' op Ho st st' Hst Hfol Hs.
    rewrite !cloud_calls_app, Hc1, Hc3, app_nil_r in Hfol.
    rewrite !Forall_app in Hs. destruct Hs as (_ & Hs2 & Hs3).
    destruct (H3 _ _ Hst Hfol Hs2) as [_ H5]. destruct (H5 _ eq_refl) as [He Hafter].
    rewrite !after_app, Hfs, Hafter by done.
    rewrite (H4 _ _ Ho Hs3) by done. split; [exact He|]. by apply bool_decide_eq_true.
  - apply wp_ret. by intros ? ? [= _ ?].
  - apply wp_ret. intros ob' op [= _ Hr] st st' Hst Hfol Hs.
    rewrite !app_nil_r, cloud_calls_app, Hc1 in Hfol. rewrite !app_nil_r, Forall_app in Hs.
    destruct (H3 _ _ Hst Hfol (proj2 Hs)) as [Hne _].
    destruct (is_sentinel e ImplementedElsewhere) eqn:Hs'; [|done].
    apply is_sentinel_true in Hs' as ->. by destruct Hne.
Qed.

(** What a sync has to bring about. *)
Definition achieved (t : list (call ctlE)) : Prop :=
  ∀ st st', Forall sound t → Forall (cached_version ob) t →
    all_as view v0 st → follows R st (cloud_calls t) st' →
    let api := after ob t in
    ensured view v0 (ob_Service ob) (ob_Service api) (ob_Ingress api) st' ∧
    HasLBFinalizer api = true.

Lemma achieved_stable : stable ob achieved.
Proof.
  split.
  - intros t0 t t1 [Hc0 Ha0] [Hc1 Ha1] Ht st st' (_ & Hs & _)%Forall_app_3 (_ & Hv & _)%Forall_app_3 Hst.
    rewrite !cloud_calls_app, Hc0, Hc1, app_nil_r, !after_app, Ha0, Ha1. by apply Ht.
  - intros t Hv st st' _ Hv'. by destruct Hv.
Qed.

(** C1: a sync that succeeds has done what was asked. When the controller reads the
    Service as it is at the API server (well-posed, wanting a load balancer), syncs
    it and returns no error, then exactly one NLB has changed, the one whose ID the
    Service now carries at the API server, and it is [in_sync] with what the
    Service asks for; the status of the Service at the API server is the IP of that
    NLB, and its finalizer is set. In sync leaves out the description of an NLB
    that existed, which stays, and that of a service for which none is asked.
    Assumed of the API is the documented effect of each call and that the services
    of an NLB have distinct IDs and ports; of the replies that no error is one of
    k8s.io/cloud-provider and none says of the Service that it does not exist
    ([sound]), and that the cache of the controller has no other Service of that
    name ([cached_version]); of the API server, that a patch does what the diff it
    was made of says ([PatchServer]) and nobody else edits the Service meanwhile. *)
Theorem sync_converges key (Hwants : wantsLoadBalancer ob = true) (Hkept : needsCleanup ob = false) :
  wp (syncService (newLoadBalancer p) key) (λ t o, ∀ namespace name t' st st',
    t = Call (ListService namespace name) (Ok ob) :: t' → o = Returned (Ok ()) →
    Forall sound t' → Forall (cached_version ob) t' →
    all_as view v0 st → follows R st (cloud_calls t') st' →
    let api := after ob t' in
    ensured view v0 (ob_Service ob) (ob_Service api) (ob_Ingress api) st' ∧
    HasLBFinalizer api = true).
Proof.
  eapply wp_mono; [apply (wp_syncService_stable ob key achieved achieved_stable)|].
  - intros t o Ht. eapply wp_sync_converges in Ht; [|done..]. intros ob' op Ho st st' Hs _ Hst Hf.
    by eapply Ht.
  - intros t o Ho ns n t' st st' Ht Hr Hs Hv Hst Hf. by apply (Ho _ _ _ Ht Hr st).
Qed.
End sync.

(** ** A cleanup, in the cluster *)

Section cleanup.
Context {S : Type} (R : handler ccmE S) (view : S → UUID → option LoadBalancer).
Context {lifecycle : NLBLifecycle R view}.
Context (v0 : UUID → option LoadBalancer) (ob : object) (nlb : LoadBalancer).
Context (Hids : NoDup (lbs_ID <$> lb_Services nlb)).
Context (Hone : ∀ x, x ∈ lb_Services nlb → (matches (ob_Service ob) x ≤ 1)%nat).
Context (Hid : recorded_ID (ob_Service ob) = lb_ID nlb) (Hne : lb_ID nlb ≠ "").
Context (Hserver : dependable R view) (Hclient : p_client p = true).

Lemma triple_lookup :
  triple R (serves view v0 (lb_ID nlb) nlb) (GetLoadBalancer p (ob_Service ob)) (λ o st,
    o = Returned (Ok (Some (status nlb), true)) ∧ serves view v0 (lb_ID nlb) nlb st).
Proof.
  unfold GetLoadBalancer, fetchLoadBalancer. unfold recorded_ID in Hid. rewrite Hid.
  rewrite bool_decide_eq_true_2 by done.
  eapply triple_bind with (M := λ o st, o = Returned (Ok nlb) ∧ serves view v0 (lb_ID nlb) nlb st);
    [| |by intros h st []].
  - destruct Hserver as [Hrel _].
    eapply (triple_granted R p) with (M := λ lb st, lb = nlb ∧ serves view v0 (lb_ID nlb) nlb st)
      (k := λ lb, Ret (Ok lb)); [done| | |done].
    + intros st r st' Hst Hr. destruct (Hrel _ _ _ (proj1 Hst)) as (Hg & _). specialize (Hg _ _ Hr).
      destruct r as [lb|e]; [|done]. exists lb. split; [done|]. split.
      * destruct (server_get _ _ _ _ Hr) as [Hv _]. destruct Hst as [Hst _]. congruence.
      * eapply (frame_serves R view); [exact Hst|exact Hr|]. intros id [].
    + intros lb. apply triple_ret. by intros st [-> ?].
  - intros r. apply triple_pure. intros [= ->]. by apply triple_ret.
Qed.

Lemma wp_removeFinalizer_patches f :
  wp (wrap_err f (removeFinalizer ob)) (λ t o, cloud_calls t = [] ∧ (o = Returned (Ok ()) →
    ∃ fs, after ob t = with_Finalizers ob fs ∧ LoadBalancerCleanupFinalizer ∉ fs)).
Proof.
  apply wp_wrap_err. unfold removeFinalizer. destruct (HasLBFinalizer ob) eqn:Hf.
  - apply wp_trigger. intros r. split; [done|]. intros [= Hr]. destruct r as [[]|e]; [|done].
    exists (removeString (ob_Finalizers ob) LoadBalancerCleanupFinalizer). split.
    + unfold after. simpl. unfold served. simpl. unfold patched_object. simpl.
      rewrite decide_False, decide_True; [by destruct ob|done|]. intros Heq.
      apply bool_decide_eq_true in Hf. rewrite Heq in Hf.
      by apply list_elem_of_filter in Hf as [? _].
    + by intros [? _]%list_elem_of_filter.
  - apply wp_ret. split; [done|]. intros _. exists (ob_Finalizers ob). split; [by destruct ob|].
    by apply bool_decide_eq_false in Hf.
Qed.

Lemma wp_cleanUp_converges :
  wp (cleanUp (newLoadBalancer p) ob) (λ t o, o = Returned (Ok ()) → ∀ st st',
    serves view v0 (lb_ID nlb) nlb st → follows R st (cloud_calls t) st' →
    removed view (ob_Service ob) nlb st' ∧ others_as view v0 (lb_ID nlb) st' ∧
    ∃ fs, after ob t = with_Finalizers ob fs ∧ LoadBalancerCleanupFinalizer ∉ fs).
Proof.
  unfold cleanUp. apply wp_try_bind, wp_wrap_err, wp_cloud_call. eapply wp_mono.
  { apply wp_and; [apply (wp_follows R), triple_lookup|apply patchless_calls, calls_lookup]. }
  intros t1 [[[ips found]|e]|h] [H1 Hp1]; [|done..]. simpl. destruct found.
  - apply wp_try_bind, wp_bind, wp_cloud_call. eapply wp_mono.
    { apply wp_and; [|apply patchless_calls, calls_deletion_harmless].
      by apply (wp_follows R), (triple_deletion R view p v0 (ob_Service ob) nlb). }
    intros t2 o [H2 Hp2].
    assert (∀ t3 st st', serves view v0 (lb_ID nlb) nlb st → cloud_calls t3 = [] →
      follows R st (cloud_calls ((lift_call (@Cloud) <$> t1) ++ (lift_call (@Cloud) <$> t2) ++ t3)) st' →
      o = Returned (Ok ()) ∧ removed view (ob_Service ob) nlb st' ∧ others_as view v0 (lb_ID nlb) st')
      as Hend.
    { intros t3 st st' Hst Hc Hf. rewrite !cloud_calls_app, !cloud_calls_lift, Hc, app_nil_r in Hf.
      apply follows_app in Hf as (st1 & Hf1 & Hf2). destruct (H1 _ _ Hst Hf1) as [_ Hst1].
      by apply (H2 st1). }
    destruct o as [[[]|e]|h]; [apply wp_ret|apply wp_ret|done].
    + rewrite !app_nil_r. eapply wp_mono; [apply wp_removeFinalizer_patches|].
      intros t3 o [Hc3 H3] Ho st st' Hst Hf. destruct (Hend t3 st st' Hst Hc3 Hf) as (_ & Hr & Hot).
      split; [done|]. split; [done|]. destruct (H3 Ho) as (fs & Hfs & Hin). exists fs.
      split; [|done]. rewrite !after_app, !after_lift, Hp1, Hp2. simpl.
      rewrite <-Hfs. by destruct ob.
    + destruct (is_sentinel e _); rewrite !app_nil_r; [|done].
      eapply wp_mono; [apply wp_removeFinalizer_patches|].
      intros t3 o [Hc3 _] _ st st' Hst Hf. by destruct (Hend t3 st st' Hst Hc3 Hf) as [? _].
  - apply wp_try_bind, wp_ret. simpl.
    intros t o _ _ st st' Hst Hf. rewrite cloud_calls_app, cloud_calls_lift in Hf.
    apply follows_app in Hf as (st1 & Hf1 & _). by destruct (H1 _ _ Hst Hf1) as [[=] _].
Qed.

(** What a cleanup has to bring about. *)
Definition cleared (t : list (call ctlE)) : Prop :=
  ∀ st st', Forall sound t → Forall (cached_version ob) t →
    serves view v0 (lb_ID nlb) nlb st → follows R st (cloud_calls t) st' →
    let api := after ob t in
    removed view (ob_Service ob) nlb st' ∧ others_as view v0 (lb_ID nlb) st' ∧
    ob_Service api = ob_Service ob ∧ ob_Ingress api = [] ∧ HasLBFinalizer api = false.

Lemma cleared_stable : stable ob cleared.
Proof.
  split.
  - intros t0 t t1 [Hc0 Ha0] [Hc1 Ha1] Ht st st' (_ & Hs & _)%Forall_app_3 (_ & Hv & _)%Forall_app_3 Hst.
    rewrite !cloud_calls_app, Hc0, Hc1, app_nil_r, !after_app, Ha0, Ha1. by apply Ht.
  - intros t Hv st st' _ Hv'. by destruct Hv.
Qed.

Lemma wp_sync_clears :
  negb (wantsLoadBalancer ob) || needsCleanup ob = true →
  wp (syncLoadBalancerIfNeeded (newLoadBalancer p) ob) (λ t o, ∀ ob' op,
    o = Returned (ob', Ok op) → cleared t).
Proof.
  intros Hn. unfold syncLoadBalancerIfNeeded. rewrite Hn. cbv zeta.
  apply wp_bind. eapply wp_mono; [apply wp_cleanUp_converges|].
  intros t1 [[[]|e]|h] H1; [|by apply wp_ret; intros ? ? [= _ ?]|done].
  eapply wp_mono; [apply wp_and; [apply wp_finish|apply wp_finish_patches]|].
  intros t2 o [[_ Hc2] H2] ob' op Ho st st' Hs _ Hst Hf.
  rewrite cloud_calls_app, Hc2, app_nil_r in Hf. apply Forall_app in Hs as [_ Hs].
  destruct (H1 eq_refl _ _ Hst Hf) as (Hr & Hot & fs & Hfs & Hin). cbv zeta.
  rewrite after_app, Hfs, (H2 _ _ Ho Hs) by done. split_and!; [done..|].
  by apply bool_decide_eq_false.
Qed.

(** C8: a cleanup that succeeds leaves nothing of the Service. When the controller
    reads a Service, with the NLB it carries, that is being deleted or is no longer
    a load balancer, syncs it and returns no error, then, against a server that
    grants well-formed requests, exactly the services of the NLB that none of its
    ports matches are left; the NLB is gone when none is left, unless it is
    external, in which case it stays; no other NLB changed; and at the API server
    the Service has lost the finalizer and the status, and is otherwise untouched.
    The services of the NLB have distinct IDs and are matched by one port at most;
    of the replies, the cache and the API server the same is assumed as in
    [sync_converges]. *)
Theorem cleanup_converges key (Hgone : negb (wantsLoadBalancer ob) || needsCleanup ob = true) :
  wp (syncService (newLoadBalancer p) key) (λ t o, ∀ namespace name t' st st',
    t = Call (ListService namespace name) (Ok ob) :: t' → o = Returned (Ok ()) →
    Forall sound t' → Forall (cached_version ob) t' →
    serves view v0 (lb_ID nlb) nlb st → follows R st (cloud_calls t') st' →
    let api := after ob t' in
    removed view (ob_Service ob) nlb st' ∧ others_as view v0 (lb_ID nlb) st' ∧
    ob_Service api = ob_Service ob ∧ ob_Ingress api = [] ∧ HasLBFinalizer api = false).
Proof.
  eapply wp_mono; [apply (wp_syncService_stable ob key cleared cleared_stable)|].
  - by apply wp_sync_clears.
  - intros t o Ho ns n t' st st' Ht Hr Hs Hv Hst Hf. by apply (Ho _ _ _ Ht Hr st).
Qed.
End cleanup.
End converge.
