(* ===== verification/Duties.v ===== *)
(** What a run of a load balancer handler may touch, in terms of what it has
    learnt: an NLB by the ID its Service records, by the name of an external one,
    because it created it, or because the API gave it for one of these; and of
    such an NLB only services it has read there. *)
From S2P Require Import Prelude GoErrors GoStrings Effects Egoscale Kube CloudConfig.
From S2P Require Import LoadBalancerSpec LoadBalancerSpecProps LoadBalancer.
From S2P Require Import LoadBalancerSafety LoadBalancerProps Cluster.
#[local] Open Scope Z_scope.

(** ** Programs whose calls depend on what they have seen *)

Section guarded.
Context {E : Type → Type}.
Implicit Types h : list (call E).

(** Every call satisfies [P] of the calls before it; [h] are those that came
    before the program. *)
Fixpoint guarded {A} (P : list (call E) → ∀ X, E X → Prop) h (m : prog E A)
    (Q : list (call E) → A → Prop) : Prop :=
  match m with
  | Ret a => Q h a
  | Halt _ => True
  | Vis e k => P h _ e ∧ ∀ x, guarded P (h ++ [Call e x]) (k x) Q
  end.

Lemma guarded_mono {A} P h (m : prog E A) (Q Q' : list (call E) → A → Prop) :
  guarded P h m Q → (∀ h' a, Q h' a → Q' h' a) → guarded P h m Q'.
Proof. intros Hm HQ. revert h Hm. induction m; simpl; naive_solver. Qed.

Lemma guarded_bind {A B} P h (f : A → prog E B) (m : prog E A) Q :
  guarded P h m (λ h' a, guarded P h' (f a) Q) → guarded P h (m ≫= f) Q.
Proof. revert h. induction m; simpl; naive_solver. Qed.

Lemma guarded_try_bind {A B} P h (f : A → prog E (result B)) (m : prog E (result A)) Q :
  guarded P h m (λ h' r, match r with
                         | Ok a => guarded P h' (f a) Q
                         | Err e => Q h' (Err e)
                         end) →
  guarded P h (try_bind m f) Q.
Proof. intros Hm. apply guarded_bind. eapply guarded_mono; [done|]. by intros h' []. Qed.

Lemma guarded_wrap_err {A} P h f (m : prog E (result A)) Q :
  guarded P h m (λ h' r, Q h' (map_err f r)) → guarded P h (wrap_err f m) Q.
Proof. intros Hm. apply guarded_bind. by eapply guarded_mono. Qed.

(** What does not depend on the past, at whatever point it comes. *)
Lemma guarded_ensures {A} (P : list (call E) → ∀ X, E X → Prop) h (m : prog E A)
    (Q : list (call E) → A → Prop) P' (Q' : outcome A → Prop) :
  ensures P' Q' m →
  (∀ h' X e, h ⊆ h' → P' X e → P h' X e) →
  (∀ h' a, h ⊆ h' → Q' (Returned a) → Q h' a) →
  guarded P h m Q.
Proof.
  revert h. induction m as [a|x|X e k IH]; intros h Hm HP HQ; simpl in *; [by apply HQ|done|].
  destruct Hm as [He Hk]. split; [by apply HP|]. intros x.
  assert (∀ h', h ++ [Call e x] ⊆ h' → h ⊆ h') as Hsub by set_solver.
  apply IH; [apply Hk| |]; auto.
Qed.

(** What is guarded as a whole is so at each of its calls. *)
Lemma guarded_partial {A} P h (m : prog E A) Q t pre c post :
  guarded P h m Q → partial m t → t = pre ++ c :: post → P (h ++ pre) _ (call_event c).
Proof.
  revert h t pre. induction m as [a|x|X e k IH]; intros h t pre; simpl.
  - intros _ ->. by destruct pre.
  - intros _ ->. by destruct pre.
  - intros [He Hk] [->|(x & t' & -> & Ht)] Heq; [by destruct pre|].
    destruct pre as [|c' pre]; simplify_eq/=; [by rewrite app_nil_r|].
    specialize (IH x _ _ pre (Hk x) Ht eq_refl). by rewrite <-app_assoc in IH.
Qed.
End guarded.

Section duties.
Context {unicode : UnicodeTables} {patchlib : PatchLib}.
Context (p : cloudProvider).
Implicit Types h : list (call ccmE).

Lemma guarded_svc_bind {A B} P h (f : Service → A → svc_prog B) (m : svc_prog A) Q :
  guarded P h m (λ h' sr, match sr.2 with
                          | Ok a => guarded P h' (f sr.1 a) Q
                          | Err e => Q h' (sr.1, Err e)
                          end) →
  guarded P h (svc_bind m f) Q.
Proof. intros Hm. apply guarded_bind. eapply guarded_mono; [done|]. by intros h' [s []]. Qed.

Lemma guarded_keep {A} P h service (m : prog ccmE (result A)) Q :
  guarded P h m (λ h' r, Q h' (service, r)) → guarded P h (keep service m) Q.
Proof. intros Hm. apply guarded_bind. by eapply guarded_mono. Qed.

Lemma guarded_svc_wrap {A} P h f (m : svc_prog A) Q :
  guarded P h m (λ h' sr, Q h' (sr.1, map_err f sr.2)) → guarded P h (svc_wrap f m) Q.
Proof. intros Hm. apply guarded_bind. by eapply guarded_mono. Qed.

Lemma guarded_exo {X} (P : list (call ccmE) → ∀ X, ccmE X → Prop) h (e : exoE X) Q :
  P h _ (ExoCall e) → (∀ x, Q (h ++ [Call (ExoCall e) x]) x) → guarded P h (exo p e) Q.
Proof. intros He HQ. unfold exo. by destruct (p_client p). Qed.

(** ** What a run has learnt *)

(** The NLBs that [service] gives a run access to, after the calls [h]. *)
Inductive known (service : Service) h : UUID → Prop :=
| known_recorded : known service h (recorded_ID service)
| known_listed nlbs nlb :
    isExternal service = true →
    Call (ExoCall ApiListLoadBalancers) (Ok nlbs) ∈ h →
    FindLoadBalancer nlbs (getAnnotation service annotationLoadBalancerName "") = Ok nlb →
    known service h (lb_ID nlb)
| known_created req op ref :
    isExternal service = false →
    Call (ExoCall (ApiCreateLoadBalancer req)) (Ok op) ∈ h → op_Reference op = Some ref →
    known service h ref
| known_read id nlb :
    known service h id → Call (ExoCall (ApiGetLoadBalancer id)) (Ok nlb) ∈ h →
    known service h (lb_ID nlb).

Lemma known_mono service h h' id : known service h id → h ⊆ h' → known service h' id.
Proof.
  intros Hid Hh. induction Hid as [|nlbs nlb Hx Hin Hf|req op ref Hx Hin Hr|id nlb _ IH Hin].
  - constructor.
  - by eapply known_listed, Hf; [|apply Hh].
  - by eapply known_created, Hr; [|apply Hh].
  - by eapply known_read, Hh.
Qed.

(** Reading an NLB the run knows. *)
Definition reading (service : Service) h {X} (e : ccmE X) : Prop :=
  match e with ExoCall (ApiGetLoadBalancer id) => known service h id | _ => False end.

(** Changing the NLB of a known ID, once it has been read, towards what the Service
    asks for with its annotations resolved. *)
Definition changing (service : Service) h {X} (e : ccmE X) : Prop :=
  ∃ id nlb service' desired,
    known service h id ∧ Call (ExoCall (ApiGetLoadBalancer id)) (Ok nlb) ∈ h ∧
    resolved_from service service' ∧ buildLoadBalancerFromAnnotations service' = Ok desired ∧
    lb_ID desired = id ∧ updating_call (isExternal service) nlb desired e.

(** Resolving the annotations of the Service, and creating its NLB. *)
Definition resolving (service : Service) {X} (e : ccmE X) : Prop :=
  match e with
  | ExoCall ApiListLoadBalancers | ExoCall ApiListSKSClusters | ExoCall (ApiGetInstance _) => True
  | ExoCall (ApiCreateLoadBalancer _) => isExternal service = false
  | KubeCall (KubePatchService ns name _) => (ns, name) = object_key service
  | _ => False
  end.

(** Deleting, of an NLB that has been read by the ID its Service records, services
    that one of its ports matches, and the NLB itself if it is not external. *)
Definition removing (service : Service) h {X} (e : ccmE X) : Prop :=
  ∃ nlb, Call (ExoCall (ApiGetLoadBalancer (recorded_ID service))) (Ok nlb) ∈ h ∧
    match e with
    | ExoCall (ApiDeleteLoadBalancerService id sid) =>
        id = lb_ID nlb ∧ ∃ s sp, s ∈ lb_Services nlb ∧ lbs_ID s = sid ∧
          sp ∈ svc_Ports service ∧ portMatches s sp = true
    | ExoCall (ApiDeleteLoadBalancer id) => id = lb_ID nlb ∧ isExternal service = false
    | _ => False
    end.

Definition update_duty service h X (e : ccmE X) : Prop := reading service h e ∨ changing service h e.

Definition ensure_duty service h X (e : ccmE X) : Prop :=
  resolving service e ∨ update_duty service h X e.

Definition delete_duty service h X (e : ccmE X) : Prop := reading service h e ∨ removing service h e.

(** ** Updating *)

Lemma guarded_update (P : list (call ccmE) → ∀ X, ccmE X → Prop) service service' h :
  (∀ h' X e, update_duty service h' X e → P h' X e) →
  resolved_from service service' → known service h (recorded_ID service') →
  guarded P h (updateLoadBalancer p service') (λ _ _, True).
Proof.
  intros HP Hs Hid. unfold updateLoadBalancer. apply guarded_try_bind.
  destruct (buildLoadBalancerFromAnnotations service') as [desired|] eqn:Hb; [|done]. simpl.
  assert (lb_ID desired = recorded_ID service') as Hd by by eapply build_ID.
  case_match; [done|]. apply guarded_try_bind, guarded_exo.
  { apply HP. left. simpl. by rewrite Hd. }
  intros [nlb|e]; [|done]. eapply guarded_ensures; [apply ensures_applyUpdate| |done].
  intros h' X e Hh' He. apply HP. right.
  exists (lb_ID desired), nlb, service', desired. split_and!; [|set_solver|done..|].
  - rewrite Hd. eapply known_mono; [done|set_solver].
  - by rewrite (isExternal_resolved _ _ Hs) in He.
Qed.

(** ** Ensuring *)

(** The Service as it has become is the one that was given, up to the two resolved
    annotations, and the ID it records is known. *)
Definition keeps_known {A} (service : Service) h (sr : Service * result A) : Prop :=
  resolved_from service sr.1 ∧ ∀ a, sr.2 = Ok a → known service h (recorded_ID sr.1).

Lemma guarded_patch_ID (P : list (call ccmE) → ∀ X, ccmE X → Prop) service service' h id :
  (∀ h' X (e : ccmE X), resolving service e → P h' X e) →
  resolved_from service service' → known service h id →
  guarded P h (patchAnnotation p service' annotationLoadBalancerID id) (keeps_known service).
Proof.
  intros HP Hs Hid. eapply guarded_ensures with (Q' := λ o, ∀ r, o = Returned r →
    r.1 = set_annotation service' annotationLoadBalancerID id).
  - apply ensures_patchAnnotation with (P := λ X e, patch_call (object_key service') e); [done| |done].
    by intros r ? [= <-].
  - intros h' X e _ He. apply HP. rewrite (object_key_resolved _ _ Hs) in He.
    by destruct e as [? []|? []|? []].
  - intros h' [s r] Hh' Hr. specialize (Hr _ eq_refl). simpl in Hr. subst s. split; simpl.
    + eapply resolved_from_trans; [done|]. apply resolved_from_set. by left.
    + intros _ _. rewrite recorded_ID_set. by eapply known_mono.
Qed.

Lemma guarded_resolveExternal (P : list (call ccmE) → ∀ X, ccmE X → Prop) service h :
  (∀ h' X (e : ccmE X), resolving service e → P h' X e) →
  guarded P h (resolveExternal p service) (keeps_known service).
Proof.
  intros HP. assert (∀ h' (r : result ()), keeps_known service h' (service, r)) as Hsame.
  { intros h' r. split; [apply resolved_from_refl|]. intros _ _. constructor. }
  unfold resolveExternal. destruct (isExternal service) eqn:Hx; [|apply Hsame].
  case_match; [apply Hsame|]. case_match; [|apply Hsame].
  apply guarded_svc_bind, guarded_keep, guarded_wrap_err, guarded_exo; [by apply HP|].
  intros [nlbs|e]; simpl; [|by split; [apply resolved_from_refl|]].
  destruct (FindLoadBalancer _ _) as [nlb|e] eqn:Hf; [|apply Hsame].
  apply guarded_svc_wrap. eapply guarded_mono.
  - apply guarded_patch_ID; [done|apply resolved_from_refl|]. econstructor; [done| |done]. set_solver.
  - intros h' [s [a|e]] [H1 H2]; (split; [done|]); simpl in *; [eauto|done].
Qed.

Lemma guarded_create (P : list (call ccmE) → ∀ X, ccmE X → Prop) service service' lbSpec h :
  (∀ h' X e, ensure_duty service h' X e → P h' X e) →
  resolved_from service service' → isExternal service = false →
  guarded P h (createLoadBalancer p service' lbSpec) (keeps_known service).
Proof.
  intros HP Hs Hx. unfold createLoadBalancer.
  apply guarded_svc_bind, guarded_keep, guarded_exo; [by apply HP; left|].
  intros [op|e]; simpl; [|done]. destruct (op_Reference op) as [ref|] eqn:Href; [|done].
  assert (known service (h ++ [Call (ExoCall (ApiCreateLoadBalancer {|
    clr_Name := lb_Name lbSpec; clr_Description := lb_Description lbSpec;
    clr_Labels := lb_Labels lbSpec |})) (Ok op)]) ref) as Hk.
  { eapply known_created; [done| |done]. apply elem_of_app. right. by left. }
  apply guarded_svc_bind, guarded_keep, guarded_exo; [by apply HP; right; left|].
  intros [nlb|e]; simpl; [|done].
  apply guarded_svc_bind, guarded_svc_wrap. eapply guarded_mono.
  - apply guarded_patch_ID with (id := lb_ID nlb); [intros; apply HP; by left|done|].
    eapply known_read; [eapply known_mono; [exact Hk|set_solver]|set_solver].
  - intros h' [s [a|e]] [H1 H2]; simpl in *; [|done]. split; [done|]. intros _ _. by eapply H2.
Qed.

Lemma guarded_ensureExists (P : list (call ccmE) → ∀ X, ccmE X → Prop) service service' lbSpec h :
  (∀ h' X e, ensure_duty service h' X e → P h' X e) →
  resolved_from service service' → known service h (recorded_ID service') →
  guarded P h (ensureExists p service' lbSpec) (keeps_known service).
Proof.
  intros HP Hs Hid. unfold ensureExists.
  assert (∀ h' e, guarded P h'
    (if errors_Is e errLoadBalancerNotFound then
       if isExternal service' then
         mret (service', Err (ErrorNew "NLB instance marked as external in Service annotations, cannot create" []))
       else createLoadBalancer p service' lbSpec
     else mret (service', Err e)) (keeps_known service)) as Herr.
  { intros h' e. case_match; [|done]. destruct (isExternal service') eqn:Hx; [done|].
    apply guarded_create; [done..|]. by rewrite <-(isExternal_resolved _ _ Hs). }
  apply guarded_bind. unfold fetchLoadBalancer. case_bool_decide; [|apply (Herr h)].
  apply guarded_wrap_err, guarded_exo; [by apply HP; right; left|].
  intros [nlb|e]; simpl; [|apply Herr]. split; [done|]. intros _ _. eapply known_mono; [done|set_solver].
Qed.

Lemma guarded_resolveInstancePool (P : list (call ccmE) → ∀ X, ccmE X → Prop) service service' nodes h :
  (∀ h' X (e : ccmE X), resolving service e → P h' X e) →
  resolved_from service service' → known service h (recorded_ID service') →
  guarded P h (resolveInstancePool p service' nodes) (keeps_known service).
Proof.
  intros HP Hs Hid. eapply guarded_ensures; [apply ensures_resolveInstancePool| |].
  - intros h' X e _ He. apply HP. rewrite (object_key_resolved _ _ Hs) in He.
    by destruct e as [? []|? []|? []].
  - intros h' [s r] Hh' Hr. pose proof (resolves_pool_resolves _ _ Hr) as Hs'. split; simpl in *.
    { by eapply resolved_from_trans. }
    intros _ _. eapply known_mono; [|done]. destruct Hr as [[->|[id ->]] _]; [done|].
    by rewrite recorded_ID_pool.
Qed.

Lemma guarded_EnsureLoadBalancer service nodes :
  guarded (ensure_duty service) [] (EnsureLoadBalancer p service nodes) (λ _ _, True).
Proof.
  unfold EnsureLoadBalancer.
  assert (∀ h X (e : ccmE X), resolving service e → ensure_duty service h X e) as HR by by left.
  assert (∀ h X e, update_duty service h X e → ensure_duty service h X e) as HU by by right.
  apply guarded_svc_bind. eapply guarded_mono; [by apply guarded_resolveExternal|].
  intros h1 [s1 [[]|e]] [H1 K1]; simpl in *; [|done]. specialize (K1 _ eq_refl).
  apply guarded_svc_bind. eapply guarded_mono; [by apply guarded_resolveInstancePool|].
  intros h2 [s2 [[]|e]] [H2 K2]; simpl in *; [|done]. specialize (K2 _ eq_refl).
  apply guarded_svc_bind. destruct (buildLoadBalancerFromAnnotations s2) as [lbSpec|e]; simpl; [|done].
  apply guarded_svc_bind. eapply guarded_mono; [by apply guarded_ensureExists|].
  intros h3 [s3 [nlb|e]] [H3 K3]; simpl in *; [|done]. specialize (K3 _ eq_refl).
  apply guarded_svc_bind, guarded_keep. eapply guarded_mono; [by apply (guarded_update _ service)|].
  by intros h4 [[]|e] _.
Qed.

(** ** Deleting *)

Lemma guarded_EnsureLoadBalancerDeleted service :
  guarded (delete_duty service) [] (EnsureLoadBalancerDeleted p service) (λ _ _, True).
Proof.
  unfold EnsureLoadBalancerDeleted. apply guarded_bind. unfold fetchLoadBalancer.
  case_bool_decide; [|by simpl; repeat case_match].
  apply guarded_wrap_err, guarded_exo; [left; constructor|].
  intros [nlb|e]; simpl; [|by case_match].
  eapply guarded_ensures with (P' := λ X (e : ccmE X), match e with
    | ExoCall (ApiDeleteLoadBalancerService id sid) =>
        id = lb_ID nlb ∧ ∃ s sp, s ∈ lb_Services nlb ∧ lbs_ID s = sid ∧
          sp ∈ svc_Ports service ∧ portMatches s sp = true
    | ExoCall (ApiDeleteLoadBalancer id) => id = lb_ID nlb ∧ isExternal service = false
    | _ => False
    end) (Q' := λ _, True); [| |done].
  - apply ensures_try_bind, ensures_forM with (I := λ _ _, True); [done| |].
    + intros pre s post n Hl _. apply ensures_forM with (I := λ _ _, True); [done| |done].
      intros pre' sp post' m Hp _. unfold deleteMatching. destruct (portMatches s sp) eqn:Hm; [|done].
      apply ensures_try_bind, ensures_exo; [|by intros [[]|]].
      split; [done|]. exists s, sp. rewrite Hl, Hp. split_and!; [set_solver|done|set_solver|done].
    + intros n _. case_match; [|done]. destruct (isExternal service); [done|].
      apply ensures_try_bind, ensures_exo; [done|]. by intros [[]|].
  - intros h' X e Hh' He. right. exists nlb. split; [|done]. apply Hh'. by left.
Qed.
End duties.
