(* ===== verification/Process.v ===== *)
(** The whole process: goroutines that serve the controllers of Kubernetes
    (exoscale.go and the interfaces it hands out), the agent that approves
    certificates, and the watcher of the credentials, sharing one client. What
    was proved of the calls of each method holds of what the process sends, in
    every interleaving. *)
From stdpp Require Import gmultiset.
From S2P Require Import Prelude GoErrors GoStrings Effects Egoscale Kube InstancesConfig CloudConfig.
From S2P Require Import Instances InstancesV2 Zones CSR LoadBalancerSpec LoadBalancer.
From S2P Require Import LoadBalancerSafety LoadBalancerProps Cluster Duties Client ClientProps.

(** ** Jobs *)

(** The methods of the interfaces that the provider hands out. *)
Inductive method :=
| MGetLoadBalancer (service : Service)
| MEnsureLoadBalancer (service : Service) (nodes : list Node)
| MUpdateLoadBalancer (service : Service)
| MEnsureLoadBalancerDeleted (service : Service)
| MInstanceID (nodeName : string)
| MNodeAddresses (nodeName : string)
| MNodeAddressesByProviderID (providerID : string)
| MInstanceType (nodeName : string)
| MInstanceTypeByProviderID (providerID : string)
| MInstanceExistsByProviderID (providerID : string)
| MInstanceShutdownByProviderID (providerID : string)
| MInstanceExists (node : Node)
| MInstanceShutdown (node : Node)
| MInstanceMetadata (node : Node)
| MGetZone
| MGetZoneByProviderID (providerID : string)
| MGetZoneByNodeName (nodeName : string).

(** A goroutine serves one method after another, or is the agent. *)
Inductive job :=
| Serve (methods : list method)
| Agent (inputs : list agent_input).

Section process.
Context {unicode : UnicodeTables} {regexp : Regexp} {patchlib : PatchLib} {x509 : X509}.
Context (p : cloudProvider).

Definition void {A} (m : prog ccmE A) : prog ccmE () := m ≫= λ _, mret ().

Definition method_prog (m : method) : prog ccmE () :=
  match m with
  | MGetLoadBalancer service => void (GetLoadBalancer p service)
  | MEnsureLoadBalancer service nodes => void (EnsureLoadBalancer p service nodes)
  | MUpdateLoadBalancer service => void (UpdateLoadBalancer p service)
  | MEnsureLoadBalancerDeleted service => void (EnsureLoadBalancerDeleted p service)
  | MInstanceID nodeName => void (InstanceID p nodeName)
  | MNodeAddresses nodeName => void (NodeAddresses p nodeName)
  | MNodeAddressesByProviderID providerID => void (NodeAddressesByProviderID p providerID)
  | MInstanceType nodeName => void (InstanceType_ p nodeName)
  | MInstanceTypeByProviderID providerID => void (InstanceTypeByProviderID p providerID)
  | MInstanceExistsByProviderID providerID => void (InstanceExistsByProviderID p providerID)
  | MInstanceShutdownByProviderID providerID => void (InstanceShutdownByProviderID p providerID)
  | MInstanceExists node => void (InstanceExists p node)
  | MInstanceShutdown node => void (InstanceShutdown p node)
  | MInstanceMetadata node => void (InstanceMetadata_ p node)
  | MGetZone => void GetZone
  | MGetZoneByProviderID providerID => void (GetZoneByProviderID p providerID)
  | MGetZoneByNodeName nodeName => void (GetZoneByNodeName p nodeName)
  end.

Definition job_prog (j : job) : prog ccmE () :=
  match j with
  | Serve methods => foldr (λ m rest, method_prog m ≫= λ _, rest) (mret ()) methods
  | Agent inputs => void (agent_run p Connecting inputs)
  end.

(** ** What each job is entitled to call *)

(** Reading an instance, its type, its node or the instance metadata. *)
Definition node_call {X} (e : ccmE X) : Prop :=
  match e with
  | ExoCall (ApiGetInstance _) | ExoCall (ApiGetInstanceType _) => True
  | KubeCall (KubeGetNode _) => True
  | HostCall (MetadataFromCdRom _) | HostCall (MetadataGet _) => True
  | _ => False
  end.

(** Reading the NLB of a Service. *)
Definition lookup_call (service : Service) {X} (e : ccmE X) : Prop :=
  match e with
  | ExoCall (ApiGetLoadBalancer id) => id = getAnnotation service annotationLoadBalancerID ""
  | _ => False
  end.

(** What a method may call after the calls [h] of its own. *)
Definition method_duty (m : method) (h : list (call ccmE)) X (e : ccmE X) : Prop :=
  match m with
  | MGetLoadBalancer service => lookup_call service e
  | MEnsureLoadBalancer service _ => ensure_duty service h X e
  | MUpdateLoadBalancer service => update_duty service h X e
  | MEnsureLoadBalancerDeleted service => delete_duty service h X e
  | _ => node_call e
  end.

Definition agent_call {X} (e : ccmE X) : Prop :=
  match e with
  | ExoCall ApiListInstances | KubeCall (KubeGetNode _) | KubeCall (KubeUpdateApproval _ _) => True
  | _ => False
  end.

(** Every call of [t] is one that [P] allows after the calls before it. *)
Definition obeys (P : list (call ccmE) → ∀ X, ccmE X → Prop) (t : list (call ccmE)) : Prop :=
  ∀ pre c post, t = pre ++ c :: post → P pre _ (call_event c).

(** The calls of the methods in turn, of which the last may not have come to its end
    and the next ones have made none. *)
Fixpoint served (methods : list method) (t : list (call ccmE)) : Prop :=
  match methods with
  | [] => t = []
  | m :: methods => ∃ t1 t2, t = t1 ++ t2 ∧ obeys (method_duty m) t1 ∧ served methods t2
  end.

Definition dutiful (j : job) (t : list (call ccmE)) : Prop :=
  match j with
  | Serve methods => served methods t
  | Agent _ => Forall (on_call (@agent_call)) t
  end.

(** *** Parts of runs *)

Lemma partial_nil {E A} (m : prog E A) : partial m [].
Proof. destruct m; simpl; auto. Qed.

Lemma exec_partial {E A} (m : prog E A) t o : exec m t o → partial m t.
Proof.
  revert t. induction m as [a|h|X e k IH]; intros t; simpl; [by intros [-> _]..|].
  intros (x & t' & -> & Ht). right. eauto.
Qed.

Lemma partial_bind {E A B} (f : A → prog E B) (m : prog E A) t :
  partial (m ≫= f) t →
  partial m t ∨ ∃ t1 t2 a, t = t1 ++ t2 ∧ exec m t1 (Returned a) ∧ partial (f a) t2.
Proof.
  revert t. induction m as [a|h|X e k IH]; intros t; simpl; [|by left|].
  - intros Ht. right. by exists [], t, a.
  - intros [->|(x & t' & -> & [Ht|(t1 & t2 & a & -> & Ht1 & Ht2)]%IH)]; [by left; left|left; right; eauto|].
    right. exists (Call e x :: t1), t2, a. split_and!; [done| |done]. by exists x, t1.
Qed.

Lemma partial_void {A} (m : prog ccmE A) t : partial (void m) t → partial m t.
Proof.
  intros [?|(t1 & t2 & a & -> & Hm & Ht)]%partial_bind; [done|]. simpl in Ht. subst t2.
  rewrite app_nil_r. by eapply exec_partial.
Qed.

Lemma calls_partial {E A} (P : ∀ X, E X → Prop) (m : prog E A) t :
  calls P m → partial m t → Forall (on_call P) t.
Proof.
  revert t. unfold calls. induction m as [a|h|X e k IH]; intros t; simpl; [by intros _ ->..|].
  intros [He Hk] [->|(x & t' & -> & Ht)]; constructor; eauto.
Qed.

Lemma calls_obeys {A} P (m : prog ccmE A) t :
  calls P m → partial m t → obeys (λ _, P) t.
Proof. intros Hm Ht pre c post ->. by pose proof (calls_partial _ _ _ Hm Ht) as [_ [? _]%Forall_cons]%Forall_app. Qed.

Lemma guarded_obeys {A} P (m : prog ccmE A) Q t : guarded P [] m Q → partial m t → obeys P t.
Proof. intros Hm Ht pre c post Heq. by eapply (guarded_partial P []). Qed.

(** *** Node methods *)

Lemma calls_overridden {A} P cfg o (answer : _ → option (result A)) d api :
  calls P api → calls P (overridden cfg o answer d api).
Proof. intros Ha. unfold overridden. by repeat case_match. Qed.

Lemma calls_void {A} P (m : prog ccmE A) : calls P m → calls P (void m).
Proof. intros Hm. by apply calls_bind. Qed.

Ltac node_calls := repeat first
  [ done | apply calls_overridden | apply calls_try_bind; [|intros ?]
  | apply calls_bind; [|intros ?] | apply calls_computeInstance; [done|..] | apply calls_exo
  | apply calls_kube | case_match ].

Lemma calls_providedIP name (P : ∀ X, ccmE X → Prop) :
  (∀ n, P _ (KubeCall (KubeGetNode n))) → calls P (providedIP p name).
Proof. intros HP. unfold providedIP. node_calls; apply HP. Qed.

Lemma calls_InstanceID nodeName : calls (@node_call) (InstanceID p nodeName).
Proof. unfold InstanceID. node_calls. Qed.

Lemma calls_NodeAddressesByProviderID id : calls (@node_call) (NodeAddressesByProviderID p id).
Proof. unfold NodeAddressesByProviderID. node_calls. Qed.

Lemma calls_InstanceTypeByProviderID id : calls (@node_call) (InstanceTypeByProviderID p id).
Proof. unfold InstanceTypeByProviderID. node_calls. Qed.

Lemma calls_node_methods :
  (∀ name, calls (@node_call) (NodeAddresses p name)) ∧
  (∀ name, calls (@node_call) (InstanceType_ p name)) ∧
  (∀ id, calls (@node_call) (InstanceExistsByProviderID p id)) ∧
  (∀ id, calls (@node_call) (InstanceShutdownByProviderID p id)) ∧
  (∀ node, calls (@node_call) (InstanceExists p node)) ∧
  (∀ node, calls (@node_call) (InstanceShutdown p node)) ∧
  (∀ node, calls (@node_call) (InstanceMetadata_ p node)) ∧
  calls (@node_call) GetZone ∧
  (∀ id, calls (@node_call) (GetZoneByProviderID p id)) ∧
  ∀ name, calls (@node_call) (GetZoneByNodeName p name).
Proof.
  split_and!; intros.
  - unfold NodeAddresses. apply calls_overridden, calls_try_bind; [apply calls_InstanceID|].
    apply calls_NodeAddressesByProviderID.
  - unfold InstanceType_. apply calls_overridden, calls_try_bind; [apply calls_InstanceID|].
    apply calls_InstanceTypeByProviderID.
  - unfold InstanceExistsByProviderID. node_calls.
  - unfold InstanceShutdownByProviderID. node_calls.
  - unfold InstanceExists, computeInstanceByNode. node_calls.
  - unfold InstanceShutdown, computeInstanceByNode. node_calls.
  - unfold InstanceMetadata_, apiMetadata, computeInstanceByNode. node_calls.
  - unfold GetZone. split; [done|]. intros [z|e]; [done|]. split; [done|]. by intros [z'|e'].
  - unfold GetZoneByProviderID. node_calls.
  - unfold GetZoneByNodeName, GetZoneByProviderID. node_calls.
Qed.

(** *** Load balancer methods *)

Lemma calls_fetch service : calls (@lookup_call service) (fetchLoadBalancer p service).
Proof.
  unfold fetchLoadBalancer. case_match; [|done]. by apply calls_wrap_err, calls_exo.
Qed.

Lemma calls_GetLoadBalancer service : calls (@lookup_call service) (GetLoadBalancer p service).
Proof. unfold GetLoadBalancer. by apply calls_bind; [apply calls_fetch|]. Qed.

Lemma guarded_UpdateLoadBalancer service :
  guarded (update_duty service) [] (UpdateLoadBalancer p service) (λ _ _, True).
Proof. apply (guarded_update _ _ service); [done|apply resolved_from_refl|constructor]. Qed.

Lemma method_obeys m t : partial (method_prog m) t → obeys (method_duty m) t.
Proof.
  destruct m; simpl method_prog; intros Ht%partial_void;
    first [by eapply guarded_obeys; [apply guarded_UpdateLoadBalancer|]
          |by eapply guarded_obeys; [apply guarded_EnsureLoadBalancer|]
          |by eapply guarded_obeys; [apply guarded_EnsureLoadBalancerDeleted|]
          |by eapply calls_obeys; [apply calls_GetLoadBalancer|]
          |eapply calls_obeys; [|exact Ht]].
  all: first [apply calls_InstanceID|apply calls_NodeAddressesByProviderID
             |apply calls_InstanceTypeByProviderID|apply calls_node_methods].
Qed.

(** *** The agent *)

Lemma calls_checkInstances dnsName ips b l :
  calls (@agent_call) (checkInstances p dnsName ips b l).
Proof.
  revert b. induction l as [|i l IH]; intros b; simpl; [done|]. case_match; [|apply IH].
  apply calls_bind; [|intros a; apply IH]. unfold nodeAddrs. case_match; [|done].
  apply calls_bind; [|done]. by apply calls_providedIP.
Qed.

Lemma calls_handleCSR csr : calls (@agent_call) (handleCSR p csr).
Proof.
  unfold handleCSR. repeat (case_match; try done).
  apply calls_bind; [by apply calls_exo|]. intros [instances|e']; [|done].
  apply calls_bind; [apply calls_checkInstances|]. intros b. case_match; [done|].
  apply calls_bind; [by apply calls_kube|done].
Qed.

Lemma calls_agent_run st inputs : calls (@agent_call) (agent_run p st inputs).
Proof.
  revert st. induction inputs as [|i inputs IH]; intros st; simpl; [done|].
  destruct (agent_step p st i) as [m|] eqn:Hm; [|apply IH].
  apply calls_bind; [|apply IH]. destruct st, i as [[]| | |e]; try done; injection Hm as <-; try done.
  apply calls_bind; [|done]. unfold handleEvent. case_match; [done|]. case_match; [|done].
  apply calls_handleCSR.
Qed.

Lemma served_nil methods : served methods [].
Proof. induction methods as [|m methods IH]; [done|]. exists [], []. split_and!; [done| |done]. by intros []. Qed.

Lemma job_dutiful j t : partial (job_prog j) t → dutiful j t.
Proof.
  destruct j as [methods|inputs]; simpl.
  - revert t. induction methods as [|m methods IH]; intros t; [done|].
    intros [Ht|(t1 & t2 & a & -> & Ht1 & Ht2)]%partial_bind.
    + exists t, []. rewrite app_nil_r. split_and!; [done|by apply method_obeys|apply served_nil].
    + exists t1, t2. split_and!; [done| |by apply IH]. by eapply method_obeys, exec_partial.
  - intros Ht%partial_void. eapply calls_partial, Ht. apply calls_agent_run.
Qed.

(** ** The process *)

(** What the watcher does: never a request, nor anything outside. *)
Definition watcher_call {X} (e : clientE X) : Prop :=
  match e with RLock | RUnlock | LoadExo | Request _ _ | Outside _ => False | _ => True end.

(** A goroutine of a handler does, one after the other, what the calls of the
    handler take, and may be in the middle of one to the API. *)
Lemma partial_through_client {A} (m : prog ccmE A) u :
  partial (through_client m) u →
  ∃ t u1 u2, u = u1 ++ u2 ∧ realised t u1 ∧ partial m t ∧
    (u2 = [] ∨ ∃ X (e : exoE X), partial (refreshable e) u2 ∧
       ∀ x, partial m (t ++ [Call (ExoCall e) x])).
Proof.
  revert u. induction m as [a|h|X e k IH]; intros u.
  1,2: simpl; intros ->; exists [], [], []; split_and!; [done|constructor|done|by left].
  assert (∀ (e : ccmE X), is_exo e = false → partial (Vis (Outside e) (λ x, through_client (k x))) u →
    ∃ t u1 u2, u = u1 ++ u2 ∧ realised t u1 ∧ partial (Vis e k) t ∧
      (u2 = [] ∨ ∃ X (e' : exoE X), partial (refreshable e') u2 ∧
         ∀ x, partial (Vis e k) (t ++ [Call (ExoCall e') x]))) as Houtside.
  { intros e' He. simpl. intros [->|(x & u' & -> & (t & u1 & u2 & -> & Ht & Hm & Hu)%IH)].
    - exists [], [], []. split_and!; [done|constructor|by left|by left].
    - exists (Call e' x :: t), (Call (Outside e') x :: u1), u2.
      split_and!; [done|by constructor|right; eauto|]. destruct Hu as [?|(Y & e0 & He0 & Hu)]; [by left|].
      right. exists Y, e0. split; [done|]. intros y. right. exists x. eexists. split; [done|apply Hu]. }
  destruct e as [X e|X e|X e]; [|by apply Houtside..].
  intros [Hu|(u1 & u2 & x & -> & He & (t & u1' & u2' & -> & Ht & Hm & Hu)%IH)]%partial_bind.
  - exists [], [], u. split_and!; [done|constructor|by left|]. right. exists X, e. split; [done|].
    intros x. right. exists x, []. split; [done|apply partial_nil].
  - exists (Call (ExoCall e) x :: t), (u1 ++ u1'), u2'.
    split_and!; [by rewrite app_assoc|by constructor|right; eauto|].
    destruct Hu as [?|(Y & e0 & He0 & Hu)]; [by left|]. right. exists Y, e0. split; [done|].
    intros y. right. exists x. eexists. split; [done|apply Hu].
Qed.

Section watching.
Context {ua : UserAgents}.

Lemma calls_refresh apiEndpoint path zone :
  calls (@watcher_call) (refreshCredentialsFromFile switchZoneCallback apiEndpoint path zone).
Proof.
  unfold refreshCredentialsFromFile. apply calls_bind; [done|]. intros [[]|e]; [|done].
  apply calls_finally; [|done]. apply calls_bind; [done|]. intros [creds|e]; [|done].
  case_match; [|done]. apply calls_bind.
  - unfold switchZoneCallback. case_match; [done|]. by apply calls_try_bind.
  - intros [client|e]; [|done]. repeat (apply calls_bind; [done|intros ?]). done.
Qed.

Lemma calls_watch apiEndpoint path zone inputs :
  calls (@watcher_call) (watchCredentialsFile switchZoneCallback apiEndpoint path zone inputs).
Proof.
  unfold watchCredentialsFile. apply calls_bind; [done|]. intros [[]|e]; [|done].
  apply calls_bind; [done|]. intros [[]|e]; [|done].
  induction inputs as [|[name op| | | |] inputs IH]; cbn [watchLoop]; try done.
  case_match; [|done]. apply calls_bind; [apply calls_refresh|by intros _].
Qed.

(** *** Runs *)

(** The steps of a run in order, each with the goroutine that takes it. *)
Inductive process_run (admits : config → Prop) (c0 : config) : list (nat * call clientE) → config → Prop :=
| RunStart : process_run admits c0 [] c0
| RunStep es c i X (e : clientE X) k x rs' w' s' :
    process_run admits c0 es c →
    threads c !! i = Some (Vis e k) →
    (is_RLock e = true → admits c) →
    lock_step i e (readers c) (writer c) rs' w' →
    memory X e (object c) x s' →
    process_run admits c0 (es ++ [(i, Call e x)])
      {| threads := <[i := k x]> (threads c); readers := rs'; writer := w'; object := s' |}.

(** They are the runs of the process. *)
Lemma process_run_steps admits c0 c :
  rtc (config_step admits) c0 c ↔ ∃ es, process_run admits c0 es c.
Proof.
  split.
  - revert c. apply (rtc_ind_r (λ c, ∃ es, process_run admits c0 es c)); [by eexists; constructor|].
    intros c1 c2 _ Hstep [es Hes]. destruct Hstep. eexists. by econstructor.
  - intros [es Hes]. induction Hes as [|es c i X e k x rs' w' s' _ IH]; [done|].
    eapply rtc_r; [exact IH|]. by econstructor.
Qed.

(** The steps of goroutine [i]. *)
Definition own (i : nat) (es : list (nat * call clientE)) : list (call clientE) :=
  (filter (λ x, x.1 = i) es).*2.

Lemma own_snoc i es j c :
  own i (es ++ [(j, c)]) = own i es ++ (if decide (j = i) then [c] else []).
Proof.
  unfold own. rewrite filter_app, fmap_app, filter_cons, filter_nil. simpl. by case_decide.
Qed.

(** The program [m] has done [u] and [m'] is left to do. *)
Fixpoint leaves (m : prog clientE ()) (u : list (call clientE)) (m' : prog clientE ())
    {struct u} : Prop :=
  match u with
  | [] => m' = m
  | c :: u => match m with
              | Vis e k => ∃ x, c = Call e x ∧ leaves (k x) u m'
              | _ => False
              end
  end.

Lemma leaves_snoc m u X (e : clientE X) k x :
  leaves m u (Vis e k) → leaves m (u ++ [Call e x]) (k x).
Proof.
  revert m. induction u as [|c u IH]; intros m Hu; simpl in *; [rewrite <-Hu; by exists x|].
  destruct m; try done. destruct Hu as (y & -> & Hu). exists y. split; [done|]. by apply IH.
Qed.

Lemma leaves_partial m u m' : leaves m u m' → partial m u.
Proof.
  revert m. induction u as [|c u IH]; intros m; [intros; apply partial_nil|].
  destruct m; simpl; try done. intros (x & -> & Hu). right. eauto.
Qed.

Lemma run_leaves admits c0 es c i m :
  process_run admits c0 es c → threads c0 !! i = Some m →
  ∃ m', threads c !! i = Some m' ∧ leaves m (own i es) m'.
Proof.
  intros Hes Hm. induction Hes as [|es c j X e k x rs' w' s' _ IH Hj]; [by exists m|].
  destruct IH as (m' & Hm' & Hu). rewrite own_snoc. simpl. case_decide as Hji.
  - subst j. rewrite Hm' in Hj. injection Hj as ->. exists (k x).
    split; [by rewrite list_lookup_insert_eq by by eapply lookup_lt_Some|by apply leaves_snoc].
  - rewrite app_nil_r, list_lookup_insert_ne by done. eauto.
Qed.

(** What a goroutine has done for its job: [t] are the calls of the job, of which it
    has come to the end, and [u2] what it has done for the one in progress. *)
Definition at_work (j : job) (u : list (call clientE)) : Prop :=
  ∃ t u1 u2, u = u1 ++ u2 ∧ realised t u1 ∧ partial (job_prog j) t ∧ dutiful j t ∧
    (u2 = [] ∨ ∃ X (e : exoE X), partial (refreshable e) u2 ∧
       ∀ x, dutiful j (t ++ [Call (ExoCall e) x])).

End watching.
End process.
