(* ===== verification/Wait.v ===== *)
(** [Client.Wait] of egoscale (api.go), with which the provider awaits its
    operations: the polling loop as a function of what it receives, when it
    returns and what its success means, and what awaiting costs the other
    goroutines, since it is done under the read lock of the client. *)
From stdpp Require Import gmultiset.
From S2P Require Import Prelude GoErrors GoStrings Effects Egoscale Kube InstancesConfig CloudConfig.
From S2P Require Import Client ClientProps.
#[local] Open Scope Z_scope.

Definition OperationStatePending : string := "pending".
Definition abortErrorsCount : Z := 5.

(** What the loop selects on: a tick, with the time since the start and what
    [GetOperation] would reply then, or the end of the context. *)
Inductive poll_event :=
| Tick (runTime : Z) (reply : result Operation)
| CtxDone (err : error).

Section wait.
(** The [waitTimeout] of the client; none when it is zero. *)
Context (waitTimeout : Z).

Definition late (runTime : Z) : bool :=
  bool_decide (waitTimeout ≠ 0) && bool_decide (runTime > waitTimeout).

(** The loop, [None] while it goes on. *)
Fixpoint polling (op : Operation) (subsequentErrors : Z) (events : list poll_event) :
    option (result Operation) :=
  match events with
  | [] => None
  | CtxDone err :: _ => Some (Err err)
  | Tick runTime reply :: events =>
      if late runTime then
        Some (Err (ErrorNew "operation: %q: max wait timeout reached" [op_ID op]))
      else
        match reply with
        | Err err =>
            let subsequentErrors := subsequentErrors + 1 in
            if bool_decide (subsequentErrors >= abortErrorsCount) then Some (Err err)
            else polling op subsequentErrors events
        | Ok o =>
            if bool_decide (op_State o = OperationStatePending) then polling op 0 events
            else Some (Ok o)
        end
  end.

(** What is returned of an operation that is no longer pending. *)
Definition concluded (states : list string) (operation : Operation) : result Operation :=
  if bool_decide (length states = 0%nat) then Ok operation
  else if existsb (λ st, bool_decide (op_State operation = st)) states then Ok operation
  else Err (ErrorNew "operation: %q %v, state: %s, reason: %q, message: %q"
         [op_ID operation; default "" (op_Reference operation); op_State operation;
          op_Reason operation; op_Message operation]).

Definition Wait (op : option Operation) (states : list string) (events : list poll_event) :
    option (result Operation) :=
  match op with
  | None => Some (Err (ErrorNew "operation is nil" []))
  | Some op =>
      if bool_decide (op_State op ≠ OperationStatePending) then Some (Ok op)
      else
        match polling op 0 events with
        | None => None
        | Some (Err err) => Some (Err err)
        | Some (Ok operation) => Some (concluded states operation)
        end
  end.

(** ** Termination *)

(** Events that leave the loop waiting: in time, and pending or failing. *)
Definition idle (e : poll_event) : bool :=
  match e with
  | CtxDone _ => false
  | Tick runTime (Err _) => negb (late runTime)
  | Tick runTime (Ok o) => negb (late runTime) && bool_decide (op_State o = OperationStatePending)
  end.

Definition failing (e : poll_event) : bool :=
  match e with Tick _ (Err _) => true | _ => false end.

(** The number of failures in a row at the end, starting from [n]; [None] when
    five were reached. *)
Fixpoint in_a_row (n : Z) (events : list poll_event) : option Z :=
  match events with
  | [] => Some n
  | e :: events =>
      if failing e then
        if bool_decide (n + 1 >= abortErrorsCount) then None else in_a_row (n + 1) events
      else in_a_row 0 events
  end.

Lemma polling_waits op n events :
  polling op n events = None ↔ forallb idle events = true ∧ is_Some (in_a_row n events).
Proof.
  revert n. induction events as [|[t [o|e]|e] events IH]; intros n; simpl.
  - split; [by eauto|done].
  - destruct (late t); simpl; [naive_solver|]. case_bool_decide; simpl; [apply IH|naive_solver].
  - destruct (late t); simpl; [naive_solver|].
    case_bool_decide; simpl; [|apply IH]. split; [done|]. by intros [_ [? ?]].
  - naive_solver.
Qed.

Definition all_failing (l : list poll_event) : Prop := Forall (λ e, failing e = true) l.

(** Five failures in a row. *)
Definition aborted (events : list poll_event) : Prop :=
  ∃ pre mid post, events = pre ++ mid ++ post ∧ length mid = 5%nat ∧ all_failing mid.

Lemma in_a_row_None n events :
  0 <= n < abortErrorsCount →
  in_a_row n events = None ↔
    (∃ mid post, events = mid ++ post ∧ n + Z.of_nat (length mid) = abortErrorsCount ∧ all_failing mid) ∨
    aborted events.
Proof.
  unfold abortErrorsCount, all_failing. revert n. induction events as [|e events IH]; intros n Hn; simpl.
  - split; [done|]. intros [(mid & post & Hm & Hlen & _)|(pre & mid & post & Hm & Hlen & _)].
    + symmetry in Hm. apply app_eq_nil in Hm as [-> ->]. simpl in Hlen. lia.
    + symmetry in Hm. apply app_eq_nil in Hm as [-> Hm]. apply app_eq_nil in Hm as [-> ->]. done.
  - assert (∀ pre mid post, e :: events = pre ++ mid ++ post → length mid = 5%nat →
      Forall (λ e, failing e = true) mid →
      (∃ mid', mid = e :: mid' ∧ events = mid' ++ post) ∨ aborted events) as Hcases.
    { intros [|e' pre] [|e'' mid] post Heq Hlen Hf; simplify_eq/=; [by left; eexists|].
      right. exists pre, (e'' :: mid), post. split_and!; [done|simpl; lia|done]. }
    assert (aborted events → aborted (e :: events)) as Hcons.
    { intros (pre & mid & post & -> & Hm). by exists (e :: pre), mid, post. }
    destruct (failing e) eqn:He.
    + case_bool_decide as H5.
      * split; [intros _; left|done]. exists [e], events. split; [done|]. unfold abortErrorsCount in H5.
        split; [simpl; lia|by constructor].
      * unfold abortErrorsCount in H5. rewrite IH by lia. split.
        -- intros [(mid & post & -> & Hlen & Hf)|Ha]; [left|right; auto].
           exists (e :: mid), post. split; [done|]. split; [simpl; lia|by constructor].
        -- intros [([|e' mid] & post & Heq & Hlen & Hf)|(pre & mid & post & Heq & Hlen & Hf)].
           ++ simpl in Hlen. lia.
           ++ simplify_eq/=. apply Forall_cons in Hf as [_ Hf]. left. exists mid, post.
              split; [done|]. split; [lia|done].
           ++ destruct (Hcases pre mid post Heq Hlen Hf) as [(mid' & -> & ->)|]; [left|by right].
              apply Forall_cons in Hf as [_ Hf]. simpl in Hlen.
              exists (take (Z.to_nat (5 - (n + 1))) mid'), (drop (Z.to_nat (5 - (n + 1))) mid' ++ post).
              split; [by rewrite app_assoc, take_drop|]. rewrite length_take.
              split; [lia|by apply Forall_take].
    + rewrite IH by lia. split.
      * intros [(mid & post & -> & Hlen & Hf)|Ha]; right; [|auto].
        exists [e], mid, post. split; [done|]. split; [lia|done].
      * intros [([|e' mid] & post & Heq & Hlen & Hf)|(pre & mid & post & Heq & Hlen & Hf)].
        -- simpl in Hlen. lia.
        -- simplify_eq/=. apply Forall_cons in Hf as [Hf _]. congruence.
        -- destruct (Hcases pre mid post Heq Hlen Hf) as [(mid' & -> & ->)|]; [|by right].
           apply Forall_cons in Hf as [Hf _]. congruence.
Qed.

(** When awaiting an operation ends. [Wait] is still waiting exactly when the
    operation was pending and everything it received so far left it so: no end
    of the context, no tick past the timeout, no reply with another state, and
    never five failing requests in a row. Without a timeout, which the provider
    never sets, pending replies alone make it wait for ever. *)
Theorem wait_goes_on_iff op states events :
  Wait (Some op) states events = None ↔
    op_State op = OperationStatePending ∧ forallb idle events = true ∧ ¬ aborted events.
Proof.
  unfold Wait. case_bool_decide as Hp; [naive_solver|].
  transitivity (polling op 0 events = None).
  { destruct (polling op 0 events) as [[o|e]|]; [|done..]. by repeat case_match. }
  rewrite polling_waits, <-not_eq_None_Some, in_a_row_None by (unfold abortErrorsCount; lia).
  split.
  - intros [Hi Hn]. split_and!; [done..|]. intros Ha. apply Hn. by right.
  - intros (_ & Hi & Hn). split; [done|]. intros [(mid & post & -> & Hlen & Hf)|Ha]; [|done].
    apply Hn. exists [], mid, post. split_and!; [done| |done]. unfold abortErrorsCount in Hlen. lia.
Qed.

(** ** What a success means *)

Lemma polling_Ok op n events o :
  polling op n events = Some (Ok o) →
  op_State o ≠ OperationStatePending ∧ ∃ t, Tick t (Ok o) ∈ events ∧ late t = false.
Proof.
  revert n. induction events as [|[t [o'|e]|e] events IH]; intros n; simpl; [done| | |done].
  - destruct (late t) eqn:Hl; [done|]. case_bool_decide.
    + intros (? & t' & ? & ?)%IH. split; [done|]. exists t'. split; [by right|done].
    + intros [= ->]. split; [done|]. exists t. split; [by left|done].
  - destruct (late t) eqn:Hl; [done|]. case_bool_decide; [done|].
    intros (? & t' & ? & ?)%IH. split; [done|]. exists t'. split; [by right|done].
Qed.

Lemma concluded_Ok states o o' :
  concluded states o = Ok o' → o' = o ∧ (states = [] ∨ op_State o ∈ states).
Proof.
  unfold concluded. case_bool_decide as Hs.
  { intros [= <-]. split; [done|]. left. by apply nil_length_inv. }
  destruct (existsb _ _) eqn:He; [|done]. intros [= <-]. split; [done|right].
  apply existsb_exists in He as (st & Hst & ->%bool_decide_eq_true). by apply list_elem_of_In.
Qed.

Lemma Wait_Ok op states events o :
  Wait (Some op) states events = Some (Ok o) →
  if decide (op_State op = OperationStatePending)
  then op_State o ≠ OperationStatePending ∧ (states = [] ∨ op_State o ∈ states) ∧
       ∃ t, Tick t (Ok o) ∈ events
  else o = op.
Proof.
  unfold Wait. case_bool_decide as Hp; [rewrite decide_False by done; naive_solver|].
  rewrite decide_True by done.
  destruct (polling op 0 events) as [[o'|e]|] eqn:Hpoll; [|done..].
  destruct (polling_Ok _ _ _ _ Hpoll) as (Hne & t & Ht & _).
  intros [= [-> Hs]%concluded_Ok]. split_and!; [done..|]. by exists t.
Qed.
End wait.

(** ** The operations of the provider *)

(** The client of the provider has no [waitTimeout]. *)
Definition by_polling {X} (e : clientE X) : X → Prop :=
  match e in clientE X return X → Prop with
  | Request _ e =>
      match e in exoE X return X → Prop with
      | ApiWait op states => λ r, ∃ events, Wait 0 (Some op) states events = Some r
      | _ => λ _, True
      end
  | _ => λ _, True
  end.

Definition waits (u : list (call clientE)) : Prop :=
  Forall (λ c, by_polling (call_event c) (call_reply c)) u.

(** What a success of an operation means. A method that starts an operation
    succeeds only with an operation the API replied to that request, or gave as
    its final state: the latter is then a success, but the former need only not
    be pending, so that an operation that had failed by the time the request
    returned is taken for a success. *)
Theorem operation_outcome e :
  wp (awaited e) (λ u o, ∀ op', waits u → o = Returned (Ok op') →
    ∃ c op, Call (Request c e) (Ok op) ∈ u ∧
      if decide (op_State op = OperationStatePending)
      then op_State op' = OperationStateSuccess
      else op' = op).
Proof.
  eapply wp_mono; [apply wp_awaited|].
  intros u o [->|[(c & err & -> & _)|(c & c' & op & r & -> & ->)]] op' Hw; [done..|]. intros [= ->].
  exists c, op. split; [set_solver|].
  unfold waits in Hw. do 4 (apply Forall_cons in Hw as [_ Hw]). apply Forall_cons in Hw as [Hw _].
  destruct Hw as [events Hw%Wait_Ok]. case_decide; [|done].
  destruct Hw as (_ & [|Hst] & _); [done|]. by apply list_elem_of_singleton in Hst.
Qed.

(** An operation whose failure is known at once. *)
Lemma failed_at_once op events :
  op_State op = "failure" → Wait 0 (Some op) [OperationStateSuccess] events = Some (Ok op).
Proof. intros Hop. unfold Wait. by rewrite bool_decide_eq_true_2 by (by rewrite Hop). Qed.

(** ** Awaiting under the lock *)

Section blocking.
Context {ua : UserAgents}.
Context (apiEndpoint path zone : string) (inputs : list watch_input).
Context (handlers : list (prog ccmE ())) (s : fields).

Abbreviation go_reachable :=
  (reachable (λ c, ¬ writer_waiting c) apiEndpoint path zone inputs handlers s).
Abbreviation go_step := (config_step (λ c, ¬ writer_waiting c)).

(** Steps during which goroutine [i] is still in the same request. *)
Definition step_during (i : nat) (c c' : config) : Prop :=
  go_step c c' ∧ threads c' !! i = threads c !! i.

Lemma requesting_reads c i X cl (e : exoE X) k :
  go_reachable c → threads c !! i = Some (Vis (Request cl e) k) → i ∈ readers c.
Proof.
  intros Hc Hi. destruct (reachable_well_locked _ _ _ _ _ _ _ c Hc) as [μ Hwl].
  destruct (wl_thread _ _ Hwl i _ Hi) as [Hperm _]. simpl in Hperm.
  unfold elem_of, gmultiset_elem_of. rewrite (wl_readers _ _ Hwl), Hperm. lia.
Qed.

(** The goroutine that takes a step is not one of those that want the lock. *)
Lemma blocked_thread c n i k0 Y (e' : clientE Y) k' rs' w' :
  (is_RLock e' = true → ¬ writer_waiting c) →
  lock_step n e' (readers c) (writer c) rs' w' →
  threads c !! 0%nat = Some (Vis Lock k0) → i ∈ readers c →
  threads c !! n = Some (Vis e' k') →
  ¬ match threads c !! n with Some m => at_lock m | None => False end.
Proof.
  intros Hadm Hl Hw Hin ->. simpl. destruct e'; try (by intros []); intros _.
  - apply Hadm; [done|]. by exists 0%nat, k0.
  - destruct Hl as (_ & Hempty & _). rewrite Hempty in Hin. multiset_solver.
Qed.

(** C30: awaiting an operation holds up everything else. While a goroutine awaits
    an operation (under the read lock) and the watcher has new credentials to
    install, the watcher does not get the lock, and no goroutine that is about
    to make a request of any kind gets to make it, until the operation is over. *)
Theorem awaiting_blocks c c' i X cl (e : exoE X) k k0
    (Hreach : go_reachable c)
    (Hi : threads c !! i = Some (Vis (Request cl e) k))
    (Hwatcher : threads c !! 0%nat = Some (Vis Lock k0))
    (Hsteps : rtc (step_during i) c c') :
  threads c' !! 0%nat = Some (Vis Lock k0) ∧
  ∀ j kj, threads c !! j = Some (Vis RLock kj) → threads c' !! j = Some (Vis RLock kj).
Proof.
  induction Hsteps as [c|c0 c1 c2 [Hstep Hsame] _ IH]; [done|].
  assert (go_reachable c1) as Hreach1 by (eapply rtc_r; [exact Hreach|exact Hstep]).
  pose proof (requesting_reads _ _ _ _ _ _ Hreach Hi) as Hin.
  assert (threads c1 !! 0%nat = Some (Vis Lock k0) ∧
    ∀ j kj, threads c0 !! j = Some (Vis RLock kj) → threads c1 !! j = Some (Vis RLock kj)) as [H0 Hj].
  2:{ destruct (IH Hreach1) as [Hw Hjs]; [by rewrite Hsame|done|]. split; [done|]. eauto. }
  destruct Hstep as [n Y e' k' y rs' w' s' Hn Hadm Hl _]. simpl in *.
  pose proof (blocked_thread c0 n i k0 _ e' k' rs' w' Hadm Hl Hwatcher Hin Hn) as Hb.
  split; [rewrite list_lookup_insert_ne; [done|]|intros j kj Hj; rewrite list_lookup_insert_ne; [done|]].
  - intros ->. apply Hb. by rewrite Hwatcher.
  - intros ->. apply Hb. by rewrite Hj.
Qed.
End blocking.
