(* ===== verification/Transport.v ===== *)
(** How the client of egoscale puts a call on the wire: the operations of the API
    as HTTP requests (operations.go), their signature (api.go), the retries of the
    HTTP client it is built with (go-retryablehttp), and the errors it makes of
    responses (errors.go). The encoding of JSON, the parsing of URLs and the
    connections are parameters. *)
From stdpp Require Import sorting.
From S2P Require Import Prelude GoErrors GoStrings Sha256 GoNet Effects Egoscale Kube InstancesConfig.
From S2P Require Import CloudConfig Instances InstancesV2 NodesProps Client ClientProps.
#[local] Open Scope Z_scope.

Record request := {
  rq_Method : string;
  rq_URL : string;
  rq_Header : list (string * string);
  rq_Body : option string;
}.

#[export] Instance request_eq_dec : EqDecision request.
Proof. solve_decision. Defined.

(** What is used of the URL of a request: its parameters in the order in which the
    map is iterated, with their values. *)
Record URL := {
  EscapedPath : string;
  Query : list (string * list string);
}.

(** The order of [sort.Strings]: that of the bytes. *)
Definition string_le (x y : string) : Prop := Is_true (String.leb x y).

#[export] Instance string_le_dec : RelDecision string_le.
Proof. unfold RelDecision, string_le. apply _. Defined.

(** Reading the body may fail. *)
Record response := {
  rs_StatusCode : Z;
  rs_Body : result string;
}.

(** The effects: the clock (in seconds), one exchange, the state of the context and
    the pause before the next one, which it may cut short, the wait for an
    operation (in Wait), and what is not a request. *)
Inductive wireE : Type → Type :=
| Now : wireE Z
| Attempt (r : request) : wireE (result response)
| ContextErr : wireE (option error)
| Pause : wireE (option error)
| AwaitOperation (c : Client) (op : Operation) (states : list string) : wireE (result Operation)
| Inside {X} (e : clientE X) : wireE X.

(** [encoding/json] on the types of the API, [http.NewRequest], and the errors of
    an exchange that the retry policy takes for permanent (redirects, schemes,
    headers, certificates). None of their errors is one of egoscale's. *)
Class Web := {
  json_Valid : string → bool;
  json_Message : string → result (string * string);
  json_Operation : string → result Operation;
  json_Instance : string → result ComputeInstance;
  json_InstanceType : string → result InstanceType;
  json_LoadBalancer : string → result LoadBalancer;
  json_Instances : string → result (list ListedInstance);
  json_LoadBalancers : string → result (list LoadBalancer);
  json_SKSClusters : string → result (list SKSCluster);
  json_Create : CreateLoadBalancerRequest → result string;
  json_Add : AddServiceToLoadBalancerRequest → result string;
  json_Update : UpdateLoadBalancerRequest → result string;
  json_UpdateService : UpdateLoadBalancerServiceRequest → result string;
  NewRequest : string → string → result URL;
  permanent : error → bool;
}.

Section web.
Context {web : Web}.

(** ** Signatures *)

(** The names of the parameters that have one value, sorted, and their values in
    that order. *)
Definition extractRequestParameters (u : URL) : list string * string :=
  let single := filter (λ pv, length pv.2 = 1%nat) (Query u) in
  let names := merge_sort string_le single.*1 in
  let Get param :=
    default "" (List.find (λ pv, bool_decide (pv.1 = param)) (Query u) ≫= λ pv, head pv.2) in
  (names, String.concat "" (Get <$> names)).

Definition newline : string := String (Ascii.ascii_of_N 10) "".

Definition signRequest (c : Client) (now : Z) (u : URL) (r : request) : request :=
  let expires := pretty (now + 600) in
  let body := default "" (rq_Body r) in
  let '(signedParams, paramsValues) := extractRequestParameters u in
  let sigParts := [rq_Method r +:+ " " +:+ EscapedPath u; body; paramsValues; ""; expires] in
  let signature := hmac (bytes_of_string (cl_apiSecret c))
                     (bytes_of_string (String.concat newline sigParts)) in
  let headerParts :=
    ["EXO2-HMAC-SHA256 credential=" +:+ cl_apiKey c] ++
    (if bool_decide (signedParams ≠ [])
     then ["signed-query-args=" +:+ String.concat ";" signedParams] else []) ++
    ["expires=" +:+ expires; "signature=" +:+ base64 signature] in
  {| rq_Method := rq_Method r; rq_URL := rq_URL r;
     rq_Header := rq_Header r ++ [("Authorization", String.concat "," headerParts)];
     rq_Body := rq_Body r |}.

(** ** Retries *)

Definition retryMax : nat := 4.

(** [baseRetryPolicy]: its error for a status is dropped. *)
Definition shouldRetry (reply : result response) : bool :=
  match reply with
  | Err err => negb (permanent err)
  | Ok resp =>
      bool_decide (rs_StatusCode resp = 429) ||
      (bool_decide (rs_StatusCode resp = 0) ||
       bool_decide (rs_StatusCode resp >= 500) && bool_decide (rs_StatusCode resp ≠ 501))
  end.

Definition givingUp (r : request) (attempt : Z) (err : option error) : error :=
  match err with
  | None => ErrorNew "%s %s giving up after %d attempt(s)" [rq_Method r; rq_URL r; pretty attempt]
  | Some err => ErrorfW "%s %s giving up after %d attempt(s): %w" [rq_Method r; rq_URL r; pretty attempt] err
  end.

(** The loop of [Client.Do], with the retries that remain. *)
Fixpoint attempts (r : request) (attempt : Z) (remain : nat) : prog wireE (result response) :=
  reply ← trigger (Attempt r);
  ctxErr ← trigger ContextErr;
  match ctxErr with
  | Some err => mret (Err (givingUp r attempt (Some err)))
  | None =>
      if shouldRetry reply then
        match remain with
        | O => mret (Err (givingUp r attempt (match reply with Ok _ => None | Err err => Some err end)))
        | S remain =>
            done ← trigger Pause;
            match done with
            | Some err => mret (Err err)
            | None => attempts r (attempt + 1) remain
            end
        end
      else
        match reply with
        | Ok resp => mret (Ok resp)
        | Err err => mret (Err (givingUp r attempt (Some err)))
        end
  end.

(** [http.Client.Do] around it, which wraps errors. *)
Definition Do (r : request) : prog wireE (result response) :=
  wrap_err (ErrorfW "%s %q: %w" [rq_Method r; rq_URL r]) (attempts r 1 retryMax).

(** ** Errors *)

(** [errors.New(http.StatusText(code))] *)
Definition http_error (text : string) : error := ErrorNew text [].

(** The errors that the provider compares are sentinels. *)
Definition httpStatusCodeErrors : list (Z * error) :=
  [(400, http_error "Bad Request"); (401, http_error "Unauthorized");
   (402, http_error "Payment Required"); (403, http_error "Forbidden"); (404, Sentinel ErrNotFound);
   (405, http_error "Method Not Allowed"); (406, http_error "Not Acceptable");
   (407, http_error "Proxy Authentication Required"); (408, http_error "Request Timeout");
   (409, Sentinel ErrConflict); (410, http_error "Gone"); (411, http_error "Length Required");
   (412, http_error "Precondition Failed"); (413, http_error "Request Entity Too Large");
   (414, http_error "Request URI Too Long"); (415, http_error "Unsupported Media Type");
   (416, http_error "Requested Range Not Satisfiable"); (417, http_error "Expectation Failed");
   (418, http_error "I'm a teapot"); (421, http_error "Misdirected Request");
   (422, http_error "Unprocessable Entity"); (423, http_error "Locked");
   (424, http_error "Failed Dependency"); (425, http_error "Too Early");
   (426, http_error "Upgrade Required"); (428, http_error "Precondition Required");
   (429, http_error "Too Many Requests"); (431, http_error "Request Header Fields Too Large");
   (451, http_error "Unavailable For Legal Reasons"); (500, http_error "Internal Server Error");
   (501, http_error "Not Implemented"); (502, http_error "Bad Gateway");
   (503, http_error "Service Unavailable"); (504, http_error "Gateway Timeout");
   (505, http_error "HTTP Version Not Supported"); (506, http_error "Variant Also Negotiates");
   (507, http_error "Insufficient Storage"); (508, http_error "Loop Detected");
   (510, http_error "Not Extended"); (511, http_error "Network Authentication Required")].

Definition status_error (code : Z) : option error :=
  snd <$> List.find (λ ce, bool_decide (ce.1 = code)) httpStatusCodeErrors.

Definition handleHTTPErrorResp (resp : response) : option error :=
  let code := rs_StatusCode resp in
  if (400 <=? code) && (code <=? 599) then
    match rs_Body resp with
    | Err err => Some (ErrorfS "error reading response body: %s" [] err)
    | Ok data =>
        match (if json_Valid data then json_Message data else Ok (data, "")) with
        | Err err => Some (ErrorfS "error unmarshaling response: %s" [] err)
        | Ok (message, error) =>
            let message :=
              if bool_decide (message = "") && bool_decide (error ≠ "") then error else message in
            match status_error code with
            | Some err => Some (ErrorfW "%w: %s" [message] err)
            | None => Some (ErrorNew "unmapped HTTP error: status code %d, message: %s" [pretty code; message])
            end
        end
    end
  else None.

(** ** Operations *)

Definition prepareJSONResponse {A} (decode : string → result A) (resp : response) : result A :=
  data ← rs_Body resp; decode data.

(** The request of a client, signed. *)
Definition sent_request (c : Client) (method path : string) (body : option string) (u : URL) (now : Z) :
    request :=
  signRequest c now u {|
    rq_Method := method; rq_URL := cl_serverEndpoint c +:+ path;
    rq_Header := ("User-Agent", cl_userAgent c) ::
      match body with Some _ => [("Content-Type", "application/json")] | None => [] end;
    rq_Body := body |}.

(** The body of every operation, named [op]. *)
Definition operation {A} (c : Client) (op method path : string) (body : option (result string))
    (decode : string → result A) : prog wireE (result A) :=
  body ←? mret (match body with
                | None => Ok None
                | Some json => Some <$> map_err (ErrorfW (op +:+ ": prepare Json body: %w") []) json
                end);
  let url := cl_serverEndpoint c +:+ path in
  u ←? mret (map_err (ErrorfW (op +:+ ": new request: %w") []) (NewRequest method url));
  now ← trigger Now;
  response ←? wrap_err (ErrorfW (op +:+ ": http client do: %w") [])
    (Do (sent_request c method path body u now));
  match handleHTTPErrorResp response with
  | Some err => mret (Err (ErrorfW (op +:+ ": http response: %w") [] err))
  | None =>
      mret (map_err (ErrorfW (op +:+ ": prepare Json response: %w") [])
              (prepareJSONResponse decode response))
  end.

End web.

(** The operations that the provider uses. *)
Module operations.
Section operations.
Context {web : Web} (c : Client).

Definition CreateLoadBalancer (req : CreateLoadBalancerRequest) : prog wireE (result Operation) :=
  operation c "CreateLoadBalancer" "POST" "/load-balancer" (Some (json_Create req)) json_Operation.

Definition AddServiceToLoadBalancer (id : UUID) (req : AddServiceToLoadBalancerRequest) :
    prog wireE (result Operation) :=
  operation c "AddServiceToLoadBalancer" "POST" ("/load-balancer/" +:+ id +:+ "/service")
    (Some (json_Add req)) json_Operation.

Definition DeleteLoadBalancer (id : UUID) : prog wireE (result Operation) :=
  operation c "DeleteLoadBalancer" "DELETE" ("/load-balancer/" +:+ id) None json_Operation.

Definition DeleteLoadBalancerService (id serviceID : UUID) : prog wireE (result Operation) :=
  operation c "DeleteLoadBalancerService" "DELETE"
    ("/load-balancer/" +:+ id +:+ "/service/" +:+ serviceID) None json_Operation.

Definition GetInstance (id : UUID) : prog wireE (result ComputeInstance) :=
  operation c "GetInstance" "GET" ("/instance/" +:+ id) None json_Instance.

Definition GetInstanceType (id : UUID) : prog wireE (result InstanceType) :=
  operation c "GetInstanceType" "GET" ("/instance-type/" +:+ id) None json_InstanceType.

Definition GetLoadBalancer (id : UUID) : prog wireE (result LoadBalancer) :=
  operation c "GetLoadBalancer" "GET" ("/load-balancer/" +:+ id) None json_LoadBalancer.

Definition GetOperation (id : UUID) : prog wireE (result Operation) :=
  operation c "GetOperation" "GET" ("/operation/" +:+ id) None json_Operation.

Definition ListInstances : prog wireE (result (list ListedInstance)) :=
  operation c "ListInstances" "GET" "/instance" None json_Instances.

Definition ListLoadBalancers : prog wireE (result (list LoadBalancer)) :=
  operation c "ListLoadBalancers" "GET" "/load-balancer" None json_LoadBalancers.

Definition ListSKSClusters : prog wireE (result (list SKSCluster)) :=
  operation c "ListSKSClusters" "GET" "/sks-cluster" None json_SKSClusters.

Definition UpdateLoadBalancer (id : UUID) (req : UpdateLoadBalancerRequest) :
    prog wireE (result Operation) :=
  operation c "UpdateLoadBalancer" "PUT" ("/load-balancer/" +:+ id)
    (Some (json_Update req)) json_Operation.

Definition UpdateLoadBalancerService (id serviceID : UUID) (req : UpdateLoadBalancerServiceRequest) :
    prog wireE (result Operation) :=
  operation c "UpdateLoadBalancerService" "PUT"
    ("/load-balancer/" +:+ id +:+ "/service/" +:+ serviceID) (Some (json_UpdateService req)) json_Operation.
End operations.
End operations.

Section wire.
Context {web : Web}.

(** What the calls of the provider become. *)
Definition over_http {X} (c : Client) (e : exoE X) : prog wireE X :=
  match e in exoE X return prog wireE X with
  | ApiCreateLoadBalancer req => operations.CreateLoadBalancer c req
  | ApiAddServiceToLoadBalancer id req => operations.AddServiceToLoadBalancer c id req
  | ApiDeleteLoadBalancer id => operations.DeleteLoadBalancer c id
  | ApiDeleteLoadBalancerService id serviceID => operations.DeleteLoadBalancerService c id serviceID
  | ApiGetInstance id => operations.GetInstance c id
  | ApiGetInstanceType id => operations.GetInstanceType c id
  | ApiGetLoadBalancer id => operations.GetLoadBalancer c id
  | ApiListInstances => operations.ListInstances c
  | ApiListLoadBalancers => operations.ListLoadBalancers c
  | ApiListSKSClusters => operations.ListSKSClusters c
  | ApiUpdateLoadBalancer id req => operations.UpdateLoadBalancer c id req
  | ApiUpdateLoadBalancerService id serviceID req => operations.UpdateLoadBalancerService c id serviceID req
  | ApiWait op states => trigger (AwaitOperation c op states)
  end.

(** A goroutine of the provider with its requests on the wire. *)
Fixpoint on_the_wire {A} (m : prog clientE A) : prog wireE A :=
  match m with
  | Ret a => Ret a
  | Halt h => Halt h
  | Vis e k =>
      match e in clientE X return (X → prog wireE A) → prog wireE A with
      | Request c e => λ k, over_http c e ≫= k
      | e => λ k, Vis (Inside e) k
      end (λ x, on_the_wire (k x))
  end.

(** ** What is sent *)

Definition as_attempt (c : call wireE) : option (request * result response) :=
  match call_event c in wireE X return X → _ with
  | Attempt r => λ reply, Some (r, reply)
  | _ => λ _, None
  end (call_reply c).

(** The errors of the libraries are not those of egoscale. *)
Definition plain (err : error) : Prop := errors_Is err ErrNotFound = false.

Definition plain_reply (c : call wireE) : Prop :=
  match call_event c in wireE X return X → Prop with
  | Attempt _ => λ reply, match reply with
      | Err err => plain err
      | Ok resp => match rs_Body resp with Err err => plain err | Ok _ => True end
      end
  | ContextErr | Pause => λ err, match err with Some err => plain err | None => True end
  | _ => λ _, True
  end (call_reply c).

(** What the loop did: the same request each time, at most as often as allowed,
    and again only after replies that call for it. *)
Definition tried (r : request) (remain : nat) (w : list (call wireE)) (last : result response) : Prop :=
  ∃ replies, omap as_attempt w = pair r <$> replies ++ [last] ∧ (length replies ≤ remain)%nat ∧
    Forall (λ reply, shouldRetry reply = true) replies.

Lemma tried_once r remain w last :
  omap as_attempt w = [(r, last)] → tried r remain w last.
Proof. intros Hw. exists []. split_and!; [done|simpl; lia|constructor]. Qed.

Lemma tried_sent r remain w last : tried r remain w last → (r, last) ∈ omap as_attempt w.
Proof.
  intros (replies & Hw & _). rewrite Hw, fmap_app. apply elem_of_app. right. by left.
Qed.

Lemma tried_body r remain w resp :
  tried r remain w (Ok resp) → Forall plain_reply w →
  match rs_Body resp with Err err => plain err | Ok _ => True end.
Proof.
  intros (c & Hc & Hs)%tried_sent%list_elem_of_omap Hw.
  rewrite Forall_forall in Hw. specialize (Hw c Hc).
  destruct c as [X e x]. destruct e; try done. unfold as_attempt in Hs. cbn in Hs. injection Hs as -> ->.
  exact Hw.
Qed.

Definition answered (w : list (call wireE)) (last : result response) (o : outcome (result response)) : Prop :=
  (∃ resp, o = Returned (Ok resp) ∧ last = Ok resp ∧ shouldRetry last = false) ∨
  (∃ err, o = Returned (Err err) ∧ (Forall plain_reply w → plain err)).

Lemma wp_attempts r attempt remain :
  wp (attempts r attempt remain) (λ w o, ∃ last, tried r remain w last ∧ answered w last o).
Proof.
  revert attempt. induction remain as [|remain IH]; intros attempt; simpl attempts;
    apply wp_vis; intros reply; apply wp_vis; intros [err|]; cbn;
    try (apply wp_ret; exists reply; split; [by apply tried_once|right];
         eexists; split; [done|]; intros [_ [He _]%Forall_cons]%Forall_cons; exact He).
  - destruct (shouldRetry reply) eqn:Hr.
    + apply wp_ret. exists reply. split; [by apply tried_once|right]. eexists. split; [done|].
      intros [He _]%Forall_cons. by destruct reply.
    + destruct reply as [resp|err]; apply wp_ret; eexists; (split; [by apply tried_once|]);
        [left; by eexists|right]. eexists. split; [done|]. by intros [He _]%Forall_cons.
  - destruct (shouldRetry reply) eqn:Hr.
    + apply wp_vis. intros [err|]; cbn.
      * apply wp_ret. exists reply. split; [by apply tried_once|right]. eexists. split; [done|].
        by intros [_ [_ [He _]%Forall_cons]%Forall_cons]%Forall_cons.
      * eapply wp_mono; [apply IH|]. intros w o (last & (replies & Hw & Hlen & Hall) & Ho).
        exists last. split.
        -- exists (reply :: replies). split_and!; [|simpl; lia|by constructor].
           change ((r, reply) :: omap as_attempt w = (r, reply) :: (pair r <$> replies ++ [last])).
           by rewrite Hw.
        -- destruct Ho as [?|(err & -> & He)]; [by left|right]. exists err. split; [done|].
           by intros [_ [_ [_ Hw']%Forall_cons]%Forall_cons]%Forall_cons; auto.
    + destruct reply as [resp|err]; apply wp_ret; eexists; (split; [by apply tried_once|]);
        [left; by eexists|right]. eexists. split; [done|]. by intros [He _]%Forall_cons.
Qed.

(** ** What is made of the reply *)

Lemma status_error_not_found code err :
  status_error code = Some err → errors_Is err ErrNotFound = true → code = 404.
Proof.
  assert (Forall (λ ce, errors_Is ce.2 ErrNotFound = true → ce.1 = 404) httpStatusCodeErrors) as Hall.
  { unfold httpStatusCodeErrors.
    repeat (constructor; [intros H; first [reflexivity|vm_compute in H; discriminate]|]). constructor. }
  unfold status_error. destruct (List.find _ _) as [[code' err']|] eqn:Hf; [|done].
  apply List.find_some in Hf as [Hin Hc%bool_decide_eq_true]. intros [= ->].
  rewrite Forall_forall in Hall. intros He. rewrite <-Hc. apply (Hall (code', err)); [|done].
  by apply list_elem_of_In.
Qed.

Lemma handle_not_found resp err :
  handleHTTPErrorResp resp = Some err → errors_Is err ErrNotFound = true → rs_StatusCode resp = 404.
Proof.
  unfold handleHTTPErrorResp. destruct (_ && _); [|done].
  destruct (rs_Body resp) as [data|e]; [|by intros [= <-]].
  destruct (if json_Valid data then _ else _) as [[message e]|e]; [|by intros [= <-]].
  destruct (status_error _) as [e'|] eqn:He; [|by intros [= <-]].
  intros [= <-]. simpl. by eapply status_error_not_found.
Qed.

(** Responses that become a value. *)
Definition succeeded (resp : response) : Prop :=
  ¬ 400 <= rs_StatusCode resp <= 599 ∧ rs_StatusCode resp ≠ 0 ∧ rs_StatusCode resp < 500.

Lemma handle_None resp :
  handleHTTPErrorResp resp = None → shouldRetry (Ok resp) = false → succeeded resp.
Proof.
  unfold handleHTTPErrorResp, shouldRetry, succeeded. intros Hh Hr.
  destruct ((400 <=? rs_StatusCode resp) && (rs_StatusCode resp <=? 599)) eqn:Hc.
  { destruct (rs_Body resp) as [data|]; [|done].
    destruct (if json_Valid data then _ else _) as [[? ?]|]; [|done].
    by destruct (status_error _). }
  rewrite !orb_false_iff, andb_false_iff, !bool_decide_eq_false in Hr.
  rewrite andb_false_iff, !Z.leb_gt in Hc. lia.
Qed.

(** The errors of the libraries for what is sent and received. *)
Definition plain_codec {A} (body : option (result string)) (method url : string)
    (decode : string → result A) : Prop :=
  (∀ err, body = Some (Err err) → plain err) ∧ (∀ err, NewRequest method url = Err err → plain err) ∧
  ∀ data err, decode data = Err err → plain err.

(** What a request is made of: the encoded body, the URL, the clock. *)
Definition composed (c : Client) (method path : string) (body : option (result string))
    (w : list (call wireE)) (r : request) : Prop :=
  ∃ b u now, body = Ok <$> b ∧ NewRequest method (cl_serverEndpoint c +:+ path) = Ok u ∧
    head w = Some (Call Now now) ∧ r = sent_request c method path b u now.

Definition operation_spec {A} (c : Client) (method path : string) (body : option (result string))
    (decode : string → result A) (w : list (call wireE)) (o : outcome (result A)) : Prop :=
  (∃ err, w = [] ∧ o = Returned (Err err) ∧
     (plain_codec body method (cl_serverEndpoint c +:+ path) decode → plain err)) ∨
  ∃ r last res, composed c method path body w r ∧ tried r retryMax w last ∧ o = Returned res ∧
    match res with
    | Ok a => ∃ resp, last = Ok resp ∧ succeeded resp ∧ prepareJSONResponse decode resp = Ok a
    | Err err =>
        Forall plain_reply w → plain_codec body method (cl_serverEndpoint c +:+ path) decode →
        errors_Is err ErrNotFound = true → ∃ resp, last = Ok resp ∧ rs_StatusCode resp = 404
    end.

Ltac compose u now := first [by exists None, u, now|by eexists (Some _), u, now].

Lemma wp_operation {A} c op method path body (decode : string → result A) :
  wp (operation c op method path body decode) (operation_spec c method path body decode).
Proof.
  unfold operation, operation_spec. apply wp_try_bind, wp_ret.
  destruct body as [[json|err]|]; simpl.
  2: { left. eexists. split_and!; [done..|]. intros (Hb & _). exact (Hb _ eq_refl). }
  all: apply wp_try_bind, wp_ret; destruct (NewRequest _ _) as [u|err] eqn:Hn; simpl;
    [|left; eexists; split_and!; [done..|]; intros (_ & Hnew & _); exact (Hnew _ Hn)].
  all: apply wp_vis; intros now.
  all: apply wp_try_bind, wp_wrap_err, wp_wrap_err; eapply wp_mono; [apply wp_attempts|].
  all: intros w o (last & Ht & [(resp & -> & -> & Hr)|(err & -> & He)]); simpl.
  2, 4: right; eexists _, last, _; split_and!; [compose u now|exact Ht|done|];
    intros [_ Hw]%Forall_cons _ Hnf; specialize (He Hw); unfold plain in He; simpl in Hnf; congruence.
  all: destruct (handleHTTPErrorResp resp) as [err|] eqn:Hh; apply wp_ret; rewrite app_nil_r;
    right; eexists _, (Ok resp), _; (split_and!; [compose u now|exact Ht|done|]).
  1, 3: intros _ _ Hnf; exists resp; split; [done|]; by eapply handle_not_found.
  all: unfold prepareJSONResponse; destruct (rs_Body resp) as [data|err] eqn:Hb; simpl;
    [destruct (decode data) as [a|err] eqn:Hd; simpl|].
  1, 4: exists resp; split; [done|]; rewrite Hb; split; [by apply handle_None|done].
  1, 3: intros _ (_ & _ & Hdec) Hnf; specialize (Hdec _ _ Hd); unfold plain in Hdec; simpl in Hnf; congruence.
  all: intros [_ Hw]%Forall_cons _ Hnf; pose proof (tried_body _ _ _ _ Ht Hw) as Hp; rewrite Hb in Hp;
    unfold plain in Hp; simpl in Hnf; congruence.
Qed.

(** C27: every operation but the wait either fails before it sends anything or sends
    one request, made of its encoded arguments and signed with the secret of the
    client once: the same each time, at most five times, and again only when
    there was no response or one that says to try later (429, or 5xx but 501),
    whether the operation creates something or not. It succeeds only with a
    response that is not an error, the last one. *)
Theorem operation_retried {A} c op method path body (decode : string → result A) :
  wp (operation c op method path body decode) (λ w o,
    (w = [] ∧ ∃ err, o = Returned (Err err)) ∨
    ∃ r replies, composed c method path body w r ∧ omap as_attempt w = pair r <$> replies ∧
      (1 ≤ length replies ≤ 5)%nat ∧
      (∀ pre reply post, replies = pre ++ reply :: post → post ≠ [] → shouldRetry reply = true) ∧
      ∀ a, o = Returned (Ok a) → ∃ resp, last replies = Some (Ok resp) ∧ succeeded resp).
Proof.
  eapply wp_mono; [apply wp_operation|].
  intros w o [(err & -> & -> & _)|(r & last & res & Hr & (replies & Hw & Hlen & Hall) & -> & Hres)];
    [left; by eauto|right].
  exists r, (replies ++ [last]). unfold retryMax in Hlen.
  split_and!; [done|done|rewrite length_app; simpl; lia..| |].
  - intros pre reply post Heq Hpost. destruct post as [|y post _] using rev_ind; [done|].
    rewrite app_comm_cons, app_assoc in Heq. apply app_inj_tail in Heq as [-> _].
    rewrite Forall_app, Forall_cons in Hall. tauto.
  - intros a [= ->]. destruct Hres as (resp & -> & Hs & _). exists resp. by rewrite last_snoc.
Qed.

(** A creation whose response was lost to a gateway is sent again, and succeeds
    whatever the first one did. *)
Lemma creation_repeated c req json u now lost kept op data :
  json_Create req = Ok json → NewRequest "POST" (cl_serverEndpoint c +:+ "/load-balancer") = Ok u →
  rs_StatusCode lost = 502 → rs_StatusCode kept = 200 →
  rs_Body kept = Ok data → json_Operation data = Ok op →
  let r := sent_request c "POST" "/load-balancer" (Some json) u now in
  exec (over_http c (ApiCreateLoadBalancer req))
    [Call Now now; Call (Attempt r) (Ok lost); Call ContextErr None; Call Pause None;
     Call (Attempt r) (Ok kept); Call ContextErr None]
    (Returned (Ok op)).
Proof.
  intros Hjson Hnew Hlost Hkept Hbody Hop r. simpl over_http.
  unfold operations.CreateLoadBalancer, operation. rewrite Hjson. simpl. rewrite Hnew. simpl.
  exists now. eexists. split; [done|]. exists (Ok lost). eexists. split; [done|].
  exists None. eexists. split; [done|]. unfold shouldRetry at 1. rewrite Hlost. simpl.
  exists None. eexists. split; [done|]. exists (Ok kept). eexists. split; [done|].
  exists None. eexists. split; [done|]. unfold shouldRetry. rewrite Hkept. simpl.
  unfold handleHTTPErrorResp, prepareJSONResponse. rewrite Hkept, Hbody. simpl. by rewrite Hop.
Qed.

(** *** Through the client *)

Ltac unfold_operation :=
  unfold operations.CreateLoadBalancer, operations.AddServiceToLoadBalancer,
    operations.DeleteLoadBalancer, operations.DeleteLoadBalancerService, operations.GetInstance,
    operations.GetInstanceType, operations.GetLoadBalancer, operations.ListInstances,
    operations.ListLoadBalancers, operations.ListSKSClusters, operations.UpdateLoadBalancer,
    operations.UpdateLoadBalancerService.

Lemma wp_over_http_returns {X} c (e : exoE X) :
  wp (over_http c e) (λ _ o, ∃ x, o = Returned x).
Proof.
  assert (∀ A op method path body (decode : string → result A),
    wp (operation c op method path body decode) (λ _ o, ∃ x, o = Returned x)) as Hop.
  { intros. eapply wp_mono; [apply wp_operation|].
    by intros w o [(err & _ & -> & _)|(_ & _ & res & _ & _ & -> & _)]; eexists. }
  destruct e; cbn [over_http]; [unfold_operation; apply Hop..|]. apply wp_vis. intros r. apply wp_ret. by eexists.
Qed.

Definition is_request {X} (e : clientE X) : bool :=
  match e with Request _ _ => true | _ => false end.

(** A trace of a goroutine, and one with its requests on the wire. *)
Inductive carried : list (call clientE) → list (call wireE) → Prop :=
| carried_nil : carried [] []
| carried_request {X} c (e : exoE X) x w t w' :
    exec (over_http c e) w (Returned x) → carried t w' → carried (Call (Request c e) x :: t) (w ++ w')
| carried_inside {X} (e : clientE X) x t w :
    is_request e = false → carried t w → carried (Call e x :: t) (Call (Inside e) x :: w).

Lemma wp_on_the_wire {A} (m : prog clientE A) :
  wp (on_the_wire m) (λ w o, ∃ t, exec m t o ∧ carried t w).
Proof.
  induction m as [a|h|X e k IH].
  - apply wp_ret. exists []. split; [done|constructor].
  - apply wp_halt. exists []. split; [done|constructor].
  - assert (is_request e = false →
      wp (Vis (Inside e) (λ x, on_the_wire (k x))) (λ w o, ∃ t, exec (Vis e k) t o ∧ carried t w)) as Hin.
    { intros He. apply wp_vis. intros x. eapply wp_mono; [apply IH|]. intros w o (t & Ht & Hc).
      exists (Call e x :: t). split; [by exists x, t|by constructor]. }
    destruct e; try exact (Hin eq_refl). clear Hin. simpl. apply wp_bind.
    intros w o Hw. destruct (wp_over_http_returns _ _ _ _ Hw) as [x ->].
    eapply wp_mono; [apply IH|]. intros w' o (t & Ht & Hc).
    exists (Call (Request c e) x :: t). split; [by exists x, t|by econstructor].
Qed.

(** The exchanges of a request are among those of the whole trace. *)
Definition exchanged (w : list (call wireE)) (c : call clientE) : Prop :=
  match call_event c in clientE X return X → Prop with
  | Request cl e => λ x, ∃ w', exec (over_http cl e) w' (Returned x) ∧ w' ⊆ w
  | _ => λ _, True
  end (call_reply c).

Lemma exchanged_mono w w' c : exchanged w c → w ⊆ w' → exchanged w' c.
Proof.
  unfold exchanged. destruct c as [X e x]. destruct e; try done. cbn.
  intros (u & Hu & Hw) Hsub. exists u. split; [done|]. by etrans.
Qed.

Lemma carried_exchanged t w : carried t w → Forall (exchanged w) t.
Proof.
  induction 1 as [|X c e x w t w' He Hc IH|X e x t w He Hc IH]; constructor.
  - exists w. split; [done|]. set_solver.
  - eapply Forall_impl; [apply IH|]. intros a Ha. eapply exchanged_mono; [done|]. set_solver.
  - by destruct e.
  - eapply Forall_impl; [apply IH|]. intros a Ha. eapply exchanged_mono; [done|]. set_solver.
Qed.

(** What a goroutine did for a call of its handler. *)
Definition served (t : list (call clientE)) (c : call ccmE) : Prop :=
  match call_event c in ccmE X return X → Prop with
  | ExoCall e => λ x, ∃ u, exec (refreshable e) u (Returned x) ∧ u ⊆ t
  | _ => λ _, True
  end (call_reply c).

Lemma served_mono t t' c : served t c → t ⊆ t' → served t' c.
Proof.
  unfold served. destruct c as [X e x]. destruct e; try done. cbn.
  intros (u & Hu & Ht) Hsub. exists u. split; [done|]. by etrans.
Qed.

Lemma realised_served t u : realised t u → Forall (served u) t.
Proof.
  induction 1 as [|X e x u t t' He Hc IH|X e x t t' He Hc IH]; [done|constructor..].
  - exists u. split; [done|]. set_solver.
  - eapply Forall_impl; [apply IH|]. intros a Ha. eapply served_mono; [done|]. set_solver.
  - by destruct e.
  - eapply Forall_impl; [apply IH|]. intros a Ha. eapply served_mono; [done|]. set_solver.
Qed.

Lemma wp_rlocked_via_sent {X} (e : exoE X) :
  wp (rlocked (via e)) (λ u o, ∀ x, o = Returned x → ∃ c, Call (Request c e) x ∈ u).
Proof.
  apply wp_vis. intros []. apply wp_vis. intros [c|]; cbn; apply wp_vis.
  - intros x. apply wp_vis. intros []. apply wp_ret. intros x' [= <-]. exists c. set_solver.
  - intros []. by apply wp_halt.
Qed.

(** A node is reported missing on good evidence: no override vouches for it, and
    either the API may not be used or it answered a request for the instance
    with the status 404. *)
Definition answered_404 (cfg : instancesConfig) (override : option instancesOverrideConfig) (id : UUID)
    (w : list (call wireE)) : Prop :=
  (∀ o, override = Some o → ov_External o = false) ∧
  (ic_ExternalOnly cfg = true ∨ ∃ c r resp, (r, Ok resp) ∈ omap as_attempt w ∧
     rq_Method r = "GET" ∧
     rq_URL r = cl_serverEndpoint c +:+ "/instance/" +:+ TrimPrefix id providerPrefix ∧
     rs_StatusCode resp = 404).

Section missing.
Context {unicode : UnicodeTables} {regexp : Regexp}.
Context (p : cloudProvider).
Let cfg := cc_Instances (p_cfg p).
Context (plain_request : ∀ url err, NewRequest "GET" url = Err err → plain err).
Context (plain_instance : ∀ data err, json_Instance data = Err err → plain err).

Lemma missing_on_the_wire override id m :
  wp m (λ t o, o = Returned (Ok false) → reported_missing p override id t) →
  wp (on_the_wire (through_client m)) (λ w o,
    o = Returned (Ok false) → Forall plain_reply w → answered_404 cfg override id w).
Proof.
  intros Hm w o Hw -> Hp. apply wp_on_the_wire in Hw as (u & Hu & Hc).
  apply wp_through_client in Hu as [|(t & Ht & Hr & _)]; [done|].
  destruct (Hm _ _ Ht eq_refl) as [Hov [[Honly _]|(_ & err & He & ->)]]; (split; [exact Hov|]); [by left|right].
  apply realised_served in Hr. apply Forall_cons in Hr as [(u' & Hu' & Hsub) _].
  destruct (wp_rlocked_via_sent _ _ _ Hu' _ eq_refl) as [c Hin].
  apply carried_exchanged in Hc. rewrite Forall_forall in Hc.
  destruct (Hc _ (Hsub _ Hin)) as (w' & Hw' & Hww). clear Hc.
  apply wp_operation in Hw' as [(e & _ & [= <-] & Hplain)|(r & last & res & (b & u0 & now & _ & _ & _ & ->) & Ht' & [= <-] & Hres)].
  - rewrite Hplain in He; [done|]. split_and!; [done|apply plain_request|apply plain_instance].
  - destruct Hres as (resp & -> & H404).
    + rewrite !Forall_forall in Hp |- *. auto.
    + split_and!; [done|apply plain_request|apply plain_instance].
    + done.
    + exists c, (sent_request c "GET" ("/instance/" +:+ TrimPrefix id providerPrefix) b u0 now), resp.
      split; [|by split_and!].
      apply tried_sent in Ht'. apply list_elem_of_omap in Ht' as (a & Ha & Hs).
      apply list_elem_of_omap. exists a. split; [by apply Hww|done].
Qed.

(** C25: a node is reported missing, upon which the controller deletes it, only
    if no external override vouches for it and, where the API is in use, a
    request for that instance was answered with the status 404: no failure of
    the network, no other status and no response that does not parse has that
    effect. Both generations of the interface. *)
Theorem missing_means_404 :
  (∀ providerID,
     wp (on_the_wire (through_client (InstanceExistsByProviderID p providerID))) (λ w o,
       o = Returned (Ok false) → Forall plain_reply w →
       answered_404 cfg (getInstanceOverrideByProviderID cfg providerID) providerID w)) ∧
  (∀ node,
     wp (on_the_wire (through_client (InstanceExists p node))) (λ w o,
       o = Returned (Ok false) → Forall plain_reply w →
       answered_404 cfg (nodeInstanceOverride p node) (node_ID node) w)).
Proof.
  split; intros; apply missing_on_the_wire; by apply missing_only_on_evidence.
Qed.
End missing.
End wire.
