(* ===== verification/Polling.v ===== *)
(** The wait for an operation on the wire: [Client.Wait] of egoscale (api.go) with
    its polls as requests for the operation. It does what Wait makes of the
    replies it gets, and a method that starts an operation is followed from its
    request to the response its success comes from. *)
From S2P Require Import Prelude GoErrors GoStrings Effects Egoscale Kube InstancesConfig CloudConfig.
From S2P Require Import Client ClientProps Wait Transport.
#[local] Open Scope Z_scope.

(** What [select] receives, the time since the start at a tick or the error of the
    context that ended, and the effects of exchanges. *)
Inductive pollE : Type → Type :=
| Select : pollE (Z + error)
| Exchange {X} (e : wireE X) : pollE X.

Section polling.
Context {web : Web} (waitTimeout : Z).

(** The loop, for at most [n] rounds: [None] when it would go on. *)
Fixpoint poll (c : Client) (op : Operation) (subsequentErrors : Z) (n : nat) :
    prog pollE (option (result Operation)) :=
  match n with
  | O => mret None
  | S n =>
      received ← trigger Select;
      match received with
      | inr err => mret (Some (Err err))
      | inl runTime =>
          if late waitTimeout runTime then
            mret (Some (Err (ErrorNew "operation: %q: max wait timeout reached" [op_ID op])))
          else
            reply ← lift (@Exchange) (operations.GetOperation c (op_ID op));
            match reply with
            | Err err =>
                let subsequentErrors := subsequentErrors + 1 in
                if bool_decide (subsequentErrors >= abortErrorsCount) then mret (Some (Err err))
                else poll c op subsequentErrors n
            | Ok o =>
                if bool_decide (op_State o = OperationStatePending) then poll c op 0 n
                else mret (Some (Ok o))
            end
      end
  end.

Definition poll_wait (n : nat) (c : Client) (op : Operation) (states : list string) :
    prog pollE (option (result Operation)) :=
  if bool_decide (op_State op ≠ OperationStatePending) then mret (Some (Ok op))
  else
    r ← poll c op 0 n;
    mret (match r with
          | None => None
          | Some (Err err) => Some (Err err)
          | Some (Ok operation) => Some (concluded states operation)
          end).

(** A goroutine with its waits on the wire too, each for at most [n] rounds. *)
Fixpoint with_polls {A} (n : nat) (m : prog wireE A) : prog pollE (option A) :=
  match m with
  | Ret a => Ret (Some a)
  | Halt h => Halt h
  | Vis e k =>
      match e in wireE X return (X → prog pollE (option A)) → prog pollE (option A) with
      | AwaitOperation c op states => λ k,
          r ← poll_wait n c op states;
          match r with
          | None => mret None
          | Some r => k r
          end
      | e => λ k, Vis (Exchange e) k
      end (λ x, with_polls n (k x))
  end.

(** ** The rounds *)

Definition exchange (w : list (call wireE)) : list (call pollE) := lift_call (@Exchange) <$> w.

(** What the loop receives, and the exchanges it makes for it. A reply that comes
    too late is not asked for. *)
Inductive polled (c : Client) (id : UUID) : list (call pollE) → list poll_event → Prop :=
| polled_stop : polled c id [] []
| polled_done err : polled c id [Call Select (inr err)] [CtxDone err]
| polled_late t reply :
    late waitTimeout t = true → polled c id [Call Select (inl t)] [Tick t reply]
| polled_tick t w reply u events :
    late waitTimeout t = false → exec (operations.GetOperation c id) w (Returned reply) →
    polled c id u events →
    polled c id (Call Select (inl t) :: exchange w ++ u) (Tick t reply :: events).

Lemma wp_GetOperation_returns c id : wp (operations.GetOperation c id) (λ _ o, ∃ r, o = Returned r).
Proof.
  unfold operations.GetOperation. eapply wp_mono; [apply wp_operation|].
  by intros w o [(err & _ & -> & _)|(_ & _ & res & _ & _ & -> & _)]; eexists.
Qed.

Lemma wp_poll c op k n :
  wp (poll c op k n) (λ u o, ∃ events, polled c (op_ID op) u events ∧ (length events ≤ n)%nat ∧
    o = Returned (polling waitTimeout op k events) ∧
    (polling waitTimeout op k events = None → length events = n)).
Proof.
  revert k. induction n as [|n IH]; intros k; simpl.
  { apply wp_ret. exists []. split_and!; [constructor|done..]. }
  apply wp_vis. intros [t|err]; cbn.
  2: { apply wp_ret. exists [CtxDone err]. split_and!; [constructor|simpl; lia|done..]. }
  destruct (late waitTimeout t) eqn:Hl.
  { apply wp_ret. exists [Tick t (Ok op)]. simpl. rewrite Hl.
    split_and!; [by constructor|lia|done..]. }
  apply wp_bind, wp_lift. intros w o Hw.
  destruct (wp_GetOperation_returns _ _ _ _ Hw) as [reply ->].
  assert (∀ r, polling waitTimeout op k [Tick t reply] = Some r →
    wp (mret (Some r)) (λ u o, ∃ events, polled c (op_ID op) (Call Select (inl t) :: exchange w ++ u) events ∧
      (length events ≤ S n)%nat ∧ o = Returned (polling waitTimeout op k events) ∧
      (polling waitTimeout op k events = None → length events = S n))) as Hend.
  { intros r Hr. apply wp_ret. exists [Tick t reply]. rewrite Hr.
    split_and!; [by constructor; [..|constructor]|simpl; lia|done..]. }
  assert (∀ k', (∀ events, polling waitTimeout op k (Tick t reply :: events) = polling waitTimeout op k' events) →
    wp (poll c op k' n) (λ u o, ∃ events, polled c (op_ID op) (Call Select (inl t) :: exchange w ++ u) events ∧
      (length events ≤ S n)%nat ∧ o = Returned (polling waitTimeout op k events) ∧
      (polling waitTimeout op k events = None → length events = S n))) as Hgo.
  { intros k' Hk. eapply wp_mono; [apply IH|]. intros u o (events & Hu & Hlen & -> & Hn).
    exists (Tick t reply :: events). rewrite Hk. split_and!; [by constructor|simpl; lia|done|].
    intros Hnone. simpl. by rewrite Hn. }
  simpl in Hend, Hgo. rewrite Hl in Hend, Hgo.
  destruct reply as [o|err]; case_bool_decide; by first [apply Hend|apply Hgo].
Qed.

Lemma wp_poll_wait n c op states :
  wp (poll_wait n c op states) (λ u o, ∃ events, polled c (op_ID op) u events ∧ (length events ≤ n)%nat ∧
    o = Returned (Wait waitTimeout (Some op) states events) ∧
    (Wait waitTimeout (Some op) states events = None → length events = n)).
Proof.
  unfold poll_wait, Wait. case_bool_decide as Hp.
  { apply wp_ret. exists []. split_and!; [constructor|simpl; lia|done..]. }
  apply wp_bind. eapply wp_mono; [apply wp_poll|]. intros u o (events & Hu & Hlen & -> & Hn).
  apply wp_ret. rewrite app_nil_r. exists events. split_and!; [done..|].
  by destruct (polling waitTimeout op 0 events) as [[]|].
Qed.

(** C34: what the wait does on the wire, and when it ends. Within [n] rounds it makes
    the exchanges of at most [n] requests for the operation, each after a tick that
    is not too late, and returns what [Wait] returns of the replies. It goes on
    after the [n]th round exactly when the operation was pending and everything
    received left it so: no end of the context, no tick past the timeout, no reply
    with another state, and never five failing requests in a row. *)
Theorem wait_on_the_wire n c op states :
  wp (poll_wait n c op states) (λ u o, ∃ events, polled c (op_ID op) u events ∧ (length events ≤ n)%nat ∧
    o = Returned (Wait waitTimeout (Some op) states events) ∧
    (o = Returned None ↔ op_State op = OperationStatePending ∧ length events = n ∧
       forallb (idle waitTimeout) events = true ∧ ¬ aborted events)).
Proof.
  eapply wp_mono; [apply wp_poll_wait|]. intros u o (events & Hu & Hlen & -> & Hn).
  exists events. split_and!; [done..|].
  transitivity (Wait waitTimeout (Some op) states events = None); [split; [by intros [=]|by intros ->]|].
  rewrite wait_goes_on_iff in Hn |- *. tauto.
Qed.

(** ** What is sent *)

Definition attempted (c : call pollE) : option (request * result response) :=
  match call_event c in pollE X return X → _ with
  | Exchange e => λ x, as_attempt (Call e x)
  | Select => λ _, None
  end (call_reply c).

Definition sent (u : list (call pollE)) : list (request * result response) := omap attempted u.

Lemma sent_app u u' : sent (u ++ u') = sent u ++ sent u'.
Proof. apply omap_app. Qed.

Lemma sent_exchange w : sent (exchange w) = omap as_attempt w.
Proof.
  induction w as [|[X e x] w IH]; [done|]. change (exchange (Call e x :: w)) with
    ([Call (Exchange e) x] ++ exchange w). rewrite sent_app, IH. by destruct e.
Qed.

(** A request that a client made of an operation, and the value of a response. *)
Definition made (c : Client) (method path : string) (body : option (result string)) (r : request) : Prop :=
  ∃ b u now, body = Ok <$> b ∧ NewRequest method (cl_serverEndpoint c +:+ path) = Ok u ∧
    r = sent_request c method path b u now.

Definition read (reply : result response) (op : Operation) : Prop :=
  ∃ resp, reply = Ok resp ∧ succeeded resp ∧ prepareJSONResponse json_Operation resp = Ok op.

(** The exchanges of one operation: the same request until its last reply. *)
Definition requested (c : Client) (method path : string) (body : option (result string))
    (w : list (request * result response)) (r : result Operation) : Prop :=
  (∃ err, w = [] ∧ r = Err err) ∨
  ∃ rq replies last, made c method path body rq ∧ w = pair rq <$> replies ++ [last] ∧
    (length replies ≤ 4)%nat ∧ Forall (λ reply, shouldRetry reply = true) replies ∧
    ∀ op, r = Ok op → read last op.

Lemma wp_operation_requested c name method path body :
  wp (operation c name method path body json_Operation) (λ w o, ∃ r, o = Returned r ∧
    requested c method path body (omap as_attempt w) r).
Proof.
  eapply wp_mono; [apply wp_operation|].
  intros w o [(err & -> & -> & _)|(rq & last & res & (b & u & now & Hb & Hu & _ & ->) &
    (replies & Hw & Hlen & Hall) & -> & Hres)].
  - exists (Err err). split; [done|left]. by exists err.
  - exists res. split; [done|right]. eexists _, replies, last. split_and!; [by exists b, u, now|done..|].
    by intros op ->.
Qed.

(** Requests for an operation, and their last reply. *)
Definition polls_for (c : Client) (id : UUID) (w : list (request * result response)) : Prop :=
  Forall (λ x, made c "GET" ("/operation/" +:+ id) None x.1) w.

Lemma requested_polls c id w r :
  requested c "GET" ("/operation/" +:+ id) None w r →
  polls_for c id w ∧ (length w ≤ 5)%nat ∧
  ∀ op, r = Ok op → ∃ x, last w = Some x ∧ read x.2 op.
Proof.
  intros [(err & -> & ->)|(rq & replies & lst & Hm & -> & Hlen & _ & Hr)].
  - split_and!; [constructor|simpl; lia|done].
  - split_and!.
    + apply Forall_fmap, Forall_true. by intros x.
    + rewrite length_fmap, length_app. simpl. lia.
    + intros op Hop. exists (rq, lst). split; [|by apply Hr]. by rewrite fmap_last, last_snoc.
Qed.

Lemma wp_GetOperation_polls c id :
  wp (operations.GetOperation c id) (λ w o, ∃ r, o = Returned r ∧
    polls_for c id (omap as_attempt w) ∧ (length (omap as_attempt w) ≤ 5)%nat ∧
    ∀ op, r = Ok op → ∃ x, last (omap as_attempt w) = Some x ∧ read x.2 op).
Proof.
  unfold operations.GetOperation. eapply wp_mono; [apply wp_operation_requested|].
  intros w o (r & -> & Hw%requested_polls). by exists r.
Qed.

#[local] Opaque operations.GetOperation.

Lemma wp_poll_sent c op k n :
  wp (poll c op k n) (λ u o, polls_for c (op_ID op) (sent u) ∧ (length (sent u) ≤ 5 * n)%nat ∧
    ∀ op', o = Returned (Some (Ok op')) →
      op_State op' ≠ OperationStatePending ∧ ∃ x, last (sent u) = Some x ∧ read x.2 op').
Proof.
  unfold polls_for. revert k. induction n as [|n IH]; intros k; simpl.
  { apply wp_ret. by split_and!; [constructor|simpl; lia|]. }
  apply wp_vis. intros [t|err]; cbn; [|apply wp_ret; by split_and!; [constructor|simpl; lia|]].
  destruct (late waitTimeout t); [apply wp_ret; by split_and!; [constructor|simpl; lia|]|].
  apply wp_bind, wp_lift. eapply wp_mono; [apply wp_GetOperation_polls|].
  intros w ? (reply & -> & Hw & Hlen & Hlast).
  assert (∀ r, (∀ op', r = Ok op' → reply = Ok op' ∧ op_State op' ≠ OperationStatePending) →
    wp (mret (Some r)) (λ u o, let s := sent (Call Select (inl t) :: exchange w ++ u) in
      polls_for c (op_ID op) s ∧ (length s ≤ 5 * S n)%nat ∧ ∀ op', o = Returned (Some (Ok op')) →
      op_State op' ≠ OperationStatePending ∧ ∃ x, last s = Some x ∧ read x.2 op')) as Hend.
  { intros r Hr. apply wp_ret. rewrite app_nil_r. change (sent (_ :: ?u)) with (sent u).
    rewrite sent_exchange. split_and!; [done|lia|]. intros op' [= [-> Hp]%Hr]. eauto. }
  assert (∀ k', wp (poll c op k' n) (λ u o, let s := sent (Call Select (inl t) :: exchange w ++ u) in
      polls_for c (op_ID op) s ∧ (length s ≤ 5 * S n)%nat ∧ ∀ op', o = Returned (Some (Ok op')) →
      op_State op' ≠ OperationStatePending ∧ ∃ x, last s = Some x ∧ read x.2 op')) as Hgo.
  { intros k'. eapply wp_mono; [apply IH|]. intros u o (Hu & Hn & Ho). cbv zeta.
    change (sent (_ :: ?u)) with (sent u). rewrite sent_app, sent_exchange. split_and!.
    - by apply Forall_app.
    - rewrite length_app. lia.
    - intros op' [Hp (x & Hx & Hr)]%Ho. split; [done|]. exists x. by rewrite last_app, Hx. }
  destruct reply as [o|err]; case_bool_decide as Hs.
  - exact (Hgo 0).
  - apply Hend. by intros op' [= ->].
  - by apply Hend.
  - apply Hgo.
Qed.

(** ** Goroutines with their polls *)

Lemma exec_with_polls_bind {A B} n (m : prog wireE A) (f : A → prog wireE B) u o :
  exec (with_polls n (m ≫= f)) u o ↔
  exec (r ← with_polls n m;
        match r with Some a => with_polls n (f a) | None => mret None end) u o.
Proof.
  revert u. induction m as [a|h|X e k IH]; intros u; [done..|].
  assert ((∃ x u', u = Call (Exchange e) x :: u' ∧ exec (with_polls n (k x ≫= f)) u' o) ↔
    ∃ x u', u = Call (Exchange e) x :: u' ∧ exec (r ← with_polls n (k x);
      match r with Some a => with_polls n (f a) | None => mret None end) u' o) as Hvis.
  { by setoid_rewrite IH. }
  destruct e; try exact Hvis. clear Hvis. cbn [with_polls mbind prog_mbind prog_bind].
  rewrite (exec_bind_assoc (poll_wait n c op states)).
  apply exec_bind_ext. intros [r|] u'; [apply IH|done].
Qed.

Lemma wp_with_polls_bind {A B} n (m : prog wireE A) (f : A → prog wireE B) Φ :
  wp (with_polls n m) (λ u o, match o with
    | Returned (Some a) => wp (with_polls n (f a)) (λ u' o', Φ (u ++ u') o')
    | Returned None => Φ u (Returned None)
    | Halted h => Φ u (Halted h)
    end) →
  wp (with_polls n (m ≫= f)) Φ.
Proof.
  intros Hm u o Hu%exec_with_polls_bind. revert u o Hu. apply wp_bind.
  eapply wp_mono; [exact Hm|]. intros u [[a|]|h] H; [done| |done].
  apply wp_ret. by rewrite app_nil_r.
Qed.

(** What does not wait. *)
Definition no_wait X (e : wireE X) : Prop :=
  match e with AwaitOperation _ _ _ => False | _ => True end.

Lemma wp_with_polls_direct {A} n (m : prog wireE A) Φ :
  calls no_wait m →
  wp m (λ w o, Φ (exchange w) (match o with Returned a => Returned (Some a) | Halted h => Halted h end)) →
  wp (with_polls n m) Φ.
Proof.
  revert Φ. induction m as [a|h|X e k IH]; intros Φ Hc Hm.
  - apply wp_ret. exact (Hm [] (Returned a) (conj eq_refl eq_refl)).
  - apply wp_halt. exact (Hm [] (Halted h) (conj eq_refl eq_refl)).
  - destruct Hc as [He Hc].
    assert (wp (Vis (Exchange e) (λ x, with_polls n (k x))) Φ) as Hvis; [|by destruct e].
    apply wp_vis. intros x. apply IH; [apply Hc|]. intros w o Hw.
    apply (Hm (Call e x :: w) o). by exists x, w.
Qed.

Lemma attempts_no_wait r attempt remain : calls no_wait (attempts r attempt remain).
Proof.
  revert attempt. induction remain as [|remain IH]; intros attempt; split; try done;
    intros reply; (split; [done|]); intros [err|]; try done; cbn; destruct (shouldRetry reply);
    try done; try by destruct reply.
  split; [done|]. intros [err|]; [done|apply IH].
Qed.

Lemma operation_no_wait {A} c name method path body (decode : string → result A) :
  calls no_wait (operation c name method path body decode).
Proof.
  apply calls_try_bind; [done|]. intros b. apply calls_try_bind; [done|]. intros u. split; [done|].
  intros now. apply calls_try_bind; [apply calls_wrap_err, calls_wrap_err, attempts_no_wait|].
  intros resp. by destruct (handleHTTPErrorResp resp).
Qed.

(** ** Methods that start an operation *)

(** What starts one, with the request it is. *)
Inductive starts : exoE (result Operation) → string → string → option (result string) → Prop :=
| starts_create req :
    starts (ApiCreateLoadBalancer req) "POST" "/load-balancer" (Some (json_Create req))
| starts_add id req :
    starts (ApiAddServiceToLoadBalancer id req) "POST" ("/load-balancer/" +:+ id +:+ "/service")
      (Some (json_Add req))
| starts_delete id : starts (ApiDeleteLoadBalancer id) "DELETE" ("/load-balancer/" +:+ id) None
| starts_delete_service id serviceID :
    starts (ApiDeleteLoadBalancerService id serviceID) "DELETE"
      ("/load-balancer/" +:+ id +:+ "/service/" +:+ serviceID) None
| starts_update id req :
    starts (ApiUpdateLoadBalancer id req) "PUT" ("/load-balancer/" +:+ id) (Some (json_Update req))
| starts_update_service id serviceID req :
    starts (ApiUpdateLoadBalancerService id serviceID req) "PUT"
      ("/load-balancer/" +:+ id +:+ "/service/" +:+ serviceID) (Some (json_UpdateService req)).

Lemma starts_operation c e method path body :
  starts e method path body → ∃ name, over_http c e = operation c name method path body json_Operation.
Proof. by intros []; eexists. Qed.

Lemma wp_starts n c e method path body :
  starts e method path body →
  wp (with_polls n (over_http c e)) (λ u o, ∃ r, o = Returned (Some r) ∧
    requested c method path body (sent u) r).
Proof.
  intros [name ->]%(starts_operation c). apply wp_with_polls_direct; [apply operation_no_wait|].
  eapply wp_mono; [apply wp_operation_requested|]. intros w o (r & -> & Hw).
  exists r. by rewrite sent_exchange.
Qed.

Lemma wp_poll_wait_sent n c op states :
  wp (poll_wait n c op states) (λ u o, ∀ op', o = Returned (Some (Ok op')) →
    if decide (op_State op = OperationStatePending)
    then polls_for c (op_ID op) (sent u) ∧ op_State op' ≠ OperationStatePending ∧
         (states = [] ∨ op_State op' ∈ states) ∧ ∃ x, last (sent u) = Some x ∧ read x.2 op'
    else sent u = [] ∧ op' = op).
Proof.
  unfold poll_wait. destruct (decide (op_State op = OperationStatePending)) as [Hp|Hp].
  2: { rewrite bool_decide_eq_true_2 by done. apply wp_ret. by intros op' [= ->]. }
  rewrite bool_decide_eq_false_2 by (by intros []).
  apply wp_bind. eapply wp_mono; [apply wp_poll_sent|].
  intros u [[[o|err]|]|h] (Hu & _ & Ho); [|by apply wp_ret..|done].
  apply wp_ret. intros op' [= [-> Hs]%concluded_Ok]. rewrite app_nil_r.
  destruct (Ho _ eq_refl) as [Hne Hx]. by split_and!.
Qed.

(** C29: where a success comes from. A method that starts an operation sends its
    request, again only for the replies that call for it, and has its success
    from the response that is not an error. Unless the operation in that response
    is still pending it is what the method returns. If it is pending, nothing but
    requests for that operation is sent from then on, and the last response gives
    the operation returned, whose state is "success". *)
Theorem success_on_the_wire n e method path body (He : starts e method path body) :
  wp (with_polls n (on_the_wire (awaited e))) (λ u o, ∀ op', o = Returned (Some (Ok op')) →
    ∃ c rq replies reply op polls, sent u = (pair rq <$> replies ++ [reply]) ++ polls ∧
      made c method path body rq ∧ (length replies ≤ 4)%nat ∧
      Forall (λ reply, shouldRetry reply = true) replies ∧ read reply op ∧
      if decide (op_State op = OperationStatePending)
      then op_State op' = OperationStateSuccess ∧
        ∃ c', polls_for c' (op_ID op) polls ∧ ∃ x, last polls = Some x ∧ read x.2 op'
      else polls = [] ∧ op' = op).
Proof.
  unfold awaited, rlocked. apply wp_vis. intros []. apply wp_vis. intros [c|]; cbn.
  2: { apply wp_vis. intros []. by apply wp_halt. }
  apply wp_with_polls_bind. eapply wp_mono; [by eapply wp_starts|].
  intros u1 o1 ([op|err] & -> & Hreq).
  2: { apply wp_vis. intros []. by apply wp_ret. }
  destruct Hreq as [(? & _ & ?)|(rq & replies & reply & Hm & Hu1 & Hlen & Hall & Hread)]; [done|].
  apply wp_vis. intros [c'|].
  2: { apply wp_vis. intros []. by apply wp_halt. }
  apply wp_bind. eapply wp_mono; [apply wp_poll_wait_sent|].
  intros u2 [[[op1|err]|]|h] Hw; [|by apply wp_vis; intros []; apply wp_ret|by apply wp_ret|done].
  apply wp_vis. intros []. apply wp_ret. intros op' [= <-].
  exists c, rq, replies, reply, op, (sent u2).
  split_and!; [|done..|by apply Hread|].
  - change (sent (u1 ++ [Call (Exchange (Inside LoadExo)) (Some c')] ++ u2 ++
      [Call (Exchange (Inside RUnlock)) ()]) = (pair rq <$> replies ++ [reply]) ++ sent u2).
    by rewrite !sent_app, Hu1, app_nil_r.
  - specialize (Hw _ eq_refl). case_decide; [|done].
    destruct Hw as (Hp & _ & [|Hs%list_elem_of_singleton] & Hx); [done|]. eauto.
Qed.
End polling.
