(* ===== verification/Shutdown.v ===== *)
(** Shutting down (exoscale.go, sks_agent.go and the loops of client.go and of
    sks_agent_runner_node_csr_validation.go): how the closing of the channel that
    [Initialize] is given reaches the goroutines of the provider. *)
From S2P Require Import Prelude GoErrors GoStrings GoNet Effects Egoscale Kube InstancesConfig.
From S2P Require Import CloudConfig Client CSR.

(** The goroutines that [Initialize] leaves behind: the one that waits for the
    stop channel, the watcher of the credentials file, if there is one, by the
    inputs it has received, and the agents. *)
Record process := {
  stop_closed : bool;
  ctx_done : bool;
  forwarding : bool;
  watcher : option (list watch_input);
  agents : list agent_state;
}.

Definition started (file : bool) (runners : nat) : process := {|
  stop_closed := false; ctx_done := false; forwarding := true;
  watcher := if file then Some [] else None;
  agents := replicate runners Connecting |}.

Inductive event :=
| Closed
| Forwarded
| Watched (i : watch_input)
| Received (n : nat) (i : agent_input).

(** The inputs at which [watchLoop] returns. *)
Definition ends_watch (i : watch_input) : bool :=
  match i with EventsClosed | ErrorsClosed | Client.ContextDone => true | _ => false end.

Definition watch_ended (inputs : list watch_input) : bool := existsb ends_watch inputs.

Lemma watchLoop_ended {ua : UserAgents} apiEndpoint path zone inputs more :
  watch_ended inputs = true →
  watchLoop switchZoneCallback apiEndpoint path zone (inputs ++ more) =
    watchLoop switchZoneCallback apiEndpoint path zone inputs.
Proof.
  unfold watch_ended. induction inputs as [|[] inputs IH]; simpl; intros He; try done; try by apply IH.
  by case_match; rewrite IH.
Qed.

Section shutdown.
Context {unicode : UnicodeTables} {x509 : X509}.
Context (p : cloudProvider).

(** Steps of the process. A goroutine sees the context done only when it is;
    an agent takes its step, whatever its calls are replied. *)
Inductive process_step (c : process) : event → process → Prop :=
| StepClose :
    stop_closed c = false →
    process_step c Closed {|
      stop_closed := true; ctx_done := ctx_done c; forwarding := forwarding c;
      watcher := watcher c; agents := agents c |}
| StepForward :
    stop_closed c = true → forwarding c = true →
    process_step c Forwarded {|
      stop_closed := true; ctx_done := true; forwarding := false;
      watcher := watcher c; agents := agents c |}
| StepWatch inputs i :
    watcher c = Some inputs → watch_ended inputs = false →
    (i = Client.ContextDone → ctx_done c = true) →
    process_step c (Watched i) {|
      stop_closed := stop_closed c; ctx_done := ctx_done c; forwarding := forwarding c;
      watcher := Some (inputs ++ [i]); agents := agents c |}
| StepAgent n i st m t st' :
    agents c !! n = Some st → agent_step p st i = Some m → exec m t (Returned st') →
    (i = CSR.ContextDone → ctx_done c = true) →
    process_step c (Received n i) {|
      stop_closed := stop_closed c; ctx_done := ctx_done c; forwarding := forwarding c;
      watcher := watcher c; agents := <[n := st']> (agents c) |}.

Fixpoint process_steps (c : process) (es : list event) (c' : process) : Prop :=
  match es with
  | [] => c' = c
  | e :: es => ∃ c1, process_step c e c1 ∧ process_steps c1 es c'
  end.

(** ** Where a step takes an agent *)

Lemma agent_step_Stopped st i m t st' :
  agent_step p st i = Some m → exec m t (Returned st') → st' = Stopped →
  st = Watching ∧ i = CSR.ContextDone.
Proof.
  intros Hs He ->. destruct st, i as [[]| | |e]; simpl in Hs; simplify_eq/=; try by destruct He.
  assert (wp (handleEvent p e ≫= λ _, mret Watching) (λ _ o, o ≠ Returned Stopped)) as Hw.
  { apply wp_bind. intros t' [a|h] _; [|done]. by apply wp_ret. }
  by destruct (Hw _ _ He).
Qed.

Lemma agent_step_done st m t st' :
  agent_step p st CSR.ContextDone = Some m → exec m t (Returned st') → st = Watching ∧ st' = Stopped.
Proof. intros Hs He. destruct st; simplify_eq/=. by destruct He as [_ [= ->]]. Qed.

(** An agent that is not watching leaves that state only through a successful
    [Watch]. *)
Lemma agent_step_Connecting i m t st' :
  agent_step p Connecting i = Some m → exec m t (Returned st') →
  st' = Connecting ∨ ∃ a, i = WatchReply (Ok a).
Proof.
  intros Hs He. destruct i as [[a|e]| | |e]; simplify_eq/=; [right; by eexists|].
  destruct He as [_ [= ->]]. by left.
Qed.

(** ** Invariant *)

Record process_ok (runners : nat) (c : process) : Prop := {
  pk_forwarding : forwarding c = negb (ctx_done c);
  pk_done : ctx_done c = true → stop_closed c = true;
  pk_watcher inputs : watcher c = Some inputs → Client.ContextDone ∈ inputs → ctx_done c = true;
  pk_stopped : Stopped ∈ agents c → ctx_done c = true;
  pk_agents : length (agents c) = runners;
}.

Lemma started_ok file runners : process_ok runners (started file runners).
Proof.
  split; simpl; try done.
  - intros inputs Hw Hin. destruct file; simplify_eq/=. by apply elem_of_nil in Hin.
  - by intros [? _]%elem_of_replicate.
  - apply length_replicate.
Qed.

Lemma process_step_ok runners c e c' :
  process_ok runners c → process_step c e c' → process_ok runners c'.
Proof.
  intros [Hf Hd Hw Hs Hl] [Hc|Hc Hfw|inputs i Hi He Hadm|n i st m t st' Hn Hm Hx Hadm];
    split; simpl; try done; try congruence.
  - intros inputs' [= <-] [Hin|Hin%list_elem_of_singleton]%elem_of_app; [by eapply Hw|by apply Hadm].
  - intros Hin. destruct (decide (st' = Stopped)) as [->|Hne].
    + apply Hadm. by eapply agent_step_Stopped in Hx as [_ ?].
    + apply Hs. apply list_elem_of_lookup in Hin as [k Hk]. apply list_elem_of_lookup. exists k.
      destruct (decide (k = n)) as [->|]; [|by rewrite list_lookup_insert_ne in Hk].
      rewrite list_lookup_insert_eq in Hk by (by eapply lookup_lt_Some). congruence.
  - by rewrite length_insert.
Qed.

Lemma process_steps_ok runners c es c' :
  process_ok runners c → process_steps c es c' → process_ok runners c'.
Proof.
  revert c. induction es as [|e es IH]; intros c Hc; simpl; [by intros ->|].
  intros (c1 & Hstep & Hes). by eapply IH, Hes; eapply process_step_ok.
Qed.

Lemma stop_stays_closed c es c' :
  process_steps c es c' → stop_closed c = true → stop_closed c' = true.
Proof.
  revert c. induction es as [|e es IH]; intros c; simpl; [by intros ->|].
  intros (c1 & Hstep & Hes) Hc. apply (IH c1 Hes). by destruct Hstep.
Qed.

(** ** The steps of the shutdown *)

(** The steps that forward the signal or react to it. *)
Definition shutting (e : event) : bool :=
  match e with
  | Forwarded | Watched Client.ContextDone | Received _ CSR.ContextDone => true
  | _ => false
  end.

(** The goroutines that could still take one. *)
Definition pending (c : process) : nat :=
  (if forwarding c then 1 else 0)
  + match watcher c with Some inputs => if watch_ended inputs then 0 else 1 | None => 0 end
  + length (filter (λ st, st ≠ Stopped) (agents c)).

Lemma running_insert (l : list agent_state) n st st' :
  l !! n = Some st → st ≠ Stopped →
  length (filter (λ st, st ≠ Stopped) l) =
  ((if decide (st' = Stopped) then 1 else 0)
   + length (filter (λ st, st ≠ Stopped) (<[n:=st']> l)))%nat.
Proof.
  intros Hn Hst. revert n Hn. induction l as [|x l IH]; intros n Hn; [done|].
  destruct n as [|n]; [injection Hn as ->|].
  - change (<[0%nat:=st']> (st :: l)) with (st' :: l). rewrite !filter_cons.
    by repeat case_decide.
  - change (<[S n:=st']> (x :: l)) with (x :: <[n:=st']> l).
    rewrite !filter_cons. repeat case_decide; simpl; rewrite (IH n Hn); repeat case_decide; lia || done.
Qed.

Lemma agent_step_running st i m : agent_step p st i = Some m → st ≠ Stopped.
Proof. by destruct st, i as [[]| | |]. Qed.

Lemma pending_step c e c' :
  process_step c e c' → ((if shutting e then 1 else 0) + pending c' ≤ pending c)%nat.
Proof.
  intros [Hc|Hc Hfw|inputs i Hi He Hadm|n i st m t st' Hn Hm Hx Hadm]; unfold pending; simpl.
  - done.
  - rewrite Hfw. lia.
  - rewrite Hi, He. unfold watch_ended. rewrite existsb_app. simpl.
    destruct i; simpl; rewrite ?orb_true_r; repeat case_match; lia.
  - rewrite (running_insert _ _ _ st' Hn) by (by eapply agent_step_running).
    destruct i; [case_decide; lia| |case_decide; lia..].
    destruct (agent_step_done _ _ _ _ Hm Hx) as [-> ->]. rewrite decide_True by done. lia.
Qed.

Lemma pending_steps c es c' :
  process_steps c es c' →
  (length (filter (λ e, shutting e = true) es) + pending c' ≤ pending c)%nat.
Proof.
  revert c. induction es as [|e es IH]; intros c; simpl; [by intros ->|].
  intros (c1 & Hstep & Hes). apply IH in Hes. apply pending_step in Hstep.
  rewrite filter_cons. case_decide as He; [|apply not_true_is_false in He]; rewrite He in Hstep;
    simpl; lia.
Qed.

Lemma pending_bound runners c : process_ok runners c → (pending c ≤ 2 + runners)%nat.
Proof.
  intros Hok. unfold pending. pose proof (length_filter (λ st, st ≠ Stopped) (agents c)) as Hl.
  rewrite (pk_agents _ _ Hok) in Hl.
  destruct (forwarding c); (destruct (watcher c) as [l|]; [destruct (watch_ended l)|]); lia.
Qed.

(** Where an agent may be, that was [st], after some steps. *)
Definition becomes (n : nat) (es : list event) (st st' : agent_state) : Prop :=
  match st' with
  | Stopped => True
  | Watching => st ≠ Stopped
  | Connecting => st = Connecting ∨ Received n ChannelClosed ∈ es ∧ st ≠ Stopped
  end.

Lemma agent_becomes n st i m t st' :
  agent_step p st i = Some m → exec m t (Returned st') → becomes n [Received n i] st st'.
Proof.
  intros Hs He. destruct st' eqn:Hst'; simpl; [|by eapply agent_step_running|done].
  destruct st; [by left| |by destruct i as [[]| | |]]. right. split; [|done].
  destruct i as [[]| | |e]; simplify_eq/=; try (by destruct He); [by left|].
  assert (wp (handleEvent p e ≫= λ _, mret Watching) (λ _ o, o ≠ Returned Connecting)) as Hw.
  { apply wp_bind. intros t' [a|h] _; [|done]. by apply wp_ret. }
  by destruct (Hw _ _ He).
Qed.

Lemma becomes_trans n e es st st1 st' :
  becomes n [e] st st1 → becomes n es st1 st' → becomes n (e :: es) st st'.
Proof.
  destruct st', st1; simpl; try done; set_solver.
Qed.

Lemma becomes_step c e c' n st :
  process_step c e c' → agents c !! n = Some st →
  ∃ st', agents c' !! n = Some st' ∧ becomes n [e] st st'.
Proof.
  assert (∀ e, becomes n [e] st st) as Hrefl by (intros e'; destruct st; simpl; auto).
  intros [Hc|Hc Hfw|inputs i Hi He Hadm|k i st0 m t st' Hk Hm Hx Hadm] Hn; simpl; eauto.
  destruct (decide (n = k)) as [->|]; [|rewrite list_lookup_insert_ne by done; eauto].
  rewrite list_lookup_insert_eq by (by eapply lookup_lt_Some). simplify_eq.
  exists st'. split; [done|]. by eapply agent_becomes.
Qed.

Lemma becomes_steps c es c' n st :
  process_steps c es c' → agents c !! n = Some st →
  ∃ st', agents c' !! n = Some st' ∧ becomes n es st st'.
Proof.
  revert c st. induction es as [|e es IH]; intros c st; simpl.
  { intros -> Hn. exists st. split; [done|]. destruct st; simpl; auto. }
  intros (c1 & Hstep & Hes) Hn. destruct (becomes_step _ _ _ _ _ Hstep Hn) as (st1 & Hn1 & H1).
  destruct (IH _ _ Hes Hn1) as (st' & Hn' & H'). exists st'. split; [done|].
  by eapply becomes_trans.
Qed.

(** Nothing is left to do but what the context does not reach. *)
Definition settled_down (c : process) : Prop :=
  ∀ e c', shutting e = true → ¬ process_step c e c'.

Lemma settled_down_done c :
  stop_closed c = true → forwarding c = negb (ctx_done c) → settled_down c → ctx_done c = true.
Proof.
  intros Hc Hf Hs. destruct (ctx_done c) eqn:Hd; [done|]. exfalso.
  eapply (Hs Forwarded); [done|]. by apply StepForward.
Qed.

Lemma settled_down_agents c n st :
  ctx_done c = true → settled_down c → agents c !! n = Some st → st ≠ Watching.
Proof.
  intros Hd Hs Hn ->. eapply (Hs (Received n CSR.ContextDone)); [done|].
  eapply StepAgent; [done|done|split; reflexivity|done].
Qed.

Lemma settled_down_watcher c inputs :
  ctx_done c = true → settled_down c → watcher c = Some inputs → watch_ended inputs = true.
Proof.
  intros Hd Hs Hw. apply not_false_is_true. intros He.
  eapply (Hs (Watched Client.ContextDone)); [done|]. by eapply StepWatch.
Qed.

(** An agent that cannot watch is not stopped. *)
Lemma unwatched_agent c es c' n :
  (∀ a, Received n (WatchReply (Ok a)) ∉ es) → process_steps c es c' →
  agents c !! n = Some Connecting → agents c' !! n = Some Connecting.
Proof.
  revert c. induction es as [|e es IH]; intros c Hno; simpl; [by intros ->|].
  intros (c1 & Hstep & Hes) Hn. apply (IH c1); [set_solver|done|].
  destruct Hstep as [Hc|Hc Hfw|inputs i Hi He Hadm|k i st0 m t st' Hk Hm Hx Hadm]; simpl; try done.
  destruct (decide (n = k)) as [->|]; [|by rewrite list_lookup_insert_ne].
  rewrite list_lookup_insert_eq by (by eapply lookup_lt_Some). f_equal.
  rewrite Hn in Hk. injection Hk as <-.
  destruct (agent_step_Connecting _ _ _ _ Hm Hx) as [->|[a ->]]; [done|].
  destruct (Hno a). by left.
Qed.

(** C28: how the stop signal spreads. Whatever the process has gone through, no
    goroutine has been told to stop before the stop channel was closed. From then
    on, however the goroutines are scheduled and whatever else they receive, there
    are at most two steps, and one for each agent, that forward the signal or react
    to it. Once none of them is possible any more, the watcher of the credentials
    has returned (no input makes a difference to it) and no agent is watching: each
    has stopped, or is opening its watch, because it was doing so already or because
    its channel was closed before it noticed the signal. An agent that is opening
    its watch goes on doing so for as long as [Watch] fails, as it should under a
    context that is done. *)
Theorem stop_propagates {ua : UserAgents} file runners es c
    (Hreach : process_steps (started file runners) es c) :
  (ctx_done c = true ∨ Stopped ∈ agents c ∨
     (∃ inputs, watcher c = Some inputs ∧ Client.ContextDone ∈ inputs) → stop_closed c = true) ∧
  (stop_closed c = true → ∀ es' c', process_steps c es' c' →
     (length (filter (λ e, shutting e = true) es') ≤ 2 + runners)%nat ∧
     (settled_down c' →
        (∀ inputs more apiEndpoint path zone, watcher c' = Some inputs →
           watchCredentialsFile switchZoneCallback apiEndpoint path zone (inputs ++ more) =
           watchCredentialsFile switchZoneCallback apiEndpoint path zone inputs) ∧
        ∀ n st, agents c !! n = Some st →
          agents c' !! n = Some Stopped ∨
          agents c' !! n = Some Connecting ∧
          (st = Connecting ∨ st = Watching ∧ Received n ChannelClosed ∈ es'))) ∧
  ∀ es' c' n, agents c !! n = Some Connecting → process_steps c es' c' →
    (∀ a, Received n (WatchReply (Ok a)) ∉ es') → agents c' !! n = Some Connecting.
Proof.
  pose proof (process_steps_ok _ _ _ _ (started_ok file runners) Hreach) as Hok.
  split_and!.
  - intros [Hd|[Hs|(inputs & Hw & Hin)]]; apply (pk_done _ _ Hok); [done| |].
    + by apply (pk_stopped _ _ Hok).
    + by apply (pk_watcher _ _ Hok inputs).
  - intros Hc es' c' Hes. pose proof (process_steps_ok _ _ _ _ Hok Hes) as Hok'. split.
    { pose proof (pending_bound _ _ Hok). pose proof (pending_steps _ _ _ Hes). lia. }
    intros Hs. assert (ctx_done c' = true) as Hd.
    { apply settled_down_done; [|by apply (pk_forwarding _ _ Hok')|done].
      by eapply stop_stays_closed. }
    split.
    + intros inputs more apiEndpoint path zone Hw.
      pose proof (settled_down_watcher _ _ Hd Hs Hw) as He.
      unfold watchCredentialsFile. by rewrite watchLoop_ended.
    + intros n st Hn. destruct (becomes_steps _ _ _ _ _ Hes Hn) as (st' & Hn' & Hst).
      rewrite Hn'. pose proof (settled_down_agents _ _ _ Hd Hs Hn').
      destruct st'; [|done|by left]. right. split; [done|]. simpl in Hst.
      destruct Hst as [?|[? ?]]; [by left|]. destruct st; naive_solver.
  - intros es' c' n Hn Hes Hno. by eapply unwatched_agent.
Qed.
End shutdown.
