(* ===== verification/Mock.v ===== *)
(** exoscale/client_mock.go: the client that the tests of the repository put in
    the place of the real one, with the part of testify's mock (mock.go) it is
    made of: the expectations a test declares, and the calls it records. *)
From S2P Require Import Prelude GoErrors GoNet Effects Egoscale Kube.
#[local] Open Scope Z_scope.

(** ** testify *)

(** The dynamic values that calls are given and return; a pointer may be nil.
    The context is the same throughout a test. *)
Inductive value :=
| VNil
| VContext
| VString (s : string)
| VUUID (id : UUID)
| VCreate (req : CreateLoadBalancerRequest)
| VAdd (req : AddServiceToLoadBalancerRequest)
| VUpdate (req : UpdateLoadBalancerRequest)
| VUpdateService (req : UpdateLoadBalancerServiceRequest)
| VListInstancesOpts
| VStates (states : list string)
| VOperation (op : option Operation)
| VInstance (instance : option ComputeInstance)
| VInstanceType (instanceType : option InstanceType)
| VLoadBalancer (nlb : option LoadBalancer)
| VInstances (instances : option (list ListedInstance))
| VLoadBalancers (nlbs : option (list LoadBalancer))
| VClusters (clusters : option (list SKSCluster))
| VError (err : error).

#[export] Instance value_eq_dec : EqDecision value.
Proof. solve_decision. Defined.

Abbreviation Arguments := (list value).

Definition Anything : value := VString "mock.Anything".
Definition Missing : value := VString "(Missing)".

(** [Arguments.Diff]: the number of differences, of expected values that are
    not matchers. *)
Definition agrees (expected actual : value) : bool :=
  bool_decide (expected = Anything) || bool_decide (actual = Anything) || bool_decide (actual = expected).

Definition Diff (args objects : Arguments) : nat :=
  length (filter (λ i, agrees (nth i args Missing) (nth i objects Missing) = false)
    (seq 0 (length args `max` length objects))).

(** [Call]: an expectation; a [Repeatability] of 0 is without end, of -1 used up. *)
Record Call := {
  call_Method : string;
  call_Arguments : Arguments;
  call_ReturnArguments : Arguments;
  call_Repeatability : Z;
  call_totalCalls : Z;
}.

Record Mock := {
  ExpectedCalls : list Call;
  Calls : list (string * Arguments);
}.

Definition new_mock : Mock := {| ExpectedCalls := []; Calls := [] |}.

(** [m.On(method, arguments...).Return(returns...).Times(i)]; without [Times], 0. *)
Definition On (method : string) (arguments returns : Arguments) (i : Z) (m : Mock) : Mock := {|
  ExpectedCalls := ExpectedCalls m ++ [{| call_Method := method; call_Arguments := arguments;
    call_ReturnArguments := returns; call_Repeatability := i; call_totalCalls := 0 |}];
  Calls := Calls m |}.

(** The first expectation that agrees and is not used up. *)
Definition findExpectedCall (m : Mock) (method : string) (arguments : Arguments) : option (nat * Call) :=
  list_find (λ call, call_Method call = method ∧ Diff (call_Arguments call) arguments = 0%nat ∧
                     call_Repeatability call > -1) (ExpectedCalls m).

Definition use (call : Call) : Call := {|
  call_Method := call_Method call; call_Arguments := call_Arguments call;
  call_ReturnArguments := call_ReturnArguments call;
  call_Repeatability := if bool_decide (call_Repeatability call = 1) then -1
                        else if bool_decide (call_Repeatability call > 1)
                        then call_Repeatability call - 1 else call_Repeatability call;
  call_totalCalls := call_totalCalls call + 1 |}.

(** [None] when the test fails or panics. *)
Definition MethodCalled (m : Mock) (method : string) (arguments : Arguments) : option (Arguments * Mock) :=
  match findExpectedCall m method arguments with
  | None => None
  | Some (i, call) =>
      Some (call_ReturnArguments call, {|
        ExpectedCalls := <[i := use call]> (ExpectedCalls m);
        Calls := Calls m ++ [(method, arguments)] |})
  end.

(** [args.Error(index)] *)
Definition Error (args : Arguments) (index : nat) : option (option error) :=
  match args !! index with
  | Some VNil => Some None
  | Some (VError err) => Some (Some err)
  | _ => None
  end.

(** ** The client *)

(** What a method returns, [args.Get(0)] as a pointer of its type ([as_pointer] is
    the type assertion) and [args.Error(1)]. The callers look at the pointer when there is no error; a nil one
    then has no counterpart in [result], and is left out. *)
Definition returned {A} (as_pointer : value → option (option A)) (args : Arguments) : option (result A) :=
  match args !! 0%nat ≫= as_pointer, Error args 1 with
  | Some _, Some (Some err) => Some (Err err)
  | Some (Some a), Some None => Some (Ok a)
  | _, _ => None
  end.

Definition called {A} (m : Mock) (method : string) (as_pointer : value → option (option A))
    (arguments : Arguments) : option (result A * Mock) :=
  match MethodCalled m method arguments with
  | None => None
  | Some (args, m) => (λ r, (r, m)) <$> returned as_pointer args
  end.

Definition as_Operation v := match v with VOperation op => Some op | _ => None end.
Definition as_Instance v := match v with VInstance i => Some i | _ => None end.
Definition as_InstanceType v := match v with VInstanceType t => Some t | _ => None end.
Definition as_LoadBalancer v := match v with VLoadBalancer nlb => Some nlb | _ => None end.
Definition as_Instances v := match v with VInstances l => Some l | _ => None end.
Definition as_LoadBalancers v := match v with VLoadBalancers l => Some l | _ => None end.
Definition as_Clusters v := match v with VClusters l => Some l | _ => None end.

Module exoscaleClientMock.
Definition CreateLoadBalancer (m : Mock) (req : CreateLoadBalancerRequest) :=
  called m "CreateLoadBalancer" as_Operation [VContext; VCreate req].

Definition AddServiceToLoadBalancer (m : Mock) (id : UUID) (req : AddServiceToLoadBalancerRequest) :=
  called m "AddServiceToLoadBalancer" as_Operation [VContext; VUUID id; VAdd req].

Definition DeleteLoadBalancer (m : Mock) (id : UUID) :=
  called m "DeleteLoadBalancer" as_Operation [VContext; VUUID id].

Definition DeleteLoadBalancerService (m : Mock) (id serviceID : UUID) :=
  called m "DeleteLoadBalancerService" as_Operation [VContext; VUUID id; VUUID serviceID].

Definition GetInstance (m : Mock) (id : UUID) :=
  called m "GetInstance" as_Instance [VContext; VUUID id].

Definition GetInstanceType (m : Mock) (id : UUID) :=
  called m "GetInstanceType" as_InstanceType [VContext; VUUID id].

Definition GetLoadBalancer (m : Mock) (id : UUID) :=
  called m "GetLoadBalancer" as_LoadBalancer [VContext; VUUID id].

(** The options are passed on as one slice. *)
Definition ListInstances (m : Mock) :=
  called m "ListInstances" as_Instances [VContext; VListInstancesOpts].

Definition ListLoadBalancers (m : Mock) :=
  called m "ListLoadBalancers" as_LoadBalancers [VContext].

Definition ListSKSClusters (m : Mock) :=
  called m "ListSKSClusters" as_Clusters [VContext].

Definition UpdateLoadBalancer (m : Mock) (id : UUID) (req : UpdateLoadBalancerRequest) :=
  called m "UpdateLoadBalancer" as_Operation [VContext; VUUID id; VUpdate req].

Definition UpdateLoadBalancerService (m : Mock) (id serviceID : UUID)
    (req : UpdateLoadBalancerServiceRequest) :=
  called m "UpdateLoadBalancerService" as_Operation
    [VContext; VUUID id; VUUID serviceID; VUpdateService req].

Definition Wait (m : Mock) (op : Operation) (states : list string) :=
  called m "Wait" as_Operation [VContext; VOperation (Some op); VStates states].
End exoscaleClientMock.

Import exoscaleClientMock.

(** The method behind each call of the interface. *)
Definition mocked {X} (e : exoE X) (m : Mock) : option (X * Mock) :=
  match e in exoE X return option (X * Mock) with
  | ApiCreateLoadBalancer req => CreateLoadBalancer m req
  | ApiAddServiceToLoadBalancer id req => AddServiceToLoadBalancer m id req
  | ApiDeleteLoadBalancer id => DeleteLoadBalancer m id
  | ApiDeleteLoadBalancerService id serviceID => DeleteLoadBalancerService m id serviceID
  | ApiGetInstance id => GetInstance m id
  | ApiGetInstanceType id => GetInstanceType m id
  | ApiGetLoadBalancer id => GetLoadBalancer m id
  | ApiListInstances => ListInstances m
  | ApiListLoadBalancers => ListLoadBalancers m
  | ApiListSKSClusters => ListSKSClusters m
  | ApiUpdateLoadBalancer id req => UpdateLoadBalancer m id req
  | ApiUpdateLoadBalancerService id serviceID req => UpdateLoadBalancerService m id serviceID req
  | ApiWait op states => Wait m op states
  end.

(** ** Tests *)

(** A handler run with the mock, with functions for the Kubernetes API (as the
    fake clientset of client-go is) and for the host. *)
Section tested.
Context (clientset : ∀ X, kubeE X → X) (host : ∀ X, hostE X → X).

(** The calls that were made, with their replies; [None] when the mock fails the
    test. *)
Fixpoint tested {A} (p : prog ccmE A) (m : Mock) : option (list (call ccmE) * outcome A * Mock) :=
  match p with
  | Ret a => Some ([], Returned a, m)
  | Halt h => Some ([], Halted h, m)
  | @Vis _ _ X e k =>
      match (match e in ccmE X return option (X * Mock) with
             | ExoCall e => mocked e m
             | KubeCall e => Some (clientset _ e, m)
             | HostCall e => Some (host _ e, m)
             end) with
      | None => None
      | Some (x, m) =>
          match tested (k x) m with
          | None => None
          | Some (t, o, m) => Some (Effects.Call e x :: t, o, m)
          end
      end
  end.

(** What the mock records of a call. *)
Definition signature {X} (e : exoE X) : string * Arguments :=
  match e with
  | ApiCreateLoadBalancer req => ("CreateLoadBalancer", [VContext; VCreate req])
  | ApiAddServiceToLoadBalancer id req =>
      ("AddServiceToLoadBalancer", [VContext; VUUID id; VAdd req])
  | ApiDeleteLoadBalancer id => ("DeleteLoadBalancer", [VContext; VUUID id])
  | ApiDeleteLoadBalancerService id serviceID =>
      ("DeleteLoadBalancerService", [VContext; VUUID id; VUUID serviceID])
  | ApiGetInstance id => ("GetInstance", [VContext; VUUID id])
  | ApiGetInstanceType id => ("GetInstanceType", [VContext; VUUID id])
  | ApiGetLoadBalancer id => ("GetLoadBalancer", [VContext; VUUID id])
  | ApiListInstances => ("ListInstances", [VContext; VListInstancesOpts])
  | ApiListLoadBalancers => ("ListLoadBalancers", [VContext])
  | ApiListSKSClusters => ("ListSKSClusters", [VContext])
  | ApiUpdateLoadBalancer id req => ("UpdateLoadBalancer", [VContext; VUUID id; VUpdate req])
  | ApiUpdateLoadBalancerService id serviceID req =>
      ("UpdateLoadBalancerService", [VContext; VUUID id; VUUID serviceID; VUpdateService req])
  | ApiWait op states => ("Wait", [VContext; VOperation (Some op); VStates states])
  end.

Definition recorded (c : call ccmE) : option (string * Arguments) :=
  match call_event c with ExoCall e => Some (signature e) | _ => None end.

(** *** What the mock does with one call *)

(** How often an expectation may still be used: [None] when there is no end. *)
Definition left_over (c : Call) : option nat :=
  if bool_decide (call_Repeatability c = 0) then None else Some (Z.to_nat (call_Repeatability c)).

(** The expectation [c] was declared as [c0], and was used [n] times since. *)
Definition used_since (c0 c : Call) (n : nat) : Prop :=
  call_Method c = call_Method c0 ∧ call_Arguments c = call_Arguments c0 ∧
  call_ReturnArguments c = call_ReturnArguments c0 ∧
  call_totalCalls c = call_totalCalls c0 + Z.of_nat n ∧
  match left_over c0 with
  | None => left_over c = None
  | Some total => (n ≤ total)%nat ∧ left_over c = Some (total - n)%nat
  end.

Lemma used_since_refl c : used_since c c 0.
Proof.
  split_and!; try done; [lia|]. destruct (left_over c) as [total|]; [|done].
  split; [lia|]. f_equal. lia.
Qed.

Lemma used_since_use c0 c n :
  call_Repeatability c > -1 → used_since c0 c n → used_since c0 (use c) (S n).
Proof.
  intros Hr (Hm & Ha & Hret & Ht & Hl). unfold used_since, left_over, use in *. simpl.
  split_and!; [done..|lia|]. repeat case_bool_decide; simplify_eq/=; try lia; try done.
  all: destruct Hl as [Hn Hl]; simplify_eq; split; try f_equal; lia.
Qed.

(** An expectation as a call sees it: the method, each argument of both lists, of
    which the shorter is filled up, and the values to return. *)
Definition matching (expected actual : Arguments) : Prop :=
  ∀ i, (i < length expected `max` length actual)%nat →
    nth i expected Missing = Anything ∨ nth i actual Missing = Anything ∨
    nth i actual Missing = nth i expected Missing.

Definition concerns {X} (e : exoE X) (c : Call) : Prop :=
  call_Method c = (signature e).1 ∧ matching (call_Arguments c) (signature e).2.

Definition returns {A} (as_pointer : value → option (option A)) (args : Arguments) (r : result A) :
    Prop :=
  match r with
  | Ok a => args !! 0%nat ≫= as_pointer = Some (Some a) ∧ args !! 1%nat = Some VNil
  | Err err => is_Some (args !! 0%nat ≫= as_pointer) ∧ args !! 1%nat = Some (VError err)
  end.

Definition replies {X} (e : exoE X) (args : Arguments) : X → Prop :=
  match e in exoE X return X → Prop with
  | ApiGetInstance _ => returns as_Instance args
  | ApiGetInstanceType _ => returns as_InstanceType args
  | ApiGetLoadBalancer _ => returns as_LoadBalancer args
  | ApiListInstances => returns as_Instances args
  | ApiListLoadBalancers => returns as_LoadBalancers args
  | ApiListSKSClusters => returns as_Clusters args
  | _ => returns as_Operation args
  end.

Lemma Diff_0 args objects : Diff args objects = 0%nat ↔ matching args objects.
Proof.
  unfold Diff, matching, agrees. rewrite length_zero_iff_nil. split.
  - intros Hf i Hi. destruct (decide (nth i args Missing = Anything)); [by left|right].
    destruct (decide (nth i objects Missing = Anything)); [by left|right].
    destruct (decide (nth i objects Missing = nth i args Missing)); [done|exfalso].
    assert (i ∈ ([] : list nat)) as H%elem_of_nil; [|done]. rewrite <-Hf.
    apply list_elem_of_filter. rewrite !bool_decide_eq_false_2 by done.
    split; [done|]. apply elem_of_seq. lia.
  - intros H. destruct (filter _ _) as [|i l] eqn:Hf; [done|].
    assert (i ∈ i :: l) as Hi by left. rewrite <-Hf in Hi.
    apply list_elem_of_filter in Hi as [Hb Hi%elem_of_seq].
    rewrite !orb_false_iff, !bool_decide_eq_false in Hb. destruct (H i); [lia|tauto..].
Qed.

Lemma returned_returns {A} (f : value → option (option A)) args r :
  returned f args = Some r → returns f args r.
Proof.
  unfold returned, Error, returns.
  destruct (args !! 0%nat ≫= f) as [[a|]|] eqn:H0, (args !! 1%nat) as [[]|] eqn:H1;
    intros; simplify_eq; try done; by rewrite H0.
Qed.

(** One call finds the first expectation that is about it and not used up, uses it
    once and gives the reply it holds. *)
Lemma mocked_call {X} (e : exoE X) m x m' :
  mocked e m = Some (x, m') →
  ∃ i c, ExpectedCalls m !! i = Some c ∧ (concerns e c ∧ call_Repeatability c > -1) ∧
    (∀ j c', ExpectedCalls m !! j = Some c' → (j < i)%nat →
       ¬ (concerns e c' ∧ call_Repeatability c' > -1)) ∧
    replies e (call_ReturnArguments c) x ∧
    m' = {| ExpectedCalls := <[i := use c]> (ExpectedCalls m); Calls := Calls m ++ [signature e] |}.
Proof.
  assert (∀ A method (f : value → option (option A)) args r,
    called m method f args = Some (r, m') →
    ∃ i c, ExpectedCalls m !! i = Some c ∧
      ((call_Method c = method ∧ matching (call_Arguments c) args) ∧ call_Repeatability c > -1) ∧
      (∀ j c', ExpectedCalls m !! j = Some c' → (j < i)%nat →
         ¬ ((call_Method c' = method ∧ matching (call_Arguments c') args) ∧ call_Repeatability c' > -1)) ∧
      returns f (call_ReturnArguments c) r ∧
      m' = {| ExpectedCalls := <[i := use c]> (ExpectedCalls m); Calls := Calls m ++ [(method, args)] |}) as Hc.
  { intros A method f args r. unfold called, MethodCalled, findExpectedCall.
    setoid_rewrite <-Diff_0. destruct (list_find _ _) as [[i c]|] eqn:Hf; [|done].
    apply list_find_Some in Hf as (Hi & (Hm & Hd & Hr) & Hfirst).
    destruct (returned f _) as [r'|] eqn:Hret; [|done]. intros [= -> <-]. exists i, c.
    split_and!; [done..| |by apply returned_returns|done].
    intros j c' Hj Hji [[? ?] ?]. by apply (Hfirst j c' Hj Hji). }
  destruct e; apply Hc.
Qed.

(** *** What the mock does with a test *)

Definition occurrences (i : nat) (history : list nat) : nat := length (filter (λ j, j = i) history).

Section history.
(** The declared expectations; a history is the places of those used so far. *)
Context (expectations : list Call).

Definition available (history : list nat) (i : nat) (c0 : Call) : Prop :=
  match left_over c0 with None => True | Some total => (occurrences i history < total)%nat end.

(** The expectation of place [i] is the first that is about [e] and may still be
    used after [history]. *)
Definition chosen {X} (history : list nat) (e : exoE X) (i : nat) (c0 : Call) : Prop :=
  expectations !! i = Some c0 ∧ concerns e c0 ∧ available history i c0 ∧
  ∀ j c, expectations !! j = Some c → (j < i)%nat → ¬ (concerns e c ∧ available history j c).

(** Each call to the API in turn is answered by the expectation it chooses. *)
Fixpoint explained (history : list nat) (t : list (call ccmE)) (uses : list nat) : Prop :=
  match t with
  | [] => uses = []
  | c :: t =>
      match call_event c in ccmE X return X → Prop with
      | ExoCall e => λ x, ∃ i c0 uses', uses = i :: uses' ∧ chosen history e i c0 ∧
          replies e (call_ReturnArguments c0) x ∧ explained (history ++ [i]) t uses'
      | _ => λ _, explained history t uses
      end (call_reply c)
  end.

(** The mock is as the history says. *)
Definition after (history : list nat) (m : Mock) : Prop :=
  ∀ i, option_Forall2 (λ c0 c, used_since c0 c (occurrences i history))
    (expectations !! i) (ExpectedCalls m !! i).

Lemma after_available history m i c0 c :
  after history m → expectations !! i = Some c0 → ExpectedCalls m !! i = Some c →
  (call_Repeatability c > -1 ↔ available history i c0).
Proof.
  intros Ha H0 Hc. specialize (Ha i). rewrite H0, Hc in Ha. inversion_clear Ha as [? ? Hu|].
  destruct Hu as (_ & _ & _ & _ & Hl). unfold available.
  destruct (left_over c0) as [total|]; [destruct Hl as [Hle Hl]|]; unfold left_over in Hl;
    case_bool_decide; simplify_eq/=; try (split; [done|lia]); lia.
Qed.

Lemma after_concerns {X} (e : exoE X) history m i c0 c :
  after history m → expectations !! i = Some c0 → ExpectedCalls m !! i = Some c →
  (concerns e c ↔ concerns e c0).
Proof.
  intros Ha H0 Hc. specialize (Ha i). rewrite H0, Hc in Ha. inversion_clear Ha as [? ? Hu|].
  destruct Hu as (Hm & Hargs & _). unfold concerns. by rewrite Hm, Hargs.
Qed.

Lemma after_use history m i c calls :
  after history m → ExpectedCalls m !! i = Some c → call_Repeatability c > -1 →
  after (history ++ [i]) {| ExpectedCalls := <[i := use c]> (ExpectedCalls m); Calls := calls |}.
Proof.
  intros Ha Hc Hr j. specialize (Ha j). unfold occurrences in *. simpl.
  rewrite filter_app, length_app, filter_cons, filter_nil. case_decide as Hij; simpl.
  - subst j. rewrite Hc in Ha. inversion_clear Ha as [c0 ? Hu|].
    rewrite list_lookup_insert_eq by (by eapply lookup_lt_Some). constructor.
    rewrite Nat.add_1_r. by apply used_since_use.
  - rewrite list_lookup_insert_ne, Nat.add_0_r by done. done.
Qed.

Lemma mocked_after {X} (e : exoE X) history m x m' :
  after history m → mocked e m = Some (x, m') →
  ∃ i c0, chosen history e i c0 ∧ replies e (call_ReturnArguments c0) x ∧
    after (history ++ [i]) m' ∧ Calls m' = Calls m ++ [signature e].
Proof.
  intros Ha (i & c & Hi & [Hc Hr] & Hfirst & Hx & ->)%mocked_call.
  pose proof (Ha i) as Hu. rewrite Hi in Hu. inversion Hu as [c0 ? Hus H0|]; subst. symmetry in H0.
  exists i, c0. split_and!; [|destruct Hus as (_ & _ & <- & _); done|by apply after_use|done].
  split_and!; [done|by apply (after_concerns e _ _ _ _ _ Ha H0 Hi)|by apply (after_available _ _ _ _ _ Ha H0 Hi)|].
  intros j cj Hj Hlt. pose proof (Ha j) as Huj. rewrite Hj in Huj.
  inversion Huj as [? c' Hus' H1 Hj'|]; subst. symmetry in Hj'.
  rewrite <-(after_concerns e _ _ _ _ _ Ha Hj Hj'), <-(after_available _ _ _ _ _ Ha Hj Hj').
  by apply (Hfirst j c').
Qed.
End history.

Lemma after_refl m : after (ExpectedCalls m) [] m.
Proof.
  intros i. destruct (ExpectedCalls m !! i); constructor. apply used_since_refl.
Qed.

Lemma tested_spec {A} (p : prog ccmE A) m t o m' cs0 history :
  tested p m = Some (t, o, m') → after cs0 history m →
  exec p t o ∧ Calls m' = Calls m ++ omap recorded t ∧
  ∃ uses, explained cs0 history t uses ∧ after cs0 (history ++ uses) m'.
Proof.
  revert m t history. induction p as [a|h|X e k IH]; intros m t history; simpl.
  1,2: intros [= <- <- <-] Ha; split_and!; [done..|by rewrite app_nil_r|];
    exists []; by rewrite app_nil_r.
  intros Ht Ha. destruct e as [X e|X e|X e].
  2,3: destruct (tested _ _) as [[[t1 o1] m2]|] eqn:Ht1; [|done]; injection Ht as <- <- <-;
    destruct (IH _ _ _ _ Ht1 Ha) as (He & Hcalls & Huses);
    split_and!; [by eexists _, t1|done..].
  destruct (mocked e m) as [[x m1]|] eqn:Hm; [|done].
  destruct (tested (k x) m1) as [[[t1 o1] m2]|] eqn:Ht1; [|done]. injection Ht as <- <- <-.
  destruct (mocked_after _ _ _ _ _ _ Ha Hm) as (i & c0 & Hi & Hx & Ha1 & Hc1).
  destruct (IH _ _ _ _ Ht1 Ha1) as (He & Hcalls & uses & Hex & Ha').
  split_and!; [by exists x, t1|by rewrite Hcalls, Hc1; simpl; rewrite <-app_assoc|].
  exists (i :: uses). rewrite <-app_assoc in Ha'. split; [|done].
  simpl. by exists i, c0, uses.
Qed.

(** C31: what a test of the repository shows. A test that uses the mock and does
    not fail is an execution of the handler, in which every call to the API is
    recorded, in order, and answered by the first of the expectations declared
    before it that has its method and agrees with its arguments and is not used
    up, with the values that this expectation was told to return; one that says
    how often it may be met is used at most that often, and the mock has counted
    the uses of each. *)
Theorem tested_executes {A} (p : prog ccmE A) m t o m' (Htest : tested p m = Some (t, o, m')) :
  exec p t o ∧ Calls m' = Calls m ++ omap recorded t ∧
  ∃ uses, explained (ExpectedCalls m) [] t uses ∧ after (ExpectedCalls m) uses m'.
Proof. by destruct (tested_spec _ _ _ _ _ _ [] Htest (after_refl m)) as (? & ? & ?). Qed.
End tested.
