(* ===== verification/Samples.v ===== *)
(** Concrete instances of the parameters of the model (Unicode tables, regular
    expressions, JSON patches, YAML, and an NLB API server that satisfies
    [NLBServer]) and sample objects, on which the properties with hypotheses are
    instantiated. *)
From S2P Require Import Prelude GoErrors GoStrings GoTime GoNet Effects Egoscale Kube.
From S2P Require Import InstancesConfig CloudConfig Instances InstancesV2 Zones NodesProps.
From S2P Require Import LoadBalancerSpec LoadBalancerSpecProps LoadBalancer LoadBalancerSafety.
From S2P Require Import LoadBalancerProps Reconcile Lifecycle CSR Client ClientProps Process Transport Polling.
#[local] Open Scope Z_scope.

(** Text outside ASCII is left alone, and equal only to itself. *)
#[export] Instance sample_unicode : UnicodeTables := {|
  unicode_ToLower s := s;
  unicode_EqualFold s t := bool_decide (s = t);
|}.

(** Patterns without metacharacters: a substring search. *)
#[export] Instance sample_regexp : Regexp :=
  λ pattern text, Some (bool_decide (is_Some (String.index 0 pattern text))).

#[export] Instance sample_patchlib : PatchLib := {|
  json_Marshal s := Ok (svc_Name s);
  CreateTwoWayMergePatch _ new := Ok new;
|}.

#[export] Instance sample_yaml : YAML := λ _, Ok cloudConfig_zero.

(** ** An API server *)

Section server.
Context (w : world).

(** NLBs by ID; the ID inside is that of the entry. *)
Abbreviation sim_state := (gmap string LoadBalancer).

Definition with_lb_ID (lb : LoadBalancer) (id : UUID) : LoadBalancer := {|
  lb_Description := lb_Description lb; lb_ID := id; lb_IP := lb_IP lb;
  lb_Labels := lb_Labels lb; lb_Name := lb_Name lb; lb_Services := lb_Services lb |}.

Definition sim_view (s : sim_state) (id : UUID) : option LoadBalancer :=
  (λ lb, with_lb_ID lb id) <$> s !! id.

(** An ID longer than all those in use. *)
Definition fresh_string (l : list string) : string := "n" +:+ foldr String.app "" l.

Definition fresh_ID (l : list LoadBalancerService) : UUID := fresh_string (lbs_ID <$> l).
Definition fresh_NLB_ID (s : sim_state) : UUID := fresh_string (map_to_list s).*1.

(** The server stores a health check with the documented defaults. *)
Definition defaulted (h : Healthcheck) : Healthcheck := {|
  hc_Mode := hc_Mode h; hc_Port := hc_Port h; hc_URI := hc_URI h;
  hc_Interval := sentZ (hc_Interval h) 10; hc_Timeout := sentZ (hc_Timeout h) 2;
  hc_Retries := sentZ (hc_Retries h) 1; hc_TlsSNI := hc_TlsSNI h |}.

Lemma agrees_defaulted h : agrees h (defaulted h).
Proof.
  unfold agrees, defaulted, sentZ. simpl. split_and!; try done; intros Hne; by rewrite bool_decide_eq_false_2.
Qed.

Definition updated (req : UpdateLoadBalancerServiceRequest) (x : LoadBalancerService) :
    LoadBalancerService := {|
  lbs_Description := Reconcile.sent (usr_Description req) (lbs_Description x);
  lbs_Healthcheck :=
    match usr_Healthcheck req with Some h => Some (defaulted h) | None => lbs_Healthcheck x end;
  lbs_HealthcheckStatus := lbs_HealthcheckStatus x; lbs_ID := lbs_ID x;
  lbs_InstancePool := lbs_InstancePool x;
  lbs_Name := Reconcile.sent (usr_Name req) (lbs_Name x);
  lbs_Port := sentZ (usr_Port req) (lbs_Port x);
  lbs_Protocol := Reconcile.sent (usr_Protocol req) (lbs_Protocol x);
  lbs_State := lbs_State x;
  lbs_Strategy := Reconcile.sent (usr_Strategy req) (lbs_Strategy x);
  lbs_TargetPort := sentZ (usr_TargetPort req) (lbs_TargetPort x) |}.

Lemma stored_defaulted req old :
  stored req old (match req with Some h => Some (defaulted h) | None => old end).
Proof. destruct req as [h|]; [|done]. exists (defaulted h). split; [done|apply agrees_defaulted]. Qed.

Definition from_request (id : UUID) (req : AddServiceToLoadBalancerRequest) :
    LoadBalancerService := {|
  lbs_Description := asr_Description req; lbs_Healthcheck := defaulted <$> asr_Healthcheck req;
  lbs_HealthcheckStatus := []; lbs_ID := id; lbs_InstancePool := asr_InstancePool req;
  lbs_Name := asr_Name req; lbs_Port := asr_Port req; lbs_Protocol := asr_Protocol req;
  lbs_State := "creating"; lbs_Strategy := asr_Strategy req; lbs_TargetPort := asr_TargetPort req |}.

Definition done_op (id : UUID) : Operation :=
  {| op_ID := "op"; op_Message := ""; op_Reason := ""; op_Reference := Some id; op_State := "success" |}.

(** A request about an NLB of the server. *)
Definition sim_on (s : sim_state) (id : UUID) (f : LoadBalancer → LoadBalancer) :
    result Operation * sim_state :=
  match s !! id with
  | Some lb => (Ok (done_op id), <[id := f lb]> s)
  | None => (Err (Sentinel ErrNotFound), s)
  end.

Definition sim_exo {X} (e : exoE X) (s : sim_state) : X * sim_state :=
  match e in exoE X return X * sim_state with
  | ApiCreateLoadBalancer req =>
      let id := fresh_NLB_ID s in
      (Ok (done_op id), <[id := {|
         lb_Description := clr_Description req; lb_ID := id; lb_IP := Some [192; 0; 2; 1];
         lb_Labels := clr_Labels req; lb_Name := clr_Name req; lb_Services := [] |}]> s)
  | ApiAddServiceToLoadBalancer id req =>
      sim_on s id (λ lb, with_Services lb
        (lb_Services lb ++ [from_request (fresh_ID (lb_Services lb)) req]))
  | ApiDeleteLoadBalancer id => (Ok (done_op id), delete id s)
  | ApiDeleteLoadBalancerService id sid =>
      sim_on s id (λ lb, with_Services lb (filter (λ x, lbs_ID x ≠ sid) (lb_Services lb)))
  | ApiGetInstance id => (w_instances w id, s)
  | ApiGetInstanceType id => (w_types w id, s)
  | ApiGetLoadBalancer id =>
      (match sim_view s id with Some lb => Ok lb | None => Err (Sentinel ErrNotFound) end, s)
  | ApiListInstances => (unexpected, s)
  | ApiListLoadBalancers => (Ok ((λ '(id, lb), with_lb_ID lb id) <$> map_to_list s), s)
  | ApiListSKSClusters => (unexpected, s)
  | ApiUpdateLoadBalancer id req => sim_on s id (renamed req)
  | ApiUpdateLoadBalancerService id sid req =>
      sim_on s id (λ lb, with_Services lb
        ((λ x, if decide (lbs_ID x = sid) then updated req x else x) <$> lb_Services lb))
  | ApiWait op _ => (Ok op, s)
  end.

Definition sim_kube {X} (e : kubeE X) : X :=
  match e in kubeE X return X with
  | KubePatchService _ _ _ => Ok tt
  | e => (answer w _ (KubeCall e) ()).1
  end.

Definition sim X (e : ccmE X) (s : sim_state) : X * sim_state :=
  match e in ccmE X return X * sim_state with
  | ExoCall e => sim_exo e s
  | KubeCall e => (sim_kube e, s)
  | HostCall e => ((answer w _ (HostCall e) ()).1, s)
  end.

Lemma sim_on_view s id lb f r s' :
  (∀ lb, with_lb_ID (f lb) id = f (with_lb_ID lb id)) →
  sim_view s id = Some lb → sim_on s id f = (r, s') →
  r = Ok (done_op id) ∧ sim_view s' id = Some (f lb).
Proof.
  unfold sim_view, sim_on. intros Hf Hv. destruct (s !! id) as [lb0|]; [|done].
  injection Hv as <-. intros [= <- <-]. rewrite lookup_insert_eq. simpl. by rewrite Hf.
Qed.

Lemma fresh_string_spec l : fresh_string l ∉ l.
Proof.
  assert (∀ x, x ∈ l → (String.length x < String.length (fresh_string l))%nat) as Hlen.
  { unfold fresh_string. induction l as [|y l IH]; [by intros ? ?%elem_of_nil|].
    intros x Hx. simpl foldr. rewrite !string_length_app in *. simpl String.length at 2.
    apply elem_of_cons in Hx as [->|Hx]; [lia|].
    specialize (IH x Hx). simpl String.length at 2 in IH. lia. }
  intros Hin%Hlen. lia.
Qed.

Lemma fresh_NLB_ID_spec s : sim_view s (fresh_NLB_ID s) = None.
Proof.
  unfold sim_view. apply fmap_None, eq_None_not_Some. intros [lb Hlb].
  apply (fresh_string_spec (map_to_list s).*1). apply list_elem_of_fmap.
  exists (fresh_NLB_ID s, lb). by rewrite elem_of_map_to_list.
Qed.

Lemma sim_on_other s id id' f r s' :
  sim_on s id f = (r, s') → id' ≠ id → sim_view s' id' = sim_view s id'.
Proof.
  unfold sim_on, sim_view. destruct (s !! id); intros [= _ <-] Hne; [|done].
  by rewrite lookup_insert_ne.
Qed.

#[export] Instance sim_server : NLBServer (fun_handler sim) sim_view.
Proof.
  split.
  - intros s id lb. unfold sim_view. destruct (s !! id); [|done]. by intros [= <-].
  - intros s id lb s'. unfold fun_handler. simpl. destruct (sim_view s id) eqn:Hv; [|done].
    by intros [= <- <-].
  - intros s id req lb op s' Hv Hr. by eapply sim_on_view in Hr as [_ ?].
  - intros s id req lb op s' Hv Hr.
    eapply sim_on_view in Hr as [_ Hs]; [|done|done].
    exists (from_request (fresh_ID (lb_Services lb)) req), (lb_Services lb ++ [from_request (fresh_ID (lb_Services lb)) req]).
    split_and!; [|apply fresh_string_spec|by rewrite Permutation_app_comm|done].
    split_and!; try done. simpl. pose proof (stored_defaulted (asr_Healthcheck req) None) as Hst.
    by destruct (asr_Healthcheck req).
  - intros s id sid lb op s' Hv Hr. by eapply sim_on_view in Hr as [_ ?].
  - intros s id sid req lb op s' Hv Hr. eapply sim_on_view in Hr as [_ ?]; [|done|done].
    exists (updated req). split; [|done]. intros x. split_and!; try done. apply stored_defaulted.
Qed.

#[export] Instance sim_lifecycle : NLBLifecycle (fun_handler sim) sim_view.
Proof.
  split; [apply _|..].
  - intros s req op s' [= <- <-]. exists (fresh_NLB_ID s).
    eexists. split; [done|]. split; [done|]. split; [apply fresh_NLB_ID_spec|]. split.
    { unfold sim_view. by rewrite lookup_insert_eq. }
    split_and!; [done..|]. intros id' Hne. unfold sim_view. by rewrite lookup_insert_ne.
  - intros s id op s' [= _ <-]. unfold sim_view. by rewrite lookup_delete_eq.
  - intros id X e s x s' He Hr. unfold fun_handler in Hr. destruct e as [X e|X e|X e]; [|by injection Hr as _ <-..].
    simpl in Hr. destruct e; simpl in He; try (by injection Hr as _ <-);
      try (eapply sim_on_other in Hr; [done|congruence]).
    injection Hr as _ <-. unfold sim_view. by rewrite lookup_delete_ne by congruence.
Qed.

Lemma sim_reliable : reliable (fun_handler sim) sim_view.
Proof.
  intros s id lb Hv. unfold fun_handler. simpl. split_and!.
  - intros r s'. rewrite Hv. by intros [= <- _].
  - intros req r s' Hr. by eapply sim_on_view in Hr as [-> _].
  - intros req r s' Hr _ _. by eapply sim_on_view in Hr as [-> _].
  - intros sid r s' Hr _. by eapply sim_on_view in Hr as [-> _].
  - intros sid req r s' Hr _. by eapply sim_on_view in Hr as [-> _].
Qed.

Lemma sim_dependable : dependable (fun_handler sim) sim_view.
Proof. split; [apply sim_reliable|]. by intros s id lb r s' _ [= <- _]. Qed.
End server.

(** ** Sample objects *)

Definition sample_ports : list ServicePort := [
  {| sp_Protocol := "TCP"; sp_Port := 80; sp_NodePort := 30080 |};
  {| sp_Protocol := "UDP"; sp_Port := 53; sp_NodePort := 30053 |}].

Definition sample_annotations : list (string * string) := [
  (annotationLoadBalancerID, "nlb-1");
  (annotationLoadBalancerServiceInstancePoolID, "pool-1");
  (annotationLoadBalancerServiceHealthCheckInterval, "10s");
  (annotationLoadBalancerServiceHealthCheckTimeout, "5s");
  (annotationLoadBalancerServiceHealthCheckPort, "70000")].

Definition sample_service (extra : list (string * string)) : Service := {|
  svc_Namespace := "default"; svc_Name := "web"; svc_UID := "uid-1";
  svc_Annotations := Some (list_to_map (extra ++ sample_annotations));
  svc_Ports := sample_ports; svc_ExternalTrafficPolicy := "Cluster";
  svc_HealthCheckNodePort := 0 |}.

Definition managed : Service := sample_service [].
Definition external : Service := sample_service [(annotationLoadBalancerExternal, "True")].

Definition built (service : Service) : LoadBalancer :=
  match buildLoadBalancerFromAnnotations service with
  | Ok lb => lb
  | Err _ => {| lb_Description := ""; lb_ID := ""; lb_IP := None; lb_Labels := None;
                lb_Name := ""; lb_Services := [] |}
  end.

Definition old_service (id name : string) (port : Z) (protocol pool : string) :
    LoadBalancerService := {|
  lbs_Description := ""; lbs_Healthcheck := None; lbs_HealthcheckStatus := [];
  lbs_ID := id; lbs_InstancePool := Some {| ip_ID := pool; ip_others := [] |};
  lbs_Name := name; lbs_Port := port; lbs_Protocol := protocol; lbs_State := "running";
  lbs_Strategy := "round-robin"; lbs_TargetPort := 31000 |}.

(** An NLB with a service in another pool, one to update and one to delete. *)
Definition sample_nlb : LoadBalancer := {|
  lb_Description := ""; lb_ID := "nlb-1"; lb_IP := Some [192; 0; 2; 1]; lb_Labels := None;
  lb_Name := "old name";
  lb_Services := [old_service "a" "http" 80 "tcp" "pool-0"; old_service "b" "dns" 53 "udp" "pool-1";
                  old_service "c" "other" 8080 "tcp" "pool-1"] |}.

Definition sample_cloud (overrides : list instancesOverrideConfig) : cloudProvider := {|
  p_cfg := {| cc_Global := cc_Global cloudConfig_zero;
              cc_Instances := {| ic_Disabled := false; ic_Overrides := overrides;
                                 ic_ExternalOnly := false |};
              cc_LoadBalancer := cc_LoadBalancer cloudConfig_zero |};
  p_client := true; p_kclient := true; p_zone := "ch-gva-2" |}.

Definition sample_override : instancesOverrideConfig := {|
  ov_Name := "metal-1"; ov_External := true; ov_ExternalID := ""; ov_Type := "";
  ov_Addresses := []; ov_Region := "" |}.

Definition sample_node : Node := {|
  node_Name := "node-1"; node_ProviderID := ""; node_SystemUUID := "i-1";
  node_Annotations := {[ AnnotationAlphaProvidedIPAddr := "10.0.0.1" ]} |}.

Definition sample_instance : ComputeInstance := {|
  inst_ID := "i-1"; inst_InstanceType := Some "t-1"; inst_Ipv6Address := "2001:db8::1";
  inst_Manager := Some {| mgr_ID := "pool-1"; mgr_Type := "instance-pool" |};
  inst_Name := "node-1"; inst_PrivateNetworks := ["net-1"]; inst_PublicIP := Some [192; 0; 2; 7];
  inst_State := "running" |}.

Definition sample_world : world := {|
  w_instances id := if bool_decide (id = "i-1") then Ok sample_instance
                    else Err (Sentinel ErrNotFound);
  w_types id := Ok {| it_Family := "standard"; it_Size := "medium" |};
  w_nodes name := if bool_decide (name = "node-1") then (Some sample_node, None)
                  else (None, Some (ErrorNew "not found" [])) |}.

(** ** Certificates *)

(** A request text is the name it asks for, at the address of the instance. *)
#[export] Instance sample_x509 : X509 := {|
  pem_Decode text := Some ("CERTIFICATE REQUEST", text);
  x509_ParseCertificateRequest text :=
    Ok {| cr_DNSNames := [text]; cr_IPAddresses := [Some [192; 0; 2; 7]] |};
|}.

Definition sample_csr : CertificateSigningRequest := {|
  csr_Name := "csr-1"; csr_Request := "node-1";
  csr_Groups := ["system:nodes"; "system:authenticated"]; csr_Conditions := [] |}.

(** ** Clients *)

#[export] Instance sample_agents : UserAgents := {|
  versionString := "1/abc"; getDefaultUserAgent := "egoscale" |}.

Definition sample_client : Client := {|
  cl_apiKey := "key"; cl_apiSecret := "secret"; cl_userAgent := "egoscale";
  cl_serverEndpoint := CHGva2 |}.

Definition sample_fields : fields := {|
  f_exo := Some sample_client;
  f_apiCredentials := {| cred_APIKey := "key"; cred_APISecret := "secret"; cred_Name := "" |} |}.

Definition sample_config (key file : string) : globalConfig := {|
  gc_APIKey := key; gc_APISecret := "secret"; gc_APICredentialsFile := file; gc_APIEndpoint := "" |}.

Definition sample_jobs : list job := [Serve [MInstanceExistsByProviderID "exoscale://i-1"]].

Definition sample_reachable : config → Prop :=
  reachable (λ c, ¬ writer_waiting c) "" "/etc/creds" "ch-gva-2" [ContextDone]
    (job_prog (sample_cloud []) <$> sample_jobs)
    sample_fields.

(** The handler has taken the lock and is about to send its request. *)
Lemma sample_requesting : ∃ c k, sample_reachable c ∧
  threads c !! 1%nat = Some (Vis (Request sample_client (ApiGetInstance "i-1")) k).
Proof.
  eexists _, _. split.
  - eapply rtc_l; [eapply (ConfigStep _ _ 1 _ RLock _ tt)|].
    + reflexivity.
    + intros _ (i & k & Hi). by destruct i as [|[|i]].
    + by split_and!.
    + reflexivity.
    + eapply rtc_l; [eapply (ConfigStep _ _ 1 _ LoadExo)|apply rtc_refl]; [reflexivity|done|done|done].
  - reflexivity.
Qed.

(** A refresh that waits while one goroutine awaits the deletion of an NLB and
    another is about to look one up. *)
Definition busy_handlers : list (prog ccmE ()) := [
  exo (sample_cloud []) (ApiDeleteLoadBalancer "nlb-1") ≫= (λ _, mret ());
  exo (sample_cloud []) (ApiGetLoadBalancer "nlb-2") ≫= (λ _, mret ())].

Definition busy_reachable : config → Prop :=
  reachable (λ c, ¬ writer_waiting c) "" "/etc/creds" "ch-gva-2"
    [FsEvent "/etc/creds" fsnotify_Write] busy_handlers sample_fields.

Definition pending_op : Operation :=
  {| op_ID := "op"; op_Message := ""; op_Reason := ""; op_Reference := Some "nlb-1";
     op_State := "pending" |}.

(** Steps of one goroutine that involve neither the lock nor the fields. *)
Definition silent (m m' : prog clientE ()) : Prop :=
  ∃ X (e : clientE X) k x, m = Vis e k ∧ m' = k x ∧
    match e with
    | OpenFile _ | DecodeFile | NewWatcher | WatcherAddDir _ | GetZoneAPIEndpoint _ _ => True
    | _ => False
    end.

Lemma silent_steps admits c i m m' :
  rtc silent m m' → threads c !! i = Some m →
  rtc (config_step admits) c {| threads := <[i := m']> (threads c); readers := readers c;
                                writer := writer c; object := object c |}.
Proof.
  intros Hm. revert c. induction Hm as [m|m m1 m' (X & e & k & x & -> & -> & He) _ IH]; intros c Hi.
  - rewrite list_insert_id by done. by destruct c.
  - eapply rtc_l.
    + eapply (ConfigStep _ _ i _ e k x (readers c) (writer c) (object c)); [done|by destruct e..].
    + etrans; [apply IH; simpl|].
      * apply list_lookup_insert_eq. by eapply lookup_lt_Some.
      * simpl. rewrite list_insert_insert_eq. done.
Qed.

Lemma silent_vis {X} (e : clientE X) k x :
  match e with
  | OpenFile _ | DecodeFile | NewWatcher | WatcherAddDir _ | GetZoneAPIEndpoint _ _ => True
  | _ => False
  end → silent (Vis e k) (k x).
Proof. intros He. by exists X, e, k, x. Qed.

Ltac silent_step e x := eapply rtc_l; [apply (silent_vis e _ x); exact I|cbv beta iota].

(** The client that the refresh builds. *)
Definition sample_client' : Client := {|
  cl_apiKey := "key"; cl_apiSecret := "secret";
  cl_userAgent := "Exoscale-K8s-Cloud-Controller/1/abc egoscale"; cl_serverEndpoint := CHGva2 |}.

Lemma sample_refresh : ∃ k0, rtc silent
  (watchCredentialsFile switchZoneCallback "" "/etc/creds" "ch-gva-2"
     [FsEvent "/etc/creds" fsnotify_Write]) (Vis Lock k0).
Proof.
  eexists. unfold watchCredentialsFile.
  silent_step NewWatcher (@Ok () tt). silent_step (WatcherAddDir "/etc/creds") (@Ok () tt).
  cbn [watchLoop]. rewrite (eq_refl : refreshes "/etc/creds" "/etc/creds" fsnotify_Write = true).
  unfold refreshCredentialsFromFile. cbn [trigger mbind prog_mbind prog_bind].
  silent_step (OpenFile "/etc/creds") (@Ok () tt).
  cbn [finally mbind prog_mbind prog_bind trigger].
  silent_step DecodeFile (Ok (f_apiCredentials sample_fields)).
  set (client := NewClient _ _ _). change client with (Ok sample_client').
  unfold switchZoneCallback. rewrite bool_decide_eq_false_2 by done.
  cbn [finally mbind prog_mbind prog_bind trigger try_bind].
  silent_step (GetZoneAPIEndpoint sample_client' "ch-gva-2") (@Ok string "https://x").
  cbn [finally mbind prog_mbind prog_bind trigger mret prog_mret]. apply rtc_refl.
Qed.

Lemma sample_busy : ∃ c k k0 k2, busy_reachable c ∧
  threads c !! 1%nat = Some (Vis (Request sample_client
    (ApiWait pending_op [OperationStateSuccess])) k) ∧
  threads c !! 0%nat = Some (Vis Lock k0) ∧ threads c !! 2%nat = Some (Vis RLock k2).
Proof.
  destruct sample_refresh as [k0 Hk0]. eexists _, _, _, _. split.
  - eapply rtc_l; [eapply (ConfigStep _ _ 1 _ RLock _ tt)|].
    + reflexivity.
    + intros _ (i & k & Hi). by destruct i as [|[|[|i]]].
    + by split_and!.
    + reflexivity.
    + eapply rtc_l; [eapply (ConfigStep _ _ 1 _ LoadExo); [reflexivity|done|done|done]|].
      eapply rtc_l; [eapply (ConfigStep _ _ 1 _
        (Request sample_client (ApiDeleteLoadBalancer "nlb-1")) _ (Ok pending_op));
        [reflexivity|done|done|done]|].
      eapply rtc_l; [eapply (ConfigStep _ _ 1 _ LoadExo); [reflexivity|done|done|done]|].
      eapply silent_steps with (i := 0%nat); [exact Hk0|reflexivity].
  - split_and!; reflexivity.
Qed.

(** ** The wire *)

Definition sample_url : URL := {| EscapedPath := "/v2/instance/i-9"; Query := [] |}.

(** Everything is encoded as the empty text, and only operations decode. *)
#[export] Instance sample_web : Web := {|
  json_Valid _ := false;
  json_Message data := Ok (data, "");
  json_Operation data :=
    if bool_decide (data = "pending") then Ok pending_op
    else if bool_decide (data = "success") then Ok (done_op "nlb-1")
    else Err (ErrorNew "unexpected end of JSON input" []);
  json_Instance _ := Err (ErrorNew "unexpected end of JSON input" []);
  json_InstanceType _ := Err (ErrorNew "unexpected end of JSON input" []);
  json_LoadBalancer _ := Err (ErrorNew "unexpected end of JSON input" []);
  json_Instances _ := Err (ErrorNew "unexpected end of JSON input" []);
  json_LoadBalancers _ := Err (ErrorNew "unexpected end of JSON input" []);
  json_SKSClusters _ := Err (ErrorNew "unexpected end of JSON input" []);
  json_Create _ := Ok "";
  json_Add _ := Ok "";
  json_Update _ := Ok "";
  json_UpdateService _ := Ok "";
  NewRequest _ _ := Ok sample_url;
  permanent _ := false;
|}.

Definition lookup_request : request :=
  sent_request sample_client "GET" "/instance/i-9" None sample_url 1700000000.

(** The deletion of an NLB, the operation it starts, and a poll for it. *)
Definition delete_request : request :=
  sent_request sample_client "DELETE" "/load-balancer/nlb-1" None sample_url 1700000000.

Definition poll_request (now : Z) : request :=
  sent_request sample_client "GET" "/operation/op" None sample_url now.

Definition reply_text (text : string) : response := {| rs_StatusCode := 200; rs_Body := Ok text |}.

Definition reply_with (code : Z) : response := {| rs_StatusCode := code; rs_Body := Ok "" |}.

(** A lookup that is first answered 503, then 404. *)
Definition missing_trace : list (call wireE) :=
  [Call (Inside RLock) tt; Call (Inside LoadExo) (Some sample_client);
   Call Now 1700000000;
   Call (Attempt lookup_request) (Ok (reply_with 503)); Call ContextErr None; Call Pause None;
   Call (Attempt lookup_request) (Ok (reply_with 404)); Call ContextErr None;
   Call (Inside RUnlock) tt].

Lemma missing_executes :
  exec (on_the_wire (through_client (InstanceExistsByProviderID (sample_cloud []) "exoscale://i-9")))
    missing_trace (Returned (Ok false)).
Proof. repeat (eexists _, _; split; [reflexivity|]). by vm_compute. Qed.

(** A deletion that is first answered 503, then starts an operation, which is
    still pending when it is asked for the first time. *)
Definition deletion_trace : list (call pollE) :=
  [Call (Exchange (Inside RLock)) tt; Call (Exchange (Inside LoadExo)) (Some sample_client);
   Call (Exchange Now) 1700000000;
   Call (Exchange (Attempt delete_request)) (Ok (reply_with 503));
   Call (Exchange ContextErr) None; Call (Exchange Pause) None;
   Call (Exchange (Attempt delete_request)) (Ok (reply_text "pending"));
   Call (Exchange ContextErr) None; Call (Exchange (Inside LoadExo)) (Some sample_client);
   Call Select (inl 3000); Call (Exchange Now) 1700000003;
   Call (Exchange (Attempt (poll_request 1700000003))) (Ok (reply_text "pending"));
   Call (Exchange ContextErr) None;
   Call Select (inl 6000); Call (Exchange Now) 1700000006;
   Call (Exchange (Attempt (poll_request 1700000006))) (Ok (reply_text "success"));
   Call (Exchange ContextErr) None; Call (Exchange (Inside RUnlock)) tt].

Lemma deletion_executes :
  exec (with_polls 0 2 (on_the_wire (awaited (ApiDeleteLoadBalancer "nlb-1")))) deletion_trace
    (Returned (Some (Ok (done_op "nlb-1")))).
Proof. repeat (eexists _, _; split; [reflexivity|]). by vm_compute. Qed.
