(* ===== verification/Witnesses.v ===== *)
(** The properties with hypotheses, applied to the sample objects. *)
From S2P Require Import Prelude GoErrors GoStrings GoTime GoNet Effects Egoscale Kube.
From S2P Require Import InstancesConfig CloudConfig Instances InstancesV2 Zones NodesProps.
From S2P Require Import LoadBalancerSpec LoadBalancerSpecProps LoadBalancer LoadBalancerSafety.
From S2P Require Import Requests LoadBalancerProps Reconcile Lifecycle CSR CSRProps Client ClientProps.
From S2P Require Import Provider ProviderProps Process Wait Transport Polling Shutdown Samples.
#[local] Open Scope Z_scope.

Lemma build_services_distinct_witness :
  NoDup (lbs_Name <$> lb_Services (built managed)) ∧
  NoDup (key <$> lb_Services (built managed)) ∧
  length (lb_Services (built managed)) = length (svc_Ports managed).
Proof.
  apply (build_services_distinct managed (built managed)).
  - vm_compute. reflexivity.
  - apply (bool_decide_unpack _). vm_compute. exact I.
Defined.

Lemma healthcheck_port_annotation_wraps_witness :
  ∃ p, healthcheckPort managed {| sp_Protocol := "TCP"; sp_Port := 80; sp_NodePort := 30080 |} = Ok p ∧
    0 ≤ p < 65536 ∧ p = 70000 `mod` 65536 ∧ (p = 70000 ↔ 0 ≤ 70000 < 65536).
Proof.
  apply (healthcheck_port_annotation_wraps managed
    {| sp_Protocol := "TCP"; sp_Port := 80; sp_NodePort := 30080 |} 70000).
  - unfold min_int64, max_int64. lia.
  - vm_compute. reflexivity.
Defined.

Definition first_service : LoadBalancerService :=
  default LoadBalancerService_zero (head (lb_Services (built managed))).

Lemma healthcheck_seconds_roundtrip_witness :
  ∃ hc, lbs_Healthcheck first_service = Some hc ∧ hc_Interval hc = 10 ∧ hc_Timeout hc = 5.
Proof.
  apply (healthcheck_seconds_roundtrip managed (built managed) first_service 10 5).
  - lia.
  - lia.
  - vm_compute. reflexivity.
  - vm_compute. reflexivity.
  - vm_compute. reflexivity.
  - apply (bool_decide_unpack _). vm_compute. exact I.
Defined.

Lemma external_nlb_untouched_witness :
  wp (EnsureLoadBalancer (sample_cloud []) external [sample_node])
    (λ t _, Forall (on_call (@service_call)) t).
Proof.
  apply (external_nlb_untouched (sample_cloud []) external [sample_node]).
  vm_compute. reflexivity.
Defined.

Lemma get_load_balancer_spec_witness :
  wp (GetLoadBalancer (sample_cloud []) managed) (λ t o,
    let id := getAnnotation managed annotationLoadBalancerID "" in
    (id = "" ∧ t = [] ∧ o = Returned (Ok (None, false))) ∨
    (id ≠ "" ∧ ∃ r, t = [get_call id r] ∧
      o = Returned (match r with
                    | Ok nlb => Ok (Some [IP_String (lb_IP nlb)], true)
                    | Err e => if errors_Is e ErrNotFound || is_sentinel e errLoadBalancerNotFound
                               then Ok (None, false) else Err e
                    end))).
Proof. apply (get_load_balancer_spec (sample_cloud []) managed). reflexivity. Defined.

Definition without_id : Service := with_Annotations managed None.

Lemma no_id_no_call_witness :
  EnsureLoadBalancerDeleted (sample_cloud []) without_id = Ret (Ok ()) ∧
  GetLoadBalancer (sample_cloud []) without_id = Ret (Ok (None, false)) ∧
  ∃ e, UpdateLoadBalancer (sample_cloud []) without_id = Ret (Err e).
Proof. apply (no_id_no_call (sample_cloud []) without_id). vm_compute. reflexivity. Defined.

Lemma external_id_roundtrip_witness :
  InstanceID (sample_cloud [sample_override]) "metal-1" =
    Ret (Ok (override_ExternalID sample_override)).
Proof.
  apply (external_id_roundtrip (sample_cloud [sample_override]) "metal-1" sample_override).
  - vm_compute. reflexivity.
  - reflexivity.
Defined.

Lemma shutdown_iff_stopped_witness :
  wp (InstanceShutdownByProviderID (sample_cloud []) "exoscale://i-1") (λ t o, ∀ b,
    o = Returned (Ok b) ↔
    (∀ ov, getInstanceOverrideByProviderID (cc_Instances (p_cfg (sample_cloud [])))
             "exoscale://i-1" = Some ov → ov_External ov = false) ∧
    ic_ExternalOnly (cc_Instances (p_cfg (sample_cloud []))) = false ∧
    ∃ i, t = [instance_lookup (TrimPrefix "exoscale://i-1" providerPrefix) (Ok i)] ∧
      b = bool_decide (inst_State i ∈ ["stopping"; "stopped"])).
Proof.
  apply (shutdown_iff_stopped (sample_cloud []) "exoscale://i-1").
  - discriminate.
  - reflexivity.
Defined.

Definition sample_metadata : InstanceMetadata := {|
  meta_ProviderID := "exoscale://i-1"; meta_InstanceType := "standard.medium";
  meta_NodeAddresses := nodeAddressesFromInstance sample_node sample_instance;
  meta_Zone := "ch-gva-2"; meta_Region := "ch-gva-2" |}.

Lemma generations_agree_witness :
  (∃ id, yields sample_world (InstanceID (sample_cloud []) "node-1") id ∧
         meta_ProviderID sample_metadata = providerPrefix +:+ id) ∧
  yields sample_world (NodeAddresses (sample_cloud []) "node-1") (meta_NodeAddresses sample_metadata) ∧
  yields sample_world (InstanceType_ (sample_cloud []) "node-1") "standard.medium" ∧
  yields sample_world (GetZoneByNodeName (sample_cloud []) "node-1") {| zone_Region := "ch-gva-2" |}.
Proof.
  apply (generations_agree (sample_cloud []) sample_world sample_node sample_metadata).
  - split; [reflexivity|reflexivity|reflexivity| |reflexivity].
    intros i Hi. vm_compute in Hi. injection Hi as <-. split; reflexivity.
  - vm_compute. reflexivity.
Defined.

(** An instance "Foo" with a private network and its node "foo", which the API
    server does not know as "Foo": only the second generation, which does not ask
    it by that name, gives the internal address that the kubelet provided. *)
Definition renamed_node : Node := {|
  node_Name := "foo"; node_ProviderID := ""; node_SystemUUID := "i-1";
  node_Annotations := {[ AnnotationAlphaProvidedIPAddr := "10.0.0.1" ]} |}.

Definition renamed_world : world := {|
  w_instances _ := Ok {| inst_ID := "i-1"; inst_InstanceType := Some "t-1";
    inst_Ipv6Address := ""; inst_Manager := None; inst_Name := "Foo";
    inst_PrivateNetworks := ["net-1"]; inst_PublicIP := Some [192; 0; 2; 7];
    inst_State := "running" |};
  w_types _ := Ok {| it_Family := "standard"; it_Size := "medium" |};
  w_nodes name :=
    if bool_decide (name = "foo") then (Some renamed_node, None)
    else (Some {| node_Name := ""; node_ProviderID := ""; node_SystemUUID := "";
                  node_Annotations := ∅ |}, Some (ErrorNew "not found" [])) |}.

Definition internal_IPs (l : list NodeAddress) : list string :=
  na_Address <$> filter (λ a, na_Type a = NodeInternalIP) l.

Example generations_differ :
  (∃ meta, yields renamed_world (InstanceMetadata_ (sample_cloud []) renamed_node) meta ∧
     internal_IPs (meta_NodeAddresses meta) = ["10.0.0.1"]) ∧
  ∃ addresses, yields renamed_world (NodeAddresses (sample_cloud []) "foo") addresses ∧
     internal_IPs addresses = ["192.0.2.7"].
Proof. split; eexists; (split; [vm_compute; reflexivity|vm_compute; reflexivity]). Qed.

(** ** Reconciliation *)

(** The NLB as it is once reconciled with [managed]. *)
Definition synced_nlb : LoadBalancer := {|
  lb_Description := ""; lb_ID := "nlb-1"; lb_IP := Some [192; 0; 2; 1]; lb_Labels := None;
  lb_Name := lb_Name (built managed);
  lb_Services := imap (λ i u, with_ID u (pretty (N.of_nat i))) (lb_Services (built managed)) |}.

Lemma synced_realised u :
  u ∈ lb_Services (built managed) → ∃ x, x ∈ lb_Services synced_nlb ∧ realises u x.
Proof.
  assert (Forall (λ u, Exists (realises u) (lb_Services synced_nlb)) (lb_Services (built managed)))
    as H by (apply (bool_decide_unpack _); vm_compute; exact I).
  intros Hu. eapply Forall_forall in H; [|done].
  apply Exists_exists in H as (x & ? & ?). by exists x.
Qed.

Lemma update_quiescent_witness :
  ∃ k, updateLoadBalancer (sample_cloud []) managed
       = Vis (ExoCall (ApiGetLoadBalancer (lb_ID (built managed)))) k ∧
     k (Ok synced_nlb) = Ret (Ok ()).
Proof.
  apply (update_quiescent (sample_cloud []) managed (built managed) synced_nlb).
  - vm_compute. reflexivity.
  - vm_compute. discriminate.
  - reflexivity.
  - split_and!.
    + apply (bool_decide_unpack _). vm_compute. exact I.
    + apply synced_realised.
    + right. split; [reflexivity|]. split; [reflexivity|].
      apply Forall_forall, (bool_decide_unpack _). vm_compute. exact I.
Defined.

Lemma description_change_lost_witness :
  ∃ k k', updateLoadBalancer (sample_cloud [])
      (sample_service [(annotationLoadBalancerDescription, "new")])
    = Vis (ExoCall (ApiGetLoadBalancer "nlb-1")) k ∧
    k (Ok sample_nlb) = Vis (ExoCall (ApiUpdateLoadBalancer "nlb-1" {|
      ulr_Name := "k8s-uid-1"; ulr_Description := ""; ulr_Labels := None |})) k'.
Proof.
  apply (description_change_lost (sample_cloud [])
    (sample_service [(annotationLoadBalancerDescription, "new")])
    (built (sample_service [(annotationLoadBalancerDescription, "new")])) sample_nlb).
  - vm_compute. reflexivity.
  - vm_compute. discriminate.
  - reflexivity.
  - vm_compute. reflexivity.
  - vm_compute. discriminate.
Defined.

Lemma sample_sendable : Forall sendable (lb_Services (built managed)).
Proof.
  vm_compute. repeat constructor; try discriminate; try (eexists; reflexivity).
Qed.

Lemma sample_wf : nlb_wf sample_nlb.
Proof.
  split.
  - apply (bool_decide_unpack _). vm_compute. exact I.
  - apply (bool_decide_unpack _). vm_compute. exact I.
  - repeat constructor; eexists; reflexivity.
Qed.

Lemma sample_not_clearing : ¬ clears_description (built managed) sample_nlb.
Proof.
  intros (u & x & _ & Hx & _ & _ & Hne). simpl in Hx.
  repeat (apply elem_of_cons in Hx as [->|Hx]; [by apply Hne|]). by apply elem_of_nil in Hx.
Qed.

Lemma sample_complete : Forall complete (lb_Services (built managed)).
Proof.
  vm_compute. repeat (apply Forall_cons; split; [intros h [= <-]; repeat split; discriminate|]).
  constructor.
Qed.

Lemma update_converges_witness :
  triple (fun_handler (sim sample_world)) (λ s, sim_view s "nlb-1" = Some sample_nlb)
    (updateLoadBalancer (sample_cloud []) managed)
    (else_blame (fun_handler (sim sample_world)) sim_view (sample_cloud [])
      (λ _ s, ∃ nlb', sim_view s "nlb-1" = Some nlb' ∧
         in_sync (isExternal managed) (built managed) sample_nlb nlb')).
Proof.
  apply (update_converges (fun_handler (sim sample_world)) sim_view (sample_cloud []) managed
    (built managed) sample_nlb).
  - vm_compute. reflexivity.
  - vm_compute. discriminate.
  - vm_compute. discriminate.
  - apply (bool_decide_unpack _). vm_compute. exact I.
  - apply sample_sendable.
  - apply sample_wf.
Defined.

(** The same, executed. *)
Example update_converges_run :
  let '(o, s) := run (sim sample_world) (updateLoadBalancer (sample_cloud []) managed)
                   {[ "nlb-1" := sample_nlb ]} in
  o = Returned (Ok ()) ∧
  (λ lb, (lb_Name lb, (λ x, (lbs_ID x, lbs_Port x, pool_ID x)) <$> lb_Services lb)) <$> sim_view s "nlb-1"
  = Some ("k8s-uid-1", [("b", 53, "pool-1"); ("nb", 80, "pool-1")]).
Proof. vm_compute. split; reflexivity. Qed.


(** ** The life of an NLB *)

Lemma sample_posed extra :
  Forall (λ kv, kv.2 ≠ "" ∨ kv.1 = annotationLoadBalancerID) extra → well_posed (sample_service extra).
Proof.
  intros Hextra.
  assert (∀ k, k ≠ annotationLoadBalancerID → annotation (sample_service extra) k ≠ Some "") as Hk.
  { intros k Hk Heq. unfold annotation in Heq. simpl in Heq.
    apply elem_of_list_to_map_2, elem_of_app in Heq as [Hin|Hin].
    - rewrite Forall_forall in Hextra. by destruct (Hextra _ Hin) as [He|He]; [destruct He|destruct Hk].
    - unfold sample_annotations in Hin.
      repeat (apply elem_of_cons in Hin as [[=]|Hin]). by apply elem_of_nil in Hin. }
  split; [| |by apply Hk..].
  - apply (bool_decide_unpack _). vm_compute. exact I.
  - repeat constructor; discriminate.
Qed.

(** The API before: one NLB, of another Service. *)
Definition before : gmap string LoadBalancer := {[ "nlb-1" := sample_nlb ]}.

Lemma before_fits id nlb :
  sim_view before id = Some nlb → nlb_wf nlb.
Proof.
  unfold sim_view, before. rewrite fmap_Some. intros (lb & Hlb & ->).
  apply lookup_singleton_Some in Hlb as [<- <-]. apply sample_wf.
Qed.

Definition newcomer : Service := sample_service [(annotationLoadBalancerID, "")].

Lemma newcomer_posed : well_posed newcomer.
Proof. apply sample_posed. by constructor; [right|]. Qed.

Lemma ensure_converges_witness :
  triple (fun_handler (sim sample_world)) (all_as sim_view (sim_view before))
    (EnsureLoadBalancer (sample_cloud []) newcomer [sample_node]) (λ o st,
      ∀ service' ips, o = Returned (service', Ok ips) →
        ensured sim_view (sim_view before) newcomer service' ips st).
Proof.
  apply (ensure_converges (fun_handler (sim sample_world)) sim_view (sample_cloud [])
    (sim_view before) newcomer [sample_node]).
  - apply newcomer_posed.
  - apply before_fits.
Defined.

(** The same, executed: a second NLB with the two ports. *)
Example ensure_converges_run :
  let '(o, s) := run (sim sample_world) (EnsureLoadBalancer (sample_cloud []) newcomer [sample_node])
                   before in
  match o with
  | Returned (service', r) =>
      getAnnotation service' annotationLoadBalancerID "" = "nnlb-1" ∧ r = Ok ["192.0.2.1"]
  | Halted _ => False
  end ∧
  (λ lb, (λ x, (lbs_Port x, pool_ID x)) <$> lb_Services lb) <$> sim_view s "nnlb-1"
  = Some [(80, "pool-1"); (53, "pool-1")].
Proof. vm_compute. split; [split|]; reflexivity. Qed.


Lemma delete_converges_witness :
  triple (fun_handler (sim sample_world)) (serves sim_view (sim_view before) "nlb-1" sample_nlb)
    (EnsureLoadBalancerDeleted (sample_cloud []) managed) (λ o st,
      o = Returned (Ok ()) ∧ removed sim_view managed sample_nlb st ∧
      others_as sim_view (sim_view before) "nlb-1" st).
Proof.
  apply (delete_converges (fun_handler (sim sample_world)) sim_view (sample_cloud [])
    (sim_view before) managed sample_nlb).
  - apply (bool_decide_unpack _). vm_compute. exact I.
  - intros x Hx. cbn [lb_Services sample_nlb] in Hx.
    repeat (apply elem_of_cons in Hx as [->|Hx]; [vm_compute; repeat constructor|]).
    by apply elem_of_nil in Hx.
  - vm_compute. reflexivity.
  - vm_compute. discriminate.
  - apply sim_dependable.
  - reflexivity.
Defined.

(** The same, executed: the service of another port keeps the NLB. *)
Example delete_converges_run :
  let '(o, s) := run (sim sample_world) (EnsureLoadBalancerDeleted (sample_cloud []) managed) before in
  o = Returned (Ok ()) ∧ (λ lb, lbs_ID <$> lb_Services lb) <$> sim_view s "nlb-1" = Some ["c"].
Proof. vm_compute. split; reflexivity. Qed.

Lemma lifecycle_leaves_nothing_witness :
  triple (fun_handler (sim sample_world)) (all_as sim_view (sim_view before))
    (EnsureLoadBalancer (sample_cloud []) newcomer [sample_node]) (λ o st,
      ∀ service' ips, o = Returned (service', Ok ips) →
      ∀ o' st', runs (fun_handler (sim sample_world))
                  (EnsureLoadBalancerDeleted (sample_cloud []) service') st o' st' →
        o' = Returned (Ok ()) ∧ all_as sim_view (sim_view before) st').
Proof.
  apply (lifecycle_leaves_nothing (fun_handler (sim sample_world)) sim_view (sample_cloud [])
    (sim_view before) newcomer [sample_node]).
  - apply newcomer_posed.
  - apply before_fits.
  - vm_compute. reflexivity.
  - vm_compute. reflexivity.
  - apply sim_dependable.
  - reflexivity.
Defined.

Lemma Ok_inj {A} (x y : A) : Ok x = Ok y → y = x.
Proof. by intros [= ->]. Qed.

Lemma managed_parse i t r :
  annotations_parse managed i t r → i = 10000000000 ∧ t = 5000000000 ∧ r = 1.
Proof.
  intros (Hi & Ht & Hr). split_and!; apply Ok_inj.
  - rewrite <-Hi. vm_compute. exact eq_refl.
  - rewrite <-Ht. vm_compute. exact eq_refl.
  - rewrite <-Hr. vm_compute. exact eq_refl.
Qed.

Lemma managed_admissible : admissible managed.
Proof.
  split.
  - repeat constructor.
  - vm_compute. lia.
  - vm_compute. reflexivity.
  - vm_compute. reflexivity.
  - intros a Ha. vm_compute in Ha. discriminate.
  - vm_compute. reflexivity.
  - vm_compute. reflexivity.
  - by left.
  - vm_compute. reflexivity.
  - intros i t r (-> & -> & ->)%managed_parse. vm_compute. split_and!; reflexivity.
Qed.


(** ** Certificates *)

Lemma legitimate_approved_witness :
  wp (handleCSR (sample_cloud []) sample_csr) (λ t o, o = Returned () → ∃ c t', t = c :: t' ∧
    ∀ instances, as_listed c = Some instances →
      match last_named "node-1" instances with
      | Some i =>
          (owns i [Some [192; 0; 2; 7]] → approvals t' = [("csr-1", approved sample_csr)]) ∧
          (approvals t' ≠ [] → vouches t' "node-1" [Some [192; 0; 2; 7]] i)
      | None => approvals t' = []
      end).
Proof.
  apply (legitimate_approved (sample_cloud []) sample_csr
    {| cr_DNSNames := ["node-1"]; cr_IPAddresses := [Some [192; 0; 2; 7]] |} "node-1").
  - reflexivity.
  - vm_compute. reflexivity.
  - reflexivity.
  - reflexivity.
Defined.

(** One of two agents is watching when the stop channel is closed. *)
Definition stopping : list event :=
  [Received 0 (WatchReply (Ok tt)); Closed; Forwarded].

Definition stopping_process : process := {|
  stop_closed := true; ctx_done := true; forwarding := false; watcher := Some [];
  agents := [Watching; Connecting] |}.

Definition stopped_process : process := {|
  stop_closed := true; ctx_done := true; forwarding := false; watcher := Some [Client.ContextDone];
  agents := [Stopped; Connecting] |}.

Lemma stopping_reached :
  process_steps (sample_cloud []) (started true 2) stopping stopping_process ∧
  process_steps (sample_cloud []) stopping_process
    [Watched Client.ContextDone; Received 0 CSR.ContextDone] stopped_process ∧
  settled_down (sample_cloud []) stopped_process.
Proof.
  split_and!.
  - eexists. split; [eapply StepAgent with (t := []); [done|done|by split|done]|].
    eexists. split; [by apply StepClose|]. eexists. split; [by apply StepForward|]. done.
  - eexists. split; [by eapply StepWatch|].
    eexists. split; [eapply StepAgent with (t := []); [done|done|by split|done]|]. done.
  - intros e c He Hstep. destruct Hstep as [| |inputs i Hi Hend|n i st m t st' Hn Hm Hx]; simplify_eq/=.
    destruct i; try done. destruct (agent_step_done _ _ _ _ _ Hm Hx) as [-> ->].
    by destruct n as [|[|n]].
Qed.

Lemma stop_propagates_witness :
  (length (filter (λ e, shutting e = true)
     [Watched Client.ContextDone; Received 0 CSR.ContextDone]) ≤ 4)%nat ∧
  (agents stopped_process !! 0%nat = Some Stopped ∨
   agents stopped_process !! 0%nat = Some Connecting ∧
   (Watching = Connecting ∨ Watching = Watching ∧
    Received 0 ChannelClosed ∈ [Watched Client.ContextDone; Received 0 CSR.ContextDone])).
Proof.
  destruct stopping_reached as (Hreach & Hstop & Hs).
  destruct (stop_propagates (sample_cloud []) true 2 stopping stopping_process Hreach) as (_ & H & _).
  destruct (H eq_refl _ _ Hstop) as [Hlen Hdone]. destruct (Hdone Hs) as [_ Hagents].
  split; [exact Hlen|]. apply (Hagents 0%nat _ eq_refl).
Defined.

(** ** The wire *)

Lemma missing_means_404_witness :
  Forall plain_reply missing_trace ∧
  ∃ r resp, (r, Ok resp) ∈ omap as_attempt missing_trace ∧ rq_Method r = "GET" ∧ rs_StatusCode resp = 404.
Proof.
  assert (Forall plain_reply missing_trace) as Hp by (repeat constructor).
  split; [exact Hp|].
  assert (answered_404 (cc_Instances (p_cfg (sample_cloud []))) None "exoscale://i-9" missing_trace)
    as [_ [H|(c & r & resp & Hin & Hr & _ & H)]]; [|vm_compute in H; discriminate|by exists r, resp].
  refine (proj1 (missing_means_404 (sample_cloud []) _ _) "exoscale://i-9" _ _ missing_executes eq_refl Hp).
  - intros url err He. discriminate He.
  - intros data err He. injection He as <-. reflexivity.
Defined.

Lemma success_on_the_wire_witness :
  ∃ c rq replies reply op polls, sent deletion_trace = (pair rq <$> replies ++ [reply]) ++ polls ∧
    made c "DELETE" "/load-balancer/nlb-1" None rq ∧ (length replies ≤ 4)%nat ∧
    Forall (λ reply, shouldRetry reply = true) replies ∧ read reply op ∧
    if decide (op_State op = OperationStatePending)
    then op_State (done_op "nlb-1") = OperationStateSuccess ∧
      ∃ c', polls_for c' (op_ID op) polls ∧ ∃ x, last polls = Some x ∧ read x.2 (done_op "nlb-1")
    else polls = [] ∧ done_op "nlb-1" = op.
Proof.
  exact (success_on_the_wire 0 2 _ _ _ _ (starts_delete "nlb-1") _ _ deletion_executes _ eq_refl).
Defined.

(** ** Clients *)

Lemma requests_use_current_client_witness :
  ∃ c, sample_reachable c ∧ f_exo (object c) = Some sample_client ∧ 1%nat ∈ readers c ∧ writer c = None.
Proof.
  destruct sample_requesting as (c & k & Hc & Hi). exists c. split; [exact Hc|].
  apply (requests_use_current_client _ _ _ _ _ _ _ c 1 _ sample_client (ApiGetInstance "i-1") k Hc Hi).
Defined.


Lemma awaiting_blocks_witness :
  ∃ c k0 k2, busy_reachable c ∧ threads c !! 0%nat = Some (Vis Lock k0) ∧
    threads c !! 2%nat = Some (Vis RLock k2) ∧
    ∀ c', rtc (step_during 1) c c' →
      threads c' !! 0%nat = Some (Vis Lock k0) ∧
      ∀ j kj, threads c !! j = Some (Vis RLock kj) → threads c' !! j = Some (Vis RLock kj).
Proof.
  destruct sample_busy as (c & k & k0 & k2 & Hc & H1 & H0 & H2). exists c, k0, k2.
  split; [exact Hc|]. split; [exact H0|]. split; [exact H2|]. intros c' Hsteps.
  apply (awaiting_blocks _ _ _ _ _ _ c c' 1 _ _ _ k k0 Hc H1 H0 Hsteps).
Defined.

Lemma race_free_witness : ∃ c, sample_reachable c ∧ ¬ racing c.
Proof.
  destruct sample_requesting as (c & k & Hc & Hi). exists c. split; [exact Hc|].
  apply (race_free _ _ _ _ _ _ _ c Hc).
Defined.

Lemma no_deadlock_witness : ∃ c, sample_reachable c ∧
  (Forall finished (threads c) ∨ ∃ c', config_step (λ c, ¬ writer_waiting c) c c').
Proof.
  destruct sample_requesting as (c & k & Hc & Hi). exists c. split; [exact Hc|].
  apply (no_deadlock _ _ _ _ _ _ _ c Hc).
Defined.

Lemma static_credentials_used_witness :
  wp (newRefreshableExoscaleClient switchZoneCallback (sample_config "key" "") "ch-gva-2") (λ t o,
    if decide ("key" ≠ "" ∧ "secret" ≠ "") then
      ∃ c0, NewClient "key" "secret" (clientOpts "") = Ok c0 ∧
      ((∃ creds c, o = Returned (Ok ()) ∧ writes t = [inr creds; inl c] ∧
          cred_APIKey creds = "key" ∧ cred_APISecret creds = "secret" ∧ zoned "ch-gva-2" t c0 c) ∨
       (∃ e, o = Returned (Err e) ∧ Call (GetZoneAPIEndpoint c0 "ch-gva-2") (Err e) ∈ t))
    else t = [] ∧ ∃ e, o = Returned (Err e)).
Proof.
  apply (static_credentials_used (sample_config "key" "") "ch-gva-2").
  left. split; discriminate.
Defined.

Lemma undecodable_file_panics_witness :
  wp (newRefreshableExoscaleClient switchZoneCallback (sample_config "" "/etc/creds") "ch-gva-2")
    (λ t o, Exists spoils t →
      o = Returned (Ok ()) ∧ Call (GoWatch "/etc/creds" "ch-gva-2") () ∈ t ∧
      ∀ s, follows memory fields_zero t s →
        ∀ X (e : exoE X) o' s', runs memory (refreshable e) s o' s' → o' = Halted NilDeref) ∧
  ∀ e, ∃ t, exec (newRefreshableExoscaleClient switchZoneCallback (sample_config "" "/etc/creds")
                    "ch-gva-2") t (Returned (Ok ())) ∧ Call DecodeFile (Err e) ∈ t.
Proof.
  apply (undecodable_file_panics (sample_config "" "/etc/creds") "ch-gva-2").
  - left. reflexivity.
  - discriminate.
Defined.
