(* ===== verification/Histories.v ===== *)
(** A concrete history of a Service in which two NLBs are created: the first
    could not be read back, so that its ID was never recorded. With a JSON
    encoding and patches for which the hypothesis on the API server holds. *)
From S2P Require Import Prelude GoErrors GoStrings Effects Egoscale Kube CloudConfig.
From S2P Require Import LoadBalancerSpec LoadBalancer Interfaces Reconcile.
From S2P Require Import LoadBalancerSafety LoadBalancerProps Lifecycle Samples Witnesses.
From S2P Require Import ServiceController ControllerProps Cluster Convergence.

(** ** Patches *)

(** Finite maps as texts of binary digits. *)
Fixpoint bits (x : positive) : string :=
  match x with
  | xH => ""
  | xO x => String "0" (bits x)
  | xI x => String "1" (bits x)
  end.

Fixpoint unbits (s : string) : positive :=
  match s with
  | "" => xH
  | String c s => if Ascii.eqb c "0" then xO (unbits s) else xI (unbits s)
  end.

Lemma unbits_bits x : unbits (bits x) = x.
Proof. induction x as [x IH|x IH|]; simpl; by rewrite ?IH. Qed.

Definition marshal (m : gmap string string) : string := String "m" (bits (encode m)).

Definition unmarshal (s : string) : gmap string string :=
  match s with
  | "" => ∅
  | String _ s => default ∅ (decode (unbits s))
  end.

Lemma unmarshal_marshal m : unmarshal (marshal m) = m.
Proof. unfold unmarshal, marshal. by rewrite unbits_bits, decode_encode. Qed.

Definition annotations (service : Service) : gmap string string :=
  default ∅ (svc_Annotations service).

(** The entries of the second map that the first does not have. *)
Definition changes (m m' : gmap string string) : gmap string string :=
  filter (λ kv, m !! kv.1 ≠ Some kv.2) m'.

Definition map_patchlib : PatchLib := {|
  json_Marshal service := Ok (marshal (annotations service));
  CreateTwoWayMergePatch j j' := Ok (marshal (changes (unmarshal j) (unmarshal j')));
|}.

Lemma changes_insert m k v : m !! k ≠ Some v → changes m (<[k:=v]> m) = {[k := v]}.
Proof.
  intros Hk. apply map_eq. intros k'. unfold changes. apply option_eq. intros v'.
  rewrite map_lookup_filter_Some, lookup_insert_Some, lookup_singleton_Some. simpl.
  naive_solver.
Qed.

Lemma changes_set current k v :
  annotation current k ≠ Some v →
  changes (unmarshal (marshal (annotations current)))
    (unmarshal (marshal (annotations (set_annotation current k v)))) = {[k := v]}.
Proof.
  intros Hk. rewrite !unmarshal_marshal. apply changes_insert.
  unfold annotation in Hk. unfold annotations. by destruct (svc_Annotations current).
Qed.

Definition apply_changes (patch : string) (service : Service) : Service :=
  with_Annotations service (Some (unmarshal patch ∪ annotations service)).

Lemma Ok_eq {A} (a b : A) : Ok a = Ok b → a = b.
Proof. congruence. Qed.

Lemma apply_changes_set current k v j j' patch :
  annotation current k ≠ Some v →
  @json_Marshal map_patchlib current = Ok j →
  @json_Marshal map_patchlib (set_annotation current k v) = Ok j' →
  @CreateTwoWayMergePatch map_patchlib j j' = Ok patch →
  patch ≠ "" ∧ patch ≠ "{}" ∧
  ∀ service, apply_changes patch service = set_annotation service k v.
Proof.
  intros Hk <-%Ok_eq <-%Ok_eq <-%Ok_eq. split; [done|]. split; [done|].
  intros service. unfold apply_changes.
  rewrite changes_set, unmarshal_marshal by done. unfold set_annotation. do 2 f_equal.
  by rewrite insert_union_singleton_l.
Qed.

Definition map_server : @PatchServer map_patchlib :=
  {| apply_patch := apply_changes; apply_difference := apply_changes_set |}.

(** ** Runs against fixed replies *)

Fixpoint play {E A} (replies : ∀ X, E X → X) (n : nat) (m : prog E A) : list (call E) :=
  match n, m with
  | S n, Vis e k => Call e (replies _ e) :: play replies n (k (replies _ e))
  | _, _ => []
  end.

Lemma play_partial {E A} replies n (m : prog E A) : partial m (play replies n m).
Proof.
  revert m. induction n as [|n IH]; intros [a|h|X e k]; simpl; [done|done|by left|done|done|].
  right. by eexists _, _.
Qed.

Lemma play_identified {A} replies n (m : prog ctlE A) :
  (∀ X (e : ccmE X), identified (Call e (replies X (Cloud e)))) →
  Forall identified (cloud_calls (play replies n m)).
Proof.
  intros Hr. revert m. induction n as [|n IH]; intros [a|h|X e k]; try constructor.
  simpl. destruct e; try apply IH. constructor; [apply Hr|apply IH].
Qed.

(** ** The history *)

Definition orphan_object : object := {|
  ob_Service := {|
    svc_Namespace := "default"; svc_Name := "web"; svc_UID := "uid-1";
    svc_Annotations := Some {[ annotationLoadBalancerServiceInstancePoolID := "pool-1" ]};
    svc_Ports := []; svc_ExternalTrafficPolicy := "Cluster"; svc_HealthCheckNodePort := 0 |};
  ob_Type := ServiceTypeLoadBalancer; ob_LoadBalancerClass := None;
  ob_Finalizers := [LoadBalancerCleanupFinalizer]; ob_Deleted := false; ob_Ingress := [] |}.

(** The API creates an NLB each time, but the reads are answered by [read]. *)
Definition orphan_exo (read : result LoadBalancer) X (e : exoE X) : X :=
  match e in exoE X return X with
  | ApiCreateLoadBalancer _ => Ok (done_op "nlb-1")
  | ApiGetLoadBalancer _ => read
  | e => exo_failure _ e
  end.

Definition orphan_kube X (e : kubeE X) : X :=
  match e in kubeE X return X with
  | KubeGetNode _ => (None, None)
  | KubePatchService _ _ _ | KubeUpdateApproval _ _ => Ok ()
  end.

Definition orphan_cloud (read : result LoadBalancer) X (e : ccmE X) : X :=
  match e in ccmE X return X with
  | ExoCall e => orphan_exo read _ e
  | KubeCall e => orphan_kube _ e
  | HostCall e => ctl_failure _ (Cloud (HostCall e))
  end.

Definition orphan_replies (read : result LoadBalancer) X (e : ctlE X) : X :=
  match e in ctlE X return X with
  | ListService _ _ => Ok orphan_object
  | ListNodes => Ok []
  | Cloud e => orphan_cloud read _ e
  | e => ctl_failure _ e
  end.

Definition orphan_run (read : result LoadBalancer) (n : nat) : list (call ctlE) :=
  play (orphan_replies read) n
    (processNextServiceItem (@newLoadBalancer _ map_patchlib (sample_cloud [])) "default/web").

Definition failed_read : result LoadBalancer := Err (ErrorNew "connection reset by peer" []).

Lemma orphan_identified read n :
  Forall (λ nlb, lb_ID nlb ≠ "") (match read with Ok nlb => [nlb] | Err _ => [] end) →
  Forall identified (cloud_calls (orphan_run read n)).
Proof.
  intros Hr. apply play_identified. intros X [Y e|Y e|Y e]; [|constructor..].
  destruct e; try constructor. exact Hr.
Qed.

(** The first run creates an NLB that it cannot read back; the second reads the
    Service as it still is, creates another, and records it. *)
Definition orphan_history : list round :=
  let t := orphan_run failed_read 9 in
  [{| round_object := orphan_object; round_calls := t |};
   {| round_object := @after map_patchlib map_server orphan_object t;
      round_calls := orphan_run (Ok sample_nlb) 8 |}].

Definition orphan_end : object :=
  @after map_patchlib map_server
    (@after map_patchlib map_server orphan_object (orphan_run failed_read 9))
    (orphan_run (Ok sample_nlb) 8).

Lemma orphan_history_possible :
  @history _ map_patchlib map_server (sample_cloud []) "default/web"
    orphan_object orphan_history orphan_end.
Proof.
  unfold orphan_history. cbv zeta. eapply (history_run _ _ ServiceItem).
  - apply play_partial.
  - apply orphan_identified. constructor.
  - apply evolves_after.
  - eapply (history_run _ _ ServiceItem); [apply play_partial| |apply evolves_after|apply history_done].
    apply orphan_identified. by repeat constructor.
Qed.

(** Both runs create an NLB, and only the first has an excuse. *)
Lemma creations_bounded_witness :
  (creations <$> orphan_history = [1; 1])%nat ∧ unexcused orphan_history = 1%nat ∧
  Forall (λ r, (creations r ≤ 1)%nat) orphan_history ∧
  (unexcused orphan_history + has_ID orphan_object ≤ has_ID orphan_end)%nat.
Proof.
  split; [reflexivity|]. split; [reflexivity|].
  apply (@creations_bounded _ map_patchlib map_server (sample_cloud []) "default/web").
  apply orphan_history_possible.
Defined.

(** ** Syncs *)

Definition object_of (service : Service) (deleted : bool) : object := {|
  ob_Service := service; ob_Type := ServiceTypeLoadBalancer; ob_LoadBalancerClass := None;
  ob_Finalizers := if deleted then [LoadBalancerCleanupFinalizer] else [];
  ob_Deleted := deleted; ob_Ingress := if deleted then ["192.0.2.1"] else [] |}.

Lemma sync_converges_witness :
  wp (syncService (@newLoadBalancer _ map_patchlib (sample_cloud [])) "default/web") (λ t o,
    ∀ namespace name t' st st',
      t = Call (ListService namespace name) (Ok (object_of newcomer false)) :: t' →
      o = Returned (Ok ()) →
      Forall sound t' → Forall (cached_version (object_of newcomer false)) t' →
      all_as sim_view (sim_view before) st →
      follows (fun_handler (sim sample_world)) st (cloud_calls t') st' →
      let api := @after map_patchlib map_server (object_of newcomer false) t' in
      ensured sim_view (sim_view before) newcomer (ob_Service api) (ob_Ingress api) st' ∧
      HasLBFinalizer api = true).
Proof.
  apply (@sync_converges _ map_patchlib (sample_cloud []) map_server _
    (fun_handler (sim sample_world)) sim_view _ (sim_view before) (object_of newcomer false)).
  - apply newcomer_posed.
  - apply before_fits.
  - reflexivity.
  - reflexivity.
Defined.

Lemma cleanup_converges_witness :
  wp (syncService (@newLoadBalancer _ map_patchlib (sample_cloud [])) "default/web") (λ t o,
    ∀ namespace name t' st st',
      t = Call (ListService namespace name) (Ok (object_of managed true)) :: t' →
      o = Returned (Ok ()) →
      Forall sound t' → Forall (cached_version (object_of managed true)) t' →
      serves sim_view (sim_view before) "nlb-1" sample_nlb st →
      follows (fun_handler (sim sample_world)) st (cloud_calls t') st' →
      let api := @after map_patchlib map_server (object_of managed true) t' in
      removed sim_view managed sample_nlb st' ∧
      others_as sim_view (sim_view before) "nlb-1" st' ∧
      ob_Service api = managed ∧ ob_Ingress api = [] ∧ HasLBFinalizer api = false).
Proof.
  apply (@cleanup_converges _ map_patchlib (sample_cloud []) map_server _
    (fun_handler (sim sample_world)) sim_view _ (sim_view before) (object_of managed true) sample_nlb).
  - apply (bool_decide_unpack _). vm_compute. exact I.
  - intros x Hx. cbn [lb_Services sample_nlb] in Hx.
    repeat (apply elem_of_cons in Hx as [->|Hx]; [vm_compute; repeat constructor|]).
    by apply elem_of_nil in Hx.
  - vm_compute. reflexivity.
  - vm_compute. discriminate.
  - apply sim_dependable.
  - reflexivity.
  - reflexivity.
Defined.

(** Both, executed: a cluster and a cloud that reply as they should, starting
    from the Service and the NLBs given. *)
Definition cluster_reply X (e : ctlE X) (s : object * gmap string LoadBalancer) :
    X * (object * gmap string LoadBalancer) :=
  match e in ctlE X return X * (object * gmap string LoadBalancer) with
  | Cloud e =>
      let '(x, nlbs) := sim sample_world _ e s.2 in
      (x, (@served map_patchlib map_server (Call (Cloud e) x) s.1, nlbs))
  | ListService _ _ => (Ok s.1, s)
  | ListNodes => (Ok [], s)
  | PatchService old new => (Ok (), (patched_object old new s.1, s.2))
  | e => (ctl_failure _ e, s)
  end.

Example sync_converges_run :
  let '(o, (api, nlbs)) := run cluster_reply
    (syncService (@newLoadBalancer _ map_patchlib (sample_cloud [])) "default/web")
    (object_of newcomer false, before) in
  o = Returned (Ok ()) ∧ object_ID api = "nnlb-1" ∧ ob_Ingress api = ["192.0.2.1"] ∧
  HasLBFinalizer api = true ∧
  (λ lb, lbs_Port <$> lb_Services lb) <$> sim_view nlbs "nnlb-1" = Some [80; 53]%Z.
Proof. vm_compute. split_and!; reflexivity. Qed.

Example cleanup_converges_run :
  let '(o, (api, nlbs)) := run cluster_reply
    (syncService (@newLoadBalancer _ map_patchlib (sample_cloud [])) "default/web")
    (object_of managed true, before) in
  o = Returned (Ok ()) ∧ ob_Ingress api = [] ∧ HasLBFinalizer api = false ∧
  (λ lb, lbs_ID <$> lb_Services lb) <$> sim_view nlbs "nlb-1" = Some ["c"].
Proof. vm_compute. split_and!; reflexivity. Qed.
