(* ===== verification/Conformance.v ===== *)
(** The unit tests of the repository (exoscale/*_test.go), run on the model with
    the mock of Mock: the same expectations, the same objects, the assertions of
    the tests as equations, and all the calls the mock recorded. Random names
    and IDs are fixed. *)
From S2P Require Import Prelude GoErrors GoStrings GoTime GoNet Effects Egoscale Kube.
From S2P Require Import InstancesConfig CloudConfig Instances InstancesV2 Zones.
From S2P Require Import LoadBalancerSpec LoadBalancer CSR Mock Samples.
#[local] Open Scope Z_scope.

(** ** The test suite *)

Definition testZone : string := "ch-gva-2".
Definition testInstanceID : UUID := "9e5a0a3e".
Definition testInstanceName : string := "kvQpZrX".
Definition testInstanceTypeID : UUID := "71004023".
Definition testIPv4 : string := "1.2.3.4".
Definition testIPv6 : string := "fd00::123:4".

(** [net.ParseIP] gives the 16-byte form. *)
Definition testIPv4P : IP := Some [0; 0; 0; 0; 0; 0; 0; 0; 0; 0; 255; 255; 1; 2; 3; 4].
Definition testIPv6P : IP := Some [253; 0; 0; 0; 0; 0; 0; 0; 0; 0; 0; 0; 1; 35; 0; 4].

Definition overrideName : string := "/^testOverrideInstanceRegexp.*/".
Definition overrideNodeName : string := "testOverrideInstanceRegexpF00b@r".

Definition overrideAddressList : list NodeAddress :=
  [{| na_Type := "InternalIP"; na_Address := "192.0.2.42" |};
   {| na_Type := "ExternalIP"; na_Address := "203.0.113.42" |}].

Definition testConfig_typical : cloudConfig := {|
  cc_Global := {| gc_APIKey := "key"; gc_APISecret := "secret"; gc_APICredentialsFile := "";
                  gc_APIEndpoint := "" |};
  cc_Instances := {| ic_Disabled := false; ic_ExternalOnly := false; ic_Overrides := [{|
    ov_Name := overrideName; ov_External := true; ov_ExternalID := "";
    ov_Type := "testInstanceTypeExternal"; ov_Region := "testInstanceRegionExternal";
    ov_Addresses := [{| oa_Type := "InternalIP"; oa_Address := "192.0.2.42" |};
                     {| oa_Type := "ExternalIP"; oa_Address := "203.0.113.42" |}] |}] |};
  cc_LoadBalancer := {| lc_Disabled := false |} |}.

Definition ts_p : cloudProvider :=
  {| p_cfg := testConfig_typical; p_client := true; p_kclient := true; p_zone := testZone |}.

(** The one pattern of the configuration. *)
#[local] Instance test_regexp : Regexp := λ pattern text,
  if bool_decide (pattern = "^testOverrideInstanceRegexp.*")
  then Some (HasPrefix text "testOverrideInstanceRegexp") else None.

(** [fake.NewSimpleClientset(nodes...)]; Services can be patched and requests
    approved. *)
Definition clientset (nodes : list Node) X (e : kubeE X) : X :=
  match e in kubeE X return X with
  | KubeGetNode name =>
      match List.find (λ node, bool_decide (node_Name node = name)) nodes with
      | Some node => (Some node, None)
      | None => (Some {| node_Name := ""; node_ProviderID := ""; node_SystemUUID := "";
                         node_Annotations := ∅ |}, Some (ErrorNew "not found" []))
      end
  | KubePatchService _ _ _ => Ok tt
  | KubeUpdateApproval _ _ => Ok tt
  end.

Definition host X (e : hostE X) : X :=
  match e in hostE X return X with
  | LookupEnv _ => None
  | MetadataFromCdRom _ => Err (ErrorNew "no such device" [])
  | MetadataGet _ => Ok testZone
  end.

Definition call_of (method : string) (args : Arguments) : string * Arguments := (method, VContext :: args).

(** What a test looks at: the outcome and the calls recorded. *)
Definition ran {A} (nodes : list Node) (p : prog ccmE A) (m : Mock) :
    option (outcome A * list (string * Arguments)) :=
  (λ '(_, o, m), (o, Calls m)) <$> tested (clientset nodes) host p m.

(** The same for a handler that hands its Service on. *)
Definition ran_svc {A} (p : svc_prog A) (m : Mock) :=
  match ran [] p m with
  | Some (Returned (_, r), calls) => Some (Returned r, calls)
  | Some (Halted h, calls) => Some (Halted h, calls)
  | None => None
  end.

Definition on (method : string) (args returns : Arguments) (i : Z) (m : Mock) : Mock :=
  On method (VContext :: args) returns i m.

(** ** instances_test.go *)

Definition testNode : Node := {|
  node_Name := testInstanceName; node_ProviderID := ""; node_SystemUUID := testInstanceID;
  node_Annotations := ∅ |}.

Definition testNode_provided : Node := {|
  node_Name := testInstanceName; node_ProviderID := ""; node_SystemUUID := testInstanceID;
  node_Annotations := {[ AnnotationAlphaProvidedIPAddr := "10.0.0.1" ]} |}.

Definition testInstance (ip : IP) (ipv6 : string) (networks : list UUID) (state : string) :
    ComputeInstance := {|
  inst_ID := testInstanceID; inst_InstanceType := Some testInstanceTypeID;
  inst_Ipv6Address := ipv6; inst_Manager := None; inst_Name := testInstanceName;
  inst_PrivateNetworks := networks; inst_PublicIP := ip; inst_State := state |}.

Definition instance_mock (i : ComputeInstance) : Mock :=
  on "GetInstance" [VUUID testInstanceID] [VInstance (Some i); VNil] 0
    (on "GetInstanceType" [VUUID testInstanceTypeID]
       [VInstanceType (Some {| it_Family := "standard"; it_Size := "medium" |}); VNil] 0 new_mock).

Definition got_instance : string * Arguments := call_of "GetInstance" [VUUID testInstanceID].
Definition got_type : string * Arguments := call_of "GetInstanceType" [VUUID testInstanceTypeID].

Definition addresses (l : list (string * string)) : list NodeAddress :=
  (λ '(type, address), {| na_Type := type; na_Address := address |}) <$> l.

Example TestNodeAddresses :
  (λ i, ran [testNode] (NodeAddresses ts_p testInstanceName) (instance_mock i)) <$>
    [testInstance testIPv4P "" [] ""; testInstance None (IP_String testIPv6P) [] "";
     testInstance testIPv4P (IP_String testIPv6P) [] ""] =
  (λ l, Some (Returned (Ok (addresses (("Hostname", testInstanceName) :: l))), [got_instance])) <$>
    [[("ExternalIP", testIPv4); ("InternalIP", testIPv4)];
     [("ExternalIP", testIPv6); ("InternalIP", testIPv6)];
     [("ExternalIP", testIPv4); ("InternalIP", testIPv4);
      ("ExternalIP", testIPv6); ("InternalIP", testIPv6)]].
Proof. vm_compute. reflexivity. Qed.

Definition testProviderID : string := providerPrefix +:+ testInstanceID.

Example TestNodeAddressesByProviderID_WithPrivateNetworkIDs :
  (λ ip, ran [testNode_provided] (NodeAddressesByProviderID ts_p testProviderID)
     (instance_mock (testInstance ip "" ["net"] ""))) <$> [testIPv4P; None] =
  (λ l, Some (Returned (Ok (addresses (("Hostname", testInstanceName) :: ("InternalIP", "10.0.0.1") :: l))),
              [got_instance])) <$> [[("ExternalIP", testIPv4)]; []].
Proof. vm_compute. reflexivity. Qed.

Example TestInstanceID :
  ran [testNode] (InstanceID ts_p testInstanceName) new_mock = Some (Returned (Ok testInstanceID), []).
Proof. vm_compute. reflexivity. Qed.

Example TestInstanceType :
  (λ p, ran [testNode] p (instance_mock (testInstance None "" [] ""))) <$>
    [InstanceType_ ts_p testInstanceName; InstanceTypeByProviderID ts_p testProviderID] =
  replicate 2 (Some (Returned (Ok (getInstanceTypeName "standard" "medium")), [got_instance; got_type])).
Proof. vm_compute. reflexivity. Qed.

Example TestInstanceExistsByProviderID :
  ran [testNode] (InstanceExistsByProviderID ts_p testProviderID)
    (instance_mock (testInstance None "" [] "")) = Some (Returned (Ok true), [got_instance]).
Proof. vm_compute. reflexivity. Qed.

Example TestInstanceShutdownByProviderID :
  ran [testNode] (InstanceShutdownByProviderID ts_p testProviderID)
    (instance_mock (testInstance None "" [] "stopped")) = Some (Returned (Ok true), [got_instance]).
Proof. vm_compute. reflexivity. Qed.

(** Overrides answer without the API. *)
Example TestNodeAddresses_overrideExternal :
  ran [] (NodeAddresses ts_p overrideNodeName) new_mock = Some (Returned (Ok overrideAddressList), []).
Proof. vm_compute. reflexivity. Qed.

Example TestInstanceType_overrideExternal :
  ran [] (InstanceType_ ts_p overrideNodeName) new_mock =
    Some (Returned (Ok "testInstanceTypeExternal"), []).
Proof. vm_compute. reflexivity. Qed.

(** ** instances_v2_test.go, zones_test.go *)

Definition node_of (providerID uuid name : string) (annotations : gmap string string) : Node := {|
  node_Name := name; node_ProviderID := providerID; node_SystemUUID := uuid;
  node_Annotations := annotations |}.

Definition test_node : Node := node_of testProviderID testInstanceID testInstanceName ∅.

(** A node before its initialization has no provider ID. *)
Example TestInstanceExists :
  (λ node, ran [] (InstanceExists ts_p node) (instance_mock (testInstance None "" [] ""))) <$>
    [test_node; node_of "" testInstanceID testInstanceName ∅] =
  replicate 2 (Some (Returned (Ok true), [got_instance])).
Proof. vm_compute. reflexivity. Qed.

Example TestInstanceShutdown :
  (λ state, ran [] (InstanceShutdown ts_p test_node) (instance_mock (testInstance None "" [] state))) <$>
    ["stopped"; "running"] =
  (λ b, Some (Returned (Ok b), [got_instance])) <$> [true; false].
Proof. vm_compute. reflexivity. Qed.

Example TestInstanceMetadata :
  ran [] (InstanceMetadata_ ts_p test_node) (instance_mock (testInstance testIPv4P "" [] "")) =
    Some (Returned (Ok {|
      meta_ProviderID := testProviderID;
      meta_InstanceType := getInstanceTypeName "standard" "medium";
      meta_NodeAddresses := addresses [("Hostname", testInstanceName); ("ExternalIP", testIPv4);
                                       ("InternalIP", testIPv4)];
      meta_Zone := testZone; meta_Region := testZone |}), [got_instance; got_type]).
Proof. vm_compute. reflexivity. Qed.

Example TestInstanceMetadata_withPrivateNetworkIDs :
  (λ r, match r with
        | Some (Returned (Ok metadata), _) => Some (meta_NodeAddresses metadata)
        | _ => None
        end)
    (ran [] (InstanceMetadata_ ts_p
               (node_of testProviderID testInstanceID testInstanceName
                  {[ AnnotationAlphaProvidedIPAddr := "10.0.0.1" ]}))
       (instance_mock (testInstance testIPv4P "" ["net"] ""))) =
  Some (addresses [("Hostname", testInstanceName); ("InternalIP", "10.0.0.1"); ("ExternalIP", testIPv4)]).
Proof. vm_compute. reflexivity. Qed.

Example TestInstanceExists_overrideExternal :
  ran [] (InstanceExists ts_p (node_of "" "" overrideNodeName ∅)) new_mock =
    Some (Returned (Ok true), []).
Proof. vm_compute. reflexivity. Qed.

Example TestInstanceShutdown_overrideExternal :
  ran [] (InstanceShutdown ts_p (node_of "" "" overrideNodeName ∅)) new_mock =
    Some (Returned (Err (Sentinel NotImplemented)), []).
Proof. vm_compute. reflexivity. Qed.

Example TestGetZone :
  ran [] GetZone new_mock = Some (Returned (Ok {| zone_Region := testZone |}), []).
Proof. vm_compute. reflexivity. Qed.

Example TestGetZoneByProviderID :
  ran [] (GetZoneByProviderID ts_p "") new_mock = Some (Returned (Ok {| zone_Region := testZone |}), []).
Proof. vm_compute. reflexivity. Qed.

Example TestGetZoneByNodeName :
  (λ name, ran [testNode] (GetZoneByNodeName ts_p name) new_mock) <$> [testInstanceName; overrideNodeName] =
  (λ region, Some (Returned (Ok {| zone_Region := region |}), [])) <$> [testZone; "testInstanceRegionExternal"].
Proof. vm_compute. reflexivity. Qed.

(** ** loadbalancer_test.go *)

Definition testNLBID : UUID := "5d4e8c2f".
Definition testNLBName : string := "lIuPDPHyXs".
Definition testNLBDescription : string := "AnFoHtYbvR".
Definition testServiceDescription : string := "qOwSfLbGze".
Definition testServiceName : string := "wXhDkNcVrM".
Definition testServiceID : UUID := "c1a70d45".
Definition testPoolID : UUID := "f8d0b1e6".
Definition testUID : string := "901a4773".
Definition portName : string := testUID +:+ "-80".

Definition testService (annotations : list (string * string)) (ports : list ServicePort) : Service := {|
  svc_Namespace := "default"; svc_Name := "test"; svc_UID := testUID;
  svc_Annotations := Some (list_to_map annotations); svc_Ports := ports;
  svc_ExternalTrafficPolicy := ""; svc_HealthCheckNodePort := 0 |}.

Definition tcp80 : ServicePort := {| sp_Protocol := "TCP"; sp_Port := 80; sp_NodePort := 32672 |}.

Definition testNLB (description : string) (ip : IP) (services : list LoadBalancerService) : LoadBalancer := {|
  lb_Description := description; lb_ID := testNLBID; lb_IP := ip; lb_Labels := None;
  lb_Name := testNLBName; lb_Services := services |}.

Definition default_healthcheck : Healthcheck := {|
  hc_Interval := 10; hc_Mode := "tcp"; hc_Port := 32672; hc_Retries := 1; hc_Timeout := 5;
  hc_TlsSNI := ""; hc_URI := "" |}.

Definition testPool : InstancePool := {| ip_ID := testPoolID; ip_others := [] |}.

(** An NLB service with the health check of the default annotations. *)
Definition serviceOf (id : UUID) (name description : string) : LoadBalancerService := {|
  lbs_Description := description; lbs_Healthcheck := Some default_healthcheck;
  lbs_HealthcheckStatus := []; lbs_ID := id; lbs_InstancePool := Some testPool; lbs_Name := name;
  lbs_Port := 80; lbs_Protocol := "tcp"; lbs_State := ""; lbs_Strategy := "round-robin";
  lbs_TargetPort := 32672 |}.

(** A service of which the API gives only the ID and the name. *)
Definition named_service : LoadBalancerService := {|
  lbs_Description := ""; lbs_Healthcheck := None; lbs_HealthcheckStatus := []; lbs_ID := testServiceID;
  lbs_InstancePool := None; lbs_Name := portName; lbs_Port := 0; lbs_Protocol := ""; lbs_State := "";
  lbs_Strategy := ""; lbs_TargetPort := 0 |}.

Definition operation (reference : option UUID) : Arguments :=
  [VOperation (Some {| op_ID := ""; op_Message := ""; op_Reason := ""; op_Reference := reference;
                       op_State := "" |}); VNil].

Definition nlb_reply (nlb : LoadBalancer) : Arguments := [VLoadBalancer (Some nlb); VNil].

Definition add_request_of (description : string) : AddServiceToLoadBalancerRequest :=
  add_request (serviceOf "" portName description) testPool.

Definition got_nlb : string * Arguments := call_of "GetLoadBalancer" [VUUID testNLBID].

Example Test_loadBalancer_isExternal :
  (λ annotations, isExternal (testService annotations [])) <$>
    [[(annotationLoadBalancerExternal, "true")]; [(annotationLoadBalancerExternal, "false")]; []] =
  [true; false; false].
Proof. vm_compute. reflexivity. Qed.

(** Later expectations are met when the first two calls have used up the others. *)
Definition create_mock : Mock :=
  foldl (λ m f, f m) new_mock [
    on "ListLoadBalancers" [] [VLoadBalancers (Some []); VNil] 0;
    on "GetInstance" [VUUID testInstanceID] [VInstance (Some {|
      inst_ID := testInstanceID; inst_InstanceType := None; inst_Ipv6Address := "";
      inst_Manager := Some {| mgr_ID := testPoolID; mgr_Type := "instance-pool" |}; inst_Name := "";
      inst_PrivateNetworks := []; inst_PublicIP := None; inst_State := "" |}); VNil] 0;
    on "CreateLoadBalancer" [Anything] (operation (Some testNLBID)) 0;
    on "GetLoadBalancer" [VUUID testNLBID] (nlb_reply (testNLB testNLBDescription testIPv4P [])) 2;
    on "AddServiceToLoadBalancer" [Anything; Anything] (operation (Some testNLBID)) 0;
    on "GetLoadBalancer" [VUUID testNLBID]
      (nlb_reply (testNLB testNLBDescription testIPv4P [named_service])) 0].

Example Test_loadBalancer_EnsureLoadBalancer_create :
  ran_svc (EnsureLoadBalancer ts_p (testService [(annotationLoadBalancerDescription, testNLBDescription);
      (annotationLoadBalancerName, testNLBName);
      (annotationLoadBalancerServiceDescription, testServiceDescription)] [tcp80]) [testNode])
    create_mock =
  Some (Returned (Ok [testIPv4]), [
    got_instance;
    call_of "CreateLoadBalancer" [VCreate {| clr_Description := testNLBDescription; clr_Labels := None;
                                             clr_Name := testNLBName |}];
    got_nlb; got_nlb;
    call_of "AddServiceToLoadBalancer" [VUUID testNLBID; VAdd (add_request_of testServiceDescription)];
    got_nlb]).
Proof. vm_compute. reflexivity. Qed.

(** An external NLB is looked for by its name, and not created. *)
Example Test_loadBalancer_EnsureLoadBalancer_create_external :
  match ran_svc (EnsureLoadBalancer ts_p (testService [(annotationLoadBalancerExternal, "true");
      (annotationLoadBalancerName, testNLBName)] [tcp80]) [testNode]) create_mock with
  | Some (Returned (Err _), calls) => calls = [call_of "ListLoadBalancers" []]
  | _ => False
  end.
Proof. vm_compute. reflexivity. Qed.

Example Test_loadBalancer_EnsureLoadBalancer_reuse :
  ran_svc (EnsureLoadBalancer ts_p (testService [(annotationLoadBalancerDescription, testNLBDescription);
      (annotationLoadBalancerID, testNLBID); (annotationLoadBalancerName, testNLBName)] [tcp80]) [testNode])
    create_mock =
  Some (Returned (Ok [testIPv4]), [got_instance; got_nlb; got_nlb;
    call_of "AddServiceToLoadBalancer" [VUUID testNLBID; VAdd (add_request_of "")]; got_nlb]).
Proof. vm_compute. reflexivity. Qed.

Definition deleted_mock : Mock :=
  foldl (λ m f, f m) new_mock [
    on "GetLoadBalancer" [VUUID testNLBID]
      (nlb_reply (testNLB "" None [serviceOf "" portName ""])) 0;
    on "DeleteLoadBalancerService" [Anything; Anything] (operation None) 0;
    on "DeleteLoadBalancer" [Anything] (operation None) 0].

Definition deleted_service : string * Arguments :=
  call_of "DeleteLoadBalancerService" [VUUID testNLBID; VUUID ""].

Example Test_loadBalancer_EnsureLoadBalancerDeleted :
  (λ more, ran [] (EnsureLoadBalancerDeleted ts_p
     (testService ((annotationLoadBalancerID, testNLBID) :: more) [tcp80])) deleted_mock) <$>
    [[]; [(annotationLoadBalancerExternal, "true")]] =
  (λ more, Some (Returned (Ok tt), [got_nlb; deleted_service] ++ more)) <$>
    [[call_of "DeleteLoadBalancer" [VUUID testNLBID]]; []].
Proof. vm_compute. reflexivity. Qed.

Definition get_mock : Mock :=
  on "GetLoadBalancer" [VUUID "lolnope"]
    [VLoadBalancer (Some (testNLB "" None [])); VError (Sentinel errLoadBalancerNotFound)] 0
    (on "GetLoadBalancer" [VUUID testNLBID] (nlb_reply (testNLB "" testIPv4P [])) 0 new_mock).

Example Test_loadBalancer_GetLoadBalancer :
  (λ id, ran [] (GetLoadBalancer ts_p (testService [(annotationLoadBalancerID, id)] [])) get_mock) <$>
    [testNLBID; "lolnope"] =
  [Some (Returned (Ok (Some [testIPv4], true)), [got_nlb]);
   Some (Returned (Ok (None, false)), [call_of "GetLoadBalancer" [VUUID "lolnope"]])].
Proof. vm_compute. reflexivity. Qed.

Example Test_loadBalancer_fetchLoadBalancer :
  (λ id, fst <$> ran [] (fetchLoadBalancer ts_p (testService [(annotationLoadBalancerID, id)] [])) get_mock) <$>
    [testNLBID; "lolnope"] =
  [Some (Returned (Ok (testNLB "" testIPv4P []))); Some (Returned (Err (Sentinel errLoadBalancerNotFound)))].
Proof. vm_compute. reflexivity. Qed.

Example Test_loadBalancer_GetLoadBalancerName :
  GetLoadBalancerName <$> [testService [(annotationLoadBalancerName, testNLBName)] []; testService [] []] =
  [testNLBName; "k8s-" +:+ testUID].
Proof. vm_compute. reflexivity. Qed.

(** Without annotations, and with others. *)
Example Test_loadBalancer_patchAnnotation :
  (λ annotations, ran []
     (patchAnnotation ts_p (with_Annotations (testService [] []) annotations)
        annotationLoadBalancerServiceInstancePoolID testPoolID) new_mock) <$>
    [None; Some {[ annotationLoadBalancerName := testNLBName ]}] =
  (λ annotations, Some (Returned (testService annotations [], Ok tt), [])) <$>
    [[(annotationLoadBalancerServiceInstancePoolID, testPoolID)];
     [(annotationLoadBalancerName, testNLBName); (annotationLoadBalancerServiceInstancePoolID, testPoolID)]].
Proof. vm_compute. reflexivity. Qed.

Definition update_mock (service : LoadBalancerService) : Mock :=
  foldl (λ m f, f m) new_mock [
    on "GetLoadBalancer" [VUUID testNLBID] (nlb_reply (testNLB "" testIPv4P [service])) 0;
    on "UpdateLoadBalancerService" [Anything; Anything; Anything] (operation None) 0;
    on "DeleteLoadBalancerService" [Anything; Anything] (operation None) 0].

Definition identified : list (string * string) :=
  [(annotationLoadBalancerID, testNLBID); (annotationLoadBalancerName, testNLBName);
   (annotationLoadBalancerServiceInstancePoolID, testPoolID)].

Example Test_loadBalancer_updateLoadBalancer_create :
  ran [] (updateLoadBalancer ts_p (testService identified [tcp80]))
    (foldl (λ m f, f m) new_mock [
       on "GetLoadBalancer" [VUUID testNLBID] (nlb_reply (testNLB "" None [])) 1;
       on "AddServiceToLoadBalancer" [Anything; Anything] (operation (Some testNLBID)) 0;
       on "GetLoadBalancer" [VUUID testNLBID] (nlb_reply (testNLB "" None [named_service])) 0]) =
  Some (Returned (Ok tt), [got_nlb;
    call_of "AddServiceToLoadBalancer" [VUUID testNLBID; VAdd (add_request_of "")]; got_nlb]).
Proof. vm_compute. reflexivity. Qed.

Example Test_loadBalancer_updateLoadBalancer_update :
  ran [] (updateLoadBalancer ts_p (testService (identified ++
      [(annotationLoadBalancerServiceName, testServiceName);
       (annotationLoadBalancerServiceDescription, testServiceDescription)]) [tcp80]))
    (update_mock (serviceOf testServiceID portName testServiceDescription)) =
  Some (Returned (Ok tt), [got_nlb;
    call_of "UpdateLoadBalancerService" [VUUID testNLBID; VUUID testServiceID;
      VUpdateService (update_request (serviceOf testServiceID testServiceName testServiceDescription))]]).
Proof. vm_compute. reflexivity. Qed.

Example Test_loadBalancer_updateLoadBalancer_delete :
  ran [] (updateLoadBalancer ts_p (testService identified [])) (update_mock (serviceOf "" portName "")) =
  Some (Returned (Ok tt), [got_nlb; deleted_service]).
Proof. vm_compute. reflexivity. Qed.

(** A test in which the mock is called in a way it does not expect fails. *)
Example unexpected_call :
  ran [] (updateLoadBalancer ts_p (testService identified [tcp80])) (update_mock (serviceOf "" "" "")) ≠ None ∧
  ran [] (updateLoadBalancer ts_p (testService identified [tcp80])) new_mock = None.
Proof. vm_compute. split; [discriminate|reflexivity]. Qed.

(** *** buildLoadBalancerFromAnnotations *)

Definition build_annotations : list (string * string) := identified ++ [
  (annotationLoadBalancerDescription, testNLBDescription);
  (annotationLoadBalancerServiceName, testServiceName);
  (annotationLoadBalancerServiceDescription, testServiceDescription);
  (annotationLoadBalancerServiceStrategy, "round-robin");
  (annotationLoadBalancerServiceHealthCheckMode, "http");
  (annotationLoadBalancerServiceHealthCheckURI, "/health");
  (annotationLoadBalancerServiceHealthCheckInterval, "10s");
  (annotationLoadBalancerServiceHealthCheckTimeout, "5s");
  (annotationLoadBalancerServiceHealthCheckRetries, "2")].

Definition built_service (name description protocol : string) (port target healthcheck : Z) :
    LoadBalancerService := {|
  lbs_Description := description;
  lbs_Healthcheck := Some {| hc_Interval := 10; hc_Mode := "http"; hc_Port := healthcheck; hc_Retries := 2;
                             hc_Timeout := 5; hc_TlsSNI := ""; hc_URI := "/health" |};
  lbs_HealthcheckStatus := []; lbs_ID := ""; lbs_InstancePool := Some testPool; lbs_Name := name;
  lbs_Port := port; lbs_Protocol := protocol; lbs_State := ""; lbs_Strategy := "round-robin";
  lbs_TargetPort := target |}.

Definition port_of (protocol : string) (port node : Z) : ServicePort :=
  {| sp_Protocol := protocol; sp_Port := port; sp_NodePort := node |}.

(** Several ports; one, whose service the annotations name; and a UDP port with
    a health check port. *)
Example Test_buildLoadBalancerFromAnnotations :
  buildLoadBalancerFromAnnotations <$> [
    testService build_annotations [port_of "TCP" 80 32058; port_of "TCP" 443 32059];
    testService build_annotations [port_of "TCP" 80 32058];
    testService ((annotationLoadBalancerServiceHealthCheckPort, "32123") :: build_annotations)
      [port_of "UDP" 80 32058]] =
  (λ services, Ok (testNLB testNLBDescription None services)) <$> [
    [built_service portName "" "tcp" 80 32058 32058;
     built_service (testUID +:+ "-443") "" "tcp" 443 32059 32059];
    [built_service testServiceName testServiceDescription "tcp" 80 32058 32058];
    [built_service testServiceName testServiceDescription "udp" 80 32058 32123]].
Proof. vm_compute. reflexivity. Qed.

Definition described (name description : string) : LoadBalancer := {|
  lb_Description := description; lb_ID := ""; lb_IP := None; lb_Labels := None; lb_Name := name;
  lb_Services := [] |}.

Example Test_isLoadBalancerUpdated :
  (λ '(name, description), isLoadBalancerUpdated (described name description)
     (described testNLBName testNLBDescription)) <$>
    [(testNLBName, testNLBDescription); (testNLBName, ""); ("", testNLBDescription)] =
  [false; true; true].
Proof. vm_compute. reflexivity. Qed.

Example Test_isLoadBalancerServiceUpdated :
  (λ description, isLoadBalancerServiceUpdated (serviceOf "" testServiceName description)
     (serviceOf "" testServiceName testServiceDescription)) <$> [testServiceDescription; ""] = [false; true].
Proof. vm_compute. reflexivity. Qed.

Example Test_getAnnotation :
  let service := testService [(annotationLoadBalancerID, testNLBID)] [] in
  [getAnnotation service "lolnope" "fallback"; getAnnotation service annotationLoadBalancerID ""] =
  ["fallback"; testNLBID].
Proof. vm_compute. reflexivity. Qed.

(** ** sks_agent_runner_node_csr_validation_test.go *)

Definition testCSR (groups : list string) : CertificateSigningRequest := {|
  csr_Name := "csr-abcde"; csr_Request := testInstanceName; csr_Groups := groups; csr_Conditions := [] |}.

Definition system_groups : list string := ["system:authenticated"; "system:nodes"].

Example Test_sksAgentRunnerNodeCSRValidation_hasRequiredGroups :
  hasRequiredGroups <$> [testCSR []; testCSR system_groups] = [false; true].
Proof. vm_compute. reflexivity. Qed.

(** The request text is the name it asks for, at the addresses of the instance. *)
#[local] Instance test_x509 : X509 := {|
  pem_Decode text := Some ("CERTIFICATE REQUEST", text);
  x509_ParseCertificateRequest text :=
    Ok {| cr_DNSNames := [text]; cr_IPAddresses := [testIPv4P; testIPv6P] |};
|}.

Example Test_sksAgentRunnerNodeCSRValidation_run :
  match tested (clientset []) host
      (agent_run ts_p Connecting [WatchReply (Ok tt);
         WatchEvent {| ev_Type := "ADDED"; ev_Object := ObjectCSR (testCSR system_groups) |}])
      (on "ListInstances" [Anything] [VInstances (Some [{|
         li_Ipv6Address := IP_String testIPv6P; li_Name := testInstanceName; li_PrivateNetworks := [];
         li_PublicIP := testIPv4P |}]); VNil] 0 new_mock) with
  | Some (t, o, m) =>
      o = Returned Watching ∧ Calls m = [call_of "ListInstances" [VListInstancesOpts]] ∧
      match last t with
      | Some (Effects.Call (KubeCall (KubeUpdateApproval name csr)) _) =>
          name = "csr-abcde" ∧ csr = approved (testCSR system_groups)
      | _ => False
      end
  | None => False
  end.
Proof. vm_compute. split_and!; reflexivity. Qed.

(** ** What the tests show *)

Lemma tested_executes_witness :
  match tested (clientset []) host (EnsureLoadBalancerDeleted ts_p
          (testService [(annotationLoadBalancerID, testNLBID)] [tcp80])) deleted_mock with
  | Some (t, o, m) =>
      exec (EnsureLoadBalancerDeleted ts_p (testService [(annotationLoadBalancerID, testNLBID)] [tcp80])) t o ∧
      Calls m = omap recorded t
  | None => False
  end.
Proof.
  destruct (tested _ _ _ _) as [[[t o] m]|] eqn:Ht; [|vm_compute in Ht; discriminate].
  destruct (tested_executes (clientset []) host _ _ _ _ _ Ht) as (He & Hc & _).
  split; [exact He|exact Hc].
Defined.
